(** * SimWorld simulation core: a shallow embedding and its properties

    The TypeScript simulation core (pathfinding, terrain valuation, economic
    engine, construction scheduler) is embedded function by function.

    Conventions of the embedding.
    - A JavaScript [number] is an exact rational ([Q]); [Infinity] is written
      out where the source stores it ([ext]).  Rounding error, NaN and
      overflow of IEEE doubles are outside the model.
    - [Math.sqrt], [Math.exp] and [Math.log] have no rational counterpart and
      are Section variables; every result holds for any choice of them.
    - [Math.random()] and [Date.now()] are oracles: the n-th call returns the
      n-th element of a sequence, and the position is part of the state.
    - A JavaScript [Map] whose iteration order is observable is an
      association list in insertion order ([jget], [jset]); a [Map] used only
      through get/set/delete is a [gmap].
    - An object that is mutated through several references lives in a store
      and is named by its address. *)

From Stdlib Require Import ZArith QArith Qminmax Qround Qabs Lia Lqa List Ascii String.
From stdpp Require Import gmap strings list.
Import ListNotations.

(** ** JavaScript numbers and built-ins *)

Module Js.
Open Scope Q_scope.

(** A number that may be [Infinity]. *)
Inductive ext : Type :=
| Fin (q : Q)
| PInf.

(** [a < q] for a possibly infinite [a]. *)
Definition ext_ltb (a : ext) (q : Q) : bool :=
  match a with
  | Fin v => if Qlt_le_dec v q then true else false
  | PInf => false
  end.

Definition Qltb (a b : Q) : bool := if Qlt_le_dec a b then true else false.
Definition Qleb (a b : Q) : bool := Qle_bool a b.
Definition Qgtb (a b : Q) : bool := Qltb b a.
Definition Qgeb (a b : Q) : bool := Qleb b a.

(** [Math.max], [Math.min], [Math.abs], [Math.floor], [Math.ceil]. *)
Definition Math_max (a b : Q) : Q := Qmax a b.
Definition Math_min (a b : Q) : Q := Qmin a b.
Definition Math_abs (a : Q) : Q := Qabs a.
Definition Math_floor (a : Q) : Z := Qfloor a.
Definition Math_ceil (a : Q) : Z := Qceiling a.

(** [Math.round] rounds to the nearest integer, ties towards +Infinity. *)
Definition Math_round (a : Q) : Z := Qfloor (a + (1 # 2)).

(** [a || b] on numbers: [b] replaces a falsy (zero) [a]. *)
Definition num_or (a b : Q) : Q := if Qeq_bool a 0 then b else a.

(** [t[key] || b] for a table lookup that may be [undefined]. *)
Definition opt_or (a : option Q) (b : Q) : Q :=
  match a with Some v => num_or v b | None => b end.

Definition ofZ (n : Z) : Q := inject_Z n.
Definition ofNat (n : nat) : Q := inject_Z (Z.of_nat n).

(** [THREE.Vector3]. *)
Record Vector3 : Type := mkV3 { vx : Q; vy : Q; vz : Q }.

(** The oracle behind [Date.now()] and [Math.random()]. *)
Record Oracle : Type := mkOracle {
  now_reads : nat -> Q;
  now_pos : nat;
  rand_draws : nat -> Q;
  rand_pos : nat
}.

Definition Date_now (o : Oracle) : Q * Oracle :=
  (now_reads o (now_pos o),
   mkOracle (now_reads o) (S (now_pos o)) (rand_draws o) (rand_pos o)).

Definition Math_random (o : Oracle) : Q * Oracle :=
  (rand_draws o (rand_pos o),
   mkOracle (now_reads o) (now_pos o) (rand_draws o) (S (rand_pos o))).

(** [Math.random()] returns a number in [0, 1). *)
Definition random_ok (o : Oracle) : Prop :=
  forall n, 0 <= rand_draws o n /\ rand_draws o n < 1.

(** What a call produces: a value, an exception ([TypeError] on reading a
    property of [undefined]), or a loop cut off by the fuel of the model. *)
Inductive result (A : Type) : Type :=
| Ok (a : A)
| Throw
| OutOfFuel.
Arguments Ok {A} a.
Arguments Throw {A}.
Arguments OutOfFuel {A}.

Definition bind {A B : Type} (m : result A) (k : A -> result B) : result B :=
  match m with
  | Ok a => k a
  | Throw => Throw
  | OutOfFuel => OutOfFuel
  end.

Notation "'let*' x := m 'in' k" := (bind m (fun x => k))
  (at level 10, x pattern, k at level 200).

(** [s.includes(sub)]. *)
Definition includes (s sub : string) : bool :=
  match String.index 0 sub s with Some _ => true | None => false end.

(** The sum of a list of numbers. *)
Definition Qsum (l : list Q) : Q := fold_right Qplus 0 l.

(** Crude stand-ins for the three real functions, for closed examples. *)
Definition approx_sqrt (q : Q) : Q := inject_Z (Z.sqrt (Qfloor q)).
Definition approx_exp (q : Q) : Q := Math_max 0 (1 + q).
Definition approx_log (q : Q) : Q := q - 1.

(** A [Map] in insertion order. *)
Section JsMap.
Context {K V : Type} `{EqDecision K}.

Fixpoint jget (k : K) (m : list (K * V)) : option V :=
  match m with
  | [] => None
  | (k', v) :: r => if decide (k = k') then Some v else jget k r
  end.

Fixpoint jset (k : K) (v : V) (m : list (K * V)) : list (K * V) :=
  match m with
  | [] => [(k, v)]
  | (k', v') :: r =>
      if decide (k = k') then (k', v) :: r else (k', v') :: jset k v r
  end.

Definition jhas (k : K) (m : list (K * V)) : bool :=
  match jget k m with Some _ => true | None => false end.

End JsMap.

(** A [Set] in insertion order. *)
Definition sadd {K : Type} `{EqDecision K} (k : K) (s : list K) : list K :=
  if decide (k ∈ s) then s else s ++ [k].

Section JsMapFacts.
Context {K V : Type} `{EqDecision K}.

Lemma jget_jset_eq (k : K) (v : V) (m : list (K * V)) :
  jget k (jset k v m) = Some v.
Proof.
  induction m as [| [k' v'] r IH]; simpl.
  - destruct (decide (k = k)); congruence.
  - destruct (decide (k = k')) as [E | E]; simpl.
    + destruct (decide (k = k')); congruence.
    + destruct (decide (k = k')); [congruence | exact IH].
Qed.

Lemma jget_jset_ne (k k' : K) (v : V) (m : list (K * V)) :
  k <> k' -> jget k' (jset k v m) = jget k' m.
Proof.
  intros N. induction m as [| [k0 v0] r IH]; simpl.
  - destruct (decide (k' = k)); congruence.
  - destruct (decide (k = k0)) as [E | E]; simpl.
    + subst k0. destruct (decide (k' = k)); congruence.
    + destruct (decide (k' = k0)); [reflexivity | exact IH].
Qed.

Lemma jset_keys_present (k : K) (v w : V) (m : list (K * V)) :
  jget k m = Some w -> map fst (jset k v m) = map fst m.
Proof.
  induction m as [| [k0 v0] r IH]; simpl; [discriminate|].
  destruct (decide (k = k0)) as [E | E]; simpl; intros G.
  - reflexivity.
  - f_equal. apply IH, G.
Qed.

Lemma jget_Some_in (k : K) (v : V) (m : list (K * V)) :
  jget k m = Some v -> In (k, v) m.
Proof.
  induction m as [| [k0 v0] r IH]; simpl; [discriminate|].
  destruct (decide (k = k0)) as [E | E]; intros G.
  - left. congruence.
  - right. apply IH, G.
Qed.

Lemma jget_None_notin (k : K) (m : list (K * V)) :
  jget k m = None <-> ~ In k (map fst m).
Proof.
  induction m as [| [k0 v0] r IH]; simpl.
  - split; [intros _ F; exact F | reflexivity].
  - destruct (decide (k = k0)) as [E | E]; split; intros G.
    + discriminate.
    + exfalso. apply G. left. congruence.
    + intros [F | F]; [congruence | apply IH in G; exact (G F)].
    + apply IH. intros F. apply G. right. exact F.
Qed.

Lemma jget_in_nodup (k : K) (v : V) (m : list (K * V)) :
  List.NoDup (map fst m) -> In (k, v) m -> jget k m = Some v.
Proof.
  induction m as [| [k0 v0] r IH]; simpl; intros ND I; [contradiction|].
  inversion ND as [| ? ? NI ND']; subst.
  destruct I as [I | I].
  - inversion I; subst. destruct (decide (k = k)); congruence.
  - destruct (decide (k = k0)) as [E | E].
    + subst k0. exfalso. apply NI. apply (in_map fst) in I. exact I.
    + apply IH; assumption.
Qed.

End JsMapFacts.

Lemma Qltb_true (a b : Q) : Qltb a b = true <-> a < b.
Proof.
  unfold Qltb. destruct (Qlt_le_dec a b) as [H | H]; split; intros G;
    try reflexivity; try assumption; try discriminate.
  exfalso. apply (Qle_not_lt _ _ H G).
Qed.

Lemma Qltb_false (a b : Q) : Qltb a b = false <-> b <= a.
Proof.
  unfold Qltb. destruct (Qlt_le_dec a b) as [H | H]; split; intros G;
    try reflexivity; try assumption; try discriminate.
  exfalso. apply (Qle_not_lt _ _ G H).
Qed.

Lemma Qleb_true (a b : Q) : Qleb a b = true <-> a <= b.
Proof. unfold Qleb. apply Qle_bool_iff. Qed.

Lemma Qleb_false (a b : Q) : Qleb a b = false <-> b < a.
Proof.
  unfold Qleb. split; intros G.
  - apply Qnot_le_lt. intros L. apply Qle_bool_iff in L. congruence.
  - destruct (Qle_bool a b) eqn:E; [|reflexivity].
    apply Qle_bool_iff in E. exfalso. apply (Qle_not_lt _ _ E G).
Qed.

Lemma Math_max_lb_l (a b : Q) : a <= Math_max a b.
Proof. apply Q.le_max_l. Qed.

Lemma Math_max_lb_r (a b : Q) : b <= Math_max a b.
Proof. apply Q.le_max_r. Qed.

Lemma Math_min_ub_l (a b : Q) : Math_min a b <= a.
Proof. apply Q.le_min_l. Qed.

Lemma Math_min_ub_r (a b : Q) : Math_min a b <= b.
Proof. apply Q.le_min_r. Qed.

Lemma Math_max_lub (a b c : Q) : a <= c -> b <= c -> Math_max a b <= c.
Proof. apply Q.max_lub. Qed.

Lemma Math_min_glb (a b c : Q) : c <= a -> c <= b -> c <= Math_min a b.
Proof. apply Q.min_glb. Qed.

Lemma Qsum_nonneg (l : list Q) : Forall (fun v => 0 <= v) l -> 0 <= Qsum l.
Proof.
  induction 1 as [| v l Hv _ IH]; simpl; lra.
Qed.

Lemma Qsum_ge_elem (l : list Q) (v : Q) :
  Forall (fun w => 0 <= w) l -> In v l -> v <= Qsum l.
Proof.
  induction 1 as [| w l Hw Hl IH]; simpl; intros I; [contradiction|].
  pose proof (Qsum_nonneg l Hl). destruct I as [-> | I]; [lra|].
  specialize (IH I). lra.
Qed.

Lemma ofNat_nonneg (n : nat) : 0 <= ofNat n.
Proof.
  unfold ofNat. change 0 with (inject_Z 0). rewrite <- Zle_Qle. lia.
Qed.

Lemma ofNat_pos (n : nat) : (0 < n)%nat -> 0 < ofNat n.
Proof.
  intros H. unfold ofNat. change 0 with (inject_Z 0). rewrite <- Zlt_Qlt. lia.
Qed.

Lemma fold_left_sum {A : Type} (f : A -> Q) (l : list A) :
  forall a, fold_left (fun sum x => sum + f x) l a == a + Qsum (map f l).
Proof.
  induction l as [| x l IH]; intros a; simpl.
  - lra.
  - rewrite IH. lra.
Qed.

(** [Math.max(0, Math.min(1, v))] lies in [0, 1]. *)
Lemma clamp_unit (v : Q) :
  0 <= Math_max 0 (Math_min 1 v) /\ Math_max 0 (Math_min 1 v) <= 1.
Proof.
  split.
  - apply Math_max_lb_l.
  - apply Math_max_lub; [lra | apply Math_min_ub_l].
Qed.

End Js.

(** ** Shared data types (types/buildings, types/agents) *)

Module Types.
Import Js.
Open Scope Q_scope.

Inductive ZoneType : Type := residential | commercial | industrial | office.
Inductive WealthLevel : Type := low | medium | high.
Inductive BuildingStatus : Type :=
  planned | constructing | operational | abandoned | demolishing.
Inductive AgentType : Type := citizen | vehicle | resource | service.
Inductive EducationLevel : Type :=
  edu_none | edu_primary | edu_secondary | edu_university | edu_advanced.
Inductive EmploymentStatus : Type := unemployed | employed | student | retired.

#[global] Instance ZoneType_eq_dec : EqDecision ZoneType.
Proof. solve_decision. Defined.
#[global] Instance WealthLevel_eq_dec : EqDecision WealthLevel.
Proof. solve_decision. Defined.
#[global] Instance BuildingStatus_eq_dec : EqDecision BuildingStatus.
Proof. solve_decision. Defined.
#[global] Instance AgentType_eq_dec : EqDecision AgentType.
Proof. solve_decision. Defined.
#[global] Instance EmploymentStatus_eq_dec : EqDecision EmploymentStatus.
Proof. solve_decision. Defined.

(** The fields of [Building] that the simulation core reads or writes. *)
Record Building : Type := mkBuilding {
  b_id : string;
  b_position : Vector3;
  zoneType : option ZoneType;
  wealthLevel : WealthLevel;
  level : Q;
  status : BuildingStatus;
  constructionProgress : Q;
  capacity : Q;
  property_value : Q
}.

(** The fields of [Agent] that the simulation core reads. *)
Record Agent : Type := mkAgent {
  a_type : AgentType;
  a_position : Vector3;
  homeId : option string;
  workplaceId : option string;
  employment : EmploymentStatus;
  education : EducationLevel
}.

(** [v.distanceTo(w)], over a given square root. *)
Definition distanceTo (sqrt : Q -> Q) (v w : Vector3) : Q :=
  sqrt ((vx v - vx w) * (vx v - vx w) + (vy v - vy w) * (vy v - vy w)
        + (vz v - vz w) * (vz v - vz w)).

(** [new Vector3().lerpVectors(v1, v2, alpha)]. *)
Definition lerpVectors (v1 v2 : Vector3) (alpha : Q) : Vector3 :=
  mkV3 (vx v1 + (vx v2 - vx v1) * alpha)
       (vy v1 + (vy v2 - vy v1) * alpha)
       (vz v1 + (vz v2 - vz v1) * alpha).

End Types.

(** ** TerrainSystem (systems/terrain) *)

Module Terrain.
Import Js Types.
Open Scope Q_scope.

(** TERRAIN_CONFIG of utils/gameConstants. *)
Definition WATER_PROXIMITY_BONUS : Q := 3 # 10.
Definition ELEVATION_FACTOR : Q := 2 # 10.
Definition POLLUTION_PENALTY : Q := 5 # 10.
Definition NOISE_PENALTY : Q := 3 # 10.
Definition SCENIC_BONUS : Q := 4 # 10.

Inductive Restriction : Type := no_building | no_industrial | low_density_only.

Record TerrainCell : Type := mkCell {
  cell_x : Q;
  cell_z : Q;
  elevation : Q;
  baseValue : Q;
  currentValue : Q;
  pollution : Q;
  noise : Q;
  traffic : Q;
  waterDistance : ext;
  scenicValue : Q;
  soilQuality : Q;
  developmentCost : Q;
  isWater : bool;
  isProtected : bool;
  zoneRestrictions : list Restriction;
  lastUpdated : Q
}.

Inductive FactorType : Type :=
  f_pollution | f_noise | f_traffic | f_scenic | f_water.
Inductive FalloffType : Type := linear | exponential | logarithmic.

Record EnvironmentalFactor : Type := mkFactor {
  f_type : FactorType;
  source : Vector3;
  intensity : Q;
  radius : Q;
  falloffType : FalloffType
}.

Record ProtectedArea : Type := mkArea {
  center : Vector3;
  area_radius : Q
}.

(** The key of a cell in [terrainCells].  The source renders the pair
    [Math.round(x / cellSize) * cellSize], [Math.round(z / cellSize) * cellSize]
    as a string; for a fixed non-zero [cellSize] that string is determined by,
    and determines, the two rounded integers, which are the key here. *)
Definition Key : Type := (Z * Z)%type.

Record TerrainSystem : Type := mkTerrain {
  terrainCells : list (Key * TerrainCell);
  environmentalFactors : list EnvironmentalFactor;
  waterBodies : list (list Vector3);
  protectedAreas : list ProtectedArea;
  worldSize : Q;
  cellSize : Q;
  updateQueue : list Key;
  lastGlobalUpdate : Q;
  oracle : Oracle
}.

Definition set_cells (s : TerrainSystem) (cs : list (Key * TerrainCell))
  : TerrainSystem :=
  mkTerrain cs (environmentalFactors s) (waterBodies s) (protectedAreas s)
    (worldSize s) (cellSize s) (updateQueue s) (lastGlobalUpdate s) (oracle s).

Definition set_factors (s : TerrainSystem) (fs : list EnvironmentalFactor)
  : TerrainSystem :=
  mkTerrain (terrainCells s) fs (waterBodies s) (protectedAreas s)
    (worldSize s) (cellSize s) (updateQueue s) (lastGlobalUpdate s) (oracle s).

Definition set_queue (s : TerrainSystem) (q : list Key) : TerrainSystem :=
  mkTerrain (terrainCells s) (environmentalFactors s) (waterBodies s)
    (protectedAreas s) (worldSize s) (cellSize s) q (lastGlobalUpdate s)
    (oracle s).

Definition set_lastGlobalUpdate (s : TerrainSystem) (t : Q) : TerrainSystem :=
  mkTerrain (terrainCells s) (environmentalFactors s) (waterBodies s)
    (protectedAreas s) (worldSize s) (cellSize s) (updateQueue s) t (oracle s).

Definition set_oracle (s : TerrainSystem) (o : Oracle) : TerrainSystem :=
  mkTerrain (terrainCells s) (environmentalFactors s) (waterBodies s)
    (protectedAreas s) (worldSize s) (cellSize s) (updateQueue s)
    (lastGlobalUpdate s) o.

Definition set_pollution (c : TerrainCell) (p : Q) : TerrainCell :=
  mkCell (cell_x c) (cell_z c) (elevation c) (baseValue c) (currentValue c) p
    (noise c) (traffic c) (waterDistance c) (scenicValue c) (soilQuality c)
    (developmentCost c) (isWater c) (isProtected c) (zoneRestrictions c)
    (lastUpdated c).

(** [getCellKey]. *)
Definition getCellKey (cs : Q) (x z : Q) : Key :=
  (Math_round (x / cs), Math_round (z / cs)).

(** [calculateBaseDevelopmentCost]. *)
Definition calculateBaseDevelopmentCost (elev soil : Q) : Q :=
  let cost := 1000 in
  let cost := if Qgtb elev 15 then cost * (1 + (elev - 15) * (1 # 10)) else cost in
  cost * (2 - soil).

(** [calculateDevelopmentCost]. *)
Definition calculateDevelopmentCost (c : TerrainCell) : Q :=
  let cost := calculateBaseDevelopmentCost (elevation c) (soilQuality c) in
  let cost := if Qgtb (pollution c) (1 # 10) then cost * (1 + pollution c) else cost in
  let cost := if ext_ltb (waterDistance c) 10 then cost * (95 # 100) else cost in
  if isProtected c then cost * (15 # 10) else cost.

Section WithMath.
Variable Math_sqrt : Q -> Q.
Variable Math_exp : Q -> Q.
Variable Math_log : Q -> Q.

(** [calculateFalloff].  [distance / rad] is the quotient of the source
    whenever [rad] is not 0.  For a radius of 0 the only call is the one for
    a factor at the cell's own position, where the source divides 0 by 0;
    that quotient is not a number and has no counterpart here, so what is
    stated about recomputed values is stated for factors whose radius is
    not 0. *)
Definition calculateFalloff (distance rad : Q) (ty : FalloffType) : Q :=
  let normalizedDistance := distance / rad in
  match ty with
  | linear => Math_max 0 (1 - normalizedDistance)
  | exponential => Math_exp (- normalizedDistance * 3)
  | logarithmic =>
      Math_max 0 (1 - Math_log (1 + normalizedDistance * 2) / Math_log 3)
  end.

(** The three accumulators of the [environmentalFactors.forEach] loop of
    [calculateCellValue]. *)
Definition factor_step (c : TerrainCell) (acc : Q * Q * Q)
  (f : EnvironmentalFactor) : Q * Q * Q :=
  let '(pol, noi, sce) := acc in
  let distance :=
    Math_sqrt ((cell_x c - vx (source f)) ^ 2 + (cell_z c - vz (source f)) ^ 2) in
  if Qleb distance (radius f) then
    let falloff := calculateFalloff distance (radius f) (falloffType f) in
    let impact := intensity f * falloff in
    match f_type f with
    | f_pollution => (pol + impact, noi, sce)
    | f_noise => (pol, noi + impact, sce)
    | f_scenic => (pol, noi, sce + impact)
    | _ => (pol, noi, sce)
    end
  else (pol, noi, sce).

(** [calculateCellValue]; [now] is the value [Date.now()] returns. *)
Definition calculateCellValue (factors : list EnvironmentalFactor) (now : Q)
  (c : TerrainCell) : TerrainCell :=
  let value := baseValue c in
  let value :=
    match waterDistance c with
    | Fin wd =>
        if Qltb wd 50 && negb (isWater c) then
          value + Math_max 0 ((50 - wd) / 50) * WATER_PROXIMITY_BONUS
        else value
    | PInf => value
    end in
  let optimalElevation := 10 in
  let elevationDifference := Math_abs (elevation c - optimalElevation) in
  let elevationFactor :=
    Math_max 0 (1 - elevationDifference / optimalElevation) * ELEVATION_FACTOR in
  let value := value + elevationFactor in
  let '(pol, noi, sce) := fold_left (factor_step c) factors (0, 0, 0) in
  let value := value - pol * POLLUTION_PENALTY in
  let value := value - noi * NOISE_PENALTY in
  let value := value + sce * SCENIC_BONUS in
  let value := value + (soilQuality c - (1 # 2)) * (2 # 10) in
  let value := if isProtected c then value + (15 # 100) else value in
  let c1 :=
    mkCell (cell_x c) (cell_z c) (elevation c) (baseValue c)
      (Math_max 0 (Math_min 1 value)) pol noi (traffic c) (waterDistance c) sce
      (soilQuality c) (developmentCost c) (isWater c) (isProtected c)
      (zoneRestrictions c) now in
  mkCell (cell_x c1) (cell_z c1) (elevation c1) (baseValue c1) (currentValue c1)
    (pollution c1) (noise c1) (traffic c1) (waterDistance c1) (scenicValue c1)
    (soilQuality c1) (calculateDevelopmentCost c1) (isWater c1) (isProtected c1)
    (zoneRestrictions c1) (lastUpdated c1).

(** [terrainCells.forEach] of [updateAllTerrainValues]: every cell is
    recomputed and its key queued. *)
Fixpoint updateAll_loop (factors : list EnvironmentalFactor)
  (cells : list (Key * TerrainCell)) (o : Oracle) (queue : list Key)
  : list (Key * TerrainCell) * Oracle * list Key :=
  match cells with
  | [] => ([], o, queue)
  | (k, c) :: rest =>
      let (now, o1) := Date_now o in
      let c' := calculateCellValue factors now c in
      let '(rest', o2, q2) := updateAll_loop factors rest o1 (sadd k queue) in
      ((k, c') :: rest', o2, q2)
  end.

Definition updateAllTerrainValues (s : TerrainSystem) : TerrainSystem :=
  let '(cells, o, q) :=
    updateAll_loop (environmentalFactors s) (terrainCells s) (oracle s)
      (updateQueue s) in
  set_oracle (set_queue (set_cells s cells) q) o.

(** [updateQueue.forEach] of [updateQueuedCells]: the cell stored under each
    queued key, when there is one, is recomputed in place. *)
Fixpoint updateQueued_loop (factors : list EnvironmentalFactor)
  (queue : list Key) (cells : list (Key * TerrainCell)) (o : Oracle)
  : list (Key * TerrainCell) * Oracle :=
  match queue with
  | [] => (cells, o)
  | k :: rest =>
      match jget k cells with
      | Some c =>
          let (now, o1) := Date_now o in
          updateQueued_loop factors rest
            (jset k (calculateCellValue factors now c) cells) o1
      | None => updateQueued_loop factors rest cells o
      end
  end.

Definition updateQueuedCells (s : TerrainSystem) : TerrainSystem :=
  let '(cells, o) :=
    updateQueued_loop (environmentalFactors s) (updateQueue s) (terrainCells s)
      (oracle s) in
  set_oracle (set_cells s cells) o.

(** The factors one operational building emits in
    [updateEnvironmentalFactors(buildings, agents)]. *)
Definition buildingFactors (b : Building) : list EnvironmentalFactor :=
  if decide (status b = operational) then
    let '(pollutionIntensity, noiseIntensity, rad) :=
      match zoneType b with
      | Some industrial => (8 # 10, 6 # 10, 25)
      | Some commercial => (2 # 10, 4 # 10, 15)
      | Some office => (1 # 10, 2 # 10, 10)
      | Some residential => (5 # 100, 1 # 10, 8)
      | None => (0, 0, 10)
      end in
    (if Qgtb pollutionIntensity 0 then
       [mkFactor f_pollution (b_position b)
          (pollutionIntensity * num_or (level b) 1) rad exponential]
     else [])
    ++
    (if Qgtb noiseIntensity 0 then
       [mkFactor f_noise (b_position b)
          (noiseIntensity * num_or (level b) 1) (rad * (8 # 10)) logarithmic]
     else [])
  else [].

(** [updateEnvironmentalFactors(buildings, agents)], the first method of that
    name in the class; the call in [updateTerrainValues] passes these
    arguments and is read as a call of it.  The second method of that name,
    which takes [deltaTime], is [updateEnvironment] below. *)
Definition updateEnvironmentalFactors (buildings : list Building)
  (s : TerrainSystem) : TerrainSystem :=
  set_factors s
    (concat (map buildingFactors buildings)
     ++ concat (map (map (fun p => mkFactor f_scenic p (6 # 10) 20 linear))
                  (waterBodies s))
     ++ map (fun a => mkFactor f_scenic (center a) (8 # 10)
                        (area_radius a * (15 # 10)) linear)
          (protectedAreas s)).

(** [updateTerrainValues]: a full pass when more than 30 s have passed since
    the last one, the queued cells otherwise; the queue is cleared. *)
Definition updateTerrainValues (buildings : list Building) (s : TerrainSystem)
  : TerrainSystem :=
  let (currentTime, o1) := Date_now (oracle s) in
  let s := set_oracle s o1 in
  let s := updateEnvironmentalFactors buildings s in
  let s :=
    if Qgtb (currentTime - lastGlobalUpdate s) 30000 then
      set_lastGlobalUpdate (updateAllTerrainValues s) currentTime
    else updateQueuedCells s in
  set_queue s [].

End WithMath.

(** [getNeighborCells]: the cells stored under the keys of the four axis
    offsets, in the order left, right, down, up; a missing cell is skipped. *)
Definition neighborOffsets (cs : Q) : list (Q * Q) :=
  [(- cs, 0); (cs, 0); (0, - cs); (0, cs)].

Definition getNeighborCells (cs : Q) (cells : list (Key * TerrainCell))
  (x z : Q) : list TerrainCell :=
  omap (fun off : Q * Q =>
          jget (getCellKey cs (x + fst off) (z + snd off)) cells)
       (neighborOffsets cs).

(** The first loop of [spreadPollution]: what every cell above the threshold
    hands to its neighbours, accumulated per neighbour key in
    [newPollutionMap]. *)
Definition donate (cs : Q) (spreadAmount : Q) (npm : list (Key * Q))
  (n : TerrainCell) : list (Key * Q) :=
  let neighborKey := getCellKey cs (cell_x n) (cell_z n) in
  let currentSpread :=
    match jget neighborKey npm with Some v => num_or v 0 | None => 0 end in
  jset neighborKey (currentSpread + spreadAmount) npm.

Definition spread_step (cs : Q) (all : list (Key * TerrainCell))
  (spreadRate : Q) (npm : list (Key * Q)) (e : Key * TerrainCell)
  : list (Key * Q) :=
  let c := snd e in
  if Qgtb (pollution c) (5 # 100) then
    let neighbors := getNeighborCells cs all (cell_x c) (cell_z c) in
    let spreadAmount :=
      pollution c * spreadRate / ofNat (List.length neighbors) in
    fold_left (donate cs spreadAmount) neighbors npm
  else npm.

Definition newPollutionMap (s : TerrainSystem) (deltaTime : Q)
  : list (Key * Q) :=
  fold_left (spread_step (cellSize s) (terrainCells s) (deltaTime * (1 # 10)))
    (terrainCells s) [].

(** The second loop of [spreadPollution]: the accumulated amount is added to
    every cell that is not water, capped at 1, and the cell is queued. *)
Definition apply_step (acc : list (Key * TerrainCell) * list Key)
  (e : Key * Q) : list (Key * TerrainCell) * list Key :=
  let (cells, queue) := acc in
  match jget (fst e) cells with
  | Some c =>
      if negb (isWater c) then
        (jset (fst e) (set_pollution c (Math_min 1 (pollution c + snd e))) cells,
         sadd (fst e) queue)
      else (cells, queue)
  | None => (cells, queue)
  end.

Definition spreadPollution (deltaTime : Q) (s : TerrainSystem) : TerrainSystem :=
  let '(cells, queue) :=
    fold_left apply_step (newPollutionMap s deltaTime)
      (terrainCells s, updateQueue s) in
  set_queue (set_cells s cells) queue.

(** *** Recomputed values stay in the unit interval *)

Section ValueBounds.
Variable Math_sqrt : Q -> Q.
Variable Math_exp : Q -> Q.
Variable Math_log : Q -> Q.




Lemma updateAll_loop_keys (factors : list EnvironmentalFactor)
  (cells : list (Key * TerrainCell)) :
  forall (o : Oracle) (queue : list Key),
    map fst (fst (fst (updateAll_loop Math_sqrt Math_exp Math_log factors cells
                         o queue)))
    = map fst cells.
Proof.
  induction cells as [| [k c] rest IH]; intros o queue; simpl.
  - reflexivity.
  - specialize (IH (snd (Date_now o)) (sadd k queue)).
    destruct (updateAll_loop _ _ _ factors rest _ _) as [[rest' o2] q2].
    simpl in *. f_equal. exact IH.
Qed.


(** The divisors of one recompute: the right operand of every [/] that
    [calculateCellValue] and the calls of [calculateFalloff] below it
    evaluate, in order. *)
Definition divisors_calculateFalloff (rad : Q) (ty : FalloffType) : list Q :=
  rad :: match ty with logarithmic => [Math_log 3] | _ => [] end.

Definition divisors_calculateCellValue (factors : list EnvironmentalFactor)
  (c : TerrainCell) : list Q :=
  (match waterDistance c with
   | Fin wd => if Qltb wd 50 && negb (isWater c) then [50] else []
   | PInf => []
   end)
  ++ [10]
  ++ concat
       (map (fun f =>
               let distance :=
                 Math_sqrt ((cell_x c - vx (source f)) ^ 2
                            + (cell_z c - vz (source f)) ^ 2) in
               if Qleb distance (radius f) then
                 divisors_calculateFalloff (radius f) (falloffType f)
               else [])
          factors).

(** The factor lists for which every quotient of a recompute is a number. *)
Definition radii_nonzero (factors : list EnvironmentalFactor) : Prop :=
  Forall (fun f => ~ radius f == 0) factors.

Lemma divisors_calculateCellValue_nonzero
  (factors : list EnvironmentalFactor) (c : TerrainCell) :
  ~ Math_log 3 == 0 ->
  radii_nonzero factors ->
  Forall (fun d => ~ d == 0) (divisors_calculateCellValue factors c).
Proof.
  intros Hlog Hrad. unfold divisors_calculateCellValue.
  apply Forall_app; split.
  { destruct (waterDistance c) as [wd |]; [| constructor].
    destruct (Qltb wd 50 && negb (isWater c)); repeat constructor.
    intros H; discriminate H. }
  apply Forall_app; split.
  { repeat constructor. intros H; discriminate H. }
  induction Hrad as [| f fs Hf _ IH]; [constructor |].
  cbn [map concat]. apply Forall_app; split; [| exact IH].
  destruct (Qleb _ (radius f)); [| constructor].
  unfold divisors_calculateFalloff.
  constructor; [exact Hf |].
  destruct (falloffType f); repeat constructor. exact Hlog.
Qed.

(** A factor of radius 0 at the position of the cell, with a square root
    that maps 0 to 0: the recompute divides by that radius. *)
Lemma divisors_calculateCellValue_zero_radius (f : EnvironmentalFactor)
  (c : TerrainCell) :
  Math_sqrt ((cell_x c - vx (source f)) ^ 2 + (cell_z c - vz (source f)) ^ 2)
  == 0 ->
  radius f == 0 ->
  Exists (fun d => d == 0) (divisors_calculateCellValue [f] c).
Proof.
  intros Hd Hr. unfold divisors_calculateCellValue.
  apply Exists_app. right. apply Exists_app. right.
  cbn [map concat]. rewrite app_nil_r.
  assert (Hle : Qleb
                  (Math_sqrt ((cell_x c - vx (source f)) ^ 2
                              + (cell_z c - vz (source f)) ^ 2))
                  (radius f) = true).
  { apply Qleb_true. rewrite Hd, Hr. apply Qle_refl. }
  rewrite Hle. unfold divisors_calculateFalloff. left. exact Hr.
Qed.

Lemma buildingFactors_radii (b : Building) : radii_nonzero (buildingFactors b).
Proof.
  unfold radii_nonzero, buildingFactors.
  destruct (decide (status b = operational)); [| constructor].
  destruct (zoneType b) as [[| | |] |]; cbn;
    repeat constructor; cbn; intros H; discriminate H.
Qed.

(** The factors that [updateEnvironmentalFactors] builds have the radii 25,
    15, 10 and 8 (times 0.8 for noise) for buildings, 20 for water, and 1.5
    times its own radius for a protected area: none is 0 unless a protected
    area has radius 0. *)
Lemma updateEnvironmentalFactors_radii (buildings : list Building)
  (s : TerrainSystem) :
  Forall (fun a => ~ area_radius a == 0) (protectedAreas s) ->
  radii_nonzero (environmentalFactors (updateEnvironmentalFactors buildings s)).
Proof.
  intros Hareas. unfold radii_nonzero, updateEnvironmentalFactors.
  cbn [environmentalFactors set_factors].
  apply Forall_app; split.
  { induction buildings as [| b bs IH]; [constructor |].
    cbn [map concat]. apply Forall_app; split;
      [apply buildingFactors_radii | exact IH]. }
  apply Forall_app; split.
  { induction (waterBodies s) as [| pts rest IH]; [constructor |].
    cbn [map concat]. apply Forall_app; split; [| exact IH].
    induction pts as [| p ps IHp]; constructor; [| exact IHp].
    cbn. intros H; discriminate H. }
  induction Hareas as [| a rest Ha _ IH]; [constructor |].
  cbn [map]. constructor; [| exact IH].
  cbn [radius]. intros H. apply Ha.
  apply Qmult_integral in H. destruct H as [H | H]; [exact H |].
  discriminate H.
Qed.


End ValueBounds.

(** *** Pollution spreading *)

(** The amount stored under [k] in a [newPollutionMap], 0 when absent. *)
Definition amountAt (k : Key) (npm : list (Key * Q)) : Q :=
  match jget k npm with Some v => v | None => 0 end.

Definition keyOf (cs : Q) (c : TerrainCell) : Key :=
  getCellKey cs (cell_x c) (cell_z c).

(** What a donor hands to each one of its neighbours. *)
Definition share (cs : Q) (all : list (Key * TerrainCell)) (spreadRate : Q)
  (d : TerrainCell) : Q :=
  pollution d * spreadRate
  / ofNat (List.length (getNeighborCells cs all (cell_x d) (cell_z d))).

(** What the cell under key [k] receives from the entry [e]. *)
Definition contribution (cs : Q) (all : list (Key * TerrainCell))
  (spreadRate : Q) (k : Key) (e : Key * TerrainCell) : Q :=
  if Qgtb (pollution (snd e)) (5 # 100) then
    Qsum (map (fun n => if decide (keyOf cs n = k)
                        then share cs all spreadRate (snd e) else 0)
            (getNeighborCells cs all (cell_x (snd e)) (cell_z (snd e))))
  else 0.

(** What the cell under key [k] receives in one pass. *)
Definition received (s : TerrainSystem) (deltaTime : Q) (k : Key) : Q :=
  Qsum (map (contribution (cellSize s) (terrainCells s) (deltaTime * (1 # 10)) k)
          (terrainCells s)).

(** Every cell is stored under the key of its own coordinates, as
    [initializeTerrain] stores it. *)
Definition cells_wf (s : TerrainSystem) : Prop :=
  forall k c, In (k, c) (terrainCells s) -> k = keyOf (cellSize s) c.

Lemma num_or_zero (v : Q) : num_or v 0 == v.
Proof.
  unfold num_or. destruct (Qeq_bool v 0) eqn:E; [| reflexivity].
  apply Qeq_bool_iff in E. symmetry. exact E.
Qed.

Lemma donate_amountAt (cs amt : Q) (npm : list (Key * Q)) (n : TerrainCell)
  (k : Key) :
  amountAt k (donate cs amt npm n)
  == amountAt k npm + (if decide (keyOf cs n = k) then amt else 0).
Proof.
  unfold donate, amountAt. fold (keyOf cs n).
  destruct (decide (keyOf cs n = k)) as [E | E].
  - subst k. rewrite jget_jset_eq.
    destruct (jget (keyOf cs n) npm) as [v |]; [rewrite num_or_zero|]; lra.
  - rewrite jget_jset_ne by exact E.
    destruct (jget k npm); lra.
Qed.

Lemma fold_donate_amountAt (cs amt : Q) (ns : list TerrainCell) (k : Key) :
  forall npm,
    amountAt k (fold_left (donate cs amt) ns npm)
    == amountAt k npm
       + Qsum (map (fun n => if decide (keyOf cs n = k) then amt else 0) ns).
Proof.
  induction ns as [| n rest IH]; intros npm; simpl.
  - lra.
  - rewrite IH, donate_amountAt. lra.
Qed.

Lemma spread_step_amountAt (cs : Q) (all : list (Key * TerrainCell)) (rate : Q)
  (npm : list (Key * Q)) (e : Key * TerrainCell) (k : Key) :
  amountAt k (spread_step cs all rate npm e)
  == amountAt k npm + contribution cs all rate k e.
Proof.
  unfold spread_step, contribution.
  destruct (Qgtb (pollution (snd e)) (5 # 100)).
  - rewrite fold_donate_amountAt. unfold share. lra.
  - lra.
Qed.

Lemma fold_spread_amountAt (cs : Q) (all : list (Key * TerrainCell)) (rate : Q)
  (es : list (Key * TerrainCell)) (k : Key) :
  forall npm,
    amountAt k (fold_left (spread_step cs all rate) es npm)
    == amountAt k npm + Qsum (map (contribution cs all rate k) es).
Proof.
  induction es as [| e rest IH]; intros npm; simpl.
  - lra.
  - rewrite IH, spread_step_amountAt. lra.
Qed.

(** The accumulated map holds, under every key, the sum of the shares of all
    donors that have the cell of that key as a neighbour. *)
Lemma newPollutionMap_amountAt (s : TerrainSystem) (deltaTime : Q) (k : Key) :
  amountAt k (newPollutionMap s deltaTime) == received s deltaTime k.
Proof.
  unfold newPollutionMap, received. rewrite fold_spread_amountAt.
  unfold amountAt. simpl. lra.
Qed.

Lemma donate_has (cs amt : Q) (npm : list (Key * Q)) (n : TerrainCell) (k : Key) :
  jhas k (donate cs amt npm n) = true <->
  jhas k npm = true \/ keyOf cs n = k.
Proof.
  unfold donate, jhas. fold (keyOf cs n).
  destruct (decide (keyOf cs n = k)) as [E | E].
  - subst k. rewrite jget_jset_eq. split; [right; reflexivity | reflexivity].
  - rewrite jget_jset_ne by exact E. split; [left; assumption |].
    intros [H | H]; [exact H | contradiction].
Qed.

Lemma fold_donate_has (cs amt : Q) (ns : list TerrainCell) (k : Key) :
  forall npm,
    jhas k (fold_left (donate cs amt) ns npm) = true <->
    jhas k npm = true \/ exists n, In n ns /\ keyOf cs n = k.
Proof.
  induction ns as [| n rest IH]; intros npm; simpl.
  - split; [left; assumption |]. intros [H | [n [[] _]]]. exact H.
  - rewrite IH, donate_has. split.
    + intros [[H | H] | [m [Hm Hk]]].
      * left. exact H.
      * right. exists n. split; [left; reflexivity | exact H].
      * right. exists m. split; [right; exact Hm | exact Hk].
    + intros [H | [m [[Hm | Hm] Hk]]].
      * left. left. exact H.
      * subst m. left. right. exact Hk.
      * right. exists m. split; assumption.
Qed.

Lemma spread_step_has (cs : Q) (all : list (Key * TerrainCell)) (rate : Q)
  (npm : list (Key * Q)) (e : Key * TerrainCell) (k : Key) :
  jhas k (spread_step cs all rate npm e) = true <->
  jhas k npm = true
  \/ (Qgtb (pollution (snd e)) (5 # 100) = true
      /\ exists n,
           In n (getNeighborCells cs all (cell_x (snd e)) (cell_z (snd e)))
           /\ keyOf cs n = k).
Proof.
  unfold spread_step.
  destruct (Qgtb (pollution (snd e)) (5 # 100)) eqn:Ed.
  - rewrite fold_donate_has. split.
    + intros [H | H]; [left; exact H | right; split; [reflexivity | exact H]].
    + intros [H | [_ H]]; [left; exact H | right; exact H].
  - split; [left; assumption |]. intros [H | [H _]]; [exact H | discriminate].
Qed.

Lemma fold_spread_has (cs : Q) (all : list (Key * TerrainCell)) (rate : Q)
  (es : list (Key * TerrainCell)) (k : Key) :
  forall npm,
    jhas k (fold_left (spread_step cs all rate) es npm) = true <->
    jhas k npm = true
    \/ exists e n, In e es /\ Qgtb (pollution (snd e)) (5 # 100) = true
                   /\ In n (getNeighborCells cs all (cell_x (snd e)) (cell_z (snd e)))
                   /\ keyOf cs n = k.
Proof.
  induction es as [| e rest IH]; intros npm; simpl.
  - split; [left; assumption |]. intros [H | [e [n [[] _]]]]. exact H.
  - rewrite IH, spread_step_has. split.
    + intros [[H | [Hd [n [Hn Hk]]]] | [e' [n [He' H]]]].
      * left. exact H.
      * right. exists e, n. repeat split; try assumption. left. reflexivity.
      * right. exists e', n. split; [right; exact He' | exact H].
    + intros [H | [e' [n [[He' | He'] [Hd [Hn Hk]]]]]].
      * left. left. exact H.
      * subst e'. left. right. split; [exact Hd |]. exists n. split; assumption.
      * right. exists e', n. repeat split; assumption.
Qed.

Lemma jset_keys (k : Key) (v : Q) (m : list (Key * Q)) :
  map fst (jset k v m) = if jhas k m then map fst m else map fst m ++ [k].
Proof.
  unfold jhas. induction m as [| [k0 v0] r IH]; simpl; [reflexivity|].
  destruct (decide (k = k0)) as [E | E]; simpl; [reflexivity|].
  rewrite IH. destruct (jget k r); reflexivity.
Qed.

Lemma jset_nodup (k : Key) (v : Q) (m : list (Key * Q)) :
  List.NoDup (map fst m) -> List.NoDup (map fst (jset k v m)).
Proof.
  intros ND. rewrite jset_keys. unfold jhas.
  destruct (jget k m) eqn:E; [exact ND|].
  apply jget_None_notin in E.
  apply NoDup_rev in ND. rewrite <- (rev_involutive (map fst m ++ [k])).
  apply NoDup_rev. rewrite rev_app_distr. simpl.
  constructor; [| exact ND]. rewrite <- in_rev. exact E.
Qed.

Lemma newPollutionMap_nodup (s : TerrainSystem) (deltaTime : Q) :
  List.NoDup (map fst (newPollutionMap s deltaTime)).
Proof.
  unfold newPollutionMap.
  generalize (terrainCells s) at 2. intros es.
  assert (G : forall npm, List.NoDup (map fst npm) ->
            List.NoDup (map fst (fold_left
              (spread_step (cellSize s) (terrainCells s) (deltaTime * (1 # 10)))
              es npm))).
  { induction es as [| e rest IH]; intros npm ND; simpl; [exact ND|].
    apply IH. unfold spread_step.
    destruct (Qgtb (pollution (snd e)) (5 # 100)); [| exact ND].
    generalize (pollution (snd e) * (deltaTime * (1 # 10))
                / ofNat (List.length
                           (getNeighborCells (cellSize s) (terrainCells s)
                              (cell_x (snd e)) (cell_z (snd e))))).
    generalize (getNeighborCells (cellSize s) (terrainCells s)
                  (cell_x (snd e)) (cell_z (snd e))). intros ns amt.
    revert npm ND. induction ns as [| n ns IHn]; intros npm ND; simpl;
      [exact ND|].
    apply IHn. unfold donate. apply jset_nodup, ND. }
  apply G. constructor.
Qed.

(** The cell the second loop leaves under key [k]. *)
Definition applied (npm : list (Key * Q)) (k : Key) (c : TerrainCell)
  : TerrainCell :=
  match jget k npm with
  | Some a =>
      if negb (isWater c)
      then set_pollution c (Math_min 1 (pollution c + a)) else c
  | None => c
  end.

Lemma fold_apply_step (npm : list (Key * Q)) :
  List.NoDup (map fst npm) ->
  forall cells queue k c,
    jget k cells = Some c ->
    jget k (fst (fold_left apply_step npm (cells, queue)))
    = Some (applied npm k c).
Proof.
  unfold applied.
  induction npm as [| [k0 a0] rest IH]; intros ND cells queue k c Hget; simpl.
  - exact Hget.
  - inversion ND as [| ? ? NI ND']; subst.
    apply jget_None_notin in NI.
    destruct (decide (k = k0)) as [-> | Hne].
    + rewrite Hget. destruct (isWater c); simpl.
      * rewrite (IH ND' _ _ _ _ Hget). rewrite NI. reflexivity.
      * erewrite (IH ND'); [| apply jget_jset_eq]. rewrite NI. reflexivity.
    + destruct (jget k0 cells) as [c0 |] eqn:E0.
      * destruct (isWater c0); simpl.
        -- apply (IH ND'). exact Hget.
        -- apply (IH ND'). rewrite jget_jset_ne by congruence. exact Hget.
      * apply (IH ND'). exact Hget.
Qed.

Lemma spreadPollution_cells (deltaTime : Q) (s : TerrainSystem) (k : Key)
  (c : TerrainCell) :
  jget k (terrainCells s) = Some c ->
  jget k (terrainCells (spreadPollution deltaTime s))
  = Some (applied (newPollutionMap s deltaTime) k c).
Proof.
  intros Hget. unfold spreadPollution.
  pose proof (fold_apply_step (newPollutionMap s deltaTime)
                (newPollutionMap_nodup s deltaTime)
                (terrainCells s) (updateQueue s) k c Hget) as H.
  destruct (fold_left apply_step _ _) as [cells queue]. exact H.
Qed.

Lemma share_nonneg (cs : Q) (all : list (Key * TerrainCell)) (rate : Q)
  (d : TerrainCell) :
  0 <= rate -> 0 <= pollution d -> 0 <= share cs all rate d.
Proof.
  intros Hr Hp. unfold share, Qdiv.
  apply Qmult_le_0_compat.
  - apply Qmult_le_0_compat; assumption.
  - apply Qinv_le_0_compat, ofNat_nonneg.
Qed.

Lemma share_pos (cs : Q) (all : list (Key * TerrainCell)) (rate : Q)
  (d n : TerrainCell) :
  0 < rate -> 0 < pollution d ->
  In n (getNeighborCells cs all (cell_x d) (cell_z d)) ->
  0 < share cs all rate d.
Proof.
  intros Hr Hp Hn. unfold share, Qdiv.
  apply Qmult_lt_0_compat.
  - apply Qmult_lt_0_compat; assumption.
  - apply Qinv_lt_0_compat, ofNat_pos.
    destruct (getNeighborCells cs all (cell_x d) (cell_z d));
      [contradiction | simpl; lia].
Qed.

Lemma contribution_nonneg (cs : Q) (all : list (Key * TerrainCell)) (rate : Q)
  (k : Key) (e : Key * TerrainCell) :
  0 <= rate -> 0 <= contribution cs all rate k e.
Proof.
  intros Hr. unfold contribution.
  destruct (Qgtb (pollution (snd e)) (5 # 100)) eqn:Ed; [| lra].
  apply Qltb_true in Ed. apply Qsum_nonneg, List.Forall_forall.
  intros v Hv. apply in_map_iff in Hv. destruct Hv as [n [<- _]].
  destruct (decide (keyOf cs n = k)); [| lra].
  apply share_nonneg; lra.
Qed.

Lemma contribution_ge_share (cs : Q) (all : list (Key * TerrainCell)) (rate : Q)
  (e : Key * TerrainCell) (n : TerrainCell) :
  0 <= rate ->
  Qgtb (pollution (snd e)) (5 # 100) = true ->
  In n (getNeighborCells cs all (cell_x (snd e)) (cell_z (snd e))) ->
  share cs all rate (snd e) <= contribution cs all rate (keyOf cs n) e.
Proof.
  intros Hr Hd Hn. unfold contribution. rewrite Hd.
  apply Qltb_true in Hd.
  apply Qsum_ge_elem.
  - apply List.Forall_forall. intros v Hv. apply in_map_iff in Hv.
    destruct Hv as [m [<- _]].
    destruct (decide (keyOf cs m = keyOf cs n)); [| lra].
    apply share_nonneg; lra.
  - apply in_map_iff. exists n. split; [| exact Hn].
    destruct (decide (keyOf cs n = keyOf cs n)); congruence.
Qed.

Lemma received_ge_share (s : TerrainSystem) (deltaTime : Q)
  (e : Key * TerrainCell) (n : TerrainCell) :
  0 <= deltaTime ->
  In e (terrainCells s) ->
  Qgtb (pollution (snd e)) (5 # 100) = true ->
  In n (getNeighborCells (cellSize s) (terrainCells s)
          (cell_x (snd e)) (cell_z (snd e))) ->
  share (cellSize s) (terrainCells s) (deltaTime * (1 # 10)) (snd e)
  <= received s deltaTime (keyOf (cellSize s) n).
Proof.
  intros Hdt He Hd Hn. unfold received.
  assert (Hr : 0 <= deltaTime * (1 # 10)) by lra.
  eapply Qle_trans; [apply (contribution_ge_share _ _ _ e n Hr Hd Hn) |].
  apply Qsum_ge_elem.
  - apply List.Forall_forall. intros v Hv. apply in_map_iff in Hv.
    destruct Hv as [e' [<- _]]. apply contribution_nonneg, Hr.
  - apply in_map_iff. exists e. split; [reflexivity | exact He].
Qed.

Lemma received_nonneg (s : TerrainSystem) (deltaTime : Q) (k : Key) :
  0 <= deltaTime -> 0 <= received s deltaTime k.
Proof.
  intros Hdt. unfold received. apply Qsum_nonneg, List.Forall_forall.
  intros v Hv. apply in_map_iff in Hv. destruct Hv as [e [<- _]].
  apply contribution_nonneg. lra.
Qed.

Lemma getNeighborCells_length (cs : Q) (all : list (Key * TerrainCell))
  (x z : Q) :
  (List.length (getNeighborCells cs all x z) <= 4)%nat.
Proof.
  unfold getNeighborCells, neighborOffsets. simpl.
  repeat match goal with
         | |- context [jget ?k all] => destruct (jget k all)
         end; simpl; lia.
Qed.

(** A neighbour handed out by [getNeighborCells] is stored under its own
    key. *)
Lemma neighbor_stored (s : TerrainSystem) (x z : Q) (n : TerrainCell) :
  cells_wf s ->
  In n (getNeighborCells (cellSize s) (terrainCells s) x z) ->
  jget (keyOf (cellSize s) n) (terrainCells s) = Some n.
Proof.
  intros Hwf Hn. unfold getNeighborCells in Hn.
  apply list_elem_of_In in Hn. apply list_elem_of_omap in Hn.
  destruct Hn as [off [_ Hget]].
  pose proof (jget_Some_in _ _ _ Hget) as Hin.
  apply Hwf in Hin. rewrite <- Hin. exact Hget.
Qed.

Lemma set_pollution_same (c : TerrainCell) : set_pollution c (pollution c) = c.
Proof. destruct c; reflexivity. Qed.

Lemma Math_min_proper (a b c d : Q) :
  a == c -> b == d -> Math_min a b == Math_min c d.
Proof. intros H1 H2. unfold Math_min. rewrite H1, H2. reflexivity. Qed.

(** C8, as the code does it.  In one pass of [spreadPollution] over a terrain
    whose cells are stored under their own keys, with [0 <= deltaTime]:
    - a cell that is water, or that no donor has as a neighbour, keeps its
      pollution; every other cell gets [min(1, old + received)], where
      [received] sums, over all donors (pollution > 0.05) having the cell as
      an axis-neighbour, the donor's share
      [pollution * deltaTime * 0.1 / (number of existing neighbours)];
    - a donor has at most four neighbours and each of them receives at least
      the donor's share;
    - nothing is taken from a donor: no cell whose pollution is at most 1
      ends the pass with less pollution than it had;
    - for [0 < deltaTime], a pollution-free cell that is not water and is a
      neighbour of a donor has pollution > 0 after the pass. *)
Theorem spreadPollution_donation (s : TerrainSystem) (deltaTime : Q) :
  cells_wf s ->
  0 <= deltaTime ->
  (forall k c,
     jget k (terrainCells s) = Some c ->
     exists c',
       jget k (terrainCells (spreadPollution deltaTime s)) = Some c'
       /\ c' = set_pollution c (pollution c')
       /\ pollution c'
          == (if jhas k (newPollutionMap s deltaTime) && negb (isWater c)
              then Math_min 1 (pollution c + received s deltaTime k)
              else pollution c)
       /\ (pollution c <= 1 -> pollution c <= pollution c'))
  /\ (forall k,
        jhas k (newPollutionMap s deltaTime) = true <->
        exists e n,
          In e (terrainCells s) /\ 5 # 100 < pollution (snd e)
          /\ In n (getNeighborCells (cellSize s) (terrainCells s)
                     (cell_x (snd e)) (cell_z (snd e)))
          /\ keyOf (cellSize s) n = k)
  /\ (forall e n,
        In e (terrainCells s) -> 5 # 100 < pollution (snd e) ->
        In n (getNeighborCells (cellSize s) (terrainCells s)
                (cell_x (snd e)) (cell_z (snd e))) ->
        (List.length (getNeighborCells (cellSize s) (terrainCells s)
                        (cell_x (snd e)) (cell_z (snd e))) <= 4)%nat
        /\ jget (keyOf (cellSize s) n) (terrainCells s) = Some n
        /\ share (cellSize s) (terrainCells s) (deltaTime * (1 # 10)) (snd e)
           <= received s deltaTime (keyOf (cellSize s) n)
        /\ (0 < deltaTime -> pollution n == 0 -> isWater n = false ->
            exists n',
              jget (keyOf (cellSize s) n)
                (terrainCells (spreadPollution deltaTime s)) = Some n'
              /\ 0 < pollution n')).
Proof.
  intros Hwf Hdt.
  assert (Hhas : forall k,
    jhas k (newPollutionMap s deltaTime) = true <->
    exists e n,
      In e (terrainCells s) /\ 5 # 100 < pollution (snd e)
      /\ In n (getNeighborCells (cellSize s) (terrainCells s)
                 (cell_x (snd e)) (cell_z (snd e)))
      /\ keyOf (cellSize s) n = k).
  { intros k. unfold newPollutionMap. rewrite fold_spread_has. split.
    - intros [H | [e [n [He [Hd H]]]]]; [discriminate |].
      exists e, n. split; [exact He |]. split; [| exact H].
      apply Qltb_true in Hd. exact Hd.
    - intros [e [n [He [Hd H]]]]. right. exists e, n.
      split; [exact He |]. split; [| exact H]. apply Qltb_true. exact Hd. }
  assert (Hcell : forall k c,
    jget k (terrainCells s) = Some c ->
    exists c',
      jget k (terrainCells (spreadPollution deltaTime s)) = Some c'
      /\ c' = set_pollution c (pollution c')
      /\ pollution c'
         == (if jhas k (newPollutionMap s deltaTime) && negb (isWater c)
             then Math_min 1 (pollution c + received s deltaTime k)
             else pollution c)
      /\ (pollution c <= 1 -> pollution c <= pollution c')).
  { intros k c Hget. exists (applied (newPollutionMap s deltaTime) k c).
    split; [apply spreadPollution_cells, Hget |].
    pose proof (newPollutionMap_amountAt s deltaTime k) as Ha.
    pose proof (received_nonneg s deltaTime k Hdt) as Hr.
    unfold applied, jhas, amountAt in *.
    destruct (jget k (newPollutionMap s deltaTime)) as [a |]; simpl.
    - destruct (isWater c); simpl.
      + split; [symmetry; apply set_pollution_same |].
        split; [reflexivity | intros _; apply Qle_refl].
      + split; [reflexivity |]. split.
        * apply Math_min_proper; [reflexivity | rewrite Ha; reflexivity].
        * intros Hle. apply Math_min_glb; lra.
    - split; [symmetry; apply set_pollution_same |].
      split; [reflexivity | intros _; apply Qle_refl]. }
  split; [exact Hcell |]. split; [exact Hhas |].
  intros e n He Hd Hn.
  pose proof (neighbor_stored s _ _ n Hwf Hn) as Hst.
  assert (Hdb : Qgtb (pollution (snd e)) (5 # 100) = true)
    by (apply Qltb_true; exact Hd).
  pose proof (received_ge_share s deltaTime e n Hdt He Hdb Hn) as Hge.
  split; [apply getNeighborCells_length |].
  split; [exact Hst |]. split; [exact Hge |].
  intros Hpos Hzero Hdry.
  destruct (Hcell _ _ Hst) as [n' [Hn' [_ [Hp _]]]].
  exists n'. split; [exact Hn' |].
  assert (Hk : jhas (keyOf (cellSize s) n) (newPollutionMap s deltaTime) = true).
  { apply Hhas. exists e, n. repeat split; assumption. }
  rewrite Hk, Hdry in Hp. simpl in Hp. rewrite Hp.
  assert (Hsh : 0 < share (cellSize s) (terrainCells s) (deltaTime * (1 # 10))
                      (snd e)).
  { apply (share_pos _ _ _ _ n); [lra | lra | exact Hn]. }
  apply Q.min_glb_lt; lra.
Qed.

(** *** A 3 x 3 terrain *)

Definition plainCell (x z p : Q) : TerrainCell :=
  mkCell x z 10 (1 # 2) (1 # 2) p 0 0 PInf 0 (1 # 2) 1500 false false [] 0.

(** Cell size 2, world size 6: cells at -2, 0, 2 on both axes, stored in the
    order [initializeTerrain] creates them; only the centre is polluted. *)
Definition grid3 : TerrainSystem :=
  mkTerrain
    (map (fun xz : Q * Q =>
            (getCellKey 2 (fst xz) (snd xz),
             plainCell (fst xz) (snd xz)
               (if Qeq_bool (fst xz) 0 && Qeq_bool (snd xz) 0 then 1 # 2 else 0)))
       [(-2, -2); (-2, 0); (-2, 2); (0, -2); (0, 0); (0, 2); (2, -2); (2, 0); (2, 2)])
    [] [] [] 6 2 [] 0 (mkOracle (fun _ => 0) 0 (fun _ => 0) 0).

Definition pollutionAt (k : Key) (s : TerrainSystem) : Q :=
  match jget k (terrainCells s) with Some c => pollution c | None => 0 end.

Lemma grid3_wf : cells_wf grid3.
Proof.
  intros k c Hin. simpl in Hin.
  repeat (destruct Hin as [Hin | Hin]; [inversion Hin; subst; reflexivity |]).
  contradiction.
Qed.


(** C8 as stated fails: with [deltaTime = 1] the centre cell (pollution 1/2,
    above the threshold) hands 1/80 to each of its four neighbours, and its
    own pollution is still 1/2 after the pass: it has not decreased. *)
Lemma spreadPollution_donor_not_decreased :
  pollutionAt (0, 0)%Z grid3 == 1 # 2
  /\ pollutionAt (-1, 0)%Z (spreadPollution 1 grid3) == 1 # 80
  /\ pollutionAt (1, 0)%Z (spreadPollution 1 grid3) == 1 # 80
  /\ pollutionAt (0, -1)%Z (spreadPollution 1 grid3) == 1 # 80
  /\ pollutionAt (0, 1)%Z (spreadPollution 1 grid3) == 1 # 80
  /\ pollutionAt (0, 0)%Z (spreadPollution 1 grid3) == 1 # 2
  /\ ~ pollutionAt (0, 0)%Z (spreadPollution 1 grid3)
       < pollutionAt (0, 0)%Z grid3.
Proof.
  vm_compute. repeat split; try reflexivity. intros H. discriminate H.
Qed.

Lemma spreadPollution_donation_witness :
  cells_wf grid3 /\ 0 <= 1
  /\ exists n',
       jget (-1, 0)%Z (terrainCells (spreadPollution 1 grid3)) = Some n'
       /\ 0 < pollution n'.
Proof.
  split; [exact grid3_wf |]. split; [lra |].
  destruct (spreadPollution_donation grid3 1 grid3_wf ltac:(lra))
    as [_ [_ H]].
  destruct (H ((0, 0)%Z, plainCell 0 0 (1 # 2)) (plainCell (-2) 0 0))
    as [_ [_ [_ G]]].
  - simpl. do 4 right. left. reflexivity.
  - simpl. lra.
  - vm_compute. left. reflexivity.
  - apply G; [lra | reflexivity | reflexivity].
Defined.

(** *** Environmental recovery *)

Definition set_noise (c : TerrainCell) (v : Q) : TerrainCell :=
  mkCell (cell_x c) (cell_z c) (elevation c) (baseValue c) (currentValue c)
    (pollution c) v (traffic c) (waterDistance c) (scenicValue c)
    (soilQuality c) (developmentCost c) (isWater c) (isProtected c)
    (zoneRestrictions c) (lastUpdated c).

Section Environment.
Variable Math_sqrt : Q -> Q.

(** The distance test of [getCellsInRadius], [addProtectedArea] and
    [generateProtectedAreas]. *)
Definition distanceToCell (c : TerrainCell) (p : Vector3) : Q :=
  Math_sqrt ((cell_x c - vx p) ^ 2 + (cell_z c - vz p) ^ 2).

(** [getCellsInRadius]. *)
Definition getCellsInRadius (cells : list (Key * TerrainCell))
  (centre : Vector3) (rad : Q) : list TerrainCell :=
  List.filter (fun c => Qleb (distanceToCell c centre) rad) (map snd cells).

(** One water point of [updateWaterQuality]: every cell object within
    radius 5 that carries pollution loses [deltaTime * 0.05] of it, down to
    0, and the key of its coordinates is queued.  The cell objects are
    changed where they are stored. *)
Fixpoint filterPoint (cs deltaTime : Q) (waterPoint : Vector3)
  (cells : list (Key * TerrainCell)) (queue : list Key)
  : list (Key * TerrainCell) * list Key :=
  match cells with
  | [] => ([], queue)
  | (k, c) :: rest =>
      if Qleb (distanceToCell c waterPoint) 5 && Qgtb (pollution c) 0 then
        let filtrationRate := deltaTime * (5 # 100) in
        let c' := set_pollution c (Math_max 0 (pollution c - filtrationRate)) in
        let (rest', q) :=
          filterPoint cs deltaTime waterPoint rest
            (sadd (getCellKey cs (cell_x c) (cell_z c)) queue) in
        ((k, c') :: rest', q)
      else
        let (rest', q) := filterPoint cs deltaTime waterPoint rest queue in
        ((k, c) :: rest', q)
  end.

(** [updateWaterQuality]. *)
Definition updateWaterQuality (deltaTime : Q) (s : TerrainSystem)
  : TerrainSystem :=
  let '(cells, queue) :=
    fold_left
      (fun acc waterPoint =>
         filterPoint (cellSize s) deltaTime waterPoint (fst acc) (snd acc))
      (concat (waterBodies s)) (terrainCells s, updateQueue s) in
  set_queue (set_cells s cells) queue.

End Environment.

(** [naturalRecovery]. *)
Definition recoverCell (recoveryRate : Q) (c : TerrainCell)
  : TerrainCell * bool :=
  let (c1, changed) :=
    if Qgtb (pollution c) 0
    then (set_pollution c (Math_max 0 (pollution c - recoveryRate)), true)
    else (c, false) in
  if Qgtb (noise c1) (1 # 100)
  then (set_noise c1 (Math_max 0 (noise c1 - recoveryRate * 2)), true)
  else (c1, changed).

Fixpoint recoverAll (recoveryRate : Q) (cells : list (Key * TerrainCell))
  (queue : list Key) : list (Key * TerrainCell) * list Key :=
  match cells with
  | [] => ([], queue)
  | (k, c) :: rest =>
      let (c', changed) := recoverCell recoveryRate c in
      let (rest', q) :=
        recoverAll recoveryRate rest (if changed then sadd k queue else queue) in
      ((k, c') :: rest', q)
  end.

Definition naturalRecovery (deltaTime : Q) (s : TerrainSystem) : TerrainSystem :=
  let '(cells, queue) :=
    recoverAll (deltaTime * (2 # 100)) (terrainCells s) (updateQueue s) in
  set_queue (set_cells s cells) queue.

(** [updateEnvironmentalFactors(deltaTime)], the second method of that name
    in the class: pollution spreads, water filters it, the terrain
    recovers. *)
Definition updateEnvironment (Math_sqrt : Q -> Q) (deltaTime : Q)
  (s : TerrainSystem) : TerrainSystem :=
  naturalRecovery deltaTime
    (updateWaterQuality Math_sqrt deltaTime (spreadPollution deltaTime s)).

(** *** Queries *)

(** [getTerrainCell]. *)
Definition getTerrainCell (s : TerrainSystem) (x z : Q) : option TerrainCell :=
  jget (getCellKey (cellSize s) x z) (terrainCells s).

(** [getTerrainValue]. *)
Definition getTerrainValue (s : TerrainSystem) (x z : Q) : Q :=
  match jget (getCellKey (cellSize s) x z) (terrainCells s) with
  | Some cell => currentValue cell
  | None => 1 # 10
  end.

(** [getDevelopmentCost]. *)
Definition getDevelopmentCost (s : TerrainSystem) (x z : Q) : Q :=
  match getTerrainCell s x z with
  | Some cell => developmentCost cell
  | None => 1000
  end.

(** [getTerrainHeightAt]. *)
Definition getTerrainHeightAt (s : TerrainSystem) (x z : Q) : Q :=
  match getTerrainCell s x z with
  | Some cell => elevation cell
  | None => 0
  end.

#[global] Instance Restriction_eq_dec : EqDecision Restriction.
Proof. solve_decision. Defined.

(** [canDevelop]. *)
Definition canDevelop (s : TerrainSystem) (x z : Q) (zone : ZoneType) : bool :=
  match getTerrainCell s x z with
  | None => false
  | Some cell =>
      if isWater cell || bool_decide (no_building ∈ zoneRestrictions cell)
      then false
      else if bool_decide (zone = industrial)
              && bool_decide (no_industrial ∈ zoneRestrictions cell)
      then false
      else true
  end.

(** [queueCellUpdate]. *)
Definition queueCellUpdate (x z : Q) (s : TerrainSystem) : TerrainSystem :=
  set_queue s (sadd (getCellKey (cellSize s) x z) (updateQueue s)).

(** [getZoneSuitability].  For a residential zone on a cell with no water
    in reach ([waterDistance] infinite) the water term is -Infinity, which the
    final clamp turns into 0. *)
Definition getZoneSuitability (cell : TerrainCell) (zone : ZoneType) : Q :=
  let clamp (v : Q) := Math_max 0 (Math_min 1 v) in
  match zone with
  | residential =>
      match waterDistance cell with
      | Fin wd =>
          clamp (currentValue cell - pollution cell * (5 # 10)
                 - noise cell * (3 # 10)
                 + Math_min (2 # 10) ((20 - wd) / 100))
      | PInf => 0
      end
  | commercial =>
      clamp (currentValue cell + traffic cell * (2 # 10)
             - pollution cell * (2 # 10))
  | industrial =>
      clamp (currentValue cell
             - Math_max 0 (currentValue cell - (7 # 10)) * (5 # 10)
             + (if Qgtb (soilQuality cell) (5 # 10) then 1 # 10 else 0))
  | office =>
      clamp (currentValue cell
             + (if Qgtb (currentValue cell) (6 # 10) then 2 # 10 else 0)
             - pollution cell * (4 # 10))
  end.

(** [analyzeArea]. *)
Record TerrainAnalysis : Type := mkAnalysis {
  averageValue : Q;
  maxValue : Q;
  minValue : Q;
  developmentSuitability : list (ZoneType * Q);
  environmentalHealth : Q;
  an_pollution : Q;
  averageElevation : Q;
  waterCoverage : Q
}.

(** [values.reduce((sum, val) => sum + val, 0) / values.length]. *)
Definition average (values : list Q) : Q :=
  fold_left (fun sum val => sum + val) values 0 / ofNat (List.length values).

(** [Math.max(...values)] and [Math.min(...values)] of a non-empty list. *)
Definition maxOf (v : Q) (vs : list Q) : Q := fold_left Math_max vs v.
Definition minOf (v : Q) (vs : list Q) : Q := fold_left Math_min vs v.

Definition analyzeArea (Math_sqrt : Q -> Q) (s : TerrainSystem)
  (centre : Vector3) (rad : Q) : TerrainAnalysis :=
  let cellsInArea := getCellsInRadius Math_sqrt (terrainCells s) centre rad in
  match map currentValue cellsInArea with
  | [] => mkAnalysis 0 0 0 [] 0 0 0 0
  | v :: vs =>
      let values := v :: vs in
      let averagePollution := average (map pollution cellsInArea) in
      let waterCells := List.length (List.filter isWater cellsInArea) in
      let suitabilityOf (zone : ZoneType) :=
        let suitableCell :=
          List.filter (fun cell => canDevelop s (cell_x cell) (cell_z cell) zone)
            cellsInArea in
        match suitableCell with
        | [] => 0
        | _ => fold_left (fun sum cell => sum + getZoneSuitability cell zone)
                 suitableCell 0
               / ofNat (List.length suitableCell)
        end in
      mkAnalysis (average values) (maxOf v vs) (minOf v vs)
        (map (fun zone => (zone, suitabilityOf zone))
           [residential; commercial; industrial; office])
        (Math_max 0 (1 - averagePollution) * 100)
        averagePollution
        (average (map elevation cellsInArea))
        (ofNat waterCells / ofNat (List.length cellsInArea))
  end.

(** *** Water bodies and protected areas *)

Definition set_waterBodies (s : TerrainSystem) (w : list (list Vector3))
  : TerrainSystem :=
  mkTerrain (terrainCells s) (environmentalFactors s) w (protectedAreas s)
    (worldSize s) (cellSize s) (updateQueue s) (lastGlobalUpdate s) (oracle s).

Definition set_protectedAreas (s : TerrainSystem) (a : list ProtectedArea)
  : TerrainSystem :=
  mkTerrain (terrainCells s) (environmentalFactors s) (waterBodies s) a
    (worldSize s) (cellSize s) (updateQueue s) (lastGlobalUpdate s) (oracle s).

Section Areas.
Variable Math_sqrt : Q -> Q.
Variable Math_exp : Q -> Q.
Variable Math_log : Q -> Q.

(** One water point in the scan of [updateWaterDistances]. *)
Definition waterScan (c : TerrainCell) (acc : ext * bool) (waterPoint : Vector3)
  : ext * bool :=
  let distance := distanceToCell Math_sqrt c waterPoint in
  (match fst acc with
   | PInf => Fin distance
   | Fin m => if Qltb distance m then Fin distance else Fin m
   end,
   if Qltb distance 2 then true else snd acc).

Definition updateWaterCell (bodies : list (list Vector3)) (c : TerrainCell)
  : TerrainCell :=
  let (minDistance, water) := fold_left (waterScan c) (concat bodies) (PInf, false) in
  mkCell (cell_x c) (cell_z c) (elevation c) (baseValue c) (currentValue c)
    (pollution c) (noise c) (traffic c) minDistance (scenicValue c)
    (soilQuality c) (developmentCost c) water (isProtected c)
    (if water then zoneRestrictions c ++ [no_building] else zoneRestrictions c)
    (lastUpdated c).

(** [updateWaterDistances]. *)
Definition updateWaterDistances (s : TerrainSystem) : TerrainSystem :=
  set_cells s
    (map (fun e => (fst e, updateWaterCell (waterBodies s) (snd e)))
       (terrainCells s)).

(** [addWaterBody]. *)
Definition addWaterBody (points : list Vector3) (s : TerrainSystem)
  : TerrainSystem :=
  updateAllTerrainValues Math_sqrt Math_exp Math_log
    (updateWaterDistances (set_waterBodies s (waterBodies s ++ [points]))).

(** The [terrainCells.forEach] of [addProtectedArea]. *)
Definition protectCell (c : TerrainCell) : TerrainCell :=
  mkCell (cell_x c) (cell_z c) (elevation c) (baseValue c) (currentValue c)
    (pollution c) (noise c) (traffic c) (waterDistance c) (scenicValue c)
    (soilQuality c) (developmentCost c) (isWater c) true
    (zoneRestrictions c ++ [no_industrial; low_density_only]) (lastUpdated c).

Fixpoint protectAll (centre : Vector3) (rad : Q)
  (cells : list (Key * TerrainCell)) (queue : list Key)
  : list (Key * TerrainCell) * list Key :=
  match cells with
  | [] => ([], queue)
  | (k, c) :: rest =>
      if Qleb (distanceToCell Math_sqrt c centre) rad then
        let (rest', q) := protectAll centre rad rest (sadd k queue) in
        ((k, protectCell c) :: rest', q)
      else
        let (rest', q) := protectAll centre rad rest queue in
        ((k, c) :: rest', q)
  end.

(** [addProtectedArea]. *)
Definition addProtectedArea (centre : Vector3) (rad : Q) (s : TerrainSystem)
  : TerrainSystem :=
  let s := set_protectedAreas s (protectedAreas s ++ [mkArea centre rad]) in
  let '(cells, queue) := protectAll centre rad (terrainCells s) (updateQueue s) in
  set_queue (set_cells s cells) queue.

End Areas.
(** *** One environmental pass *)

(** Only the pollution and the noise of a cell changed; a pollution within
    [0, 1] stayed there and a non-negative noise did not grow and stayed
    non-negative. *)
Definition eased (c c' : TerrainCell) : Prop :=
  c' = set_noise (set_pollution c (pollution c')) (noise c')
  /\ (0 <= pollution c /\ pollution c <= 1 ->
      0 <= pollution c' /\ pollution c' <= 1)
  /\ (0 <= noise c -> 0 <= noise c' /\ noise c' <= noise c).

Definition easedEntry (e e' : Key * TerrainCell) : Prop :=
  fst e' = fst e /\ eased (snd e) (snd e').

Lemma eased_refl (c : TerrainCell) : eased c c.
Proof.
  split; [destruct c; reflexivity |]. split; [tauto |].
  intros H. split; [exact H | apply Qle_refl].
Qed.

Lemma eased_trans (a b c : TerrainCell) : eased a b -> eased b c -> eased a c.
Proof.
  intros [E1 [P1 N1]] [E2 [P2 N2]]. split; [| split].
  - rewrite E2. rewrite E1 at 1. destruct a; reflexivity.
  - intros H. apply P2, P1, H.
  - intros H. destruct (N1 H) as [H1 H2]. destruct (N2 H1) as [H3 H4].
    split; [exact H3 | lra].
Qed.

Lemma easedEntry_refl (l : list (Key * TerrainCell)) : Forall2 easedEntry l l.
Proof.
  induction l as [| e l IH]; constructor; [| exact IH].
  split; [reflexivity | apply eased_refl].
Qed.

Lemma easedEntry_trans (l1 l2 l3 : list (Key * TerrainCell)) :
  Forall2 easedEntry l1 l2 -> Forall2 easedEntry l2 l3 ->
  Forall2 easedEntry l1 l3.
Proof.
  intros H. revert l3. induction H as [| a b l1 l2 [K1 E1] _ IH]; intros l3 H3.
  - inversion H3; subst. constructor.
  - inversion H3 as [| ? c ? l3' [K2 E2] H3']; subst. constructor.
    + split; [congruence | eapply eased_trans; eassumption].
    + apply IH, H3'.
Qed.

Lemma jset_eased (k : Key) (c v : TerrainCell) (m : list (Key * TerrainCell)) :
  jget k m = Some c -> eased c v -> Forall2 easedEntry m (jset k v m).
Proof.
  induction m as [| [k0 c0] r IH]; simpl; intros Hget He; [discriminate |].
  destruct (decide (k = k0)) as [-> | Hne].
  - inversion Hget; subst c0. constructor; [| apply easedEntry_refl].
    split; [reflexivity | exact He].
  - constructor; [split; [reflexivity | apply eased_refl] | apply IH; assumption].
Qed.

Lemma spread_eased (c : TerrainCell) (a : Q) :
  0 <= a -> eased c (set_pollution c (Math_min 1 (pollution c + a))).
Proof.
  intros Ha. split; [destruct c; reflexivity |]. cbn [set_pollution pollution noise].
  split.
  - intros [H0 H1]. split; [apply Math_min_glb; lra | apply Math_min_ub_l].
  - intros H. split; [exact H | apply Qle_refl].
Qed.

Lemma fold_apply_eased (npm : list (Key * Q)) :
  Forall (fun e => 0 <= snd e) npm ->
  forall cells queue,
    Forall2 easedEntry cells (fst (fold_left apply_step npm (cells, queue))).
Proof.
  induction 1 as [| [k a] rest Ha _ IH]; intros cells queue; simpl.
  - apply easedEntry_refl.
  - destruct (jget k cells) as [c |] eqn:Hget; [| apply IH].
    destruct (isWater c); cbn [negb]; [apply IH |].
    eapply easedEntry_trans; [| apply IH].
    apply (jset_eased k c); [exact Hget | apply spread_eased; exact Ha].
Qed.

Lemma newPollutionMap_nonneg (s : TerrainSystem) (deltaTime : Q) :
  0 <= deltaTime ->
  Forall (fun e => 0 <= snd e) (newPollutionMap s deltaTime).
Proof.
  intros Hdt. apply List.Forall_forall. intros [k a] Hin. cbn [snd].
  pose proof (jget_in_nodup k a _ (newPollutionMap_nodup s deltaTime) Hin) as Hg.
  pose proof (newPollutionMap_amountAt s deltaTime k) as Ha.
  unfold amountAt in Ha. rewrite Hg in Ha. rewrite Ha.
  apply received_nonneg, Hdt.
Qed.

Lemma spreadPollution_eased (deltaTime : Q) (s : TerrainSystem) :
  0 <= deltaTime ->
  Forall2 easedEntry (terrainCells s) (terrainCells (spreadPollution deltaTime s)).
Proof.
  intros Hdt. unfold spreadPollution.
  pose proof (fold_apply_eased _ (newPollutionMap_nonneg s deltaTime Hdt)
                (terrainCells s) (updateQueue s)) as H.
  destruct (fold_left apply_step _ _) as [cells queue]. exact H.
Qed.

Section EnvironmentFacts.
Variable Math_sqrt : Q -> Q.

Lemma filter_eased (c : TerrainCell) (r : Q) :
  0 <= r -> 0 < pollution c ->
  eased c (set_pollution c (Math_max 0 (pollution c - r))).
Proof.
  intros Hr Hp. split; [destruct c; reflexivity |].
  cbn [set_pollution pollution noise]. split.
  - intros [_ H1]. split; [apply Math_max_lb_l | apply Math_max_lub; lra].
  - intros H. split; [exact H | apply Qle_refl].
Qed.

Lemma filterPoint_eased (cs deltaTime : Q) (wp : Vector3)
  (cells : list (Key * TerrainCell)) :
  0 <= deltaTime ->
  forall queue,
    Forall2 easedEntry cells
      (fst (filterPoint Math_sqrt cs deltaTime wp cells queue)).
Proof.
  intros Hdt. induction cells as [| [k c] rest IH]; intros queue; simpl.
  - constructor.
  - destruct (Qleb (distanceToCell Math_sqrt c wp) 5 && Qgtb (pollution c) 0)
      eqn:Hc.
    + apply andb_true_iff in Hc. destruct Hc as [_ Hp]. apply Qltb_true in Hp.
      specialize (IH (sadd (getCellKey cs (cell_x c) (cell_z c)) queue)).
      destruct (filterPoint _ _ _ _ rest _) as [rest' q]. cbn [fst] in *.
      constructor; [| exact IH].
      split; [reflexivity | apply filter_eased; lra].
    + specialize (IH queue).
      destruct (filterPoint _ _ _ _ rest _) as [rest' q]. cbn [fst] in *.
      constructor; [| exact IH]. split; [reflexivity | apply eased_refl].
Qed.

Lemma updateWaterQuality_eased (deltaTime : Q) (s : TerrainSystem) :
  0 <= deltaTime ->
  Forall2 easedEntry (terrainCells s)
    (terrainCells (updateWaterQuality Math_sqrt deltaTime s)).
Proof.
  intros Hdt. unfold updateWaterQuality.
  assert (G : forall pts cells queue,
            Forall2 easedEntry cells
              (fst (fold_left
                      (fun acc wp =>
                         filterPoint Math_sqrt (cellSize s) deltaTime wp
                           (fst acc) (snd acc))
                      pts (cells, queue)))).
  { induction pts as [| p pts IH]; intros cells queue; simpl.
    - apply easedEntry_refl.
    - pose proof (filterPoint_eased (cellSize s) deltaTime p cells Hdt queue) as H1.
      destruct (filterPoint _ _ _ _ cells queue) as [c1 q1]. cbn [fst] in H1.
      eapply easedEntry_trans; [exact H1 | apply IH]. }
  specialize (G (concat (waterBodies s)) (terrainCells s) (updateQueue s)).
  destruct (fold_left _ _ _) as [cells queue]. exact G.
Qed.

End EnvironmentFacts.

Lemma recoverCell_spec (r : Q) (c : TerrainCell) :
  let c' := fst (recoverCell r c) in
  c' = set_noise (set_pollution c (pollution c')) (noise c')
  /\ pollution c'
     = (if Qgtb (pollution c) 0 then Math_max 0 (pollution c - r)
        else pollution c)
  /\ noise c'
     = (if Qgtb (noise c) (1 # 100) then Math_max 0 (noise c - r * 2)
        else noise c)
  /\ snd (recoverCell r c)
     = Qgtb (pollution c) 0 || Qgtb (noise c) (1 # 100).
Proof.
  unfold recoverCell.
  destruct (Qgtb (pollution c) 0); cbn [noise set_pollution];
    destruct (Qgtb (noise c) (1 # 100)); cbn [fst snd pollution noise
                                               set_pollution set_noise];
    repeat split; destruct c; reflexivity.
Qed.

Lemma recoverCell_eased (r : Q) (c : TerrainCell) :
  0 <= r -> eased c (fst (recoverCell r c)).
Proof.
  intros Hr. destruct (recoverCell_spec r c) as [E [P [N _]]].
  split; [exact E |]. rewrite P, N. split.
  - intros [H0 H1]. destruct (Qgtb (pollution c) 0) eqn:Hp; [| tauto].
    split; [apply Math_max_lb_l | apply Math_max_lub; lra].
  - intros H. destruct (Qgtb (noise c) (1 # 100)) eqn:Hn;
      [| split; [exact H | apply Qle_refl]].
    split; [apply Math_max_lb_l | apply Math_max_lub; lra].
Qed.

Lemma sadd_keeps (k k' : Key) (q : list Key) : k' ∈ q -> k' ∈ sadd k q.
Proof.
  intros H. unfold sadd. destruct (decide (k ∈ q)); [exact H |].
  apply elem_of_app. left. exact H.
Qed.

Lemma sadd_in (k : Key) (q : list Key) : k ∈ sadd k q.
Proof.
  unfold sadd. destruct (decide (k ∈ q)) as [H | H]; [exact H |].
  apply elem_of_app. right. left.
Qed.

Lemma recoverAll_spec (r : Q) (cells : list (Key * TerrainCell)) :
  forall queue,
    let res := recoverAll r cells queue in
    Forall2 (fun e e' => fst e' = fst e /\ snd e' = fst (recoverCell r (snd e)))
      cells (fst res)
    /\ (forall k, k ∈ queue -> k ∈ snd res)
    /\ (forall k c, In (k, c) cells -> snd (recoverCell r c) = true ->
                    k ∈ snd res).
Proof.
  induction cells as [| [k c] rest IH]; intros queue; simpl.
  - split; [constructor |]. split; [auto | intros k c []].
  - destruct (recoverCell r c) as [c' changed] eqn:Hc.
    specialize (IH (if changed then sadd k queue else queue)).
    destruct (recoverAll r rest _) as [rest' q]. cbn [fst snd] in *.
    destruct IH as [IH1 [IH2 IH3]].
    split; [constructor; [split; [reflexivity | cbn [snd]; rewrite Hc; reflexivity] | exact IH1] |].
    split.
    + intros k0 Hk0. apply IH2. destruct changed; [apply sadd_keeps |]; exact Hk0.
    + intros k0 c0 [Hin | Hin] Hch.
      * inversion Hin; subst k0 c0. rewrite Hc in Hch. cbn [snd] in Hch.
        subst changed. apply IH2, sadd_in.
      * apply (IH3 k0 c0 Hin Hch).
Qed.

(** [naturalRecovery] with [0 <= deltaTime] changes nothing but pollution and
    noise: a positive pollution drops by [0.02 * deltaTime], not below 0; a
    noise above 0.01 drops by twice that, not below 0; every cell that had
    either is queued, and no key leaves the queue. *)
Theorem naturalRecovery_recovers (deltaTime : Q) (s : TerrainSystem) :
  0 <= deltaTime ->
  Forall2
    (fun e e' =>
       fst e' = fst e
       /\ snd e' = set_noise (set_pollution (snd e) (pollution (snd e')))
                     (noise (snd e'))
       /\ pollution (snd e')
          = (if Qgtb (pollution (snd e)) 0
             then Math_max 0 (pollution (snd e) - deltaTime * (2 # 100))
             else pollution (snd e))
       /\ noise (snd e')
          = (if Qgtb (noise (snd e)) (1 # 100)
             then Math_max 0 (noise (snd e) - deltaTime * (2 # 100) * 2)
             else noise (snd e))
       /\ (0 <= pollution (snd e) -> 0 <= pollution (snd e')
                                     /\ pollution (snd e') <= pollution (snd e))
       /\ (0 <= noise (snd e) -> 0 <= noise (snd e')
                                 /\ noise (snd e') <= noise (snd e)))
    (terrainCells s) (terrainCells (naturalRecovery deltaTime s))
  /\ (forall k, k ∈ updateQueue s -> k ∈ updateQueue (naturalRecovery deltaTime s))
  /\ (forall k c,
        In (k, c) (terrainCells s) ->
        0 < pollution c \/ 1 # 100 < noise c ->
        k ∈ updateQueue (naturalRecovery deltaTime s)).
Proof.
  intros Hdt. unfold naturalRecovery.
  pose proof (recoverAll_spec (deltaTime * (2 # 100)) (terrainCells s)
                (updateQueue s)) as H.
  destruct (recoverAll _ _ _) as [cells queue]. cbn [fst snd] in H.
  destruct H as [H1 [H2 H3]]. cbn [terrainCells updateQueue set_queue set_cells].
  split; [| split; [exact H2 |]].
  - eapply Forall2_impl; [exact H1 |]. intros e e' [Hk Hc].
    destruct (recoverCell_spec (deltaTime * (2 # 100)) (snd e)) as [E [P [N _]]].
    rewrite <- Hc in E, P, N.
    split; [exact Hk |]. split; [exact E |]. split; [exact P |].
    split; [exact N |]. rewrite P, N. split.
    + intros H0. destruct (Qgtb (pollution (snd e)) 0) eqn:Hp;
        [| split; [exact H0 | apply Qle_refl]].
      split; [apply Math_max_lb_l | apply Math_max_lub; lra].
    + intros H0. destruct (Qgtb (noise (snd e)) (1 # 100)) eqn:Hn;
        [| split; [exact H0 | apply Qle_refl]].
      split; [apply Math_max_lb_l | apply Math_max_lub; lra].
  - intros k c Hin Hor. apply (H3 k c Hin).
    destruct (recoverCell_spec (deltaTime * (2 # 100)) c) as [_ [_ [_ ->]]].
    apply orb_true_iff. destruct Hor as [Hp | Hn];
      [left | right]; apply Qltb_true; assumption.
Qed.

Lemma naturalRecovery_eased (deltaTime : Q) (s : TerrainSystem) :
  0 <= deltaTime ->
  Forall2 easedEntry (terrainCells s) (terrainCells (naturalRecovery deltaTime s)).
Proof.
  intros Hdt. unfold naturalRecovery.
  pose proof (recoverAll_spec (deltaTime * (2 # 100)) (terrainCells s)
                (updateQueue s)) as H.
  destruct (recoverAll _ _ _) as [cells queue]. cbn [fst snd] in H.
  destruct H as [H1 _]. cbn [terrainCells set_queue set_cells].
  eapply Forall2_impl; [exact H1 |]. intros e e' [Hk Hc].
  split; [exact Hk |]. rewrite Hc. apply recoverCell_eased. lra.
Qed.

(** One environmental pass with [0 <= deltaTime] (spreading, filtering by
    water, natural recovery) keeps the cells and their keys and changes
    nothing but pollution and noise; a pollution within [0, 1] stays within
    [0, 1], and a non-negative noise stays non-negative and does not grow. *)
Theorem updateEnvironment_bounded (Math_sqrt : Q -> Q) (deltaTime : Q)
  (s : TerrainSystem) :
  0 <= deltaTime ->
  Forall2
    (fun e e' =>
       fst e' = fst e
       /\ snd e' = set_noise (set_pollution (snd e) (pollution (snd e')))
                     (noise (snd e'))
       /\ (0 <= pollution (snd e) /\ pollution (snd e) <= 1 ->
           0 <= pollution (snd e') /\ pollution (snd e') <= 1)
       /\ (0 <= noise (snd e) ->
           0 <= noise (snd e') /\ noise (snd e') <= noise (snd e)))
    (terrainCells s) (terrainCells (updateEnvironment Math_sqrt deltaTime s)).
Proof.
  intros Hdt. unfold updateEnvironment.
  eapply easedEntry_trans; [apply (spreadPollution_eased deltaTime s Hdt) |].
  eapply easedEntry_trans;
    [apply (updateWaterQuality_eased Math_sqrt deltaTime _ Hdt) |].
  apply naturalRecovery_eased, Hdt.
Qed.

Lemma Forall2_carry {A : Type} (R : A -> A -> Prop) (P P' : A -> Prop)
  (l l' : list A) :
  Forall2 R l l' -> Forall P l -> (forall e e', R e e' -> P e -> P' e') ->
  Forall P' l'.
Proof.
  intros H. induction H as [| a b l l' Hab _ IH]; intros HP Himp.
  - constructor.
  - inversion HP; subst. constructor; [eapply Himp; eassumption | auto].
Qed.

Lemma updateEnvironment_bounded_witness :
  0 <= 1
  /\ Forall (fun e => 0 <= pollution (snd e) /\ pollution (snd e) <= 1)
       (terrainCells (updateEnvironment approx_sqrt 1 grid3))
  /\ pollutionAt (0, 0)%Z (updateEnvironment approx_sqrt 1 grid3) == 48 # 100.
Proof.
  split; [lra |]. split; [| vm_compute; reflexivity].
  apply (Forall2_carry _
           (fun e => 0 <= pollution (snd e) /\ pollution (snd e) <= 1) _ _ _
           (updateEnvironment_bounded approx_sqrt 1 grid3 ltac:(lra))).
  - simpl. repeat constructor; simpl; lra.
  - intros e e' [_ [_ [Hp _]]] He. apply Hp, He.
Defined.

Lemma naturalRecovery_recovers_witness :
  0 <= 5
  /\ pollutionAt (0, 0)%Z (naturalRecovery 5 grid3) == 4 # 10
  /\ (0, 0)%Z ∈ updateQueue (naturalRecovery 5 grid3).
Proof.
  split; [lra |].
  destruct (naturalRecovery_recovers 5 grid3 ltac:(lra)) as [_ [_ Hq]].
  split; [vm_compute; reflexivity |].
  apply (Hq (0, 0)%Z (plainCell 0 0 (1 # 2))).
  - simpl. do 4 right. left. reflexivity.
  - left. reflexivity.
Defined.
(** *** Queries after a change of the terrain *)

Lemma jget_map_snd (f : TerrainCell -> TerrainCell) (k : Key)
  (m : list (Key * TerrainCell)) :
  jget k (map (fun e => (fst e, f (snd e))) m) = f <$> jget k m.
Proof.
  induction m as [| [k0 c0] r IH]; simpl; [reflexivity |].
  destruct (decide (k = k0)); [reflexivity | exact IH].
Qed.

Section AreaFacts.
Variable Math_sqrt : Q -> Q.
Variable Math_exp : Q -> Q.
Variable Math_log : Q -> Q.

Lemma updateAll_loop_jget (factors : list EnvironmentalFactor) (k : Key)
  (cells : list (Key * TerrainCell)) :
  forall o queue c,
    jget k cells = Some c ->
    exists now,
      jget k (fst (fst (updateAll_loop Math_sqrt Math_exp Math_log factors cells
                          o queue)))
      = Some (calculateCellValue Math_sqrt Math_exp Math_log factors now c).
Proof.
  induction cells as [| [k0 c0] rest IH]; intros o queue c Hget; simpl in *;
    [discriminate |].
  specialize (IH (snd (Date_now o)) (sadd k0 queue) c).
  destruct (updateAll_loop _ _ _ factors rest _ _) as [[rest' o2] q2].
  cbn [fst snd jget] in *.
  destruct (decide (k = k0)) as [-> | Hne].
  - inversion Hget; subst c0. eexists. reflexivity.
  - apply IH, Hget.
Qed.

Lemma updateAll_loop_jget_none (factors : list EnvironmentalFactor) (k : Key)
  (cells : list (Key * TerrainCell)) :
  forall o queue,
    jget k cells = None ->
    jget k (fst (fst (updateAll_loop Math_sqrt Math_exp Math_log factors cells
                        o queue))) = None.
Proof.
  induction cells as [| [k0 c0] rest IH]; intros o queue Hget; simpl in *;
    [reflexivity |].
  specialize (IH (snd (Date_now o)) (sadd k0 queue)).
  destruct (updateAll_loop _ _ _ factors rest _ _) as [[rest' o2] q2].
  cbn [fst snd jget] in *.
  destruct (decide (k = k0)); [discriminate | apply IH, Hget].
Qed.

Lemma calculateCellValue_keeps (factors : list EnvironmentalFactor) (now : Q)
  (c : TerrainCell) :
  let c' := calculateCellValue Math_sqrt Math_exp Math_log factors now c in
  cell_x c' = cell_x c /\ cell_z c' = cell_z c /\ isWater c' = isWater c
  /\ isProtected c' = isProtected c
  /\ zoneRestrictions c' = zoneRestrictions c
  /\ waterDistance c' = waterDistance c
  /\ soilQuality c' = soilQuality c /\ elevation c' = elevation c
  /\ developmentCost c' = calculateDevelopmentCost c'.
Proof.
  unfold calculateCellValue.
  destruct (fold_left _ factors (0, 0, 0)) as [[pol noi] sce].
  repeat split.
Qed.

(** The flag the water scan leaves: some point is closer than 2. *)
Lemma waterScan_flag (c : TerrainCell) (pts : list Vector3) :
  forall acc,
    snd (fold_left (waterScan Math_sqrt c) pts acc) = true
    <-> snd acc = true
        \/ exists p, In p pts /\ distanceToCell Math_sqrt c p < 2.
Proof.
  induction pts as [| p pts IH]; intros acc; simpl.
  - split; [auto | intros [H | [p [[] _]]]; exact H].
  - rewrite IH. unfold waterScan at 1. cbn [snd].
    destruct (Qltb (distanceToCell Math_sqrt c p) 2) eqn:Hd.
    + apply Qltb_true in Hd. split; [| auto].
      intros _. right. exists p. auto.
    + apply Qltb_false in Hd. split.
      * intros [H | [q [Hq Hlt]]]; [left; exact H | right; exists q; auto].
      * intros [H | [q [[-> | Hq] Hlt]]]; [left; exact H | lra |].
        right. exists q. auto.
Qed.

(** After [addWaterBody] the cell answering a query is still found, at the
    same coordinates; it is water exactly when some point of a water body,
    old or new, lies closer than 2 to it; and a water cell carries the
    restriction [no_building] and cannot be developed for any zone. *)
Theorem addWaterBody_floods (points : list Vector3) (s : TerrainSystem)
  (x z : Q) (c : TerrainCell) :
  getTerrainCell s x z = Some c ->
  exists c',
    getTerrainCell (addWaterBody Math_sqrt Math_exp Math_log points s) x z
    = Some c'
    /\ cell_x c' = cell_x c /\ cell_z c' = cell_z c
    /\ (isWater c' = true
        <-> exists p, In p (concat (waterBodies s) ++ points)
                      /\ distanceToCell Math_sqrt c p < 2)
    /\ (isWater c' = true ->
        In no_building (zoneRestrictions c')
        /\ forall zone,
             canDevelop (addWaterBody Math_sqrt Math_exp Math_log points s)
               x z zone = false).
Proof.
  intros Hget. unfold getTerrainCell in Hget.
  set (s1 := set_waterBodies s (waterBodies s ++ [points])).
  set (s2 := updateWaterDistances Math_sqrt s1).
  assert (Hcs : forall s0, cellSize (updateAllTerrainValues Math_sqrt Math_exp
                                       Math_log s0) = cellSize s0).
  { intros s0. unfold updateAllTerrainValues.
    destruct (updateAll_loop _ _ _ _ _ _ _) as [[cells o] q]. reflexivity. }
  assert (H2 : jget (getCellKey (cellSize s) x z) (terrainCells s2)
               = Some (updateWaterCell Math_sqrt (waterBodies s ++ [points]) c)).
  { unfold s2, updateWaterDistances. cbn [terrainCells set_cells].
    rewrite jget_map_snd. cbn [terrainCells s1 set_waterBodies waterBodies].
    rewrite Hget. reflexivity. }
  assert (H3 : exists now,
            jget (getCellKey (cellSize s) x z)
              (terrainCells (updateAllTerrainValues Math_sqrt Math_exp Math_log s2))
            = Some (calculateCellValue Math_sqrt Math_exp Math_log
                      (environmentalFactors s2) now
                      (updateWaterCell Math_sqrt (waterBodies s ++ [points]) c))).
  { unfold updateAllTerrainValues.
    pose proof (updateAll_loop_jget (environmentalFactors s2)
                  (getCellKey (cellSize s) x z) (terrainCells s2) (oracle s2)
                  (updateQueue s2) _ H2) as [now H].
    destruct (updateAll_loop _ _ _ _ _ _ _) as [[cells o] q].
    exists now. exact H. }
  destruct H3 as [now H3].
  set (cw := updateWaterCell Math_sqrt (waterBodies s ++ [points]) c) in *.
  set (c' := calculateCellValue Math_sqrt Math_exp Math_log
               (environmentalFactors s2) now cw) in *.
  destruct (calculateCellValue_keeps (environmentalFactors s2) now cw)
    as [Kx [Kz [Kw [_ [Kr _]]]]]. fold c' in Kx, Kz, Kw, Kr.
  assert (Hflag : isWater cw = true
                  <-> exists p, In p (concat (waterBodies s) ++ points)
                                /\ distanceToCell Math_sqrt c p < 2).
  { unfold cw, updateWaterCell.
    pose proof (waterScan_flag c (concat (waterBodies s ++ [points]))
                  (PInf, false)) as Hf.
    destruct (fold_left _ _ _) as [minD w]. cbn [isWater snd] in *.
    rewrite Hf. rewrite concat_app. simpl. rewrite app_nil_r.
    split; [intros [H | H]; [discriminate | exact H] | auto]. }
  assert (Hres : isWater cw = true -> In no_building (zoneRestrictions cw)).
  { unfold cw, updateWaterCell. destruct (fold_left _ _ _) as [minD w].
    cbn [isWater zoneRestrictions]. intros ->. apply in_or_app. right. left.
    reflexivity. }
  assert (Hkey : getCellKey (cellSize (addWaterBody Math_sqrt Math_exp Math_log
                                         points s)) x z
                 = getCellKey (cellSize s) x z).
  { unfold addWaterBody. rewrite Hcs. reflexivity. }
  assert (Hxz : cell_x cw = cell_x c /\ cell_z cw = cell_z c).
  { unfold cw, updateWaterCell. destruct (fold_left _ _ _) as [minD w].
    split; reflexivity. }
  exists c'. split.
  { unfold getTerrainCell. rewrite Hkey. exact H3. }
  split; [rewrite Kx; apply Hxz |]. split; [rewrite Kz; apply Hxz |].
  split; [rewrite Kw; exact Hflag |].
  intros Hw. rewrite Kw in Hw. split; [rewrite Kr; apply Hres, Hw |].
  intros zone. unfold canDevelop, getTerrainCell. rewrite Hkey.
  fold s1 s2 in H3 |- *. unfold addWaterBody. fold s1 s2. rewrite H3.
  rewrite Kw, Hw. reflexivity.
Qed.

End AreaFacts.

Section ProtectedFacts.
Variable Math_sqrt : Q -> Q.

Lemma protectAll_jget (centre : Vector3) (rad : Q) (k : Key)
  (cells : list (Key * TerrainCell)) :
  forall queue,
    jget k (fst (protectAll Math_sqrt centre rad cells queue))
    = (fun c => if Qleb (distanceToCell Math_sqrt c centre) rad
                then protectCell c else c) <$> jget k cells.
Proof.
  induction cells as [| [k0 c0] rest IH]; intros queue; simpl; [reflexivity |].
  destruct (Qleb (distanceToCell Math_sqrt c0 centre) rad) eqn:Hd.
  - specialize (IH (sadd k0 queue)).
    destruct (protectAll _ _ _ rest _) as [rest' q]. cbn [fst jget] in *.
    destruct (decide (k = k0)); [simpl; rewrite Hd; reflexivity | exact IH].
  - specialize (IH queue).
    destruct (protectAll _ _ _ rest _) as [rest' q]. cbn [fst jget] in *.
    destruct (decide (k = k0)); [simpl; rewrite Hd; reflexivity | exact IH].
Qed.

Lemma protectAll_queue (centre : Vector3) (rad : Q)
  (cells : list (Key * TerrainCell)) :
  forall queue,
    (forall k, k ∈ queue -> k ∈ snd (protectAll Math_sqrt centre rad cells queue))
    /\ (forall k c,
          In (k, c) cells ->
          Qleb (distanceToCell Math_sqrt c centre) rad = true ->
          k ∈ snd (protectAll Math_sqrt centre rad cells queue)).
Proof.
  induction cells as [| [k0 c0] rest IH]; intros queue; simpl.
  - split; [auto | intros k c []].
  - destruct (Qleb (distanceToCell Math_sqrt c0 centre) rad) eqn:Hd.
    + specialize (IH (sadd k0 queue)).
      destruct (protectAll _ _ _ rest _) as [rest' q]. cbn [snd] in *.
      destruct IH as [IH1 IH2]. split.
      * intros k Hk. apply IH1, sadd_keeps, Hk.
      * intros k c [Hin | Hin] Hc.
        -- inversion Hin; subst. apply IH1, sadd_in.
        -- apply (IH2 k c Hin Hc).
    + specialize (IH queue).
      destruct (protectAll _ _ _ rest _) as [rest' q]. cbn [snd] in *.
      destruct IH as [IH1 IH2]. split; [exact IH1 |].
      intros k c [Hin | Hin] Hc.
      * inversion Hin; subst. congruence.
      * apply (IH2 k c Hin Hc).
Qed.

(** After [addProtectedArea] a cell within the radius is protected, carries
    [no_industrial], is queued for revaluation and cannot be developed as
    industrial; for the other zones, and for cells outside the radius, the
    answer of [canDevelop] is what it was. *)
Theorem addProtectedArea_protects (centre : Vector3) (rad : Q)
  (s : TerrainSystem) (x z : Q) (c : TerrainCell) :
  getTerrainCell s x z = Some c ->
  (distanceToCell Math_sqrt c centre <= rad ->
   exists c',
     getTerrainCell (addProtectedArea Math_sqrt centre rad s) x z = Some c'
     /\ isProtected c' = true
     /\ In no_industrial (zoneRestrictions c')
     /\ getCellKey (cellSize s) x z
        ∈ updateQueue (addProtectedArea Math_sqrt centre rad s)
     /\ canDevelop (addProtectedArea Math_sqrt centre rad s) x z industrial
        = false
     /\ forall zone, zone <> industrial ->
          canDevelop (addProtectedArea Math_sqrt centre rad s) x z zone
          = canDevelop s x z zone)
  /\ (rad < distanceToCell Math_sqrt c centre ->
      getTerrainCell (addProtectedArea Math_sqrt centre rad s) x z = Some c
      /\ forall zone,
           canDevelop (addProtectedArea Math_sqrt centre rad s) x z zone
           = canDevelop s x z zone).
Proof.
  intros Hget. unfold getTerrainCell in Hget.
  assert (Hcell : getTerrainCell (addProtectedArea Math_sqrt centre rad s) x z
                  = Some (if Qleb (distanceToCell Math_sqrt c centre) rad
                          then protectCell c else c)).
  { unfold getTerrainCell, addProtectedArea.
    cbn [terrainCells updateQueue set_protectedAreas].
    pose proof (protectAll_jget centre rad (getCellKey (cellSize s) x z)
                  (terrainCells s) (updateQueue s)) as H.
    destruct (protectAll _ _ _ _ _) as [cells q].
    cbn [cellSize terrainCells set_queue set_cells set_protectedAreas fst] in *.
    rewrite H, Hget. reflexivity. }
  assert (Hin_app : forall (r : Restriction) l l',
            bool_decide (r ∈ l ++ l') = bool_decide (r ∈ l) || bool_decide (r ∈ l')).
  { intros r l l'. destruct (bool_decide (r ∈ l)) eqn:E1; simpl.
    - apply bool_decide_eq_true in E1. apply bool_decide_eq_true.
      apply elem_of_app. left. exact E1.
    - apply bool_decide_eq_false in E1.
      destruct (bool_decide (r ∈ l')) eqn:E2.
      + apply bool_decide_eq_true in E2. apply bool_decide_eq_true.
        apply elem_of_app. right. exact E2.
      + apply bool_decide_eq_false in E2. apply bool_decide_eq_false.
        intros H. apply elem_of_app in H. tauto. }
  split.
  - intros Hd. apply Qleb_true in Hd. rewrite Hd in Hcell.
    exists (protectCell c). split; [exact Hcell |]. split; [reflexivity |].
    split.
    { cbn [protectCell zoneRestrictions]. apply in_or_app. right. left.
      reflexivity. }
    split.
    { unfold addProtectedArea.
      cbn [terrainCells updateQueue set_protectedAreas].
      pose proof (protectAll_queue centre rad (terrainCells s) (updateQueue s))
        as [_ Hq].
      destruct (protectAll _ _ _ _ _) as [cells q].
      cbn [updateQueue set_queue snd] in *.
      apply (Hq _ c); [apply jget_Some_in, Hget | exact Hd]. }
    split.
    { unfold canDevelop. rewrite Hcell. cbn [protectCell isWater zoneRestrictions].
      rewrite !Hin_app. simpl. rewrite orb_false_r, orb_true_r.
      destruct (isWater c || bool_decide (no_building ∈ zoneRestrictions c));
        reflexivity. }
    intros zone Hz. unfold canDevelop at 1. rewrite Hcell.
    unfold canDevelop, getTerrainCell. rewrite Hget.
    cbn [protectCell isWater zoneRestrictions]. rewrite !Hin_app. simpl.
    rewrite orb_false_r.
    rewrite (bool_decide_eq_false_2 _ Hz). reflexivity.
  - intros Hd. apply Qleb_false in Hd. rewrite Hd in Hcell.
    split; [exact Hcell |]. intros zone. unfold canDevelop at 1.
    rewrite Hcell. unfold canDevelop, getTerrainCell. rewrite Hget. reflexivity.
Qed.

End ProtectedFacts.
Lemma addWaterBody_floods_witness :
  getTerrainCell grid3 0 0 = Some (plainCell 0 0 (1 # 2))
  /\ forall zone,
       canDevelop (addWaterBody approx_sqrt approx_exp approx_log
                     [mkV3 0 0 0] grid3) 0 0 zone = false.
Proof.
  split; [reflexivity |].
  destruct (addWaterBody_floods approx_sqrt approx_exp approx_log [mkV3 0 0 0]
              grid3 0 0 (plainCell 0 0 (1 # 2)) eq_refl)
    as [c' [_ [_ [_ [Hw Hblock]]]]].
  apply Hblock. apply Hw. exists (mkV3 0 0 0).
  split; [left; reflexivity | reflexivity].
Defined.

Lemma addProtectedArea_protects_witness :
  getTerrainCell grid3 0 0 = Some (plainCell 0 0 (1 # 2))
  /\ canDevelop grid3 0 0 industrial = true
  /\ canDevelop (addProtectedArea approx_sqrt (mkV3 0 0 0) 1 grid3) 0 0 industrial
     = false
  /\ canDevelop (addProtectedArea approx_sqrt (mkV3 0 0 0) 1 grid3) 0 0 residential
     = true.
Proof.
  split; [reflexivity |]. split; [reflexivity |].
  destruct (addProtectedArea_protects approx_sqrt (mkV3 0 0 0) 1 grid3 0 0
              (plainCell 0 0 (1 # 2)) eq_refl) as [Hin _].
  destruct Hin as [c' [_ [_ [_ [_ [Hind Hother]]]]]];
    [unfold Qle; simpl; lia |].
  split; [exact Hind |]. rewrite Hother by discriminate. reflexivity.
Defined.

(** *** The cost of development *)

Lemma calculateBaseDevelopmentCost_floor (elev soil : Q) :
  soil <= 1 -> 1000 <= calculateBaseDevelopmentCost elev soil.
Proof.
  intros Hs. unfold calculateBaseDevelopmentCost.
  destruct (Qgtb elev 15) eqn:He.
  - apply Qltb_true in He. nra.
  - nra.
Qed.

Lemma calculateDevelopmentCost_floor (c : TerrainCell) :
  soilQuality c <= 1 -> 950 <= calculateDevelopmentCost c.
Proof.
  intros Hs. pose proof (calculateBaseDevelopmentCost_floor (elevation c) _ Hs)
    as Hb.
  unfold calculateDevelopmentCost.
  set (b := calculateBaseDevelopmentCost (elevation c) (soilQuality c)) in *.
  clearbody b.
  destruct (Qgtb (pollution c) (1 # 10)) eqn:Hp;
    [apply Qltb_true in Hp |];
    destruct (ext_ltb (waterDistance c) 10);
    destruct (isProtected c); nra.
Qed.

Section CostFacts.
Variable Math_sqrt : Q -> Q.
Variable Math_exp : Q -> Q.
Variable Math_log : Q -> Q.

(** A recompute leaves a cell whose soil quality is at most 1 with a
    development cost of at least 950, and after a full recompute of a terrain
    of such cells [getDevelopmentCost] answers at least 950 for every
    position. *)
Theorem developmentCost_floor (s : TerrainSystem) :
  Forall (fun e => soilQuality (snd e) <= 1) (terrainCells s) ->
  (forall factors now e,
     In e (terrainCells s) ->
     950 <= developmentCost
              (calculateCellValue Math_sqrt Math_exp Math_log factors now (snd e)))
  /\ forall x z,
       950 <= getDevelopmentCost
                (updateAllTerrainValues Math_sqrt Math_exp Math_log s) x z.
Proof.
  intros Hsoil. rewrite List.Forall_forall in Hsoil.
  assert (Hcell : forall factors now c,
            soilQuality c <= 1 ->
            950 <= developmentCost
                     (calculateCellValue Math_sqrt Math_exp Math_log factors now c)).
  { intros factors now c Hs.
    destruct (calculateCellValue_keeps Math_sqrt Math_exp Math_log factors now c)
      as [_ [_ [_ [_ [_ [_ [Ks [_ Kd]]]]]]]].
    rewrite Kd. apply calculateDevelopmentCost_floor. rewrite Ks. exact Hs. }
  split; [intros factors now e He; apply Hcell, Hsoil, He |].
  intros x z. unfold getDevelopmentCost, getTerrainCell.
  set (k := getCellKey _ x z).
  destruct (jget k (terrainCells (updateAllTerrainValues Math_sqrt Math_exp
                                    Math_log s))) as [c' |] eqn:E;
    [| unfold Qle; simpl; lia].
  destruct (jget k (terrainCells s)) as [c |] eqn:E0.
  - unfold updateAllTerrainValues in E.
    pose proof (updateAll_loop_jget Math_sqrt Math_exp Math_log
                  (environmentalFactors s) k (terrainCells s) (oracle s)
                  (updateQueue s) c E0) as [now H].
    destruct (updateAll_loop _ _ _ _ _ _ _) as [[cells o] q].
    cbn [terrainCells set_oracle set_queue set_cells fst] in *.
    rewrite H in E. inversion E; subst c'.
    apply Hcell. apply (Hsoil (k, c)). apply jget_Some_in, E0.
  - unfold updateAllTerrainValues in E.
    pose proof (updateAll_loop_jget_none Math_sqrt Math_exp Math_log
                  (environmentalFactors s) k (terrainCells s) (oracle s)
                  (updateQueue s) E0) as H.
    destruct (updateAll_loop _ _ _ _ _ _ _) as [[cells o] q].
    cbn [terrainCells set_oracle set_queue set_cells fst] in *.
    rewrite H in E. discriminate.
Qed.

End CostFacts.

Lemma developmentCost_floor_witness :
  Forall (fun e => soilQuality (snd e) <= 1) (terrainCells grid3)
  /\ 950 <= getDevelopmentCost
              (updateAllTerrainValues approx_sqrt approx_exp approx_log grid3) 0 0.
Proof.
  assert (H : Forall (fun e => soilQuality (snd e) <= 1) (terrainCells grid3)).
  { simpl. repeat constructor; simpl; lra. }
  split; [exact H |].
  apply (developmentCost_floor approx_sqrt approx_exp approx_log grid3 H).
Defined.

(** *** Area analysis *)

Lemma fold_max_ge (vs : list Q) :
  forall v, v <= maxOf v vs /\ forall x, In x vs -> x <= maxOf v vs.
Proof.
  unfold maxOf. induction vs as [| a vs IH]; intros v; simpl.
  - split; [apply Qle_refl | intros x []].
  - destruct (IH (Math_max v a)) as [H1 H2]. split.
    + eapply Qle_trans; [apply Math_max_lb_l | exact H1].
    + intros x [-> | Hx]; [| apply H2, Hx].
      eapply Qle_trans; [apply Math_max_lb_r | exact H1].
Qed.

Lemma fold_min_le (vs : list Q) :
  forall v, minOf v vs <= v /\ forall x, In x vs -> minOf v vs <= x.
Proof.
  unfold minOf. induction vs as [| a vs IH]; intros v; simpl.
  - split; [apply Qle_refl | intros x []].
  - destruct (IH (Math_min v a)) as [H1 H2]. split.
    + eapply Qle_trans; [exact H1 | apply Math_min_ub_l].
    + intros x [-> | Hx]; [| apply H2, Hx].
      eapply Qle_trans; [exact H1 | apply Math_min_ub_r].
Qed.

Lemma Qsum_bounds (lo hi : Q) (l : list Q) :
  (forall x, In x l -> lo <= x /\ x <= hi) ->
  ofNat (List.length l) * lo <= Qsum l /\ Qsum l <= ofNat (List.length l) * hi.
Proof.
  induction l as [| a l IH]; intros H.
  - simpl. change (ofNat 0) with 0. lra.
  - destruct (IH (fun x Hx => H x (or_intror Hx))) as [I1 I2].
    destruct (H a (or_introl eq_refl)) as [A1 A2].
    assert (HS : ofNat (List.length (a :: l)) == ofNat (List.length l) + 1).
    { unfold ofNat. simpl List.length. rewrite Nat2Z.inj_succ. unfold Z.succ.
      rewrite inject_Z_plus. reflexivity. }
    rewrite HS. simpl Qsum. lra.
Qed.

Lemma average_bounds (lo hi : Q) (l : list Q) :
  l <> [] -> (forall x, In x l -> lo <= x /\ x <= hi) ->
  lo <= average l /\ average l <= hi.
Proof.
  intros Hne H. unfold average.
  pose proof (fold_left_sum (fun x : Q => x) l 0) as Hs. rewrite map_id in Hs.
  destruct (Qsum_bounds lo hi l H) as [B1 B2].
  assert (Hn : 0 < ofNat (List.length l)).
  { apply ofNat_pos. destruct l; [contradiction | simpl; lia]. }
  rewrite Hs. split.
  - apply Qle_shift_div_l; [exact Hn | lra].
  - apply Qle_shift_div_r; [exact Hn | lra].
Qed.

Lemma getZoneSuitability_unit (cell : TerrainCell) (zone : ZoneType) :
  0 <= getZoneSuitability cell zone /\ getZoneSuitability cell zone <= 1.
Proof.
  unfold getZoneSuitability. destruct zone;
    try apply clamp_unit.
  destruct (waterDistance cell); [apply clamp_unit | split; lra].
Qed.

(** [analyzeArea] of an area without cells is all zeros.  Otherwise the
    average value lies between the least and the greatest value, the water
    coverage and every zone suitability lie within [0, 1], and the
    environmental health is at least 0, and at most 100 when no cell of the
    area has negative pollution. *)
Theorem analyzeArea_bounds (Math_sqrt : Q -> Q) (s : TerrainSystem)
  (centre : Vector3) (rad : Q) :
  let area := getCellsInRadius Math_sqrt (terrainCells s) centre rad in
  let a := analyzeArea Math_sqrt s centre rad in
  (area = [] -> a = mkAnalysis 0 0 0 [] 0 0 0 0)
  /\ (area <> [] ->
      minValue a <= averageValue a /\ averageValue a <= maxValue a
      /\ (forall c, In c area ->
            minValue a <= currentValue c /\ currentValue c <= maxValue a)
      /\ 0 <= waterCoverage a /\ waterCoverage a <= 1
      /\ map fst (developmentSuitability a)
         = [residential; commercial; industrial; office]
      /\ (forall zone v, In (zone, v) (developmentSuitability a) ->
            0 <= v /\ v <= 1)
      /\ 0 <= environmentalHealth a
      /\ (Forall (fun c => 0 <= pollution c) area ->
          environmentalHealth a <= 100)).
Proof.
  intros area a. unfold a, analyzeArea. fold area.
  destruct area as [| c0 cells] eqn:Harea.
  - split; [reflexivity | intros H; contradiction].
  - split; [intros H; discriminate | intros _].
    change (map currentValue (c0 :: cells))
      with (currentValue c0 :: map currentValue cells).
    cbn [averageValue maxValue minValue waterCoverage developmentSuitability
         environmentalHealth].
    set (vs := map currentValue cells).
    destruct (fold_max_ge vs (currentValue c0)) as [M1 M2].
    destruct (fold_min_le vs (currentValue c0)) as [N1 N2].
    assert (Hin : forall x, In x (currentValue c0 :: vs) ->
              minOf (currentValue c0) vs <= x /\ x <= maxOf (currentValue c0) vs).
    { intros x [<- | Hx]; [split; assumption | split; [apply N2 | apply M2]; exact Hx]. }
    destruct (average_bounds _ _ (currentValue c0 :: vs) ltac:(discriminate) Hin)
      as [A1 A2].
    split; [exact A1 |]. split; [exact A2 |]. split.
    { intros c Hc. apply Hin. destruct Hc as [<- | Hc]; [left; reflexivity |].
      right. apply in_map, Hc. }
    assert (Hlen : 0 < ofNat (List.length (c0 :: cells)))
      by (apply ofNat_pos; simpl; lia).
    split.
    { apply Qle_shift_div_l; [exact Hlen |].
      pose proof (ofNat_nonneg (List.length (List.filter isWater (c0 :: cells)))).
      lra. }
    split.
    { apply Qle_shift_div_r; [exact Hlen |].
      assert (Hle : (List.length (List.filter isWater (c0 :: cells))
                     <= List.length (c0 :: cells))%nat)
        by apply List.filter_length_le.
      unfold ofNat. rewrite Qmult_1_l. rewrite <- Zle_Qle. lia. }
    split; [reflexivity |]. split.
    { intros zone v Hv. simpl in Hv.
      assert (Hs : forall zn,
                0 <= match List.filter
                             (fun cell => canDevelop s (cell_x cell) (cell_z cell) zn)
                             (c0 :: cells) with
                     | [] => 0
                     | _ :: _ =>
                         fold_left (fun sum cell => sum + getZoneSuitability cell zn)
                           (List.filter
                              (fun cell => canDevelop s (cell_x cell) (cell_z cell) zn)
                              (c0 :: cells)) 0
                         / ofNat (List.length
                                    (List.filter
                                       (fun cell =>
                                          canDevelop s (cell_x cell) (cell_z cell) zn)
                                       (c0 :: cells)))
                     end
                /\ match List.filter
                           (fun cell => canDevelop s (cell_x cell) (cell_z cell) zn)
                           (c0 :: cells) with
                   | [] => 0
                   | _ :: _ =>
                       fold_left (fun sum cell => sum + getZoneSuitability cell zn)
                         (List.filter
                            (fun cell => canDevelop s (cell_x cell) (cell_z cell) zn)
                            (c0 :: cells)) 0
                       / ofNat (List.length
                                  (List.filter
                                     (fun cell =>
                                        canDevelop s (cell_x cell) (cell_z cell) zn)
                                     (c0 :: cells)))
                   end <= 1).
      { intros zn.
        set (suit := List.filter _ (c0 :: cells)).
        destruct suit as [| d ds] eqn:Hsuit; [split; lra |].
        rewrite <- Hsuit.
        pose proof (fold_left_sum (fun cell => getZoneSuitability cell zn) suit 0)
          as Hsum.
        assert (Hb : forall x, In x (map (fun cell => getZoneSuitability cell zn) suit)
                               -> 0 <= x /\ x <= 1).
        { intros x Hx. apply in_map_iff in Hx. destruct Hx as [cl [<- _]].
          apply getZoneSuitability_unit. }
        destruct (Qsum_bounds 0 1 _ Hb) as [B1 B2]. rewrite length_map in B1, B2.
        assert (Hn : 0 < ofNat (List.length suit)).
        { apply ofNat_pos. rewrite Hsuit. simpl. lia. }
        rewrite Hsum. split.
        - apply Qle_shift_div_l; [exact Hn | lra].
        - apply Qle_shift_div_r; [exact Hn | lra]. }
      destruct Hv as [Hv | [Hv | [Hv | [Hv | []]]]]; inversion Hv; subst;
        apply Hs. }
    split.
    { assert (0 <= Math_max 0 (1 - average (map pollution (c0 :: cells))))
        by apply Math_max_lb_l.
      lra. }
    intros Hpol.
    assert (Hp : 0 <= average (map pollution (c0 :: cells))).
    { set (l := map pollution (c0 :: cells)).
      assert (Hall : Forall (fun v => 0 <= v) l).
      { unfold l. rewrite List.Forall_forall in *. intros v Hv.
        apply in_map_iff in Hv. destruct Hv as [c [<- Hc]]. apply Hpol, Hc. }
      unfold average.
      pose proof (fold_left_sum (fun x : Q => x) l 0) as Hs. rewrite map_id in Hs.
      pose proof (Qsum_nonneg l Hall).
      rewrite Hs. apply Qle_shift_div_l; [| lra].
      apply ofNat_pos. unfold l. simpl. lia. }
    assert (Math_max 0 (1 - average (map pollution (c0 :: cells))) <= 1)
      by (apply Math_max_lub; lra).
    lra.
Qed.

Lemma analyzeArea_bounds_witness :
  getCellsInRadius approx_sqrt (terrainCells grid3) (mkV3 0 0 0) 100 <> []
  /\ minValue (analyzeArea approx_sqrt grid3 (mkV3 0 0 0) 100)
     <= averageValue (analyzeArea approx_sqrt grid3 (mkV3 0 0 0) 100)
  /\ averageValue (analyzeArea approx_sqrt grid3 (mkV3 0 0 0) 100)
     <= maxValue (analyzeArea approx_sqrt grid3 (mkV3 0 0 0) 100).
Proof.
  assert (H : getCellsInRadius approx_sqrt (terrainCells grid3) (mkV3 0 0 0) 100
              <> []) by (vm_compute; discriminate).
  split; [exact H |].
  destruct (analyzeArea_bounds approx_sqrt grid3 (mkV3 0 0 0) 100) as [_ Hb].
  destruct (Hb H) as [H1 [H2 _]]. split; assumption.
Defined.

End Terrain.

(** ** EconomicEngine (systems/economics) *)

Module Economics.
Import Js Types.
Open Scope Q_scope.

Inductive TradeGoodType : Type :=
  raw_materials | manufactured_goods | luxury_items | food | energy | technology.

#[global] Instance TradeGoodType_eq_dec : EqDecision TradeGoodType.
Proof. solve_decision. Defined.

Record TradeGood : Type := mkGood {
  g_id : string;
  g_name : string;
  g_type : TradeGoodType;
  basePrice : Q;
  currentPrice : Q;
  demand : Q;
  supply : Q;
  quality : Q;
  imported : bool
}.

(** The fields of [EconomicData] the engine uses.  [demandByZone] and
    [supplyByZone] are the two tables of [marketConditions], which the engine
    reads and writes through [economicData]. *)
Record EconomicData : Type := mkData {
  funds : Q;
  income : Q;
  expenses : Q;
  netIncome : Q;
  residentialTaxRate : Q;
  commercialTaxRate : Q;
  industrialTaxRate : Q;
  officeTaxRate : Q;
  totalTaxRevenue : Q;
  totalLoans : Q;
  creditRating : Q;
  cityLevel : Q;
  wealth_low : Q;
  wealth_medium : Q;
  wealth_high : Q;
  demandByZone : ZoneType -> WealthLevel -> Q;
  supplyByZone : ZoneType -> WealthLevel -> Q
}.

Record Business : Type := mkBusiness {
  biz_id : string;
  biz_type : string;
  buildingId : string;
  accessibility : Q;
  footTraffic : Q;
  prestige : Q;
  revenue : Q;
  operatingCosts : Q;
  profit : Q;
  rent : Q;
  employees : Q;
  maxEmployees : Q;
  wagesPerEmployee : Q;
  efficiency : Q;
  customerSatisfaction : Q;
  isOperational : bool;
  daysSinceProfit : Q;
  bankruptcyRisk : Q
}.

Record EconomicReport : Type := mkReport {
  gdp : Q;
  unemployment : Q;
  inflation : Q;
  tradeBalance : Q;
  governmentRevenue : Q;
  governmentExpenses : Q;
  cityRating : string
}.

Record EconomicEngine : Type := mkEngine {
  economicData : EconomicData;
  businesses : list Business;
  tradeGoods : list (string * TradeGood);
  inflationRate : Q;
  interestRate : Q;
  oracle : Oracle
}.

Definition set_data (e : EconomicEngine) (d : EconomicData) : EconomicEngine :=
  mkEngine d (businesses e) (tradeGoods e) (inflationRate e) (interestRate e)
    (oracle e).

Definition set_businesses (e : EconomicEngine) (bs : list Business)
  : EconomicEngine :=
  mkEngine (economicData e) bs (tradeGoods e) (inflationRate e) (interestRate e)
    (oracle e).

(** [initializeTradeGoods]: the fixed catalogue, every good imported. *)
Definition baseGoods : list (string * string * TradeGoodType * Q) :=
  [("food", "Food Products", food, 100);
   ("materials", "Raw Materials", raw_materials, 200);
   ("manufactured", "Manufactured Goods", manufactured_goods, 300);
   ("luxury", "Luxury Items", luxury_items, 500);
   ("energy", "Energy", energy, 150);
   ("technology", "Technology", technology, 400)]%string.

Definition initializeTradeGoods : list (string * TradeGood) :=
  fold_left
    (fun m (g : string * string * TradeGoodType * Q) =>
       let '(id, name, ty, price) := g in
       jset id (mkGood id name ty price price 100 100 1 true) m)
    baseGoods [].

(** The constructor. *)
Definition newEngine (initialData : EconomicData) (o : Oracle) : EconomicEngine :=
  mkEngine initialData [] initializeTradeGoods (2 # 100) (5 # 100) o.

Definition isCitizen (a : Agent) : bool := bool_decide (a_type a = citizen).
Definition isEmployed (a : Agent) : bool := bool_decide (employment a = employed).

(** [updateMarketConditions]. *)
Definition updateMarketConditions (buildings : list Building)
  (agents : list Agent) (e : EconomicEngine) : EconomicEngine :=
  let residents := List.filter isCitizen agents in
  let population := ofNat (List.length residents) in
  let employedCitizens := ofNat (List.length (List.filter isEmployed residents)) in
  let unemploymentRate :=
    if Qgtb population 0 then (population - employedCitizens) / population else 0 in
  let d := economicData e in
  let newDemand (zone : ZoneType) (wealth : WealthLevel) : Q :=
    let dem := population * (1 # 100) in
    let dem := dem * (1 - unemploymentRate * (1 # 2)) in
    let wealthFactor :=
      match wealth with low => 6 # 10 | medium => 1 | high => 18 # 10 end in
    let dem := dem * wealthFactor in
    let dem :=
      match zone with
      | residential => dem * (12 # 10)
      | commercial =>
          dem * ((8 # 10) + (employedCitizens / Math_max 1 population) * (4 # 10))
      | industrial => dem * (6 # 10)
      | office => dem * ((7 # 10) + (cityLevel d - 1) * (1 # 10))
      end in
    Math_max 0 dem in
  let newSupply (zone : ZoneType) (wealth : WealthLevel) : Q :=
    let relevantBuildings :=
      List.filter
        (fun b => bool_decide (zoneType b = Some zone)
                  && bool_decide (wealthLevel b = wealth)
                  && bool_decide (status b = operational)) buildings in
    fold_left (fun total b => total + num_or (capacity b) 0) relevantBuildings 0 in
  set_data e
    (mkData (funds d) (income d) (expenses d) (netIncome d)
       (residentialTaxRate d) (commercialTaxRate d) (industrialTaxRate d)
       (officeTaxRate d) (totalTaxRevenue d) (totalLoans d) (creditRating d)
       (cityLevel d) (wealth_low d) (wealth_medium d) (wealth_high d)
       newDemand newSupply).

(** The [typeMultipliers] table of [calculateBusinessRevenue]. *)
Definition typeMultipliers (ty : string) : option Q :=
  if String.eqb ty "retail_store" then Some 1
  else if String.eqb ty "restaurant" then Some (13 # 10)
  else if String.eqb ty "service_shop" then Some (8 # 10)
  else if String.eqb ty "entertainment" then Some (15 # 10)
  else if String.eqb ty "manufacturing" then Some 2
  else if String.eqb ty "warehouse" then Some (6 # 10)
  else if String.eqb ty "processing_plant" then Some (18 # 10)
  else if String.eqb ty "logistics" then Some (11 # 10)
  else if String.eqb ty "consulting" then Some (14 # 10)
  else if String.eqb ty "tech_company" then Some (22 # 10)
  else if String.eqb ty "financial_services" then Some (16 # 10)
  else if String.eqb ty "corporate_office" then Some (12 # 10)
  else None.

(** The [supplyCosts] table of [calculateOperatingCosts]. *)
Definition supplyCosts (ty : string) : option Q :=
  if String.eqb ty "retail_store" then Some (4 # 10)
  else if String.eqb ty "restaurant" then Some (6 # 10)
  else if String.eqb ty "service_shop" then Some (2 # 10)
  else if String.eqb ty "manufacturing" then Some (5 # 10)
  else if String.eqb ty "warehouse" then Some (1 # 10)
  else if String.eqb ty "processing_plant" then Some (7 # 10)
  else if String.eqb ty "office" then Some (1 # 10)
  else None.

(** A string is truthy when it is present and not empty. *)
Definition truthy (s : option string) : bool :=
  match s with
  | Some s => negb (String.eqb s "")
  | None => false
  end.

Section WithSqrt.
Variable Math_sqrt : Q -> Q.

(** [calculateBusinessRevenue]. *)
Definition calculateBusinessRevenue (e : EconomicEngine) (business : Business)
  (building : Building) (agents : list Agent) : Q :=
  let baseRevenue := 1000 in
  let baseRevenue := baseRevenue * (1 + accessibility business * (3 # 10)) in
  let baseRevenue := baseRevenue * (1 + footTraffic business * (5 # 10)) in
  let baseRevenue := baseRevenue * (1 + prestige business * (2 # 10)) in
  let baseRevenue :=
    match zoneType building with
    | Some zone =>
        let dem :=
          num_or (demandByZone (economicData e) zone (wealthLevel building)) 1 in
        baseRevenue * Math_max (1 # 10) (Math_min 2 (dem / 100))
    | None => baseRevenue
    end in
  let nearbyResidents :=
    ofNat (List.length
             (List.filter
                (fun agent =>
                   isCitizen agent && truthy (homeId agent)
                   && Qltb (distanceTo Math_sqrt (b_position building)
                              (a_position agent)) 20)
                agents)) in
  let baseRevenue := baseRevenue * (1 + nearbyResidents * (1 # 100)) in
  baseRevenue * opt_or (typeMultipliers (biz_type business)) 1.

End WithSqrt.

(** [calculateOperatingCosts]. *)
Definition calculateOperatingCosts (business : Business) (building : Building)
  : Q :=
  let costs := 500 in
  let costs :=
    costs + num_or (rent business) (property_value building * (1 # 1000)) in
  let costs := costs + capacity building * 2 in
  let costs := costs + employees business * wagesPerEmployee business / 30 in
  let supplyMultiplier := opt_or (supplyCosts (biz_type business)) (3 # 10) in
  costs + revenue business * supplyMultiplier.

(** [getSupplyDemandRatio]. *)
Definition getSupplyDemandRatio (e : EconomicEngine) (zone : ZoneType)
  (wealth : WealthLevel) : Q :=
  let sup := num_or (supplyByZone (economicData e) zone wealth) 1 in
  let dem := num_or (demandByZone (economicData e) zone wealth) 1 in
  sup / Math_max 1 dem.

Definition worksAt (business : Business) (agent : Agent) : bool :=
  bool_decide (workplaceId agent = Some (buildingId business))
  && isEmployed agent.

(** The [skillLevels] table of [calculateAverageSkillLevel]. *)
Definition skillLevel (ed : EducationLevel) : Q :=
  match ed with
  | edu_none => 2 # 10
  | edu_primary => 4 # 10
  | edu_secondary => 6 # 10
  | edu_university => 8 # 10
  | edu_advanced => 1
  end.

(** [calculateAverageSkillLevel]. *)
Definition calculateAverageSkillLevel (business : Business) (agents : list Agent)
  : Q :=
  let emps := List.filter (worksAt business) agents in
  match emps with
  | [] => 3 # 10
  | _ =>
      fold_left (fun sum em => sum + skillLevel (education em)) emps 0
      / ofNat (List.length emps)
  end.

(** [calculateBusinessEfficiency]. *)
Definition calculateBusinessEfficiency (e : EconomicEngine) (business : Business)
  (building : Building) (agents : list Agent) : Q :=
  let eff := 1 # 2 in
  let eff := eff + accessibility business * (2 # 10) in
  let eff := eff + prestige business * (15 # 100) in
  let skillFactor := calculateAverageSkillLevel business agents in
  let eff := eff + skillFactor * (3 # 10) in
  let eff := eff + (property_value building / 100000) * (2 # 10) in
  let eff :=
    match zoneType building with
    | Some zone =>
        let supplyDemandRatio :=
          getSupplyDemandRatio e zone (wealthLevel building) in
        eff + Math_max (- (2 # 10))
                (Math_min (2 # 10) ((1 - supplyDemandRatio) * (2 # 10)))
    | None => eff
    end in
  Math_max (1 # 10) (Math_min (15 # 10) eff).

(** [calculateCustomerSatisfaction]. *)
Definition calculateCustomerSatisfaction (business : Business)
  (building : Building) : Q :=
  let sat := 7 # 10 in
  let sat := sat + efficiency business * (2 # 10) in
  let sat := sat + (property_value building / 50000) * (1 # 10) in
  let sat := sat + (employees business / maxEmployees business) * (2 # 10) in
  Math_max 0 (Math_min 1 sat).

(** [updateBusinessEmployment]. *)
Definition updateBusinessEmployment (business : Business) (building : Building)
  (agents : list Agent) : Business :=
  let currentEmployees :=
    ofNat (List.length (List.filter (worksAt business) agents)) in
  let optimalEmployees :=
    ofZ (Math_floor (maxEmployees business * efficiency business * (8 # 10))) in
  let maxEmployees' :=
    if Qltb currentEmployees optimalEmployees && Qgtb (profit business) 0
    then Math_min (maxEmployees business + 1) (num_or (capacity building) 50)
    else maxEmployees business in
  mkBusiness (biz_id business) (biz_type business) (buildingId business)
    (accessibility business) (footTraffic business) (prestige business)
    (revenue business) (operatingCosts business) (profit business)
    (rent business) currentEmployees maxEmployees' (wagesPerEmployee business)
    (efficiency business) (customerSatisfaction business)
    (isOperational business) (daysSinceProfit business)
    (bankruptcyRisk business).

Definition set_isOperational (b : Business) (v : bool) : Business :=
  mkBusiness (biz_id b) (biz_type b) (buildingId b) (accessibility b)
    (footTraffic b) (prestige b) (revenue b) (operatingCosts b) (profit b)
    (rent b) (employees b) (maxEmployees b) (wagesPerEmployee b) (efficiency b)
    (customerSatisfaction b) v (daysSinceProfit b) (bankruptcyRisk b).

Definition set_financials (b : Business) (rev costs prof : Q) : Business :=
  mkBusiness (biz_id b) (biz_type b) (buildingId b) (accessibility b)
    (footTraffic b) (prestige b) rev costs prof
    (rent b) (employees b) (maxEmployees b) (wagesPerEmployee b) (efficiency b)
    (customerSatisfaction b) (isOperational b) (daysSinceProfit b)
    (bankruptcyRisk b).

Definition set_efficiency (b : Business) (v : Q) : Business :=
  mkBusiness (biz_id b) (biz_type b) (buildingId b) (accessibility b)
    (footTraffic b) (prestige b) (revenue b) (operatingCosts b) (profit b)
    (rent b) (employees b) (maxEmployees b) (wagesPerEmployee b) v
    (customerSatisfaction b) (isOperational b) (daysSinceProfit b)
    (bankruptcyRisk b).

Definition set_customerSatisfaction (b : Business) (v : Q) : Business :=
  mkBusiness (biz_id b) (biz_type b) (buildingId b) (accessibility b)
    (footTraffic b) (prestige b) (revenue b) (operatingCosts b) (profit b)
    (rent b) (employees b) (maxEmployees b) (wagesPerEmployee b) (efficiency b)
    v (isOperational b) (daysSinceProfit b) (bankruptcyRisk b).

Definition set_risk (b : Business) (days risk : Q) : Business :=
  mkBusiness (biz_id b) (biz_type b) (buildingId b) (accessibility b)
    (footTraffic b) (prestige b) (revenue b) (operatingCosts b) (profit b)
    (rent b) (employees b) (maxEmployees b) (wagesPerEmployee b) (efficiency b)
    (customerSatisfaction b) (isOperational b) days risk.

(** [buildings.find(b => b.id === business.buildingId)]. *)
Definition findBuilding (buildings : list Building) (id : string)
  : option Building :=
  List.find (fun b => String.eqb (b_id b) id) buildings.

Section WithSqrt2.
Variable Math_sqrt : Q -> Q.

(** The body of the [businesses.forEach] of [updateBusinesses]. *)
Definition updateBusiness (e : EconomicEngine) (buildings : list Building)
  (agents : list Agent) (deltaTime : Q) (business : Business) : Business :=
  match findBuilding buildings (buildingId business) with
  | None => set_isOperational business false
  | Some building =>
      if negb (bool_decide (status building = operational)) then
        set_isOperational business false
      else
        let rev := calculateBusinessRevenue Math_sqrt e business building agents in
        let costs := calculateOperatingCosts business building in
        let revenue' := rev * deltaTime * 24 in
        let operatingCosts' := costs * deltaTime * 24 in
        let business :=
          set_financials business revenue' operatingCosts'
            (revenue' - operatingCosts') in
        let business :=
          set_efficiency business
            (calculateBusinessEfficiency e business building agents) in
        let business :=
          set_customerSatisfaction business
            (calculateCustomerSatisfaction business building) in
        let days :=
          if Qgtb (profit business) 0 then 0
          else daysSinceProfit business + deltaTime in
        let business := set_risk business days (Math_min 1 (days / 30)) in
        updateBusinessEmployment business building agents
  end.

(** [updateBusinesses]: every business object is updated in place.  The
    register is a list of values, one per entry, and the pass updates each
    entry once: this is the [forEach] of the source on a register in which
    no object occurs twice. *)
Definition updateBusinesses (buildings : list Building) (agents : list Agent)
  (deltaTime : Q) (e : EconomicEngine) : EconomicEngine :=
  set_businesses e
    (map (updateBusiness e buildings agents deltaTime) (businesses e)).

End WithSqrt2.

Definition set_market (g : TradeGood) (sup dem price : Q) : TradeGood :=
  mkGood (g_id g) (g_name g) (g_type g) (basePrice g) price dem sup (quality g)
    (imported g).

(** The body of the [tradeGoods.forEach] of [updateTradeGoods]; [r] is the
    value [Math.random()] returns for this good. *)
Definition updateTradeGood (e : EconomicEngine) (r : Q) (good : TradeGood)
  : TradeGood :=
  let supply' :=
    if bool_decide (g_type good = manufactured_goods) then
      let industrialOutput :=
        fold_left (fun sum b => sum + efficiency b)
          (List.filter
             (fun b => includes (biz_type b) "manufacturing" && isOperational b)
             (businesses e)) 0 in
      Math_max 50 (80 + industrialOutput * 10)
    else supply good in
  let d := economicData e in
  let populationFactor :=
    wealth_low d * (1 # 2) + wealth_medium d * 1 + wealth_high d * (15 # 10) in
  let demand' := Math_max 20 (populationFactor + r * 20 - 10) in
  let supplyDemandRatio := supply' / Math_max 1 demand' in
  let priceMultiplier := Math_max (1 # 2) (Math_min 2 (2 - supplyDemandRatio)) in
  set_market good supply' demand'
    (ofZ (Math_round (basePrice good * priceMultiplier))).

Fixpoint updateTradeGoods_loop (e : EconomicEngine)
  (goods : list (string * TradeGood)) (o : Oracle)
  : list (string * TradeGood) * Oracle :=
  match goods with
  | [] => ([], o)
  | (k, g) :: rest =>
      let (r, o1) := Math_random o in
      let (rest', o2) := updateTradeGoods_loop e rest o1 in
      ((k, updateTradeGood e r g) :: rest', o2)
  end.

(** [updateTradeGoods]. *)
Definition updateTradeGoods (e : EconomicEngine) : EconomicEngine :=
  let (goods, o) := updateTradeGoods_loop e (tradeGoods e) (oracle e) in
  mkEngine (economicData e) (businesses e) goods (inflationRate e)
    (interestRate e) o.

(** [getTaxRate]. *)
Definition getTaxRate (e : EconomicEngine) (zone : ZoneType) : Q :=
  let d := economicData e in
  num_or
    (match zone with
     | residential => residentialTaxRate d
     | commercial => commercialTaxRate d
     | industrial => industrialTaxRate d
     | office => officeTaxRate d
     end) 10.

(** [updateTaxation]. *)
Definition updateTaxation (buildings : list Building) (e : EconomicEngine)
  : EconomicEngine :=
  let totalRevenue :=
    fold_left
      (fun total building =>
         match zoneType building with
         | Some zone =>
             if bool_decide (status building = operational) then
               let taxRate := getTaxRate e zone / 100 in
               let monthlyTax := property_value building * taxRate / 12 in
               total + monthlyTax / 30
             else total
         | None => total
         end) buildings 0 in
  let totalRevenue :=
    fold_left
      (fun total business =>
         if isOperational business && Qgtb (profit business) 0
         then total + profit business * (25 # 100) else total)
      (businesses e) totalRevenue in
  let d := economicData e in
  set_data e
    (mkData (funds d) totalRevenue (expenses d) (netIncome d)
       (residentialTaxRate d) (commercialTaxRate d) (industrialTaxRate d)
       (officeTaxRate d) totalRevenue (totalLoans d) (creditRating d)
       (cityLevel d) (wealth_low d) (wealth_medium d) (wealth_high d)
       (demandByZone d) (supplyByZone d)).

(** [updateEconomicIndicators]. *)
Definition updateEconomicIndicators (e : EconomicEngine) : EconomicEngine :=
  let (r, o) := Math_random (oracle e) in
  let infl := inflationRate e + (r - (1 # 2)) * (1 # 1000) in
  let infl := Math_max 0 (Math_min (1 # 10) infl) in
  let totalWealth :=
    fold_left (fun sum b => sum + Math_max 0 (profit b)) (businesses e) 0 in
  let d := economicData e in
  let d :=
    if Qgtb totalWealth 0 then
      let lo := Math_max 30 (60 - totalWealth * (1 # 100)) in
      let hi := Math_min 30 (10 + totalWealth * (5 # 1000)) in
      mkData (funds d) (income d) (expenses d) (netIncome d)
        (residentialTaxRate d) (commercialTaxRate d) (industrialTaxRate d)
        (officeTaxRate d) (totalTaxRevenue d) (totalLoans d) (creditRating d)
        (cityLevel d) lo (100 - lo - hi) hi (demandByZone d) (supplyByZone d)
    else d in
  mkEngine d (businesses e) (tradeGoods e) infl (interestRate e) o.

(** [updateLoansAndInterest]. *)
Definition updateLoansAndInterest (deltaTime : Q) (e : EconomicEngine)
  : EconomicEngine :=
  let d := economicData e in
  if Qgtb (totalLoans d) 0 then
    let dailyInterest := (totalLoans d * interestRate e) / 365 in
    let expenses' := expenses d + dailyInterest * deltaTime in
    set_data e
      (mkData (funds d) (income d) expenses' (income d - expenses')
         (residentialTaxRate d) (commercialTaxRate d) (industrialTaxRate d)
         (officeTaxRate d) (totalTaxRevenue d) (totalLoans d) (creditRating d)
         (cityLevel d) (wealth_low d) (wealth_medium d) (wealth_high d)
         (demandByZone d) (supplyByZone d))
  else e.

(** [updateCityRating]. *)
Definition updateCityRating (e : EconomicEngine) : EconomicEngine :=
  let d := economicData e in
  let financialHealth := Math_max 0 (Math_min 1 (funds d / 100000)) in
  let economicGrowth :=
    ofNat (List.length
             (List.filter (fun b => isOperational b && Qgtb (profit b) 0)
                (businesses e)))
    / Math_max 1 (ofNat (List.length (businesses e))) in
  let debtRatio := totalLoans d / Math_max 1 (funds d) in
  let score :=
    (financialHealth * (4 # 10) + economicGrowth * (4 # 10)
     - Math_min 1 debtRatio * (2 # 10)) * 100 in
  let rating :=
    if Qgeb score 80 then 100
    else if Qgeb score 60 then 80
    else if Qgeb score 40 then 60
    else 40 in
  set_data e
    (mkData (funds d) (income d) (expenses d) (netIncome d)
       (residentialTaxRate d) (commercialTaxRate d) (industrialTaxRate d)
       (officeTaxRate d) (totalTaxRevenue d) (totalLoans d) rating
       (cityLevel d) (wealth_low d) (wealth_medium d) (wealth_high d)
       (demandByZone d) (supplyByZone d)).

Definition cityRatings : list string :=
  ["AAA"; "AA"; "A"; "BBB"; "BB"; "B"; "CCC"]%string.

(** The two sums of [generateEconomicReport] over the values of
    [tradeGoods]. *)
Definition exportValue (goods : list TradeGood) : Q :=
  fold_left
    (fun sum g => sum + (if negb (imported g) then supply g * currentPrice g else 0))
    goods 0.

Definition importValue (goods : list TradeGood) : Q :=
  fold_left
    (fun sum g => sum + (if imported g then demand g * currentPrice g else 0))
    goods 0.

(** [generateEconomicReport]. *)
Definition generateEconomicReport (agents : list Agent) (e : EconomicEngine)
  : EconomicReport :=
  let population := ofNat (List.length (List.filter isCitizen agents)) in
  let employedPopulation :=
    ofNat (List.length
             (List.filter (fun a => isCitizen a && isEmployed a) agents)) in
  let unemployment' :=
    if Qgtb population 0
    then (population - employedPopulation) / population * 100 else 0 in
  let gdp' :=
    fold_left (fun sum b => sum + (if isOperational b then revenue b else 0))
      (businesses e) 0 * 365 in
  let goods := map snd (tradeGoods e) in
  let tradeBalance' := exportValue goods - importValue goods in
  let ratingIndex :=
    Math_floor ((creditRating (economicData e) / 100)
                * ofNat (List.length cityRatings - 1)) in
  let cityRating' :=
    if (ratingIndex <? 0)%Z then "CCC"%string
    else match nth_error cityRatings (Z.to_nat ratingIndex) with
         | Some r => r
         | None => "CCC"%string
         end in
  mkReport gdp' unemployment' (inflationRate e * 100) tradeBalance'
    (income (economicData e)) (expenses (economicData e)) cityRating'.

Section WithSqrt3.
Variable Math_sqrt : Q -> Q.

(** [updateEconomy]. *)
Definition updateEconomy (deltaTime : Q) (buildings : list Building)
  (agents : list Agent) (e : EconomicEngine) : EconomicReport * EconomicEngine :=
  let e := updateMarketConditions buildings agents e in
  let e := updateBusinesses Math_sqrt buildings agents deltaTime e in
  let e := updateTradeGoods e in
  let e := updateTaxation buildings e in
  let e := updateEconomicIndicators e in
  let e := updateLoansAndInterest deltaTime e in
  let e := updateCityRating e in
  (generateEconomicReport agents e, e).

End WithSqrt3.

(** *** The divisors of a pass *)

(** Every [/] that [updateEconomy] evaluates, function by function: the
    value of each right operand, in the order of evaluation.  A quotient
    behind a guard contributes its divisor only when the guard lets it be
    evaluated. *)

(** [updateMarketConditions]: [(population - employedCitizens) / population]
    behind [population > 0]; then, for zone [commercial] and each of the
    three wealth levels,
    [employedCitizens / Math.max(1, population)]. *)
Definition divisors_updateMarketConditions (agents : list Agent) : list Q :=
  let residents := List.filter isCitizen agents in
  let population := ofNat (List.length residents) in
  (if Qgtb population 0 then [population] else [])
  ++ [Math_max 1 population; Math_max 1 population; Math_max 1 population].

(** [calculateAverageSkillLevel]: [/ employees.length], behind the early
    return for no employees. *)
Definition divisors_calculateAverageSkillLevel (business : Business)
  (agents : list Agent) : list Q :=
  match List.filter (worksAt business) agents with
  | [] => []
  | emps => [ofNat (List.length emps)]
  end.

(** The body of the [businesses.forEach] of [updateBusinesses]:
    [demand / 100] in [calculateBusinessRevenue] and the quotient of
    [getSupplyDemandRatio] when the building has a zone, the wages [/ 30],
    the skill average, [property_value / 100000],
    [property_value / 50000], [employees / business.maxEmployees], and
    [daysSinceProfit / 30]. *)
Definition divisors_updateBusiness (e : EconomicEngine)
  (buildings : list Building) (agents : list Agent) (business : Business)
  : list Q :=
  match findBuilding buildings (buildingId business) with
  | None => []
  | Some building =>
      if negb (bool_decide (status building = operational)) then []
      else
        (match zoneType building with Some _ => [100] | None => [] end)
        ++ [30]
        ++ divisors_calculateAverageSkillLevel business agents
        ++ [100000]
        ++ (match zoneType building with
            | Some zone =>
                [Math_max 1
                   (num_or (demandByZone (economicData e) zone
                              (wealthLevel building)) 1)]
            | None => []
            end)
        ++ [50000; maxEmployees business]
        ++ [30]
  end.

Definition divisors_updateBusinesses (e : EconomicEngine)
  (buildings : list Building) (agents : list Agent) : list Q :=
  concat (map (divisors_updateBusiness e buildings agents) (businesses e)).

(** [updateTradeGoods]: [good.supply / Math.max(1, good.demand)] for each
    good, with the demand just stored. *)
Fixpoint divisors_updateTradeGoods (e : EconomicEngine)
  (goods : list (string * TradeGood)) (o : Oracle) : list Q :=
  match goods with
  | [] => []
  | (k, g) :: rest =>
      let (r, o1) := Math_random o in
      Math_max 1 (demand (updateTradeGood e r g))
      :: divisors_updateTradeGoods e rest o1
  end.

(** [updateTaxation]: [/ 100], [/ 12] and [/ 30] for each operational
    building with a zone. *)
Definition divisors_updateTaxation (buildings : list Building) : list Q :=
  concat
    (map (fun building =>
            match zoneType building with
            | Some _ =>
                if bool_decide (status building = operational)
                then [100; 12; 30] else []
            | None => []
            end) buildings).

(** [updateLoansAndInterest]: [/ 365] behind [totalLoans > 0]. *)
Definition divisors_updateLoansAndInterest (e : EconomicEngine) : list Q :=
  if Qgtb (totalLoans (economicData e)) 0 then [365] else [].

(** [updateCityRating]: [funds / 100000],
    [/ Math.max(1, this.businesses.length)] and
    [totalLoans / Math.max(1, funds)]. *)
Definition divisors_updateCityRating (e : EconomicEngine) : list Q :=
  [100000;
   Math_max 1 (ofNat (List.length (businesses e)));
   Math_max 1 (funds (economicData e))].

(** [generateEconomicReport]: [/ population] behind [population > 0], and
    [creditRating / 100]. *)
Definition divisors_generateEconomicReport (agents : list Agent) : list Q :=
  let population := ofNat (List.length (List.filter isCitizen agents)) in
  (if Qgtb population 0 then [population] else []) ++ [100].

Section WithSqrt4.
Variable Math_sqrt : Q -> Q.

(** [updateEconomy]: the divisors of its eight calls, each on the engine
    that the call finds. *)
Definition divisors_updateEconomy (deltaTime : Q) (buildings : list Building)
  (agents : list Agent) (e : EconomicEngine) : list Q :=
  let e1 := updateMarketConditions buildings agents e in
  let e2 := updateBusinesses Math_sqrt buildings agents deltaTime e1 in
  let e3 := updateTradeGoods e2 in
  let e4 := updateTaxation buildings e3 in
  let e5 := updateEconomicIndicators e4 in
  let e6 := updateLoansAndInterest deltaTime e5 in
  divisors_updateMarketConditions agents
  ++ divisors_updateBusinesses e1 buildings agents
  ++ divisors_updateTradeGoods e2 (tradeGoods e2) (oracle e2)
  ++ divisors_updateTaxation buildings
  ++ divisors_updateLoansAndInterest e5
  ++ divisors_updateCityRating e6
  ++ divisors_generateEconomicReport agents.

End WithSqrt4.

(** *** Business financials *)

Section BusinessFacts.
Variable Math_sqrt : Q -> Q.

Lemma updateBusiness_profit (e : EconomicEngine) (buildings : list Building)
  (agents : list Agent) (deltaTime : Q) (business : Business)
  (building : Building) :
  findBuilding buildings (buildingId business) = Some building ->
  status building = operational ->
  let b' := updateBusiness Math_sqrt e buildings agents deltaTime business in
  biz_id b' = biz_id business
  /\ profit b' = revenue b' - operatingCosts b'.
Proof.
  intros Hfind Hop. unfold updateBusiness. rewrite Hfind.
  rewrite bool_decide_eq_true_2 by exact Hop. simpl. split; reflexivity.
Qed.

Lemma updateTradeGoods_businesses (e : EconomicEngine) :
  businesses (updateTradeGoods e) = businesses e.
Proof.
  unfold updateTradeGoods.
  destruct (updateTradeGoods_loop e (tradeGoods e) (oracle e)). reflexivity.
Qed.

Lemma updateEconomicIndicators_businesses (e : EconomicEngine) :
  businesses (updateEconomicIndicators e) = businesses e.
Proof. reflexivity. Qed.

Lemma updateLoansAndInterest_businesses (deltaTime : Q) (e : EconomicEngine) :
  businesses (updateLoansAndInterest deltaTime e) = businesses e.
Proof.
  unfold updateLoansAndInterest.
  destruct (Qgtb (totalLoans (economicData e)) 0); reflexivity.
Qed.

Lemma updateCityRating_businesses (e : EconomicEngine) :
  businesses (updateCityRating e) = businesses e.
Proof. reflexivity. Qed.

Lemma updateTaxation_businesses (buildings : list Building)
  (e : EconomicEngine) :
  businesses (updateTaxation buildings e) = businesses e.
Proof. reflexivity. Qed.

(** The later stages of [updateEconomy] leave the business list as
    [updateBusinesses] made it. *)
Lemma updateEconomy_businesses (deltaTime : Q) (buildings : list Building)
  (agents : list Agent) (e : EconomicEngine) :
  businesses (snd (updateEconomy Math_sqrt deltaTime buildings agents e))
  = map (updateBusiness Math_sqrt (updateMarketConditions buildings agents e)
           buildings agents deltaTime)
      (businesses e).
Proof.
  unfold updateEconomy. cbn [snd].
  rewrite updateCityRating_businesses, updateLoansAndInterest_businesses,
    updateEconomicIndicators_businesses, updateTaxation_businesses,
    updateTradeGoods_businesses.
  reflexivity.
Qed.

(** C2.  After [updateBusinesses], and after the whole [updateEconomy] pass,
    every business of the list whose building is found and operational has
    [profit = revenue - operatingCosts]. *)
Theorem profit_is_revenue_minus_costs (deltaTime : Q)
  (buildings : list Building) (agents : list Agent) (e : EconomicEngine)
  (i : nat) (business : Business) (building : Building) :
  nth_error (businesses e) i = Some business ->
  findBuilding buildings (buildingId business) = Some building ->
  status building = operational ->
  (exists b',
     nth_error
       (businesses (updateBusinesses Math_sqrt buildings agents deltaTime e)) i
     = Some b'
     /\ biz_id b' = biz_id business
     /\ profit b' = revenue b' - operatingCosts b')
  /\ (exists b',
        nth_error
          (businesses (snd (updateEconomy Math_sqrt deltaTime buildings agents e)))
          i = Some b'
        /\ biz_id b' = biz_id business
        /\ profit b' = revenue b' - operatingCosts b').
Proof.
  intros Hnth Hfind Hop. split.
  - exists (updateBusiness Math_sqrt e buildings agents deltaTime business).
    split.
    + unfold updateBusinesses, set_businesses. cbn [businesses].
      rewrite nth_error_map, Hnth. reflexivity.
    + apply (updateBusiness_profit e buildings agents deltaTime business building);
        assumption.
  - exists (updateBusiness Math_sqrt (updateMarketConditions buildings agents e)
              buildings agents deltaTime business).
    split.
    + rewrite updateEconomy_businesses, nth_error_map, Hnth. reflexivity.
    + apply (updateBusiness_profit _ buildings agents deltaTime business building);
        assumption.
Qed.

End BusinessFacts.

(** *** Trade-good prices *)

Lemma Math_round_lower (x : Q) : x - (1 # 2) <= ofZ (Math_round x).
Proof.
  unfold Math_round, ofZ.
  pose proof (Qlt_floor (x + (1 # 2))) as H.
  rewrite inject_Z_plus in H. change (inject_Z 1) with 1 in H. lra.
Qed.

Lemma Math_round_upper (x : Q) : ofZ (Math_round x) <= x + (1 # 2).
Proof. unfold Math_round, ofZ. apply Qfloor_le. Qed.

Lemma Math_round_ge_int (x : Q) (n : Z) :
  inject_Z n <= x -> inject_Z n <= ofZ (Math_round x).
Proof.
  intros H. unfold Math_round, ofZ. rewrite <- Zle_Qle.
  rewrite <- (Qfloor_Z n). apply Qfloor_resp_le. lra.
Qed.

Lemma Math_round_le_int (x : Q) (n : Z) :
  x <= inject_Z n -> ofZ (Math_round x) <= inject_Z n.
Proof.
  intros H. unfold Math_round, ofZ. rewrite <- Zle_Qle.
  assert (G : (Qfloor (x + (1 # 2)) < n + 1)%Z).
  { rewrite Zlt_Qlt, inject_Z_plus. change (inject_Z 1) with 1.
    pose proof (Qfloor_le (x + (1 # 2))). lra. }
  lia.
Qed.

Lemma Math_max_r_eq (a b : Q) : a <= b -> Math_max a b == b.
Proof. intros H. unfold Math_max. apply Q.max_r, H. Qed.

(** The price multiplier [Math.max(0.5, Math.min(2.0, 2 - ratio))]. *)
Definition clampMultiplier (ratio : Q) : Q :=
  Math_max (1 # 2) (Math_min 2 (2 - ratio)).

Lemma clampMultiplier_bounds (ratio : Q) :
  1 # 2 <= clampMultiplier ratio /\ clampMultiplier ratio <= 2.
Proof.
  unfold clampMultiplier. split.
  - apply Math_max_lb_l.
  - apply Math_max_lub; [lra | apply Math_min_ub_l].
Qed.

#[local] Instance clampMultiplier_proper : Proper (Qeq ==> Qeq) clampMultiplier.
Proof.
  intros a b H. unfold clampMultiplier, Math_max, Math_min. rewrite H.
  reflexivity.
Qed.

(** A base price that is an even non-negative integer, as every base price
    of the catalogue is. *)
Definition evenPrice (g : TradeGood) : Prop :=
  exists n : Z, (0 <= n)%Z /\ basePrice g == inject_Z (2 * n).

Lemma updateTradeGood_price (e : EconomicEngine) (r : Q) (g : TradeGood) :
  let g' := updateTradeGood e r g in
  g_id g' = g_id g /\ basePrice g' = basePrice g /\ imported g' = imported g
  /\ 20 <= demand g'
  /\ currentPrice g'
     = ofZ (Math_round (basePrice g' * clampMultiplier (supply g' / demand g'))).
Proof.
  cbv zeta. unfold updateTradeGood, set_market.
  cbn [g_id basePrice imported demand supply currentPrice].
  repeat split; try reflexivity.
  - apply Math_max_lb_l.
  - unfold ofZ, Math_round. f_equal. apply Qfloor_comp.
    fold (clampMultiplier
            ((if bool_decide (g_type g = manufactured_goods)
              then Math_max 50
                     (80 + fold_left (fun sum b => sum + efficiency b)
                             (List.filter
                                (fun b => includes (biz_type b) "manufacturing"
                                          && isOperational b) (businesses e)) 0
                           * 10)
              else supply g)
             / Math_max 1
                 (Math_max 20
                    (wealth_low (economicData e) * (1 # 2)
                     + wealth_medium (economicData e) * 1
                     + wealth_high (economicData e) * (15 # 10) + r * 20 - 10)))).
    rewrite (Math_max_r_eq 1 (Math_max 20 _)); [reflexivity |].
    eapply Qle_trans; [| apply Math_max_lb_l]. lra.
Qed.

Lemma updateTradeGoods_loop_in (e : EconomicEngine)
  (goods : list (string * TradeGood)) :
  forall o k g',
    In (k, g') (fst (updateTradeGoods_loop e goods o)) ->
    exists g r, In (k, g) goods /\ g' = updateTradeGood e r g.
Proof.
  induction goods as [| [k0 g0] rest IH]; intros o k g' Hin; simpl in Hin.
  - contradiction.
  - specialize (IH (snd (Math_random o))).
    unfold Math_random in *. cbn [fst snd] in *.
    destruct (updateTradeGoods_loop e rest _) as [rest' o2] eqn:E.
    cbn [fst In] in Hin. destruct Hin as [Hin | Hin].
    + inversion Hin; subst. exists g0, (rand_draws o (rand_pos o)).
      split; [left; reflexivity | reflexivity].
    + destruct (IH k g' Hin) as [g [r [Hg Hr]]].
      exists g, r. split; [right; exact Hg | exact Hr].
Qed.

Lemma updateTradeGoods_in (e : EconomicEngine) (k : string) (g' : TradeGood) :
  In (k, g') (tradeGoods (updateTradeGoods e)) ->
  exists g r, In (k, g) (tradeGoods e) /\ g' = updateTradeGood e r g.
Proof.
  unfold updateTradeGoods. intros Hin.
  apply (updateTradeGoods_loop_in e (tradeGoods e) (oracle e)).
  destruct (updateTradeGoods_loop e (tradeGoods e) (oracle e)). exact Hin.
Qed.

(** C9, as the code does it.  After [updateTradeGoods] every trade good has
    demand at least 20 and
    [currentPrice = Math.round(basePrice * clamp(2 - supply / demand, 0.5, 2))];
    for a non-negative base price the price is within 1/2 of the interval
    from half to twice the base price, and it is inside that interval when
    the base price is an even integer, as every price of the catalogue is. *)
Theorem tradeGood_price_rounded (e : EconomicEngine) (k : string)
  (g : TradeGood) :
  In (k, g) (tradeGoods (updateTradeGoods e)) ->
  20 <= demand g
  /\ currentPrice g
     = ofZ (Math_round (basePrice g * clampMultiplier (supply g / demand g)))
  /\ (0 <= basePrice g ->
      (1 # 2) * basePrice g - (1 # 2) <= currentPrice g
      /\ currentPrice g <= 2 * basePrice g + (1 # 2))
  /\ (evenPrice g ->
      (1 # 2) * basePrice g <= currentPrice g
      /\ currentPrice g <= 2 * basePrice g).
Proof.
  intros Hin. apply updateTradeGoods_in in Hin.
  destruct Hin as [g0 [r [_ ->]]].
  destruct (updateTradeGood_price e r g0) as [_ [_ [_ [Hd Hp]]]].
  split; [exact Hd |]. split; [exact Hp |].
  set (g := updateTradeGood e r g0) in *.
  pose proof (clampMultiplier_bounds (supply g / demand g)) as [Hlo Hhi].
  set (m := clampMultiplier (supply g / demand g)) in *.
  split.
  - intros Hb. rewrite Hp.
    pose proof (Math_round_lower (basePrice g * m)).
    pose proof (Math_round_upper (basePrice g * m)).
    assert (basePrice g * (1 # 2) <= basePrice g * m)
      by nra.
    assert (basePrice g * m <= basePrice g * 2)
      by nra.
    lra.
  - intros [n [Hn Hb]]. rewrite Hp.
    assert (Hb0 : 0 <= basePrice g).
    { rewrite Hb. change 0 with (inject_Z 0). rewrite <- Zle_Qle. lia. }
    assert (H1 : basePrice g * (1 # 2) <= basePrice g * m)
      by nra.
    assert (H2 : basePrice g * m <= basePrice g * 2)
      by nra.
    assert (Hhalf : (1 # 2) * basePrice g == inject_Z n).
    { rewrite Hb, inject_Z_mult. change (inject_Z 2) with 2. field. }
    assert (Htwice : 2 * basePrice g == inject_Z (4 * n)).
    { rewrite Hb, !inject_Z_mult. change (inject_Z 2) with 2.
      change (inject_Z 4) with 4. ring. }
    split.
    + rewrite Hhalf. apply Math_round_ge_int. lra.
    + rewrite Htwice. apply Math_round_le_int. lra.
Qed.

(** *** The engine's catalogue and the empty world *)

(** The initial economic data of stores/economyStore. *)
Definition storeData : EconomicData :=
  mkData 100000 0 0 0 12 15 10 14 0 0 100 1 60 30 10
    (fun zone wealth =>
       match zone, wealth with
       | residential, low => 8 # 10 | residential, medium => 6 # 10
       | residential, high => 3 # 10
       | commercial, low => 7 # 10 | commercial, medium => 8 # 10
       | commercial, high => 9 # 10
       | industrial, low => 6 # 10 | industrial, medium => 7 # 10
       | industrial, high => 5 # 10
       | office, low => 3 # 10 | office, medium => 6 # 10
       | office, high => 8 # 10
       end)
    (fun zone wealth =>
       match zone, wealth with
       | residential, low => 9 # 10 | residential, medium => 7 # 10
       | residential, high => 4 # 10
       | commercial, low => 8 # 10 | commercial, medium => 6 # 10
       | commercial, high => 5 # 10
       | industrial, low => 7 # 10 | industrial, medium => 6 # 10
       | industrial, high => 4 # 10
       | office, low => 4 # 10 | office, medium => 5 # 10
       | office, high => 6 # 10
       end).

(** An oracle whose [Math.random()] always returns [r]. *)
Definition constOracle (r : Q) : Oracle :=
  mkOracle (fun _ => 0) 0 (fun _ => r) 0.

(** Every good is imported and costs at least 100, as in the catalogue. *)
Definition importedCatalogue (goods : list (string * TradeGood)) : Prop :=
  Forall (fun kg => imported (snd kg) = true /\ 100 <= basePrice (snd kg)) goods.

Lemma initializeTradeGoods_catalogue : importedCatalogue initializeTradeGoods.
Proof.
  unfold importedCatalogue. vm_compute.
  repeat (constructor; [split; [reflexivity | discriminate] |]).
  constructor.
Qed.

Lemma initializeTradeGoods_even (k : string) (g : TradeGood) :
  In (k, g) initializeTradeGoods -> evenPrice g.
Proof.
  intros Hin. vm_compute in Hin.
  repeat (destruct Hin as [Hin | Hin];
          [inversion Hin; subst; unfold evenPrice; cbn [basePrice];
           first [ exists 50%Z; split; [lia | reflexivity]
                 | exists 100%Z; split; [lia | reflexivity]
                 | exists 150%Z; split; [lia | reflexivity]
                 | exists 250%Z; split; [lia | reflexivity]
                 | exists 75%Z; split; [lia | reflexivity]
                 | exists 200%Z; split; [lia | reflexivity] ] |]).
  contradiction.
Qed.

Lemma updateTradeGoods_loop_catalogue (e : EconomicEngine)
  (goods : list (string * TradeGood)) :
  forall o,
    importedCatalogue goods ->
    importedCatalogue (fst (updateTradeGoods_loop e goods o)).
Proof.
  unfold importedCatalogue.
  induction goods as [| [k g] rest IH]; intros o HF; simpl.
  - constructor.
  - inversion HF as [| ? ? Hg Hrest]; subst.
    specialize (IH (snd (Math_random o)) Hrest).
    unfold Math_random in *. cbn [fst snd] in *.
    destruct (updateTradeGoods_loop e rest _) as [rest' o2].
    cbn [fst] in *. constructor; [exact Hg | exact IH].
Qed.

Lemma ofNat_S (n : nat) : ofNat (S n) == ofNat n + 1.
Proof.
  unfold ofNat. rewrite Nat2Z.inj_succ, <- Z.add_1_r, inject_Z_plus.
  reflexivity.
Qed.

Lemma importValue_lower (goods : list TradeGood) :
  Forall (fun g => imported g = true /\ 990 <= demand g * currentPrice g) goods ->
  exportValue goods == 0
  /\ 990 * ofNat (List.length goods) <= importValue goods.
Proof.
  unfold exportValue, importValue. rewrite !fold_left_sum.
  induction 1 as [| g l [Hi Hp] _ [IH1 IH2]].
  - cbn [map Qsum fold_right List.length]. change (ofNat 0) with 0.
    split; lra.
  - cbn [map List.length]. unfold Qsum in *. cbn [fold_right].
    rewrite Hi. cbn [negb]. rewrite ofNat_S. split; lra.
Qed.

Lemma updateTradeGood_import_value (e : EconomicEngine) (r : Q) (g : TradeGood) :
  100 <= basePrice g ->
  990 <= demand (updateTradeGood e r g) * currentPrice (updateTradeGood e r g).
Proof.
  intros Hb.
  destruct (updateTradeGood_price e r g) as [_ [Hbp [_ [Hd Hp]]]].
  set (g' := updateTradeGood e r g) in *. rewrite Hp.
  pose proof (clampMultiplier_bounds (supply g' / demand g')) as [Hlo _].
  pose proof (Math_round_lower
                (basePrice g' * clampMultiplier (supply g' / demand g'))) as Hr.
  rewrite Hbp in *.
  set (m := clampMultiplier (supply g' / demand g')) in *.
  set (p := ofZ (Math_round (basePrice g * m))) in *.
  assert (H1 : 50 <= basePrice g * m) by nra.
  assert (H2 : 49 + (1 # 2) <= p) by lra.
  nra.
Qed.

Section EmptyWorld.
Variable Math_sqrt : Q -> Q.

Lemma updateCityRating_tradeGoods (e : EconomicEngine) :
  tradeGoods (updateCityRating e) = tradeGoods e.
Proof. reflexivity. Qed.

Lemma updateLoansAndInterest_tradeGoods (deltaTime : Q) (e : EconomicEngine) :
  tradeGoods (updateLoansAndInterest deltaTime e) = tradeGoods e.
Proof.
  unfold updateLoansAndInterest.
  destruct (Qgtb (totalLoans (economicData e)) 0); reflexivity.
Qed.

Lemma updateEconomicIndicators_tradeGoods (e : EconomicEngine) :
  tradeGoods (updateEconomicIndicators e) = tradeGoods e.
Proof. reflexivity. Qed.

Lemma updateTaxation_tradeGoods (buildings : list Building)
  (e : EconomicEngine) :
  tradeGoods (updateTaxation buildings e) = tradeGoods e.
Proof. reflexivity. Qed.

Lemma updateEconomy_tradeGoods (deltaTime : Q) (buildings : list Building)
  (agents : list Agent) (e : EconomicEngine) :
  tradeGoods (snd (updateEconomy Math_sqrt deltaTime buildings agents e))
  = tradeGoods
      (updateTradeGoods
         (updateBusinesses Math_sqrt buildings agents deltaTime
            (updateMarketConditions buildings agents e))).
Proof.
  unfold updateEconomy. cbn [snd].
  rewrite updateCityRating_tradeGoods, updateLoansAndInterest_tradeGoods,
    updateEconomicIndicators_tradeGoods, updateTaxation_tradeGoods.
  reflexivity.
Qed.

Lemma divisors_updateTradeGoods_ge1 (e : EconomicEngine)
  (goods : list (string * TradeGood)) (o : Oracle) :
  Forall (fun d => 1 <= d) (divisors_updateTradeGoods e goods o).
Proof.
  revert o. induction goods as [| [k g] rest IH]; intros o; simpl.
  - constructor.
  - constructor; [apply Math_max_lb_l | apply IH].
Qed.

Lemma empty_world_divisors (deltaTime : Q) (e : EconomicEngine) :
  businesses e = [] ->
  Forall (fun d => 1 <= d) (divisors_updateEconomy Math_sqrt deltaTime [] [] e).
Proof.
  intros Hb. unfold divisors_updateEconomy.
  apply Forall_app; split.
  { cbn. repeat constructor; apply Math_max_lb_l. }
  apply Forall_app; split.
  { unfold divisors_updateBusinesses.
    replace (businesses (updateMarketConditions [] [] e)) with (businesses e)
      by reflexivity.
    rewrite Hb. constructor. }
  apply Forall_app; split; [apply divisors_updateTradeGoods_ge1 |].
  apply Forall_app; split; [constructor |].
  apply Forall_app; split.
  { unfold divisors_updateLoansAndInterest.
    destruct (Qgtb _ 0); repeat constructor. discriminate. }
  apply Forall_app; split.
  { unfold divisors_updateCityRating.
    repeat constructor; try apply Math_max_lb_l. discriminate. }
  cbn. repeat constructor. discriminate.
Qed.

(** C7, as the code does it.  With no buildings, no agents and no registered
    business, [updateEconomy] reports [gdp = 0] and [unemployment = 0], and
    every divisor that the call evaluates ([divisors_updateEconomy]: the
    right operand of each [/] of the eight functions it runs, in order) is at
    least 1, so nothing is divided by zero; the two unemployment quotients are
    behind [population > 0] and are not evaluated.  The trade balance is
    the export value minus the import value of the updated goods; when every
    good is imported and has a base price of at least 100, as the six goods
    of the catalogue are, it is at most -990 per good, so it is negative,
    not 0. *)
Theorem empty_world_report (deltaTime : Q) (e : EconomicEngine) :
  businesses e = [] ->
  let r := fst (updateEconomy Math_sqrt deltaTime [] [] e) in
  let e' := snd (updateEconomy Math_sqrt deltaTime [] [] e) in
  gdp r = 0
  /\ unemployment r = 0
  /\ Forall (fun d => 1 <= d)
       (divisors_updateEconomy Math_sqrt deltaTime [] [] e)
  /\ tradeBalance r
     = exportValue (map snd (tradeGoods e'))
       - importValue (map snd (tradeGoods e'))
  /\ (importedCatalogue (tradeGoods e) ->
      importedCatalogue (tradeGoods e')
      /\ tradeBalance r <= - (990 * ofNat (List.length (tradeGoods e)))).
Proof.
  intros Hb r e'.
  assert (Hbs : businesses e' = []).
  { unfold e'. rewrite updateEconomy_businesses, Hb. reflexivity. }
  assert (Hgdp : gdp r = 0).
  { unfold r, updateEconomy. cbn [fst]. unfold generateEconomicReport.
    cbn [gdp]. fold e'. unfold updateEconomy in e'. cbn [snd] in e'. fold e'.
    rewrite Hbs. reflexivity. }
  split; [exact Hgdp |].
  split; [reflexivity |].
  split; [apply empty_world_divisors; exact Hb |].
  split; [reflexivity |].
  intros Hcat.
  assert (Hgoods : tradeGoods e' = tradeGoods
            (updateTradeGoods
               (updateBusinesses Math_sqrt [] [] deltaTime
                  (updateMarketConditions [] [] e))))
    by apply updateEconomy_tradeGoods.
  set (e2 := updateBusinesses Math_sqrt [] [] deltaTime
               (updateMarketConditions [] [] e)) in *.
  assert (Hcat' : importedCatalogue (tradeGoods e')).
  { rewrite Hgoods. unfold updateTradeGoods.
    pose proof (updateTradeGoods_loop_catalogue e2 (tradeGoods e2) (oracle e2)
                  Hcat) as H.
    destruct (updateTradeGoods_loop e2 (tradeGoods e2) (oracle e2)). exact H. }
  split; [exact Hcat' |].
  assert (Hlen : List.length (tradeGoods e') = List.length (tradeGoods e)).
  { rewrite Hgoods. unfold updateTradeGoods.
    assert (G : forall goods o,
               List.length (fst (updateTradeGoods_loop e2 goods o))
               = List.length goods).
    { induction goods as [| [k g] rest IH]; intros o; simpl; [reflexivity |].
      specialize (IH (snd (Math_random o))).
      unfold Math_random in *. cbn [fst snd] in *.
      destruct (updateTradeGoods_loop e2 rest _). simpl in *. lia. }
    specialize (G (tradeGoods e2) (oracle e2)).
    destruct (updateTradeGoods_loop e2 (tradeGoods e2) (oracle e2)). exact G. }
  assert (Hval : Forall (fun g => imported g = true
                                  /\ 990 <= demand g * currentPrice g)
                   (map snd (tradeGoods e'))).
  { apply List.Forall_forall. intros g Hin. apply in_map_iff in Hin.
    destruct Hin as [[k g0] [<- Hin]]. cbn [snd].
    unfold importedCatalogue in Hcat'. rewrite List.Forall_forall in Hcat'.
    destruct (Hcat' _ Hin) as [Hi Hp]. split; [exact Hi |].
    rewrite Hgoods in Hin. apply updateTradeGoods_in in Hin.
    destruct Hin as [g1 [r1 [Hin1 ->]]].
    apply updateTradeGood_import_value.
    unfold importedCatalogue in Hcat. rewrite List.Forall_forall in Hcat.
    apply (Hcat _ Hin1). }
  destruct (importValue_lower _ Hval) as [Hex Him].
  rewrite length_map, Hlen in Him.
  change (tradeBalance r) with
    (exportValue (map snd (tradeGoods e')) - importValue (map snd (tradeGoods e'))).
  lra.
Qed.

End EmptyWorld.

(** *** Closed examples *)

Definition shop : Business :=
  mkBusiness "shop" "retail_store" "b1" (1 # 2) (1 # 2) (1 # 2) 0 0 0 0 2 5
    3000 (1 # 2) (1 # 2) true 0 0.

Definition shopBuilding : Building :=
  mkBuilding "b1" (mkV3 0 0 0) (Some commercial) medium 1 operational 1 20 50000.

Definition shopEngine : EconomicEngine :=
  mkEngine storeData [shop] initializeTradeGoods (2 # 100) (5 # 100)
    (constOracle (1 # 2)).

Lemma profit_is_revenue_minus_costs_witness :
  nth_error (businesses shopEngine) 0 = Some shop
  /\ findBuilding [shopBuilding] (buildingId shop) = Some shopBuilding
  /\ status shopBuilding = operational
  /\ exists b',
       nth_error
         (businesses (snd (updateEconomy approx_sqrt 1 [shopBuilding] [] shopEngine)))
         0 = Some b'
       /\ biz_id b' = biz_id shop
       /\ profit b' = revenue b' - operatingCosts b'.
Proof.
  split; [reflexivity |]. split; [reflexivity |]. split; [reflexivity |].
  apply (profit_is_revenue_minus_costs approx_sqrt 1 [shopBuilding] []
           shopEngine 0%nat shop shopBuilding); reflexivity.
Defined.

(** C7 as stated fails: a fresh engine in an empty world reports a trade
    balance of -58890, not 0 (here every [Math.random()] returns 0). *)
Lemma empty_world_tradeBalance_negative :
  let r := fst (updateEconomy approx_sqrt 1 [] []
                  (newEngine storeData (constOracle 0))) in
  gdp r == 0 /\ unemployment r == 0 /\ tradeBalance r == - 58890
  /\ ~ tradeBalance r == 0.
Proof.
  vm_compute. repeat split; try reflexivity. intros H. discriminate H.
Qed.

Lemma empty_world_report_witness :
  businesses (newEngine storeData (constOracle 0)) = []
  /\ List.length
       (divisors_updateEconomy approx_sqrt 1 [] []
          (newEngine storeData (constOracle 0))) = 13%nat
  /\ Forall (fun d => 1 <= d)
       (divisors_updateEconomy approx_sqrt 1 [] []
          (newEngine storeData (constOracle 0)))
  /\ tradeBalance
       (fst (updateEconomy approx_sqrt 1 [] []
               (newEngine storeData (constOracle 0))))
     <= - (990 * 6).
Proof.
  split; [reflexivity |].
  split; [vm_compute; reflexivity |].
  destruct (empty_world_report approx_sqrt 1
              (newEngine storeData (constOracle 0)) eq_refl)
    as [_ [_ [Hdiv [_ H]]]].
  split; [exact Hdiv |].
  apply H. exact initializeTradeGoods_catalogue.
Defined.

(** C9 as stated fails: with [Math.random() = 1/2] the demand for food
    becomes 75 against a supply of 100, the clamped multiplier is 2/3, and
    the price stored is 67, not 100 * 2/3. *)
Lemma food_price_is_rounded :
  match jget "food"%string
          (tradeGoods (updateTradeGoods (newEngine storeData (constOracle (1 # 2)))))
  with
  | Some g =>
      supply g == 100 /\ demand g == 75 /\ currentPrice g == 67
      /\ basePrice g * clampMultiplier (supply g / demand g) == 200 # 3
      /\ ~ currentPrice g == basePrice g * clampMultiplier (supply g / demand g)
  | None => False
  end.
Proof.
  vm_compute. repeat split; try reflexivity. intros H. discriminate H.
Qed.

Lemma tradeGood_price_rounded_witness :
  exists g,
    In ("food"%string, g)
      (tradeGoods (updateTradeGoods (newEngine storeData (constOracle (1 # 2)))))
    /\ currentPrice g
       = ofZ (Math_round (basePrice g * clampMultiplier (supply g / demand g))).
Proof.
  eexists. split.
  - vm_compute. left. reflexivity.
  - match goal with
    | |- currentPrice ?g = _ =>
        apply (tradeGood_price_rounded
                 (newEngine storeData (constOracle (1 # 2))) "food"%string g)
    end.
    vm_compute. left. reflexivity.
Defined.


(** *** The business register *)

(** [addBusiness]. *)
Definition addBusiness (business : Business) (e : EconomicEngine)
  : EconomicEngine :=
  set_businesses e (businesses e ++ [business]).

(** [removeBusiness]. *)
Definition removeBusiness (businessId : string) (e : EconomicEngine)
  : EconomicEngine :=
  set_businesses e
    (List.filter (fun b => negb (String.eqb (biz_id b) businessId))
       (businesses e)).

(** [getBusinesses]: a copy of the list. *)
Definition getBusinesses (e : EconomicEngine) : list Business := businesses e.

(** [getEconomicData]: a copy of the record. *)
Definition getEconomicData (e : EconomicEngine) : EconomicData := economicData e.

(** What one pass does to a business whose building is found and
    operational. *)
Definition healthy (deltaTime : Q) (b b' : Business) : Prop :=
  isOperational b' = isOperational b
  /\ 1 # 10 <= efficiency b' /\ efficiency b' <= 15 # 10
  /\ (~ maxEmployees b == 0 ->
      0 <= customerSatisfaction b' /\ customerSatisfaction b' <= 1)
  /\ bankruptcyRisk b' <= 1
  /\ (0 < profit b' -> daysSinceProfit b' = 0 /\ bankruptcyRisk b' == 0)
  /\ (profit b' <= 0 ->
      daysSinceProfit b' = daysSinceProfit b + deltaTime
      /\ (0 <= daysSinceProfit b + deltaTime -> 0 <= bankruptcyRisk b')).

Section HealthFacts.
Variable Math_sqrt : Q -> Q.

Lemma updateBusiness_closed (e : EconomicEngine) (buildings : list Building)
  (agents : list Agent) (deltaTime : Q) (b : Business) :
  match findBuilding buildings (buildingId b) with
  | Some building =>
      status building <> operational ->
      updateBusiness Math_sqrt e buildings agents deltaTime b
      = set_isOperational b false
  | None =>
      updateBusiness Math_sqrt e buildings agents deltaTime b
      = set_isOperational b false
  end.
Proof.
  unfold updateBusiness.
  destruct (findBuilding buildings (buildingId b)) as [building |];
    [| reflexivity].
  intros Hst. rewrite bool_decide_eq_false_2 by exact Hst. reflexivity.
Qed.

Lemma updateBusiness_open (e : EconomicEngine) (buildings : list Building)
  (agents : list Agent) (deltaTime : Q) (b : Business) (building : Building) :
  findBuilding buildings (buildingId b) = Some building ->
  status building = operational ->
  exists rev costs b1 b2 b3 days,
    b1 = set_financials b rev costs (rev - costs)
    /\ b2 = set_efficiency b1 (calculateBusinessEfficiency e b1 building agents)
    /\ b3 = set_customerSatisfaction b2
              (calculateCustomerSatisfaction b2 building)
    /\ days = (if Qgtb (profit b3) 0 then 0
               else daysSinceProfit b3 + deltaTime)
    /\ updateBusiness Math_sqrt e buildings agents deltaTime b
       = updateBusinessEmployment
           (set_risk b3 days (Math_min 1 (days / 30))) building agents.
Proof.
  intros Hfind Hop. unfold updateBusiness. rewrite Hfind.
  rewrite bool_decide_eq_true_2 by exact Hop. cbn [negb].
  do 6 eexists. repeat split; reflexivity.
Qed.

Lemma updateBusinessEmployment_fields (b : Business) (building : Building)
  (agents : list Agent) :
  let b' := updateBusinessEmployment b building agents in
  biz_id b' = biz_id b /\ buildingId b' = buildingId b
  /\ isOperational b' = isOperational b /\ efficiency b' = efficiency b
  /\ customerSatisfaction b' = customerSatisfaction b
  /\ bankruptcyRisk b' = bankruptcyRisk b /\ profit b' = profit b
  /\ daysSinceProfit b' = daysSinceProfit b.
Proof. repeat split; reflexivity. Qed.

Lemma updateBusiness_healthy (e : EconomicEngine) (buildings : list Building)
  (agents : list Agent) (deltaTime : Q) (b : Business) (building : Building) :
  findBuilding buildings (buildingId b) = Some building ->
  status building = operational ->
  healthy deltaTime b (updateBusiness Math_sqrt e buildings agents deltaTime b).
Proof.
  intros Hfind Hop.
  destruct (updateBusiness_open e buildings agents deltaTime b building Hfind Hop)
    as [rev [costs [b1 [b2 [b3 [days [H1 [H2 [H3 [Hd Hu]]]]]]]]]].
  rewrite Hu. clear Hu.
  destruct (updateBusinessEmployment_fields
              (set_risk b3 days (Math_min 1 (days / 30))) building agents)
    as [_ [_ [F1 [F2 [F3 [F4 [F5 F6]]]]]]].
  unfold healthy. rewrite F1, F2, F3, F4, F5, F6. clear F1 F2 F3 F4 F5 F6.
  cbn [set_risk isOperational efficiency customerSatisfaction bankruptcyRisk
       profit daysSinceProfit].
  assert (Hop3 : isOperational b3 = isOperational b)
    by (rewrite H3, H2, H1; reflexivity).
  assert (Hday3 : daysSinceProfit b3 = daysSinceProfit b)
    by (rewrite H3, H2, H1; reflexivity).
  assert (Heff : efficiency b3
                 = calculateBusinessEfficiency e b1 building agents)
    by (rewrite H3, H2; reflexivity).
  assert (Hcs : customerSatisfaction b3
                = calculateCustomerSatisfaction b2 building)
    by (rewrite H3; reflexivity).
  rewrite Hop3, Heff, Hcs. rewrite Hday3 in Hd.
  clear H1 H2 H3 Hop3 Heff Hcs Hday3.
  split; [reflexivity |].
  split; [unfold calculateBusinessEfficiency; apply Math_max_lb_l |].
  split.
  { unfold calculateBusinessEfficiency. apply Math_max_lub; [lra |].
    apply Math_min_ub_l. }
  split.
  { intros _. unfold calculateCustomerSatisfaction. split.
    - apply Math_max_lb_l.
    - apply Math_max_lub; [lra | apply Math_min_ub_l]. }
  split; [apply Math_min_ub_l |].
  split.
  - intros Hp. apply Qltb_true in Hp. unfold Qgtb in Hd. rewrite Hp in Hd.
    rewrite Hd. split; [reflexivity |].
    unfold Math_min. rewrite Q.min_r; [reflexivity |].
    unfold Qdiv. rewrite Qmult_0_l. lra.
  - intros Hp. apply Qltb_false in Hp. unfold Qgtb in Hd. rewrite Hp in Hd.
    rewrite Hd. split; [reflexivity |]. intros Hpos.
    apply Math_min_glb; [lra |]. apply Qle_shift_div_l; lra.
Qed.

(** When no two registered businesses share an id (so that no business
    object is in the register twice and the [forEach] visits each object
    once), after [updateEconomy] the register holds the same businesses in
    the same order.  No business becomes operational that was not.  A
    business whose building is missing or not operational is marked not
    operational and is otherwise unchanged.  A business whose building is
    operational keeps its flag and has an efficiency within [0.1, 1.5], a
    customer satisfaction within [0, 1] when its staff limit is not 0, and a
    bankruptcy risk of at most 1, which is 0 when it made a profit; when it
    made none, its days without profit have grown by [deltaTime]. *)
Theorem updateEconomy_business_health (deltaTime : Q)
  (buildings : list Building) (agents : list Agent) (e : EconomicEngine) :
  NoDup (map biz_id (businesses e)) ->
  Forall2
    (fun b b' =>
       biz_id b' = biz_id b /\ buildingId b' = buildingId b
       /\ (isOperational b' = true -> isOperational b = true)
       /\ match findBuilding buildings (buildingId b) with
          | Some building =>
              if bool_decide (status building = operational)
              then healthy deltaTime b b'
              else b' = set_isOperational b false
          | None => b' = set_isOperational b false
          end)
    (businesses e)
    (businesses (snd (updateEconomy Math_sqrt deltaTime buildings agents e))).
Proof.
  intros _. rewrite updateEconomy_businesses.
  set (e1 := updateMarketConditions buildings agents e).
  induction (businesses e) as [| b bs IH]; [constructor |].
  cbn [map]. constructor; [| exact IH].
  pose proof (updateBusiness_closed e1 buildings agents deltaTime b) as Hc.
  pose proof (updateBusiness_healthy e1 buildings agents deltaTime b) as Hh.
  destruct (findBuilding buildings (buildingId b)) as [building |].
  - destruct (bool_decide (status building = operational)) eqn:Hop.
    + apply bool_decide_eq_true_1 in Hop. specialize (Hh building eq_refl Hop).
      assert (Hid : biz_id (updateBusiness Math_sqrt e1 buildings agents
                              deltaTime b) = biz_id b
                    /\ buildingId (updateBusiness Math_sqrt e1 buildings agents
                                     deltaTime b) = buildingId b).
      { unfold updateBusiness.
        destruct (findBuilding buildings (buildingId b)) as [bd |];
          [| split; reflexivity].
        destruct (negb (bool_decide (status bd = operational)));
          split; reflexivity. }
      destruct Hid as [Hid1 Hid2].
      split; [exact Hid1 |]. split; [exact Hid2 |].
      split; [| exact Hh].
      destruct Hh as [Hflag _]. rewrite Hflag. tauto.
    + apply bool_decide_eq_false_1 in Hop. rewrite (Hc Hop).
      repeat split; try reflexivity. cbn. discriminate.
  - rewrite Hc. repeat split; try reflexivity. cbn. discriminate.
Qed.

End HealthFacts.

Lemma updateEconomy_business_health_witness :
  NoDup (map biz_id (businesses shopEngine))
  /\ match businesses (snd (updateEconomy approx_sqrt 1 [shopBuilding] []
                              shopEngine))
     with
     | [b'] => healthy 1 shop b' /\ ~ maxEmployees shop == 0
     | _ => False
     end.
Proof.
  assert (Hnd : NoDup (map biz_id (businesses shopEngine))).
  { cbn. constructor; [intros Hin; inversion Hin | constructor]. }
  split; [exact Hnd |].
  pose proof (updateEconomy_business_health approx_sqrt 1 [shopBuilding] []
                shopEngine Hnd) as H.
  destruct (businesses (snd (updateEconomy approx_sqrt 1 [shopBuilding] []
                               shopEngine))) as [| b' [| b'' bs]];
    cbn [businesses shopEngine] in H.
  - inversion H.
  - inversion H as [| ? ? ? ? [_ [_ [_ Hh]]] _]; subst.
    split; [exact Hh | intros Hq; discriminate Hq].
  - inversion H as [| ? ? ? ? _ Hrest]; subst. inversion Hrest.
Defined.

(** *** The city's books *)

Section BooksFacts.
Variable Math_sqrt : Q -> Q.

Lemma updateTradeGoods_frame (e : EconomicEngine) :
  economicData (updateTradeGoods e) = economicData e
  /\ inflationRate (updateTradeGoods e) = inflationRate e
  /\ interestRate (updateTradeGoods e) = interestRate e.
Proof.
  unfold updateTradeGoods.
  destruct (updateTradeGoods_loop e (tradeGoods e) (oracle e)).
  repeat split; reflexivity.
Qed.

(** The engine before [updateEconomicIndicators] runs. *)
Definition taxed (deltaTime : Q) (buildings : list Building)
  (agents : list Agent) (e : EconomicEngine) : EconomicEngine :=
  updateTaxation buildings
    (updateTradeGoods
       (updateBusinesses Math_sqrt buildings agents deltaTime
          (updateMarketConditions buildings agents e))).

Lemma updateEconomy_stages (deltaTime : Q) (buildings : list Building)
  (agents : list Agent) (e : EconomicEngine) :
  updateEconomy Math_sqrt deltaTime buildings agents e
  = let e' :=
      updateCityRating
        (updateLoansAndInterest deltaTime
           (updateEconomicIndicators (taxed deltaTime buildings agents e))) in
    (generateEconomicReport agents e', e').
Proof. reflexivity. Qed.

Lemma taxed_frame (deltaTime : Q) (buildings : list Building)
  (agents : list Agent) (e : EconomicEngine) :
  let d := economicData e in
  let d' := economicData (taxed deltaTime buildings agents e) in
  funds d' = funds d /\ totalLoans d' = totalLoans d
  /\ expenses d' = expenses d /\ netIncome d' = netIncome d
  /\ cityLevel d' = cityLevel d
  /\ residentialTaxRate d' = residentialTaxRate d
  /\ commercialTaxRate d' = commercialTaxRate d
  /\ industrialTaxRate d' = industrialTaxRate d
  /\ officeTaxRate d' = officeTaxRate d
  /\ wealth_low d' = wealth_low d /\ wealth_medium d' = wealth_medium d
  /\ wealth_high d' = wealth_high d
  /\ income d' = totalTaxRevenue d'
  /\ inflationRate (taxed deltaTime buildings agents e) = inflationRate e
  /\ interestRate (taxed deltaTime buildings agents e) = interestRate e.
Proof.
  unfold taxed, updateTaxation, set_data.
  cbn [economicData inflationRate interestRate funds totalLoans expenses
       netIncome cityLevel residentialTaxRate commercialTaxRate
       industrialTaxRate officeTaxRate wealth_low wealth_medium wealth_high
       income totalTaxRevenue].
  destruct (updateTradeGoods_frame
              (updateBusinesses Math_sqrt buildings agents deltaTime
                 (updateMarketConditions buildings agents e)))
    as [Hd [Hi Hr]].
  rewrite Hd, Hi, Hr. repeat split; reflexivity.
Qed.

Lemma updateEconomicIndicators_frame (e : EconomicEngine) :
  let d := economicData e in
  let d' := economicData (updateEconomicIndicators e) in
  funds d' = funds d /\ totalLoans d' = totalLoans d
  /\ expenses d' = expenses d /\ netIncome d' = netIncome d
  /\ cityLevel d' = cityLevel d
  /\ residentialTaxRate d' = residentialTaxRate d
  /\ commercialTaxRate d' = commercialTaxRate d
  /\ industrialTaxRate d' = industrialTaxRate d
  /\ officeTaxRate d' = officeTaxRate d
  /\ income d' = income d /\ totalTaxRevenue d' = totalTaxRevenue d
  /\ interestRate (updateEconomicIndicators e) = interestRate e.
Proof.
  unfold updateEconomicIndicators.
  destruct (Math_random (oracle e)) as [r o].
  cbn [economicData interestRate].
  destruct (Qgtb _ 0); repeat split; reflexivity.
Qed.

Lemma updateLoansAndInterest_frame (deltaTime : Q) (e : EconomicEngine) :
  let d := economicData e in
  let d' := economicData (updateLoansAndInterest deltaTime e) in
  (funds d' = funds d /\ totalLoans d' = totalLoans d
   /\ cityLevel d' = cityLevel d
   /\ residentialTaxRate d' = residentialTaxRate d
   /\ commercialTaxRate d' = commercialTaxRate d
   /\ industrialTaxRate d' = industrialTaxRate d
   /\ officeTaxRate d' = officeTaxRate d
   /\ income d' = income d /\ totalTaxRevenue d' = totalTaxRevenue d
   /\ interestRate (updateLoansAndInterest deltaTime e) = interestRate e)
  /\ (inflationRate (updateLoansAndInterest deltaTime e) = inflationRate e
      /\ wealth_low d' = wealth_low d /\ wealth_medium d' = wealth_medium d
      /\ wealth_high d' = wealth_high d)
  /\ (0 < totalLoans d ->
      expenses d'
      = expenses d + totalLoans d * interestRate e / 365 * deltaTime
      /\ netIncome d' = income d - expenses d')
  /\ (totalLoans d <= 0 ->
      expenses d' = expenses d /\ netIncome d' = netIncome d).
Proof.
  unfold updateLoansAndInterest.
  destruct (Qgtb (totalLoans (economicData e)) 0) eqn:Hl.
  - apply Qltb_true in Hl.
    repeat split; try reflexivity; intros; exfalso; lra.
  - apply Qltb_false in Hl.
    repeat split; try reflexivity; intros; exfalso; lra.
Qed.

Lemma updateCityRating_frame (e : EconomicEngine) :
  let d := economicData e in
  let d' := economicData (updateCityRating e) in
  (funds d' = funds d /\ totalLoans d' = totalLoans d
   /\ cityLevel d' = cityLevel d
   /\ residentialTaxRate d' = residentialTaxRate d
   /\ commercialTaxRate d' = commercialTaxRate d
   /\ industrialTaxRate d' = industrialTaxRate d
   /\ officeTaxRate d' = officeTaxRate d
   /\ income d' = income d /\ totalTaxRevenue d' = totalTaxRevenue d
   /\ interestRate (updateCityRating e) = interestRate e)
  /\ (inflationRate (updateCityRating e) = inflationRate e
      /\ wealth_low d' = wealth_low d /\ wealth_medium d' = wealth_medium d
      /\ wealth_high d' = wealth_high d)
  /\ expenses d' = expenses d /\ netIncome d' = netIncome d
  /\ businesses (updateCityRating e) = businesses e.
Proof. repeat split; reflexivity. Qed.

Lemma generateEconomicReport_fields (agents : list Agent) (e : EconomicEngine) :
  governmentRevenue (generateEconomicReport agents e) = income (economicData e)
  /\ governmentExpenses (generateEconomicReport agents e)
     = expenses (economicData e)
  /\ inflation (generateEconomicReport agents e) = inflationRate e * 100.
Proof. repeat split; reflexivity. Qed.

Lemma updateEconomy_fst (deltaTime : Q) (buildings : list Building)
  (agents : list Agent) (e : EconomicEngine) :
  fst (updateEconomy Math_sqrt deltaTime buildings agents e)
  = generateEconomicReport agents
      (snd (updateEconomy Math_sqrt deltaTime buildings agents e)).
Proof. reflexivity. Qed.

Lemma updateEconomy_snd (deltaTime : Q) (buildings : list Building)
  (agents : list Agent) (e : EconomicEngine) :
  snd (updateEconomy Math_sqrt deltaTime buildings agents e)
  = updateCityRating
      (updateLoansAndInterest deltaTime
         (updateEconomicIndicators (taxed deltaTime buildings agents e))).
Proof. reflexivity. Qed.

(** [updateEconomy] never changes the funds, the loans, the tax rates, the
    city level or the interest rate: the taxes it computes become [income]
    (and [totalTaxRevenue]) but are not added to [funds].  With loans
    outstanding the expenses grow by the interest of the period and
    [netIncome] is [income - expenses]; with no loans the expenses and
    [netIncome] keep their old values, whatever the new income is.  The report
    shows the new income and expenses. *)
Theorem updateEconomy_books (deltaTime : Q) (buildings : list Building)
  (agents : list Agent) (e : EconomicEngine) :
  let r := fst (updateEconomy Math_sqrt deltaTime buildings agents e) in
  let e' := snd (updateEconomy Math_sqrt deltaTime buildings agents e) in
  let d := economicData e in
  let d' := economicData e' in
  funds d' = funds d /\ totalLoans d' = totalLoans d
  /\ cityLevel d' = cityLevel d
  /\ residentialTaxRate d' = residentialTaxRate d
  /\ commercialTaxRate d' = commercialTaxRate d
  /\ industrialTaxRate d' = industrialTaxRate d
  /\ officeTaxRate d' = officeTaxRate d
  /\ interestRate e' = interestRate e
  /\ income d' = totalTaxRevenue d'
  /\ governmentRevenue r = income d'
  /\ governmentExpenses r = expenses d'
  /\ (0 < totalLoans d ->
      expenses d'
      = expenses d + totalLoans d * interestRate e / 365 * deltaTime
      /\ netIncome d' = income d' - expenses d')
  /\ (totalLoans d <= 0 ->
      expenses d' = expenses d /\ netIncome d' = netIncome d).
Proof.
  intros r e' d d'. subst r e' d d'.
  rewrite updateEconomy_fst.
  destruct (generateEconomicReport_fields agents
              (snd (updateEconomy Math_sqrt deltaTime buildings agents e)))
    as [G1 [G2 _]].
  rewrite G1, G2. clear G1 G2.
  rewrite updateEconomy_snd.
  destruct (taxed_frame deltaTime buildings agents e)
    as [T1 [T2 [T3 [T4 [T5 [T6 [T7 [T8 [T9 [_ [_ [_ [T10 [_ T11]]]]]]]]]]]]]].
  generalize dependent (taxed deltaTime buildings agents e). intros e4.
  intros T1 T2 T3 T4 T5 T6 T7 T8 T9 T10 T11.
  destruct (updateEconomicIndicators_frame e4)
    as [I1 [I2 [I3 [I4 [I5 [I6 [I7 [I8 [I9 [I10 [I11 I12]]]]]]]]]]].
  generalize dependent (updateEconomicIndicators e4). intros e5.
  intros I1 I2 I3 I4 I5 I6 I7 I8 I9 I10 I11 I12.
  destruct (updateLoansAndInterest_frame deltaTime e5)
    as [[L1 [L2 [L5 [L6 [L7 [L8 [L9 [L10 [L11 L12]]]]]]]]] [_ [Lpos Lneg]]].
  generalize dependent (updateLoansAndInterest deltaTime e5). intros e6.
  intros L1 L2 L5 L6 L7 L8 L9 L10 L11 L12 Lpos Lneg.
  destruct (updateCityRating_frame e6)
    as [[C1 [C2 [C5 [C6 [C7 [C8 [C9 [C10 [C11 C12]]]]]]]]] [_ [C3 [C4 _]]]].
  generalize dependent (updateCityRating e6). intros e7.
  intros C1 C2 C5 C6 C7 C8 C9 C10 C11 C12 C3 C4.
  rewrite C1, C2, C3, C4, C5, C6, C7, C8, C9, C10, C11, C12.
  rewrite L1, L2, L5, L6, L7, L8, L9, L10, L11, L12.
  rewrite I1, I2, I5, I6, I7, I8, I9, I10, I11, I12.
  rewrite T1, T2, T5, T6, T7, T8, T9, T10, T11.
  rewrite I2, T2, I12, T11, I3, I4, T3, T4, I10, T10 in *.
  repeat split; try reflexivity.
  - apply (proj1 (Lpos H)).
  - rewrite (proj2 (Lpos H)). rewrite (proj1 (Lpos H)). reflexivity.
  - apply (proj1 (Lneg H)).
  - apply (proj2 (Lneg H)).
Qed.

(** The total of the positive profits, the [totalWealth] of
    [updateEconomicIndicators]. *)
Definition totalWealth (bs : list Business) : Q :=
  fold_left (fun sum b => sum + Math_max 0 (profit b)) bs 0.

Lemma updateTradeGoods_loop_draws (e : EconomicEngine)
  (goods : list (string * TradeGood)) :
  forall o, rand_draws (snd (updateTradeGoods_loop e goods o)) = rand_draws o.
Proof.
  induction goods as [| [k g] rest IH]; intros o; [reflexivity |].
  cbn [updateTradeGoods_loop]. unfold Math_random.
  specialize (IH (mkOracle (now_reads o) (now_pos o) (rand_draws o)
                    (S (rand_pos o)))).
  destruct (updateTradeGoods_loop e rest _) as [rest' o2].
  cbn [snd] in *. exact IH.
Qed.

Lemma taxed_random_ok (deltaTime : Q) (buildings : list Building)
  (agents : list Agent) (e : EconomicEngine) :
  random_ok (oracle e) -> random_ok (oracle (taxed deltaTime buildings agents e)).
Proof.
  intros Hok. unfold taxed, updateTaxation, set_data. cbn [oracle].
  unfold updateTradeGoods.
  set (e2 := updateBusinesses _ _ _ _ _).
  pose proof (updateTradeGoods_loop_draws e2 (tradeGoods e2) (oracle e2)) as Ho.
  change (oracle e2) with (oracle e) in Ho at 2.
  destruct (updateTradeGoods_loop e2 (tradeGoods e2) (oracle e2)) as [gs o'].
  cbn [oracle snd] in *. intros n. rewrite Ho. apply Hok.
Qed.

Lemma updateEconomicIndicators_spec (e : EconomicEngine) :
  let d := economicData e in
  let e' := updateEconomicIndicators e in
  let d' := economicData e' in
  businesses e' = businesses e
  /\ 0 <= inflationRate e' /\ inflationRate e' <= 1 # 10
  /\ (random_ok (oracle e) ->
      0 <= inflationRate e -> inflationRate e <= 1 # 10 ->
      inflationRate e - (1 # 2000) <= inflationRate e'
      /\ inflationRate e' <= inflationRate e + (1 # 2000))
  /\ (0 < totalWealth (businesses e) ->
      wealth_low d' + wealth_medium d' + wealth_high d' == 100
      /\ 30 <= wealth_low d' /\ wealth_low d' <= 60
      /\ 10 <= wealth_medium d' /\ wealth_medium d' <= 60
      /\ 10 <= wealth_high d' /\ wealth_high d' <= 30)
  /\ (totalWealth (businesses e) <= 0 ->
      wealth_low d' = wealth_low d /\ wealth_medium d' = wealth_medium d
      /\ wealth_high d' = wealth_high d).
Proof.
  unfold updateEconomicIndicators. fold (totalWealth (businesses e)).
  unfold Math_random.
  set (rnd := rand_draws (oracle e) (rand_pos (oracle e))).
  set (raw := inflationRate e + (rnd - (1 # 2)) * (1 # 1000)).
  cbn [economicData inflationRate businesses].
  assert (Hlo : 0 <= Math_max 0 (Math_min (1 # 10) raw)) by apply Math_max_lb_l.
  assert (Hhi : Math_max 0 (Math_min (1 # 10) raw) <= 1 # 10)
    by (apply Math_max_lub; [lra | apply Math_min_ub_l]).
  split; [reflexivity |]. split; [exact Hlo |]. split; [exact Hhi |].
  split.
  { intros Hok H0 H1. specialize (Hok (rand_pos (oracle e))). fold rnd in Hok.
    assert (Hraw : inflationRate e - (1 # 2000) <= raw
                   /\ raw <= inflationRate e + (1 # 2000))
      by (unfold raw; split; lra).
    clearbody raw. destruct Hraw as [R1 R2]. split.
    - eapply Qle_trans; [| apply Math_max_lb_r].
      apply Math_min_glb; lra.
    - apply Math_max_lub; [lra |].
      eapply Qle_trans; [apply Math_min_ub_r | lra]. }
  split.
  - intros Hpos. pose proof Hpos as Hb. apply Qltb_true in Hb.
    unfold Qgtb. rewrite Hb.
    cbn [wealth_low wealth_medium wealth_high].
    set (tw := totalWealth (businesses e)) in *.
    assert (A1 : 30 <= Math_max 30 (60 - tw * (1 # 100))) by apply Math_max_lb_l.
    assert (A2 : Math_max 30 (60 - tw * (1 # 100)) <= 60)
      by (apply Math_max_lub; lra).
    assert (B1 : Math_min 30 (10 + tw * (5 # 1000)) <= 30) by apply Math_min_ub_l.
    assert (B2 : 10 <= Math_min 30 (10 + tw * (5 # 1000)))
      by (apply Math_min_glb; lra).
    set (lo := Math_max 30 _) in *. set (hi := Math_min 30 _) in *.
    clearbody lo hi.
    split; [ring |]. repeat split; lra.
  - intros Hle. apply Qltb_false in Hle. unfold Qgtb. rewrite Hle.
    repeat split; reflexivity.
Qed.

(** After [updateEconomy] the inflation rate lies within [0, 0.1], so the
    report shows an inflation within [0, 10]; when [Math.random()] returns
    numbers of [0, 1) and the rate was within [0, 0.1], it moved by at most
    0.0005.  When some business made a profit the wealth distribution is
    replaced by shares that add up to 100, the low share within [30, 60], the
    high share within [10, 30] and the medium share within [10, 60];
    otherwise the distribution is unchanged. *)
Theorem updateEconomy_indicators (deltaTime : Q) (buildings : list Building)
  (agents : list Agent) (e : EconomicEngine) :
  let r := fst (updateEconomy Math_sqrt deltaTime buildings agents e) in
  let e' := snd (updateEconomy Math_sqrt deltaTime buildings agents e) in
  let d := economicData e in
  let d' := economicData e' in
  0 <= inflationRate e' /\ inflationRate e' <= 1 # 10
  /\ 0 <= inflation r /\ inflation r <= 10
  /\ (random_ok (oracle e) ->
      0 <= inflationRate e -> inflationRate e <= 1 # 10 ->
      inflationRate e - (1 # 2000) <= inflationRate e'
      /\ inflationRate e' <= inflationRate e + (1 # 2000))
  /\ (0 < totalWealth (businesses e') ->
      wealth_low d' + wealth_medium d' + wealth_high d' == 100
      /\ 30 <= wealth_low d' /\ wealth_low d' <= 60
      /\ 10 <= wealth_medium d' /\ wealth_medium d' <= 60
      /\ 10 <= wealth_high d' /\ wealth_high d' <= 30)
  /\ (totalWealth (businesses e') <= 0 ->
      wealth_low d' = wealth_low d /\ wealth_medium d' = wealth_medium d
      /\ wealth_high d' = wealth_high d).
Proof.
  intros r e' d d'. subst r e' d d'.
  rewrite updateEconomy_fst.
  destruct (generateEconomicReport_fields agents
              (snd (updateEconomy Math_sqrt deltaTime buildings agents e)))
    as [_ [_ G3]].
  rewrite G3. clear G3.
  rewrite updateEconomy_snd.
  destruct (taxed_frame deltaTime buildings agents e)
    as [_ [_ [_ [_ [_ [_ [_ [_ [_ [W1 [W2 [W3 [_ [Hinfl _]]]]]]]]]]]]]].
  pose proof (taxed_random_ok deltaTime buildings agents e) as Hor.
  generalize dependent (taxed deltaTime buildings agents e). intros e4.
  intros W1 W2 W3 Hinfl Hor.
  destruct (updateEconomicIndicators_spec e4)
    as [Ibs [I1 [I2 [I3 [I4 I5]]]]].
  generalize dependent (updateEconomicIndicators e4). intros e5.
  intros Ibs I1 I2 I3 I4 I5.
  destruct (updateLoansAndInterest_frame deltaTime e5)
    as [_ [[L1 [L2 [L3 L4]]] _]].
  pose proof (updateLoansAndInterest_businesses deltaTime e5) as Lbs.
  generalize dependent (updateLoansAndInterest deltaTime e5). intros e6.
  intros L1 L2 L3 L4 Lbs.
  destruct (updateCityRating_frame e6)
    as [_ [[C1 [C2 [C3 C4]]] [_ [_ Cbs]]]].
  generalize dependent (updateCityRating e6). intros e7.
  intros C1 C2 C3 C4 Cbs.
  rewrite C1, C2, C3, C4, Cbs, L1, L2, L3, L4, Lbs, Ibs.
  rewrite <- W1, <- W2, <- W3, <- Hinfl.
  split; [exact I1 |]. split; [exact I2 |].
  split; [lra |]. split; [lra |].
  split; [intros Hok; apply I3, Hor, Hok |].
  split; [exact I4 | exact I5].
Qed.

End BooksFacts.

(** *** The report *)

Lemma filter_and_length {A : Type} (f g : A -> bool) (l : list A) :
  (List.length (List.filter (fun a => f a && g a) l)
   <= List.length (List.filter f l))%nat.
Proof.
  induction l as [| a l IH]; [simpl; lia |].
  simpl. destruct (f a), (g a); simpl; lia.
Qed.

Lemma generateEconomicReport_unemployment (agents : list Agent)
  (e : EconomicEngine) :
  0 <= unemployment (generateEconomicReport agents e)
  /\ unemployment (generateEconomicReport agents e) <= 100.
Proof.
  unfold generateEconomicReport. cbn [unemployment].
  pose proof (filter_and_length isCitizen isEmployed agents) as Hle.
  set (pop := List.length (List.filter isCitizen agents)) in *.
  set (emp := List.length (List.filter (fun a => isCitizen a && isEmployed a)
                             agents)) in *.
  assert (He : ofNat emp <= ofNat pop) by (unfold ofNat; rewrite <- Zle_Qle; lia).
  pose proof (ofNat_nonneg emp) as He0.
  destruct (Qgtb (ofNat pop) 0) eqn:Hp; [| split; lra].
  apply Qltb_true in Hp.
  assert (H0 : 0 <= (ofNat pop - ofNat emp) / ofNat pop)
    by (apply Qle_shift_div_l; [exact Hp | lra]).
  assert (H1 : (ofNat pop - ofNat emp) / ofNat pop <= 1)
    by (apply Qle_shift_div_r; [exact Hp | lra]).
  split; lra.
Qed.

Lemma generateEconomicReport_rating (agents : list Agent) (e : EconomicEngine) :
  (creditRating (economicData e) = 100 ->
   cityRating (generateEconomicReport agents e) = "CCC"%string)
  /\ (creditRating (economicData e) = 80 ->
      cityRating (generateEconomicReport agents e) = "BB"%string)
  /\ (creditRating (economicData e) = 60 ->
      cityRating (generateEconomicReport agents e) = "BBB"%string)
  /\ (creditRating (economicData e) = 40 ->
      cityRating (generateEconomicReport agents e) = "A"%string).
Proof.
  unfold generateEconomicReport. cbn [cityRating].
  repeat split; intros ->; reflexivity.
Qed.

(** The [score] of [updateCityRating]. *)
Definition ratingScore (e : EconomicEngine) : Q :=
  let d := economicData e in
  let financialHealth := Math_max 0 (Math_min 1 (funds d / 100000)) in
  let economicGrowth :=
    ofNat (List.length
             (List.filter (fun b => isOperational b && Qgtb (profit b) 0)
                (businesses e)))
    / Math_max 1 (ofNat (List.length (businesses e))) in
  let debtRatio := totalLoans d / Math_max 1 (funds d) in
  (financialHealth * (4 # 10) + economicGrowth * (4 # 10)
   - Math_min 1 debtRatio * (2 # 10)) * 100.

Lemma ratingScore_le (e : EconomicEngine) :
  ratingScore e <= 80 + Math_max 0 (- totalLoans (economicData e)
                                      / Math_max 1 (funds (economicData e))) * 20.
Proof.
  unfold ratingScore.
  set (fh := Math_max 0 (Math_min 1 _)).
  assert (Hfh : fh <= 1) by (apply Math_max_lub; [lra | apply Math_min_ub_l]).
  pose proof (filter_length_le (fun b => isOperational b && Qgtb (profit b) 0)
                (businesses e)) as Hlen.
  set (n := List.length (List.filter _ (businesses e))) in *.
  set (m := List.length (businesses e)) in *.
  assert (Hg : ofNat n / Math_max 1 (ofNat m) <= 1).
  { pose proof (Math_max_lb_l 1 (ofNat m)). pose proof (Math_max_lb_r 1 (ofNat m)).
    apply Qle_shift_div_r; [lra |].
    assert (ofNat n <= ofNat m) by (unfold ofNat; rewrite <- Zle_Qle; lia).
    lra. }
  set (g := ofNat n / _) in *.
  set (loans := totalLoans (economicData e)).
  set (den := Math_max 1 (funds (economicData e))).
  assert (Hneg : - loans / den == - (loans / den)) by (unfold Qdiv; ring).
  assert (Hd : - Math_min 1 (loans / den) <= Math_max 0 (- loans / den)).
  { rewrite Hneg. set (q := loans / den). clearbody q.
    pose proof (Math_max_lb_l 0 (- q)). pose proof (Math_max_lb_r 0 (- q)).
    pose proof (Math_min_ub_l 1 q). pose proof (Math_min_ub_r 1 q).
    unfold Math_min in *.
    destruct (Q.min_spec 1 q) as [[Hc Hm] | [Hc Hm]]; rewrite Hm; lra. }
  clearbody fh g. set (mx := Math_max 0 _) in *. set (mn := Math_min 1 _) in *.
  clearbody mx mn. lra.
Qed.

Section ReportFacts.
Variable Math_sqrt : Q -> Q.

Lemma updateCityRating_rating (e : EconomicEngine) :
  let c := creditRating (economicData (updateCityRating e)) in
  (80 <= ratingScore e /\ c = 100)
  \/ (60 <= ratingScore e /\ ratingScore e < 80 /\ c = 80)
  \/ (40 <= ratingScore e /\ ratingScore e < 60 /\ c = 60)
  \/ (ratingScore e < 40 /\ c = 40).
Proof.
  unfold updateCityRating, set_data. cbn [economicData creditRating].
  fold (ratingScore e). unfold Qgeb.
  destruct (Qleb 80 (ratingScore e)) eqn:H80;
    [apply Qleb_true in H80; left; split; [exact H80 | reflexivity] |].
  apply Qleb_false in H80.
  destruct (Qleb 60 (ratingScore e)) eqn:H60;
    [apply Qleb_true in H60; right; left; repeat split; assumption |].
  apply Qleb_false in H60.
  destruct (Qleb 40 (ratingScore e)) eqn:H40;
    [apply Qleb_true in H40; right; right; left; repeat split; assumption |].
  apply Qleb_false in H40. right; right; right. split; [exact H40 | reflexivity].
Qed.

(** The report of [updateEconomy] shows an unemployment within [0, 100] and
    one of the four labels CCC, BB, BBB and A, never AAA or AA: a score of 80
    or more gives the credit rating 100 and the label CCC, a score of [60, 80)
    the rating 80 and BB, a score of [40, 60) the rating 60 and BBB, a lower
    score the rating 40 and A.  The score is that of the engine after the
    loans step; without debts it is at most 80. *)
Theorem updateEconomy_report_rating (deltaTime : Q)
  (buildings : list Building) (agents : list Agent) (e : EconomicEngine) :
  let r := fst (updateEconomy Math_sqrt deltaTime buildings agents e) in
  let e' := snd (updateEconomy Math_sqrt deltaTime buildings agents e) in
  let c := creditRating (economicData e') in
  let score :=
    ratingScore
      (updateLoansAndInterest deltaTime
         (updateEconomicIndicators
            (taxed Math_sqrt deltaTime buildings agents e))) in
  0 <= unemployment r /\ unemployment r <= 100
  /\ ((80 <= score /\ c = 100 /\ cityRating r = "CCC"%string)
      \/ (60 <= score /\ score < 80 /\ c = 80 /\ cityRating r = "BB"%string)
      \/ (40 <= score /\ score < 60 /\ c = 60 /\ cityRating r = "BBB"%string)
      \/ (score < 40 /\ c = 40 /\ cityRating r = "A"%string))
  /\ cityRating r <> "AAA"%string /\ cityRating r <> "AA"%string
  /\ (0 <= totalLoans (economicData e) -> score <= 80).
Proof.
  intros r e' c score. subst r e' c score.
  rewrite updateEconomy_fst.
  destruct (generateEconomicReport_unemployment agents
              (snd (updateEconomy Math_sqrt deltaTime buildings agents e)))
    as [U0 U1].
  destruct (generateEconomicReport_rating agents
              (snd (updateEconomy Math_sqrt deltaTime buildings agents e)))
    as [G100 [G80 [G60 G40]]].
  split; [exact U0 |]. split; [exact U1 |]. clear U0 U1.
  rewrite updateEconomy_snd in *.
  assert (Hloans : totalLoans
                     (economicData
                        (updateLoansAndInterest deltaTime
                           (updateEconomicIndicators
                              (taxed Math_sqrt deltaTime buildings agents e))))
                   = totalLoans (economicData e)).
  { destruct (taxed_frame Math_sqrt deltaTime buildings agents e) as [_ [T2 _]].
    destruct (updateEconomicIndicators_frame
                (taxed Math_sqrt deltaTime buildings agents e)) as [_ [I2 _]].
    destruct (updateLoansAndInterest_frame deltaTime
                (updateEconomicIndicators
                   (taxed Math_sqrt deltaTime buildings agents e)))
      as [[_ [L2 _]] _].
    rewrite L2, I2, T2. reflexivity. }
  set (e6 := updateLoansAndInterest deltaTime _) in *.
  pose proof (updateCityRating_rating e6) as Hr. cbv zeta in Hr.
  pose proof (ratingScore_le e6) as Hle.
  generalize dependent (updateCityRating e6). intros e7 G100 G80 G60 G40 Hr.
  assert (Hcases :
            (80 <= ratingScore e6 /\ creditRating (economicData e7) = 100
             /\ cityRating (generateEconomicReport agents e7) = "CCC"%string)
            \/ (60 <= ratingScore e6 /\ ratingScore e6 < 80
                /\ creditRating (economicData e7) = 80
                /\ cityRating (generateEconomicReport agents e7) = "BB"%string)
            \/ (40 <= ratingScore e6 /\ ratingScore e6 < 60
                /\ creditRating (economicData e7) = 60
                /\ cityRating (generateEconomicReport agents e7) = "BBB"%string)
            \/ (ratingScore e6 < 40 /\ creditRating (economicData e7) = 40
                /\ cityRating (generateEconomicReport agents e7) = "A"%string)).
  { destruct Hr as [[H Hc] | [[H [H' Hc]] | [[H [H' Hc]] | [H Hc]]]].
    - left. auto.
    - right; left. auto.
    - right; right; left. auto.
    - right; right; right. auto. }
  split; [exact Hcases |].
  split.
  { destruct Hcases as [[_ [_ ->]] | [[_ [_ [_ ->]]] | [[_ [_ [_ ->]]] | [_ [_ ->]]]]];
      discriminate. }
  split.
  { destruct Hcases as [[_ [_ ->]] | [[_ [_ [_ ->]]] | [[_ [_ [_ ->]]] | [_ [_ ->]]]]];
      discriminate. }
  intros Hl. rewrite <- Hloans in Hl.
  assert (Hz : Math_max 0 (- totalLoans (economicData e6)
                             / Math_max 1 (funds (economicData e6))) == 0).
  { pose proof (Math_max_lb_l 1 (funds (economicData e6))) as Hden.
    set (den := Math_max 1 _) in *.
    assert (- totalLoans (economicData e6) / den <= 0).
    { apply Qle_shift_div_r; lra. }
    unfold Math_max. rewrite Q.max_l by assumption. reflexivity. }
  rewrite Hz in Hle. lra.
Qed.

End ReportFacts.

(** *** Registering and removing businesses *)

(** [removeBusiness] after [addBusiness] of the same id gives the register
    that [removeBusiness] alone gives, which is the old register when no
    business had the id.  After [removeBusiness] no business has the id, the
    others are kept, and a second removal changes nothing. *)
Theorem register_round_trip (b : Business) (e : EconomicEngine) :
  getBusinesses (addBusiness b e) = getBusinesses e ++ [b]
  /\ getBusinesses (removeBusiness (biz_id b) (addBusiness b e))
     = getBusinesses (removeBusiness (biz_id b) e)
  /\ (Forall (fun b0 => biz_id b0 <> biz_id b) (getBusinesses e) ->
      getBusinesses (removeBusiness (biz_id b) (addBusiness b e))
      = getBusinesses e)
  /\ (forall id b0,
        In b0 (getBusinesses (removeBusiness id e))
        <-> In b0 (getBusinesses e) /\ biz_id b0 <> id)
  /\ (forall id,
        removeBusiness id (removeBusiness id e) = removeBusiness id e)
  /\ economicData (removeBusiness (biz_id b) (addBusiness b e)) = economicData e
  /\ tradeGoods (removeBusiness (biz_id b) (addBusiness b e)) = tradeGoods e.
Proof.
  unfold getBusinesses, removeBusiness, addBusiness, set_businesses.
  cbn [businesses economicData tradeGoods inflationRate interestRate oracle].
  assert (Hneq : forall s t : string, negb (String.eqb s t) = true <-> s <> t).
  { intros s t. rewrite negb_true_iff. split.
    - intros H Heq. apply String.eqb_eq in Heq. congruence.
    - intros H. apply String.eqb_neq. exact H. }
  split; [reflexivity |]. split.
  { rewrite List.filter_app. cbn [List.filter].
    rewrite String.eqb_refl. cbn [negb]. rewrite app_nil_r. reflexivity. }
  split.
  { intros Hall. rewrite List.filter_app. cbn [List.filter].
    rewrite String.eqb_refl. cbn [negb]. rewrite app_nil_r.
    induction Hall as [| b0 bs Hb0 _ IH]; [reflexivity |].
    cbn [List.filter]. rewrite (proj2 (Hneq _ _) Hb0). rewrite IH. reflexivity. }
  split.
  { intros id b0. rewrite List.filter_In, Hneq. reflexivity. }
  split; [| split; reflexivity].
  intros id. f_equal.
  induction (businesses e) as [| b0 bs IH]; [reflexivity |].
  cbn [List.filter]. destruct (negb (String.eqb (biz_id b0) id)) eqn:Hb.
  - cbn [List.filter]. rewrite Hb, IH. reflexivity.
  - exact IH.
Qed.

(** *** Closed examples of an update *)

Definition busyShop : Business :=
  mkBusiness "busy" "retail_store" "b1" 10 10 (1 # 2) 0 0 0 0 2 5
    3000 (1 # 2) (1 # 2) true 0 0.

Definition busyEngine : EconomicEngine :=
  mkEngine storeData [busyShop] initializeTradeGoods (2 # 100) (5 # 100)
    (constOracle (1 # 2)).

Lemma updateEconomy_indicators_witness :
  let e' := snd (updateEconomy approx_sqrt 1 [shopBuilding] [] busyEngine) in
  0 < totalWealth (businesses e')
  /\ wealth_low (economicData e') + wealth_medium (economicData e')
     + wealth_high (economicData e') == 100
  /\ 30 <= wealth_low (economicData e').
Proof.
  intros e'.
  assert (Hpos : 0 < totalWealth (businesses e')) by (vm_compute; reflexivity).
  split; [exact Hpos |].
  destruct (updateEconomy_indicators approx_sqrt 1 [shopBuilding] [] busyEngine)
    as [_ [_ [_ [_ [_ [Hw _]]]]]].
  destruct (Hw Hpos) as [Hsum [Hlow _]]. split; assumption.
Defined.

Lemma register_round_trip_witness :
  Forall (fun b0 => biz_id b0 <> biz_id busyShop) (getBusinesses shopEngine)
  /\ getBusinesses (removeBusiness (biz_id busyShop) (addBusiness busyShop shopEngine))
     = [shop].
Proof.
  assert (H : Forall (fun b0 => biz_id b0 <> biz_id busyShop)
                (getBusinesses shopEngine))
    by (repeat constructor; discriminate).
  split; [exact H |].
  destruct (register_round_trip busyShop shopEngine) as [_ [_ [Hr _]]].
  exact (Hr H).
Defined.

(** The store's data with a loan of 36500. *)
Definition indebtedData : EconomicData :=
  mkData 100000 0 0 0 12 15 10 14 0 36500 100 1 60 30 10
    (demandByZone storeData) (supplyByZone storeData).

Definition indebtedEngine : EconomicEngine :=
  mkEngine indebtedData [shop] initializeTradeGoods (2 # 100) (5 # 100)
    (constOracle (1 # 2)).

Lemma updateEconomy_books_witness :
  let e' := snd (updateEconomy approx_sqrt 1 [shopBuilding] [] indebtedEngine) in
  0 < totalLoans (economicData indebtedEngine)
  /\ expenses (economicData e') == 5
  /\ funds (economicData e') = 100000
  /\ netIncome (economicData e')
     = income (economicData e') - expenses (economicData e').
Proof.
  intros e'.
  assert (Hl : 0 < totalLoans (economicData indebtedEngine)) by reflexivity.
  split; [exact Hl |].
  destruct (updateEconomy_books approx_sqrt 1 [shopBuilding] [] indebtedEngine)
    as [Hf [_ [_ [_ [_ [_ [_ [_ [_ [_ [_ [Hpos _]]]]]]]]]]]].
  destruct (Hpos Hl) as [He Hn].
  split; [fold e' in He; rewrite He; reflexivity |].
  split; [exact Hf | exact Hn].
Defined.

End Economics.

(** ** PathfindingSystem (systems/pathfinding) *)

Module Pathfinding.
Import Js Types.
Open Scope Q_scope.

(** A node object is named by the grid index it is stored at. *)
Definition Ref : Type := (Z * Z)%type.

Record PathfindingNode : Type := mkNode {
  position : Vector3;
  gCost : ext;
  hCost : Q;
  fCost : ext;
  parent : option Ref;
  isWalkable : bool
}.

(** The grid and the two sets of cell keys ([`${x},${y}`], here the pair). *)
Record PathfindingSystem : Type := mkSystem {
  nodes : gmap Ref PathfindingNode;
  width : Z;
  height : Z;
  cellSize : Q;
  obstacles : gset Ref;
  roads : gset Ref
}.

Definition set_nodes (g : PathfindingSystem) (ns : gmap Ref PathfindingNode)
  : PathfindingSystem :=
  mkSystem ns (width g) (height g) (cellSize g) (obstacles g) (roads g).

Definition ext_add (a : ext) (q : Q) : ext :=
  match a with Fin v => Fin (v + q) | PInf => PInf end.

(** [a >= b]. *)
Definition ext_geb (a b : ext) : bool :=
  match a, b with
  | _, PInf => match a with PInf => true | Fin _ => false end
  | PInf, Fin _ => true
  | Fin x, Fin y => Qleb y x
  end.

(** [a < b]. *)
Definition ext_lt (a b : ext) : bool := negb (ext_geb a b).

(** [a === b]. *)
Definition ext_eqb (a b : ext) : bool :=
  match a, b with
  | PInf, PInf => true
  | Fin x, Fin y => Qeq_bool x y
  | _, _ => false
  end.

(** [isValidGridPosition]. *)
Definition isValidGridPosition (g : PathfindingSystem) (x y : Z) : bool :=
  (0 <=? x)%Z && (x <? width g)%Z && (0 <=? y)%Z && (y <? height g)%Z.

(** [worldToGrid]. *)
Definition worldToGrid (g : PathfindingSystem) (worldPos : Vector3) : Ref :=
  let halfWidth := (ofZ (width g) * cellSize g) / 2 in
  let halfHeight := (ofZ (height g) * cellSize g) / 2 in
  let x := Math_floor ((vx worldPos + halfWidth) / cellSize g) in
  let z := Math_floor ((vz worldPos + halfHeight) / cellSize g) in
  (Z.max 0 (Z.min (width g - 1) x), Z.max 0 (Z.min (height g - 1) z)).

(** The grid indices in the order of the nested [for] loops. *)
Definition coords (w h : Z) : list Ref :=
  x ← seqZ 0 w; y ← seqZ 0 h; [(x, y)].

(** The constructor with [initializeGrid]. *)
Definition newPathfindingSystem (worldSize cs : Q) : PathfindingSystem :=
  let gridWidth := Math_ceil (worldSize / cs) in
  let gridHeight := Math_ceil (worldSize / cs) in
  let halfSize := worldSize / 2 in
  let node (r : Ref) :=
    mkNode (mkV3 (- halfSize + (ofZ (fst r) + (1 # 2)) * cs) 0
                 (- halfSize + (ofZ (snd r) + (1 # 2)) * cs))
      (Fin 0) 0 (Fin 0) None true in
  mkSystem
    (fold_left (fun ns r => <[r := node r]> ns) (coords gridWidth gridHeight) ∅)
    gridWidth gridHeight cs ∅ ∅.

(** [generateDirectPath]. *)
Section WithSqrt.
Variable Math_sqrt : Q -> Q.

Definition directSegments (start end_ : Vector3) : Z :=
  Z.max 2 (Math_floor (distanceTo Math_sqrt start end_ / 5)).

Definition directPoint (start end_ : Vector3) (segments i : Z) : Vector3 :=
  let point := lerpVectors start end_ (ofZ i / ofZ segments) in
  mkV3 (vx point) (1 # 2) (vz point).

Definition generateDirectPath (start end_ : Vector3) : list Vector3 :=
  let segments := directSegments start end_ in
  map (directPoint start end_ segments) (seqZ 0 (segments + 1)).

(** [calculateHeuristic]. *)
Definition calculateHeuristic (nodeA nodeB : PathfindingNode) : Q :=
  let dx := Math_abs (vx (position nodeA) - vx (position nodeB)) in
  let dz := Math_abs (vz (position nodeA) - vz (position nodeB)) in
  Math_max dx dz + (Math_sqrt 2 - 1) * Math_min dx dz.

(** [calculateDistance]. *)
Definition calculateDistance (g : PathfindingSystem)
  (nodeA nodeB : PathfindingNode) : Q :=
  let dx := Math_abs (vx (position nodeA) - vx (position nodeB)) in
  let dz := Math_abs (vz (position nodeA) - vz (position nodeB)) in
  let nodeKey := worldToGrid g (position nodeB) in
  let roadBonus := if bool_decide (nodeKey ∈ roads g) then 1 # 2 else 1 in
  Math_sqrt (dx * dx + dz * dz) * roadBonus.

(** [getNeighbors]: the nodes at the valid ones of the eight offsets. *)
Definition neighborOffsets : list (Z * Z) :=
  [(-1, 0); (1, 0); (0, -1); (0, 1); (-1, -1); (1, -1); (-1, 1); (1, 1)]%Z.

Definition getNeighbors (g : PathfindingSystem) (node : PathfindingNode)
  : list Ref :=
  let gridPos := worldToGrid g (position node) in
  List.filter (fun r => isValidGridPosition g (fst r) (snd r))
    (map (fun off => (fst gridPos + fst off, snd gridPos + snd off)%Z)
       neighborOffsets).

(** The state of one search: the node objects, [openSet] and [closedSet]. *)
Record Search : Type := mkSearch {
  s_nodes : gmap Ref PathfindingNode;
  openSet : list Ref;
  closedSet : list Ref
}.

(** The node-cost reset at the start of [aStarSearch]. *)
Definition resetNode (n : PathfindingNode) : PathfindingNode :=
  mkNode (position n) PInf 0 (Fin 0) None (isWalkable n).

Fixpoint resetCosts (cs : list Ref) (ns : gmap Ref PathfindingNode)
  : result (gmap Ref PathfindingNode) :=
  match cs with
  | [] => Ok ns
  | r :: rest =>
      match ns !! r with
      | Some n => resetCosts rest (<[r := resetNode n]> ns)
      | None => Throw
      end
  end.

(** The scan for the open node of lowest [fCost], ties broken by [hCost];
    [best] is [currentNode], [bi] is [currentIndex], [i] the loop index. *)
Fixpoint lowestF (ns : gmap Ref PathfindingNode) (rest : list Ref) (i : nat)
  (best : Ref) (bi : nat) : result (Ref * nat) :=
  match rest with
  | [] => Ok (best, bi)
  | r :: rest' =>
      match ns !! r, ns !! best with
      | Some n, Some b =>
          if ext_lt (fCost n) (fCost b)
             || (ext_eqb (fCost n) (fCost b) && Qltb (hCost n) (hCost b))
          then lowestF ns rest' (S i) r i
          else lowestF ns rest' (S i) best bi
      | _, _ => Throw
      end
  end.

(** [openSet.splice(i, 1)]. *)
Definition removeAt (i : nat) (l : list Ref) : list Ref :=
  firstn i l ++ skipn (S i) l.

(** The body of [for (const neighbor of neighbors)]. *)
Definition visitNeighbor (g : PathfindingSystem) (endRef current : Ref)
  (st : Search) (neighbor : Ref) : result Search :=
  match s_nodes st !! neighbor, s_nodes st !! current, s_nodes st !! endRef with
  | Some nb, Some cur, Some endNode =>
      if negb (isWalkable nb) || bool_decide (neighbor ∈ closedSet st) then Ok st
      else
        let tentativeGCost := ext_add (gCost cur) (calculateDistance g cur nb) in
        let improved (open' : list Ref) :=
          let h := calculateHeuristic nb endNode in
          mkSearch
            (<[neighbor :=
                 mkNode (position nb) tentativeGCost h (ext_add tentativeGCost h)
                   (Some current) (isWalkable nb)]> (s_nodes st))
            open' (closedSet st) in
        if negb (bool_decide (neighbor ∈ openSet st)) then
          Ok (improved (openSet st ++ [neighbor]))
        else if ext_geb tentativeGCost (gCost nb) then Ok st
        else Ok (improved (openSet st))
  | _, _, _ => Throw
  end.

Fixpoint visitNeighbors (g : PathfindingSystem) (endRef current : Ref)
  (st : Search) (neighbors : list Ref) : result Search :=
  match neighbors with
  | [] => Ok st
  | n :: rest =>
      let* st' := visitNeighbor g endRef current st n in
      visitNeighbors g endRef current st' rest
  end.

(** [reconstructPath]: the positions along the parent chain, start first. *)
Fixpoint reconstructPath (fuel : nat) (ns : gmap Ref PathfindingNode)
  (currentNode : option Ref) (path : list Vector3) : result (list Vector3) :=
  match currentNode with
  | None => Ok path
  | Some r =>
      match fuel with
      | O => OutOfFuel
      | S fuel' =>
          match ns !! r with
          | Some n => reconstructPath fuel' ns (parent n) (position n :: path)
          | None => Throw
          end
      end
  end.

(** The [while (openSet.length > 0)] loop of [aStarSearch]. *)
Fixpoint aStarLoop (fuel : nat) (g : PathfindingSystem) (endRef : Ref)
  (st : Search) : result (list Vector3 * Search) :=
  match fuel with
  | O => OutOfFuel
  | S fuel' =>
      match openSet st with
      | [] => Ok ([], st)
      | first :: rest =>
          let* (currentNode, currentIndex) := lowestF (s_nodes st) rest 1 first 0 in
          let st1 :=
            mkSearch (s_nodes st) (removeAt currentIndex (openSet st))
              (sadd currentNode (closedSet st)) in
          if bool_decide (currentNode = endRef) then
            let* path := reconstructPath (S (List.length (closedSet st1)))
                           (s_nodes st1) (Some endRef) [] in
            Ok (path, st1)
          else
            match s_nodes st1 !! currentNode with
            | Some cur =>
                let* st2 := visitNeighbors g endRef currentNode st1 (getNeighbors g cur) in
                aStarLoop fuel' g endRef st2
            | None => Throw
            end
      end
  end.

(** [aStarSearch]. *)
Definition aStarSearch (g : PathfindingSystem) (startRef endRef : Ref)
  : result (list Vector3 * gmap Ref PathfindingNode) :=
  let* ns := resetCosts (coords (width g) (height g)) (nodes g) in
  match ns !! startRef, ns !! endRef with
  | Some startNode, Some endNode =>
      let h := calculateHeuristic startNode endNode in
      let ns :=
        <[startRef :=
            mkNode (position startNode) (Fin 0) h (ext_add (Fin 0) h)
              (parent startNode) (isWalkable startNode)]> ns in
      let* (path, st) := aStarLoop (S (List.length (coords (width g) (height g)))) g
                           endRef (mkSearch ns [startRef] []) in
      Ok (path, s_nodes st)
  | _, _ => Throw
  end.

(** [hasLineOfSight]. *)
Definition hasLineOfSight (g : PathfindingSystem) (start end_ : Vector3) : bool :=
  let distance := distanceTo Math_sqrt start end_ in
  let steps := Math_ceil (distance / (cellSize g / 2)) in
  forallb
    (fun i =>
       let point := lerpVectors start end_ (ofZ i / ofZ steps) in
       let gridPos := worldToGrid g point in
       isValidGridPosition g (fst gridPos) (snd gridPos)
       && negb (bool_decide (gridPos ∈ obstacles g)))
    (seqZ 0 (steps + 1)).

(** The inner [for] of [smoothPath]: the farthest index reachable from
    [path[currentIndex]] in a straight line, scanning [cands] (the waypoints
    from index [i] on) until the first one out of sight. *)
Fixpoint farthest (g : PathfindingSystem) (from : Vector3)
  (cands : list Vector3) (i : nat) (farthestIndex : nat) : nat :=
  match cands with
  | [] => farthestIndex
  | p :: rest =>
      if hasLineOfSight g from p then farthest g from rest (S i) i
      else farthestIndex
  end.

(** The [while] loop of [smoothPath]. *)
Fixpoint smoothLoop (fuel : nat) (g : PathfindingSystem) (path : list Vector3)
  (currentIndex : nat) (smoothed : list Vector3) : result (list Vector3) :=
  match fuel with
  | O => OutOfFuel
  | S fuel' =>
      if (currentIndex <? List.length path - 1)%nat then
        match nth_error path currentIndex with
        | Some from =>
            let farthestIndex :=
              farthest g from (skipn (currentIndex + 2) path) (currentIndex + 2)
                (currentIndex + 1) in
            match nth_error path farthestIndex with
            | Some p =>
                smoothLoop fuel' g path farthestIndex (smoothed ++ [p])
            | None => Throw
            end
        | None => Throw
        end
      else Ok smoothed
  end.

(** [smoothPath]. *)
Definition smoothPath (g : PathfindingSystem) (path : list Vector3)
  : result (list Vector3) :=
  match path with
  | [] | [_] | [_; _] => Ok path
  | p0 :: _ => smoothLoop (List.length path) g path 0 [p0]
  end.

(** The part of [findPath] after the grid-position check. *)
Definition findPathInGrid (g : PathfindingSystem) (startPos endPos : Vector3)
  (startGrid endGrid : Ref) : result (list Vector3 * PathfindingSystem) :=
  match nodes g !! startGrid, nodes g !! endGrid with
  | Some startNode, Some endNode =>
      if negb (isWalkable startNode) || negb (isWalkable endNode) then
        Ok (generateDirectPath startPos endPos, g)
      else
        let* (path, ns) := aStarSearch g startGrid endGrid in
        match path with
        | [] => Ok (generateDirectPath startPos endPos, set_nodes g ns)
        | _ =>
            let* smoothed := smoothPath g path in
            Ok (smoothed, set_nodes g ns)
        end
  | _, _ => Throw
  end.

(** [findPath]. *)
Definition findPath (g : PathfindingSystem) (startPos endPos : Vector3)
  : result (list Vector3 * PathfindingSystem) :=
  let startGrid := worldToGrid g startPos in
  let endGrid := worldToGrid g endPos in
  if negb (isValidGridPosition g (fst startGrid) (snd startGrid))
     || negb (isValidGridPosition g (fst endGrid) (snd endGrid))
  then Ok (generateDirectPath startPos endPos, g)
  else findPathInGrid g startPos endPos startGrid endGrid.

End WithSqrt.

(** *** Grid indices *)

Definition validRef (g : PathfindingSystem) (r : Ref) : Prop :=
  isValidGridPosition g (fst r) (snd r) = true.

Lemma isValidGridPosition_spec (g : PathfindingSystem) (x y : Z) :
  isValidGridPosition g x y = true <->
  (0 <= x < width g)%Z /\ (0 <= y < height g)%Z.
Proof.
  unfold isValidGridPosition.
  rewrite !andb_true_iff, !Z.leb_le, !Z.ltb_lt. lia.
Qed.

Lemma elem_of_coords (w h : Z) (r : Ref) :
  r ∈ coords w h <-> (0 <= fst r < w)%Z /\ (0 <= snd r < h)%Z.
Proof.
  unfold coords. rewrite list_elem_of_bind. split.
  - intros [x [Hr Hx]]. apply list_elem_of_bind in Hr.
    destruct Hr as [y [Hr Hy]]. apply list_elem_of_singleton in Hr. subst r.
    apply elem_of_seqZ in Hx. apply elem_of_seqZ in Hy. simpl. lia.
  - intros [Hx Hy]. exists (fst r). split.
    + apply list_elem_of_bind. exists (snd r). split.
      * destruct r. apply list_elem_of_singleton. reflexivity.
      * apply elem_of_seqZ. lia.
    + apply elem_of_seqZ. lia.
Qed.

Lemma elem_of_coords_valid (g : PathfindingSystem) (r : Ref) :
  r ∈ coords (width g) (height g) <-> validRef g r.
Proof.
  unfold validRef. rewrite elem_of_coords, isValidGridPosition_spec.
  reflexivity.
Qed.

(** A grid as the constructor builds it: a positive cell size and a node
    object at every valid index. *)
Definition grid_wf (g : PathfindingSystem) : Prop :=
  0 < cellSize g /\ forall r, validRef g r -> is_Some (nodes g !! r).

Lemma worldToGrid_bounds (g : PathfindingSystem) (p : Vector3) :
  (0 < width g)%Z -> (0 < height g)%Z ->
  (0 <= fst (worldToGrid g p) <= width g - 1)%Z
  /\ (0 <= snd (worldToGrid g p) <= height g - 1)%Z.
Proof.
  intros Hw Hh. unfold worldToGrid. cbn [fst snd]. lia.
Qed.

Lemma worldToGrid_valid (g : PathfindingSystem) (p : Vector3) :
  (0 < width g)%Z -> (0 < height g)%Z -> validRef g (worldToGrid g p).
Proof.
  intros Hw Hh. unfold validRef. apply isValidGridPosition_spec.
  pose proof (worldToGrid_bounds g p Hw Hh). lia.
Qed.

(** Left of the grid the index is 0, right of it the last index. *)
Lemma worldToGrid_snap_x (g : PathfindingSystem) (p : Vector3) :
  0 < cellSize g -> (0 < width g)%Z ->
  (vx p + ofZ (width g) * cellSize g / 2 < 0 -> fst (worldToGrid g p) = 0%Z)
  /\ (ofZ (width g) * cellSize g / 2 <= vx p ->
      fst (worldToGrid g p) = (width g - 1)%Z).
Proof.
  intros Hc Hw. unfold worldToGrid, Math_floor. cbn [fst].
  set (hw := ofZ (width g) * cellSize g / 2).
  assert (Hhw : hw / cellSize g == ofZ (width g) / 2).
  { unfold hw. field. lra. }
  set (q := (vx p + hw) / cellSize g).
  split.
  - intros Hneg.
    assert (Hq : q < 0).
    { unfold q. apply Qlt_shift_div_r; [exact Hc | lra]. }
    assert (Hf : (Qfloor q < 0)%Z).
    { rewrite Zlt_Qlt. pose proof (Qfloor_le q). change (inject_Z 0) with 0. lra. }
    lia.
  - intros Hpos.
    assert (Hq : ofZ (width g) <= q).
    { unfold q. apply Qle_shift_div_l; [exact Hc |].
      assert (H2 : hw * 2 == ofZ (width g) * cellSize g) by (unfold hw; field).
      lra. }
    assert (Hf : (width g <= Qfloor q)%Z).
    { rewrite <- (Qfloor_Z (width g)). apply Qfloor_resp_le. exact Hq. }
    lia.
Qed.

Lemma worldToGrid_snap_z (g : PathfindingSystem) (p : Vector3) :
  0 < cellSize g -> (0 < height g)%Z ->
  (vz p + ofZ (height g) * cellSize g / 2 < 0 -> snd (worldToGrid g p) = 0%Z)
  /\ (ofZ (height g) * cellSize g / 2 <= vz p ->
      snd (worldToGrid g p) = (height g - 1)%Z).
Proof.
  intros Hc Hw. unfold worldToGrid, Math_floor. cbn [snd].
  set (hw := ofZ (height g) * cellSize g / 2).
  assert (Hhw : hw / cellSize g == ofZ (height g) / 2).
  { unfold hw. field. lra. }
  set (q := (vz p + hw) / cellSize g).
  split.
  - intros Hneg.
    assert (Hq : q < 0).
    { unfold q. apply Qlt_shift_div_r; [exact Hc | lra]. }
    assert (Hf : (Qfloor q < 0)%Z).
    { rewrite Zlt_Qlt. pose proof (Qfloor_le q). change (inject_Z 0) with 0. lra. }
    lia.
  - intros Hpos.
    assert (Hq : ofZ (height g) <= q).
    { unfold q. apply Qle_shift_div_l; [exact Hc |].
      assert (H2 : hw * 2 == ofZ (height g) * cellSize g) by (unfold hw; field).
      lra. }
    assert (Hf : (height g <= Qfloor q)%Z).
    { rewrite <- (Qfloor_Z (height g)). apply Qfloor_resp_le. exact Hq. }
    lia.
Qed.

Section ClampedQueries.
Variable Math_sqrt : Q -> Q.

(** C10.  On a grid with at least one cell, [worldToGrid] returns indices in
    [0, width-1] x [0, height-1] for every world position; a position left of
    (below) the grid gets index 0 and one right of (above) it the last index.
    Hence the grid-position check of [findPath] never fires: [findPath] is
    the search from the snapped cells, [findPathInGrid]. *)
Theorem worldToGrid_clamped (g : PathfindingSystem) (startPos endPos : Vector3) :
  0 < cellSize g -> (0 < width g)%Z -> (0 < height g)%Z ->
  (forall p,
     (0 <= fst (worldToGrid g p) <= width g - 1)%Z
     /\ (0 <= snd (worldToGrid g p) <= height g - 1)%Z
     /\ isValidGridPosition g (fst (worldToGrid g p)) (snd (worldToGrid g p))
        = true
     /\ (vx p + ofZ (width g) * cellSize g / 2 < 0 ->
         fst (worldToGrid g p) = 0%Z)
     /\ (ofZ (width g) * cellSize g / 2 <= vx p ->
         fst (worldToGrid g p) = (width g - 1)%Z)
     /\ (vz p + ofZ (height g) * cellSize g / 2 < 0 ->
         snd (worldToGrid g p) = 0%Z)
     /\ (ofZ (height g) * cellSize g / 2 <= vz p ->
         snd (worldToGrid g p) = (height g - 1)%Z))
  /\ findPath Math_sqrt g startPos endPos
     = findPathInGrid Math_sqrt g startPos endPos
         (worldToGrid g startPos) (worldToGrid g endPos).
Proof.
  intros Hc Hw Hh. split.
  - intros p.
    destruct (worldToGrid_bounds g p Hw Hh) as [Hx Hy].
    destruct (worldToGrid_snap_x g p Hc Hw) as [Hx0 Hx1].
    destruct (worldToGrid_snap_z g p Hc Hh) as [Hz0 Hz1].
    pose proof (worldToGrid_valid g p Hw Hh) as Hv.
    repeat split; try lia; assumption.
  - unfold findPath.
    rewrite (worldToGrid_valid g startPos Hw Hh).
    rewrite (worldToGrid_valid g endPos Hw Hh). reflexivity.
Qed.

End ClampedQueries.

(** *** What a search never changes *)

Definition static (n : PathfindingNode) : Vector3 * bool :=
  (position n, isWalkable n).

(** Two stores hold nodes at the same indices, with the same positions and
    walkability. *)
Definition same_static (a b : gmap Ref PathfindingNode) : Prop :=
  forall r, static <$> (a !! r) = static <$> (b !! r).

Lemma same_static_refl (a : gmap Ref PathfindingNode) : same_static a a.
Proof. intros r. reflexivity. Qed.

Lemma same_static_trans (a b c : gmap Ref PathfindingNode) :
  same_static a b -> same_static b c -> same_static a c.
Proof. intros H1 H2 r. rewrite (H1 r). apply H2. Qed.

Lemma same_static_insert (a : gmap Ref PathfindingNode) (r : Ref)
  (n n' : PathfindingNode) :
  a !! r = Some n -> static n' = static n -> same_static a (<[r := n']> a).
Proof.
  intros Hr Hs r'. destruct (decide (r = r')) as [<- | Hne].
  - rewrite lookup_insert_eq, Hr. simpl. congruence.
  - rewrite lookup_insert_ne by exact Hne. reflexivity.
Qed.

Lemma same_static_lookup (a b : gmap Ref PathfindingNode) (r : Ref)
  (n : PathfindingNode) :
  same_static a b -> a !! r = Some n ->
  exists n', b !! r = Some n' /\ position n' = position n
             /\ isWalkable n' = isWalkable n.
Proof.
  intros H Hr. specialize (H r). rewrite Hr in H.
  destruct (b !! r) as [n' |]; [| discriminate].
  exists n'. simpl in H. unfold static in H. inversion H. auto.
Qed.

Lemma same_static_lookup_rev (a b : gmap Ref PathfindingNode) (r : Ref)
  (n' : PathfindingNode) :
  same_static a b -> b !! r = Some n' ->
  exists n, a !! r = Some n /\ position n' = position n
            /\ isWalkable n' = isWalkable n.
Proof.
  intros H Hr. specialize (H r). rewrite Hr in H.
  destruct (a !! r) as [n |]; [| discriminate].
  exists n. simpl in H. unfold static in H. inversion H. auto.
Qed.

Lemma getNeighbors_position (g : PathfindingSystem) (n n' : PathfindingNode) :
  position n = position n' -> getNeighbors g n = getNeighbors g n'.
Proof. intros H. unfold getNeighbors. rewrite H. reflexivity. Qed.

Lemma getNeighbors_valid (g : PathfindingSystem) (n : PathfindingNode) (r : Ref) :
  r ∈ getNeighbors g n -> validRef g r.
Proof.
  unfold getNeighbors. intros H. apply list_elem_of_In in H.
  apply filter_In in H. destruct H as [_ H]. exact H.
Qed.

(** A grid path: from [s], repeatedly step to a walkable node among the
    neighbours [getNeighbors] hands out. *)
Inductive reachable (g : PathfindingSystem) (s : Ref) : Ref -> Prop :=
| reach_start : reachable g s s
| reach_step (a b : Ref) (na nb : PathfindingNode) :
    reachable g s a ->
    nodes g !! a = Some na ->
    b ∈ getNeighbors g na ->
    nodes g !! b = Some nb ->
    isWalkable nb = true ->
    reachable g s b.

Lemma resetNode_static (n : PathfindingNode) : static (resetNode n) = static n.
Proof. reflexivity. Qed.

(** The reset loop does not throw when every listed index holds a node; it
    keeps the static part of every node and clears the parent of the listed
    ones. *)
Lemma resetCosts_ok (cs : list Ref) :
  forall ns : gmap Ref PathfindingNode,
    (forall r, r ∈ cs -> is_Some (ns !! r)) ->
    exists ns',
      resetCosts cs ns = Ok ns'
      /\ same_static ns ns'
      /\ (forall r n, r ∈ cs -> ns' !! r = Some n -> parent n = None).
Proof.
  induction cs as [| r rest IH]; intros ns Hall; simpl.
  - exists ns. split; [reflexivity |]. split; [apply same_static_refl |].
    intros r n Hr. apply elem_of_nil in Hr. contradiction.
  - destruct (Hall r) as [n Hn]; [left |]. rewrite Hn.
    destruct (IH (<[r := resetNode n]> ns)) as [ns' [Hres [Hst Hpar]]].
    { intros r' Hr'. destruct (decide (r = r')) as [<- | Hne].
      - rewrite lookup_insert_eq. eauto.
      - rewrite lookup_insert_ne by exact Hne. apply Hall. right. exact Hr'. }
    exists ns'. split; [exact Hres |]. split.
    + eapply same_static_trans; [| exact Hst].
      eapply same_static_insert; [exact Hn | apply resetNode_static].
    + intros r' n' Hr' Hn'.
      destruct (decide (r' ∈ rest)) as [Hin | Hnin].
      * eapply Hpar; eassumption.
      * apply elem_of_cons in Hr'. destruct Hr' as [-> | Hr']; [| contradiction].
        (* [r] is reset once and not touched again *)
        clear IH Hpar Hall.
        assert (G : forall (l : list Ref) (m m' : gmap Ref PathfindingNode) x,
                   r ∉ l -> resetCosts l m = Ok m' -> m !! r = Some x ->
                   m' !! r = Some x).
        { induction l as [| a l IHl]; intros m m' x Hnl Hm Hx; simpl in Hm.
          - inversion Hm; subst. exact Hx.
          - destruct (m !! a) as [na |] eqn:Ea; [| discriminate].
            apply (IHl _ _ x) in Hm.
            + exact Hm.
            + intros Hc. apply Hnl. right. exact Hc.
            + rewrite lookup_insert_ne; [exact Hx |].
              intros ->. apply Hnl. left. }
        pose proof (G rest _ _ (resetNode n) Hnin Hres
                      (lookup_insert_eq _ _ _)) as Hfin.
        rewrite Hfin in Hn'. inversion Hn'; subst. reflexivity.
Qed.

(** *** The search invariant *)

Record Inv (g : PathfindingSystem) (startRef : Ref) (st : Search) : Prop :=
  mkInv {
    inv_static : same_static (nodes g) (s_nodes st);
    inv_nodup : NoDup (openSet st ++ closedSet st);
    inv_valid : forall r, r ∈ openSet st ++ closedSet st -> validRef g r;
    inv_parent :
      forall r n p,
        validRef g r -> s_nodes st !! r = Some n -> parent n = Some p ->
        exists l1 l2,
          closedSet st = l1 ++ p :: l2 /\ (r ∈ closedSet st -> r ∈ l2);
    inv_reach : forall r, r ∈ openSet st -> reachable g startRef r
  }.

Lemma wf_lookup (g : PathfindingSystem) (ns : gmap Ref PathfindingNode) (r : Ref) :
  grid_wf g -> same_static (nodes g) ns -> validRef g r ->
  exists n n0, ns !! r = Some n /\ nodes g !! r = Some n0
               /\ position n = position n0 /\ isWalkable n = isWalkable n0.
Proof.
  intros [_ Hwf] Hst Hv. destruct (Hwf r Hv) as [n0 Hn0].
  destruct (same_static_lookup _ _ _ _ Hst Hn0) as [n [Hn [Hp Hw]]].
  exists n, n0. auto.
Qed.

Lemma sadd_fresh (r : Ref) (s : list Ref) : r ∉ s -> sadd r s = s ++ [r].
Proof. intros H. unfold sadd. destruct (decide (r ∈ s)); [contradiction | reflexivity]. Qed.

Lemma removeAt_middle (l : list Ref) (i : nat) (x : Ref) :
  l !! i = Some x -> l = firstn i l ++ x :: skipn (S i) l.
Proof. intros H. symmetry. apply take_drop_middle, H. Qed.

Lemma skipn_cons_inv (l : list Ref) :
  forall (i : nat) (r : Ref) (rest : list Ref),
    skipn i l = r :: rest -> l !! i = Some r /\ skipn (S i) l = rest.
Proof.
  induction l as [| a l IH]; intros i r rest H.
  - destruct i; discriminate.
  - destruct i as [| i].
    + simpl in H. inversion H; subst. split; reflexivity.
    + simpl in H. apply IH in H. exact H.
Qed.

Lemma lowestF_ok (ns : gmap Ref PathfindingNode) (l : list Ref) :
  (forall r, r ∈ l -> is_Some (ns !! r)) ->
  forall (rest : list Ref) (i : nat) (best : Ref) (bi : nat),
    skipn i l = rest ->
    l !! bi = Some best ->
    exists b' bi', lowestF ns rest i best bi = Ok (b', bi') /\ l !! bi' = Some b'.
Proof.
  intros Hall rest. induction rest as [| r rest' IH]; intros i best bi Hs Hb; simpl.
  - exists best, bi. split; [reflexivity | exact Hb].
  - destruct (skipn_cons_inv l i r rest' Hs) as [Hr Hs'].
    destruct (Hall r) as [n Hn]; [eapply list_elem_of_lookup_2; exact Hr |].
    destruct (Hall best) as [b Hbn]; [eapply list_elem_of_lookup_2; exact Hb |].
    rewrite Hn, Hbn.
    destruct (ext_lt (fCost n) (fCost b)
              || ext_eqb (fCost n) (fCost b) && Qltb (hCost n) (hCost b)).
    + apply IH; assumption.
    + apply IH; assumption.
Qed.

Lemma reconstructPath_nonnil (ns : gmap Ref PathfindingNode) (fuel : nat) :
  forall cur path p',
    reconstructPath fuel ns cur path = Ok p' ->
    path <> [] \/ is_Some cur -> p' <> [].
Proof.
  induction fuel as [| f IH]; intros cur path p' Hr Hc.
  - destruct cur as [r |]; simpl in Hr; [discriminate |].
    inversion Hr; subst. destruct Hc as [Hc | [x Hx]]; [exact Hc | discriminate].
  - destruct cur as [r |]; simpl in Hr.
    + destruct (ns !! r) as [n |]; [| discriminate].
      eapply IH; [exact Hr |]. left. discriminate.
    + inversion Hr; subst. destruct Hc as [Hc | [x Hx]]; [exact Hc | discriminate].
Qed.

(** The parent chain of a closed node runs backwards through the closing
    order, so it ends within as many steps as there are closed nodes. *)
Lemma reconstructPath_ok (g : PathfindingSystem) (s : Ref) (st : Search) :
  grid_wf g -> Inv g s st ->
  forall (fuel : nat) (l1 : list Ref) (r : Ref) (l2 : list Ref)
         (path : list Vector3),
    closedSet st = l1 ++ r :: l2 ->
    (List.length l1 < fuel)%nat ->
    exists p', reconstructPath fuel (s_nodes st) (Some r) path = Ok p'.
Proof.
  intros Hwf HI fuel. induction fuel as [| f IH]; intros l1 r l2 path Hc Hlt.
  - lia.
  - assert (Hrc : r ∈ closedSet st).
    { rewrite Hc. apply elem_of_app. right. left. }
    assert (Hv : validRef g r).
    { apply (inv_valid _ _ _ HI). apply elem_of_app. right. exact Hrc. }
    destruct (wf_lookup g (s_nodes st) r Hwf (inv_static _ _ _ HI) Hv)
      as [n [n0 [Hn _]]].
    simpl. rewrite Hn.
    destruct (parent n) as [p |] eqn:Hp.
    + destruct (inv_parent _ _ _ HI r n p Hv Hn Hp) as [m1 [m2 [Hc' Hr2]]].
      specialize (Hr2 Hrc).
      apply (IH m1 p m2 (position n :: path) Hc').
      apply list_elem_of_split in Hr2. destruct Hr2 as [k1 [k2 ->]].
      assert (Hnd : NoDup (closedSet st)).
      { pose proof (inv_nodup _ _ _ HI) as H. apply NoDup_app in H. tauto. }
      assert (E1 : closedSet st !! List.length l1 = Some r).
      { rewrite Hc. apply list_lookup_middle. reflexivity. }
      assert (E2 : closedSet st !! List.length (m1 ++ p :: k1) = Some r).
      { rewrite Hc'.
        replace (m1 ++ p :: k1 ++ r :: k2) with ((m1 ++ p :: k1) ++ r :: k2)
          by (rewrite <- app_assoc; reflexivity).
        apply list_lookup_middle. reflexivity. }
      pose proof (NoDup_lookup _ _ _ _ Hnd E1 E2) as Heq.
      rewrite length_app in Heq. simpl in Heq. lia.
    + exists (position n :: path). destruct f; reflexivity.
Qed.

Section SearchTotal.
Variable Math_sqrt : Q -> Q.
Variable g : PathfindingSystem.
Variable startRef endRef : Ref.
Hypothesis Hwf : grid_wf g.
Hypothesis Hend : validRef g endRef.

Lemma visitNeighbor_ok (st : Search) (current neighbor : Ref)
  (n0 : PathfindingNode) :
  Inv g startRef st ->
  current ∈ closedSet st ->
  reachable g startRef current ->
  nodes g !! current = Some n0 ->
  neighbor ∈ getNeighbors g n0 ->
  exists st',
    visitNeighbor Math_sqrt g endRef current st neighbor = Ok st'
    /\ Inv g startRef st'
    /\ closedSet st' = closedSet st.
Proof.
  intros HI Hcur Hreach Hn0 Hnb.
  pose proof (getNeighbors_valid _ _ _ Hnb) as Hvnb.
  assert (Hvcur : validRef g current).
  { apply (inv_valid _ _ _ HI). apply elem_of_app. right. exact Hcur. }
  destruct (wf_lookup g (s_nodes st) neighbor Hwf (inv_static _ _ _ HI) Hvnb)
    as [nb [nb0 [Hnbs [Hnb0 [Hpnb Hwnb]]]]].
  destruct (wf_lookup g (s_nodes st) current Hwf (inv_static _ _ _ HI) Hvcur)
    as [cur [cur0 [Hcurs _]]].
  destruct (wf_lookup g (s_nodes st) endRef Hwf (inv_static _ _ _ HI) Hend)
    as [en [en0 [Hens _]]].
  unfold visitNeighbor. rewrite Hnbs, Hcurs, Hens.
  destruct (isWalkable nb) eqn:Hw; cbn [negb orb];
    [| exists st; split; [reflexivity | split; [exact HI | reflexivity]]].
  destruct (bool_decide (neighbor ∈ closedSet st)) eqn:Hcl;
    [exists st; split; [reflexivity | split; [exact HI | reflexivity]] |].
  apply bool_decide_eq_false in Hcl.
  set (node' := mkNode _ _ _ _ _ _).
  assert (Hstat : same_static (nodes g) (<[neighbor := node']> (s_nodes st))).
  { eapply same_static_trans; [apply (inv_static _ _ _ HI) |].
    eapply same_static_insert; [exact Hnbs |].
    unfold static, node'. cbn [position isWalkable]. rewrite Hw. reflexivity. }
  assert (Hpar : forall r n p,
            validRef g r ->
            <[neighbor := node']> (s_nodes st) !! r = Some n ->
            parent n = Some p ->
            exists l1 l2,
              closedSet st = l1 ++ p :: l2 /\ (r ∈ closedSet st -> r ∈ l2)).
  { intros r n p Hv Hl Hp.
    destruct (decide (neighbor = r)) as [<- | Hne].
    - rewrite lookup_insert_eq in Hl. inversion Hl; subst n.
      cbn [parent node'] in Hp. inversion Hp; subst p.
      apply list_elem_of_split in Hcur. destruct Hcur as [l1 [l2 Hsplit]].
      exists l1, l2. split; [exact Hsplit | intros Hc; contradiction].
    - rewrite lookup_insert_ne in Hl by exact Hne.
      apply (inv_parent _ _ _ HI r n p Hv Hl Hp). }
  assert (Hreach' : reachable g startRef neighbor).
  { eapply reach_step; [exact Hreach | exact Hn0 | exact Hnb | exact Hnb0 |].
    congruence. }
  destruct (bool_decide (neighbor ∈ openSet st)) eqn:Hop; cbn [negb].
  - apply bool_decide_eq_true in Hop.
    destruct (ext_geb _ (gCost nb));
      [exists st; split; [reflexivity | split; [exact HI | reflexivity]] |].
    eexists. split; [reflexivity |]. split; [| reflexivity].
    constructor; cbn [s_nodes openSet closedSet].
    + exact Hstat.
    + apply (inv_nodup _ _ _ HI).
    + apply (inv_valid _ _ _ HI).
    + exact Hpar.
    + apply (inv_reach _ _ _ HI).
  - apply bool_decide_eq_false in Hop.
    eexists. split; [reflexivity |]. split; [| reflexivity].
    constructor; cbn [s_nodes openSet closedSet].
    + exact Hstat.
    + pose proof (inv_nodup _ _ _ HI) as Hnd.
      rewrite <- app_assoc. apply NoDup_app in Hnd.
      destruct Hnd as [Ho [Hdis Hc]].
      apply NoDup_app. split; [exact Ho |]. split.
      * intros x Hx Hx'. apply elem_of_app in Hx'. destruct Hx' as [Hx' | Hx'].
        -- apply list_elem_of_singleton in Hx'. subst x. contradiction.
        -- apply (Hdis x Hx Hx').
      * apply NoDup_app. split; [apply NoDup_singleton |]. split; [| exact Hc].
        intros x Hx. apply list_elem_of_singleton in Hx. subst x. exact Hcl.
    + intros r Hr. rewrite <- app_assoc in Hr.
      apply elem_of_app in Hr. destruct Hr as [Hr | Hr].
      * apply (inv_valid _ _ _ HI). apply elem_of_app. left. exact Hr.
      * apply elem_of_app in Hr. destruct Hr as [Hr | Hr].
        -- apply list_elem_of_singleton in Hr. subst r. exact Hvnb.
        -- apply (inv_valid _ _ _ HI). apply elem_of_app. right. exact Hr.
    + exact Hpar.
    + intros r Hr. apply elem_of_app in Hr. destruct Hr as [Hr | Hr].
      * apply (inv_reach _ _ _ HI). exact Hr.
      * apply list_elem_of_singleton in Hr. subst r. exact Hreach'.
Qed.

Lemma visitNeighbors_ok (current : Ref) (n0 : PathfindingNode)
  (neighbors : list Ref) :
  reachable g startRef current ->
  nodes g !! current = Some n0 ->
  (forall r, r ∈ neighbors -> r ∈ getNeighbors g n0) ->
  forall st,
    Inv g startRef st ->
    current ∈ closedSet st ->
    exists st',
      visitNeighbors Math_sqrt g endRef current st neighbors = Ok st'
      /\ Inv g startRef st'
      /\ closedSet st' = closedSet st.
Proof.
  intros Hreach Hn0. induction neighbors as [| nb rest IH]; intros Hsub st HI Hcur.
  - exists st. simpl. auto.
  - destruct (visitNeighbor_ok st current nb n0 HI Hcur Hreach Hn0)
      as [st1 [H1 [HI1 Hc1]]]; [apply Hsub; left |].
    destruct (IH (fun r Hr => Hsub r (list_elem_of_further _ _ _ Hr)) st1 HI1)
      as [st2 [H2 [HI2 Hc2]]]; [rewrite Hc1; exact Hcur |].
    exists st2. simpl. rewrite H1. simpl. split; [exact H2 |].
    split; [exact HI2 | congruence].
Qed.

Lemma Inv_length (st : Search) :
  Inv g startRef st ->
  (List.length (openSet st) + List.length (closedSet st)
   <= List.length (coords (width g) (height g)))%nat.
Proof.
  intros HI. rewrite <- length_app. apply submseteq_length.
  apply NoDup_submseteq; [apply (inv_nodup _ _ _ HI) |].
  intros r Hr. apply elem_of_coords_valid. apply (inv_valid _ _ _ HI), Hr.
Qed.

(** The main loop ends within one iteration per grid cell, without throwing,
    and a non-empty path means the goal is reachable. *)
Lemma aStarLoop_ok (fuel : nat) :
  forall st,
    Inv g startRef st ->
    (List.length (coords (width g) (height g)) + 1
     <= fuel + List.length (closedSet st))%nat ->
    exists path st',
      aStarLoop Math_sqrt fuel g endRef st = Ok (path, st')
      /\ same_static (nodes g) (s_nodes st')
      /\ (path <> [] -> reachable g startRef endRef).
Proof.
  induction fuel as [| fuel IH]; intros st HI Hfuel.
  - pose proof (Inv_length st HI). lia.
  - simpl. destruct (openSet st) as [| first rest] eqn:Hopen.
    + exists [], st. split; [reflexivity |].
      split; [apply HI | intros H; contradiction].
    + destruct (lowestF_ok (s_nodes st) (openSet st)) with
        (rest := rest) (i := 1%nat) (best := first) (bi := 0%nat)
        as [cur [ci [Hlow Hci]]].
      { intros r Hr.
        destruct (wf_lookup g (s_nodes st) r Hwf (inv_static _ _ _ HI))
          as [n [_ [Hn _]]]; [| eauto].
        apply (inv_valid _ _ _ HI). apply elem_of_app. left. exact Hr. }
      { rewrite Hopen. reflexivity. }
      { rewrite Hopen. reflexivity. }
      rewrite Hlow. cbn [bind]. rewrite <- Hopen.
      assert (Hcuro : cur ∈ openSet st) by (eapply list_elem_of_lookup_2; exact Hci).
      pose proof (inv_nodup _ _ _ HI) as Hnd.
      assert (Hcurc : cur ∉ closedSet st).
      { apply NoDup_app in Hnd. destruct Hnd as [_ [Hdis _]]. apply Hdis, Hcuro. }
      rewrite (sadd_fresh _ _ Hcurc).
      pose proof (removeAt_middle _ _ _ Hci) as Hmid.
      set (open1 := removeAt ci (openSet st)).
      assert (Hperm : openSet st ≡ₚ cur :: open1).
      { rewrite Hmid at 1. unfold open1, removeAt.
        symmetry. apply Permutation_middle. }
      set (st1 := mkSearch (s_nodes st) open1 (closedSet st ++ [cur])).
      assert (Hvcur : validRef g cur).
      { apply (inv_valid _ _ _ HI). apply elem_of_app. left. exact Hcuro. }
      assert (HI1 : Inv g startRef st1).
      { constructor; cbn [st1 s_nodes openSet closedSet].
        - apply HI.
        - assert (Hp : open1 ++ closedSet st ++ [cur]
                       ≡ₚ openSet st ++ closedSet st).
          { rewrite Hperm. simpl.
            rewrite (Permutation_app_comm (closedSet st) [cur]). simpl.
            symmetry. apply Permutation_middle. }
          rewrite Hp. exact Hnd.
        - intros r Hr. apply (inv_valid _ _ _ HI).
          apply elem_of_app in Hr. apply elem_of_app.
          destruct Hr as [Hr | Hr].
          + left. rewrite Hperm. right. exact Hr.
          + apply elem_of_app in Hr. destruct Hr as [Hr | Hr];
              [right; exact Hr |].
            apply list_elem_of_singleton in Hr. subst r. left. exact Hcuro.
        - intros r n p Hv Hn Hp.
          destruct (inv_parent _ _ _ HI r n p Hv Hn Hp) as [l1 [l2 [Hc Hin]]].
          exists l1, (l2 ++ [cur]). split.
          + rewrite Hc, <- app_assoc. reflexivity.
          + intros Hr. apply elem_of_app in Hr. apply elem_of_app.
            destruct Hr as [Hr | Hr]; [left; apply Hin, Hr | right; exact Hr].
        - intros r Hr. apply (inv_reach _ _ _ HI). rewrite Hperm. right. exact Hr. }
      assert (Hcur1 : cur ∈ closedSet st1).
      { cbn [st1 closedSet]. apply elem_of_app. right. left. }
      assert (Hreach : reachable g startRef cur)
        by (apply (inv_reach _ _ _ HI), Hcuro).
      fold open1. fold st1.
      destruct (bool_decide (cur = endRef)) eqn:Hgoal.
      * apply bool_decide_eq_true in Hgoal. subst cur.
        destruct (reconstructPath_ok g startRef st1 Hwf HI1
                    (S (List.length (closedSet st1))) (closedSet st) endRef []
                    []) as [p' Hp'].
        { cbn [st1 closedSet]. reflexivity. }
        { cbn [st1 closedSet]. rewrite length_app. lia. }
        unfold st1 in Hp' at 1 2. simpl in Hp'. rewrite Hp'. cbn [bind].
        exists p', st1.
        split; [reflexivity |]. split; [apply HI1 | intros _; exact Hreach].
      * destruct (wf_lookup g (s_nodes st1) cur Hwf (inv_static _ _ _ HI1) Hvcur)
          as [n [n0 [Hn [Hn0 [Hpos _]]]]].
        cbn [st1 s_nodes] in Hn. rewrite Hn.
        destruct (visitNeighbors_ok cur n0 (getNeighbors g n) Hreach Hn0)
          with (st := st1) as [st2 [H2 [HI2 Hc2]]].
        { intros r Hr. rewrite <- (getNeighbors_position g n n0 Hpos). exact Hr. }
        { exact HI1. }
        { exact Hcur1. }
        rewrite H2. cbn [bind].
        apply IH; [exact HI2 |].
        rewrite Hc2. cbn [st1 closedSet]. rewrite length_app. simpl. lia.
Qed.

End SearchTotal.

(** *** [aStarSearch], [smoothPath] and [findPath] return *)

Section FindPathTotal.
Variable Math_sqrt : Q -> Q.

Lemma aStarSearch_ok (g : PathfindingSystem) (startRef endRef : Ref) :
  grid_wf g -> validRef g startRef -> validRef g endRef ->
  exists path ns',
    aStarSearch Math_sqrt g startRef endRef = Ok (path, ns')
    /\ same_static (nodes g) ns'
    /\ (path <> [] -> reachable g startRef endRef).
Proof.
  intros Hwf Hs He. unfold aStarSearch.
  destruct (resetCosts_ok (coords (width g) (height g)) (nodes g))
    as [ns1 [Hres [Hst1 Hpar1]]].
  { intros r Hr. apply (proj2 Hwf). apply elem_of_coords_valid, Hr. }
  rewrite Hres. cbn [bind].
  destruct (wf_lookup g ns1 startRef Hwf Hst1 Hs) as [sn [sn0 [Hsn _]]].
  destruct (wf_lookup g ns1 endRef Hwf Hst1 He) as [en [en0 [Hen _]]].
  rewrite Hsn, Hen.
  set (sn' := mkNode _ _ _ _ _ _).
  assert (Hst2 : same_static (nodes g) (<[startRef := sn']> ns1)).
  { eapply same_static_trans; [exact Hst1 |].
    eapply same_static_insert; [exact Hsn | reflexivity]. }
  assert (HI : Inv g startRef (mkSearch (<[startRef := sn']> ns1) [startRef] [])).
  { constructor; cbn [s_nodes openSet closedSet].
    - exact Hst2.
    - simpl. apply NoDup_singleton.
    - intros r Hr. simpl in Hr. apply list_elem_of_singleton in Hr. subst r.
      exact Hs.
    - intros r n p Hv Hn Hp. exfalso.
      assert (Hrc : r ∈ coords (width g) (height g))
        by (apply elem_of_coords_valid, Hv).
      destruct (decide (startRef = r)) as [<- | Hne].
      + rewrite lookup_insert_eq in Hn. inversion Hn; subst n.
        cbn [parent sn'] in Hp. rewrite (Hpar1 _ _ Hrc Hsn) in Hp. discriminate.
      + rewrite lookup_insert_ne in Hn by exact Hne.
        rewrite (Hpar1 _ _ Hrc Hn) in Hp. discriminate.
    - intros r Hr. apply list_elem_of_singleton in Hr. subst r. constructor. }
  destruct (aStarLoop_ok Math_sqrt g startRef endRef Hwf He
              (S (List.length (coords (width g) (height g)))) _ HI)
    as [path [st' [Hloop [Hst' Hreach]]]].
  { cbn [closedSet]. simpl. lia. }
  rewrite Hloop. cbn [bind]. exists path, (s_nodes st').
  split; [reflexivity |]. split; assumption.
Qed.

Lemma farthest_bounds (g : PathfindingSystem) (from : Vector3)
  (cands : list Vector3) :
  forall i fi,
    farthest Math_sqrt g from cands i fi = fi
    \/ (i <= farthest Math_sqrt g from cands i fi < i + List.length cands)%nat.
Proof.
  induction cands as [| p rest IH]; intros i fi; simpl.
  - left. reflexivity.
  - destruct (hasLineOfSight Math_sqrt g from p); [| left; reflexivity].
    right. destruct (IH (S i) i) as [-> | H]; lia.
Qed.

Lemma smoothLoop_ok (g : PathfindingSystem) (path : list Vector3) (fuel : nat) :
  forall ci smoothed,
    (List.length path - ci <= fuel)%nat ->
    (ci < List.length path)%nat ->
    smoothed <> [] ->
    exists out,
      smoothLoop Math_sqrt fuel g path ci smoothed = Ok out /\ out <> [].
Proof.
  induction fuel as [| fuel IH]; intros ci smoothed Hf Hci Hne.
  - lia.
  - simpl. destruct (ci <? List.length path - 1)%nat eqn:Hlt.
    + apply Nat.ltb_lt in Hlt.
      destruct (nth_error path ci) as [from |] eqn:Hfrom;
        [| apply nth_error_None in Hfrom; lia].
      pose proof (farthest_bounds g from (skipn (ci + 2) path) (ci + 2) (ci + 1))
        as Hb.
      rewrite length_skipn in Hb.
      set (fi := farthest Math_sqrt g from (skipn (ci + 2) path) (ci + 2) (ci + 1))
        in *.
      assert (Hfi : (ci + 1 <= fi < List.length path)%nat) by lia.
      destruct (nth_error path fi) as [p |] eqn:Hp;
        [| apply nth_error_None in Hp; lia].
      apply IH; [lia | lia |].
      intros H. apply app_eq_nil in H. destruct H as [_ H]. discriminate.
    + exists smoothed. split; [reflexivity | exact Hne].
Qed.

Lemma smoothPath_ok (g : PathfindingSystem) (path : list Vector3) :
  path <> [] ->
  exists out, smoothPath Math_sqrt g path = Ok out /\ out <> [].
Proof.
  intros Hne. unfold smoothPath.
  destruct path as [| p0 [| p1 [| p2 rest]]].
  - contradiction.
  - exists [p0]. split; [reflexivity | discriminate].
  - exists [p0; p1]. split; [reflexivity | discriminate].
  - apply smoothLoop_ok; [lia | simpl; lia | discriminate].
Qed.

Lemma generateDirectPath_length (startPos endPos : Vector3) :
  List.length (generateDirectPath Math_sqrt startPos endPos)
  = Z.to_nat (directSegments Math_sqrt startPos endPos + 1)
  /\ (3 <= List.length (generateDirectPath Math_sqrt startPos endPos))%nat.
Proof.
  unfold generateDirectPath. rewrite length_map, length_seqZ.
  split; [reflexivity |]. unfold directSegments. lia.
Qed.

Lemma generateDirectPath_nonnil (startPos endPos : Vector3) :
  generateDirectPath Math_sqrt startPos endPos <> [].
Proof.
  intros H. pose proof (generateDirectPath_length startPos endPos) as [_ Hl].
  rewrite H in Hl. simpl in Hl. lia.
Qed.

(** The direct path is the sequence of interpolation points
    [start + (end - start) * i / segments], lifted to height 1/2. *)
Lemma generateDirectPath_points (startPos endPos : Vector3) (i : nat) :
  (Z.of_nat i <= directSegments Math_sqrt startPos endPos)%Z ->
  generateDirectPath Math_sqrt startPos endPos !! i
  = Some (mkV3
            (vx startPos + (vx endPos - vx startPos)
                           * (ofNat i / ofZ (directSegments Math_sqrt startPos endPos)))
            (1 # 2)
            (vz startPos + (vz endPos - vz startPos)
                           * (ofNat i / ofZ (directSegments Math_sqrt startPos endPos)))).
Proof.
  intros Hi. unfold generateDirectPath.
  change (map ?f ?l) with (f <$> l).
  rewrite list_lookup_fmap, lookup_seqZ_lt by lia.
  reflexivity.
Qed.

(** C6.  On a well-formed grid [findPath] returns: it neither throws nor
    runs forever.  The waypoint list it returns is never empty (so an empty
    result could only come with [start = end]); it is the direct path when
    the start or the end cell is not walkable and when no grid path leads
    from the start cell to the end cell; and the direct path consists of
    [segments + 1 >= 3] evenly spaced interpolation points between start and
    end.  The grid stays well formed. *)
Theorem findPath_returns (g : PathfindingSystem) (startPos endPos : Vector3) :
  grid_wf g ->
  exists path g',
    findPath Math_sqrt g startPos endPos = Ok (path, g')
    /\ grid_wf g'
    /\ path <> []
    /\ (path = [] -> startPos = endPos)
    /\ (forall sn en,
          nodes g !! worldToGrid g startPos = Some sn ->
          nodes g !! worldToGrid g endPos = Some en ->
          isWalkable sn = false \/ isWalkable en = false ->
          path = generateDirectPath Math_sqrt startPos endPos)
    /\ (~ reachable g (worldToGrid g startPos) (worldToGrid g endPos) ->
        path = generateDirectPath Math_sqrt startPos endPos)
    /\ (3 <= List.length (generateDirectPath Math_sqrt startPos endPos))%nat
    /\ (forall i : nat,
          (Z.of_nat i <= directSegments Math_sqrt startPos endPos)%Z ->
          generateDirectPath Math_sqrt startPos endPos !! i
          = Some (mkV3
                    (vx startPos
                     + (vx endPos - vx startPos)
                       * (ofNat i / ofZ (directSegments Math_sqrt startPos endPos)))
                    (1 # 2)
                    (vz startPos
                     + (vz endPos - vz startPos)
                       * (ofNat i / ofZ (directSegments Math_sqrt startPos endPos))))).
Proof.
  intros Hwf.
  pose proof (generateDirectPath_nonnil startPos endPos) as Hdn.
  pose proof (proj2 (generateDirectPath_length startPos endPos)) as Hlen.
  pose proof (generateDirectPath_points startPos endPos) as Hpts.
  assert (Hwf' : forall ns, same_static (nodes g) ns -> grid_wf (set_nodes g ns)).
  { intros ns Hst. split; [apply Hwf |]. intros r Hr.
    destruct (wf_lookup g ns r Hwf Hst Hr) as [n [_ [Hn _]]].
    cbn [set_nodes nodes]. eauto. }
  unfold findPath.
  destruct (negb (isValidGridPosition g (fst (worldToGrid g startPos))
                    (snd (worldToGrid g startPos)))
            || negb (isValidGridPosition g (fst (worldToGrid g endPos))
                       (snd (worldToGrid g endPos)))) eqn:Hout.
  - exists (generateDirectPath Math_sqrt startPos endPos), g.
    repeat split; try assumption; try tauto; try apply Hwf. 
  - apply orb_false_iff in Hout. destruct Hout as [Hs He].
    apply negb_false_iff in Hs. apply negb_false_iff in He.
    fold (validRef g (worldToGrid g startPos)) in Hs.
    fold (validRef g (worldToGrid g endPos)) in He.
    unfold findPathInGrid.
    destruct (proj2 Hwf _ Hs) as [sn Hsn]. destruct (proj2 Hwf _ He) as [en Hen].
    rewrite Hsn, Hen.
    destruct (negb (isWalkable sn) || negb (isWalkable en)) eqn:Hwalk.
    + exists (generateDirectPath Math_sqrt startPos endPos), g.
      repeat split; try assumption; try tauto; try apply Hwf.
    + apply orb_false_iff in Hwalk. destruct Hwalk as [Hws Hwe].
      apply negb_false_iff in Hws. apply negb_false_iff in Hwe.
      destruct (aStarSearch_ok g _ _ Hwf Hs He) as [path [ns' [Hsearch [Hst Hreach]]]].
      rewrite Hsearch. cbn [bind].
      destruct path as [| p0 rest].
      * exists (generateDirectPath Math_sqrt startPos endPos), (set_nodes g ns').
        repeat split; try assumption; try tauto; try apply (Hwf' ns' Hst).
      * destruct (smoothPath_ok g (p0 :: rest)) as [out [Hsm Hout]];
          [discriminate |].
        rewrite Hsm. cbn [bind]. exists out, (set_nodes g ns').
        split; [reflexivity |]. split; [apply (Hwf' ns' Hst) |].
        split; [exact Hout |]. split; [intros H; contradiction |].
        split.
        { intros sn' en' Hsn' Hen' [Hf | Hf]; congruence. }
        split.
        { intros Hnr. exfalso. apply Hnr, Hreach. discriminate. }
        split; assumption.
Qed.

End FindPathTotal.

(** *** The constructor's grid *)

Lemma fold_insert_lookup (node : Ref -> PathfindingNode) (l : list Ref) :
  forall (m : gmap Ref PathfindingNode) (r : Ref),
    r ∈ l \/ is_Some (m !! r) ->
    is_Some (fold_left (fun ns r => <[r := node r]> ns) l m !! r).
Proof.
  induction l as [| a l IH]; intros m r H; simpl.
  - destruct H as [H | H]; [apply elem_of_nil in H; contradiction | exact H].
  - apply IH. destruct H as [H | H].
    + apply elem_of_cons in H. destruct H as [-> | H]; [| left; exact H].
      right. rewrite lookup_insert_eq. eauto.
    + right. destruct (decide (a = r)) as [-> | Hne].
      * rewrite lookup_insert_eq. eauto.
      * rewrite lookup_insert_ne by exact Hne. exact H.
Qed.

Lemma newPathfindingSystem_wf (worldSize cs : Q) :
  0 < cs -> grid_wf (newPathfindingSystem worldSize cs).
Proof.
  intros Hc. split; [exact Hc |].
  intros r Hr. apply elem_of_coords_valid in Hr.
  unfold newPathfindingSystem in *. cbn [nodes width height] in *.
  apply fold_insert_lookup. left. exact Hr.
Qed.

(** A 4 x 4 grid of unit cells, every cell walkable. *)
Definition grid4 : PathfindingSystem := newPathfindingSystem 4 1.

Lemma findPath_returns_witness :
  grid_wf grid4
  /\ exists path g',
       findPath approx_sqrt grid4 (mkV3 (-3 # 2) 0 (-3 # 2)) (mkV3 (3 # 2) 0 (3 # 2))
       = Ok (path, g')
       /\ path <> [].
Proof.
  split; [apply newPathfindingSystem_wf; reflexivity |].
  destruct (findPath_returns approx_sqrt grid4
              (mkV3 (-3 # 2) 0 (-3 # 2)) (mkV3 (3 # 2) 0 (3 # 2))
              (newPathfindingSystem_wf 4 1 eq_refl))
    as [path [g' [H [_ [Hne _]]]]].
  exists path, g'. split; [exact H | exact Hne].
Defined.

Lemma worldToGrid_clamped_witness :
  0 < cellSize grid4 /\ (0 < width grid4)%Z /\ (0 < height grid4)%Z
  /\ worldToGrid grid4 (mkV3 100 0 (-100)) = (3, 0)%Z
  /\ findPath approx_sqrt grid4 (mkV3 100 0 (-100)) (mkV3 0 0 0)
     = findPathInGrid approx_sqrt grid4 (mkV3 100 0 (-100)) (mkV3 0 0 0)
         (worldToGrid grid4 (mkV3 100 0 (-100))) (worldToGrid grid4 (mkV3 0 0 0)).
Proof.
  split; [reflexivity |]. split; [reflexivity |]. split; [reflexivity |].
  split; [reflexivity |].
  apply (worldToGrid_clamped approx_sqrt grid4 (mkV3 100 0 (-100)) (mkV3 0 0 0));
    reflexivity.
Defined.

(** *** Cell centres and the index of a position *)

Lemma Qfloor_unique (q : Q) (z : Z) :
  inject_Z z <= q -> q < inject_Z z + 1 -> Qfloor q = z.
Proof.
  intros Hlo Hhi.
  pose proof (Qfloor_le q) as Hf1. pose proof (Qlt_floor q) as Hf2.
  assert (H1 : (z < Qfloor q + 1)%Z).
  { rewrite Zlt_Qlt. eapply Qle_lt_trans; [exact Hlo | exact Hf2]. }
  assert (H2 : (Qfloor q < z + 1)%Z).
  { rewrite Zlt_Qlt, inject_Z_plus. change (inject_Z 1) with 1. lra. }
  lia.
Qed.

Lemma fold_insert_lookup_val (node : Ref -> PathfindingNode) (l : list Ref) :
  forall (m : gmap Ref PathfindingNode) (r : Ref),
    r ∈ l \/ m !! r = Some (node r) ->
    fold_left (fun ns r => <[r := node r]> ns) l m !! r = Some (node r).
Proof.
  induction l as [| a l IH]; intros m r H; simpl.
  - destruct H as [H | H]; [apply elem_of_nil in H; contradiction | exact H].
  - apply IH. destruct (decide (a = r)) as [-> | Hne].
    + right. apply lookup_insert_eq.
    + destruct H as [H | H].
      * apply elem_of_cons in H. destruct H as [-> | H]; [congruence | left; exact H].
      * right. rewrite lookup_insert_ne by exact Hne. exact H.
Qed.

(** The centre of the cell with index [(x, y)] in a world of size
    [worldSize]. *)
Definition cellCentre (worldSize cs : Q) (r : Ref) : Vector3 :=
  mkV3 (- (worldSize / 2) + (ofZ (fst r) + (1 # 2)) * cs) 0
       (- (worldSize / 2) + (ofZ (snd r) + (1 # 2)) * cs).

Lemma centre_index (worldSize cs : Q) (w x : Z) :
  0 < cs -> w = Qceiling (worldSize / cs) -> (0 <= x < w)%Z ->
  Z.max 0 (Z.min (w - 1)
             (Math_floor ((- (worldSize / 2) + (ofZ x + (1 # 2)) * cs
                           + ofZ w * cs / 2) / cs))) = x.
Proof.
  intros Hc Hw Hx. unfold ofZ.
  set (e := (- (worldSize / 2) + (inject_Z x + (1 # 2)) * cs
             + inject_Z w * cs / 2) / cs).
  assert (He : e == inject_Z x + (1 # 2) + (inject_Z w - worldSize / cs) * (1 # 2)).
  { unfold e. field. lra. }
  pose proof (Qle_ceiling (worldSize / cs)) as H1.
  pose proof (Qceiling_lt (worldSize / cs)) as H2.
  rewrite <- Hw in H1, H2.
  unfold Z.sub in H2. rewrite inject_Z_plus, inject_Z_opp in H2.
  change (inject_Z 1) with 1 in H2.
  clearbody e. set (d := worldSize / cs) in *. clearbody d.
  assert (Hf : Math_floor e = x).
  { unfold Math_floor. apply Qfloor_unique; lra. }
  rewrite Hf. lia.
Qed.

(** Every valid index of the constructor's grid holds a walkable node at the
    centre of its cell, and [worldToGrid] maps that centre back to the
    index. *)
Theorem constructor_grid_round_trip (worldSize cs : Q) (r : Ref) :
  0 < cs ->
  validRef (newPathfindingSystem worldSize cs) r ->
  exists n,
    nodes (newPathfindingSystem worldSize cs) !! r = Some n
    /\ position n = cellCentre worldSize cs r
    /\ isWalkable n = true
    /\ parent n = None
    /\ worldToGrid (newPathfindingSystem worldSize cs) (position n) = r.
Proof.
  intros Hc Hv.
  pose proof Hv as Hcoord. apply elem_of_coords_valid in Hcoord.
  unfold validRef in Hv. apply isValidGridPosition_spec in Hv.
  unfold newPathfindingSystem in *. cbn [nodes width height cellSize] in *.
  eexists. split.
  { apply fold_insert_lookup_val. left. exact Hcoord. }
  cbn [position isWalkable parent]. split; [reflexivity |].
  split; [reflexivity |]. split; [reflexivity |].
  unfold worldToGrid. cbn [width height cellSize vx vz].
  destruct r as [x y]. cbn [fst snd] in *. f_equal.
  - apply centre_index; [exact Hc | reflexivity | lia].
  - apply centre_index; [exact Hc | reflexivity | lia].
Qed.

Lemma constructor_grid_round_trip_witness :
  0 < 1
  /\ validRef (newPathfindingSystem 4 1) (1, 2)%Z
  /\ exists n,
       nodes (newPathfindingSystem 4 1) !! (1, 2)%Z = Some n
       /\ worldToGrid (newPathfindingSystem 4 1) (position n) = (1, 2)%Z.
Proof.
  split; [reflexivity |]. split; [reflexivity |].
  destruct (constructor_grid_round_trip 4 1 (1, 2)%Z eq_refl eq_refl)
    as [n [Hn [_ [_ [_ Hr]]]]].
  exists n. split; assumption.
Defined.

(** *** The direct path *)

Section DirectPath.
Variable Math_sqrt : Q -> Q.

(** The direct path starts above the start position and ends above the end
    position; every point of it lies at height 1/2. *)
Theorem generateDirectPath_endpoints (startPos endPos : Vector3) :
  exists p0 pl,
    head (generateDirectPath Math_sqrt startPos endPos) = Some p0
    /\ last (generateDirectPath Math_sqrt startPos endPos) = Some pl
    /\ vx p0 == vx startPos /\ vz p0 == vz startPos
    /\ vx pl == vx endPos /\ vz pl == vz endPos
    /\ Forall (fun p => vy p = 1 # 2)
         (generateDirectPath Math_sqrt startPos endPos).
Proof.
  set (seg := directSegments Math_sqrt startPos endPos).
  assert (Hseg : (2 <= seg)%Z) by (unfold seg, directSegments; lia).
  pose proof (generateDirectPath_points Math_sqrt startPos endPos 0) as H0.
  pose proof (generateDirectPath_points Math_sqrt startPos endPos (Z.to_nat seg))
    as Hl.
  fold seg in H0, Hl.
  specialize (H0 ltac:(lia)). specialize (Hl ltac:(lia)).
  eexists. eexists. split.
  { rewrite head_lookup. exact H0. }
  split.
  { rewrite last_lookup.
    rewrite (proj1 (generateDirectPath_length Math_sqrt startPos endPos)).
    fold seg. replace (Init.Nat.pred (Z.to_nat (seg + 1))) with (Z.to_nat seg) by lia.
    exact Hl. }
  cbn [vx vz].
  assert (Hq : ofNat (Z.to_nat seg) / ofZ seg == 1).
  { unfold ofNat. rewrite Z2Nat.id by lia. fold (ofZ seg).
    assert (0 < ofZ seg).
    { unfold ofZ. change 0 with (inject_Z 0). rewrite <- Zlt_Qlt. lia. }
    field. lra. }
  assert (Hz : ofNat 0 / ofZ seg == 0).
  { unfold ofNat. simpl. unfold Qdiv. apply Qmult_0_l. }
  split; [rewrite Hz; lra |]. split; [rewrite Hz; lra |].
  split; [rewrite Hq; lra |]. split; [rewrite Hq; lra |].
  unfold generateDirectPath. apply List.Forall_forall. intros p Hp.
  apply in_map_iff in Hp. destruct Hp as [i [<- _]]. reflexivity.
Qed.

End DirectPath.
(** *** Smoothing *)

Section Smoothing.
Variable Math_sqrt : Q -> Q.

Lemma nth_error_as_lookup {A : Type} (l : list A) :
  forall i, nth_error l i = l !! i.
Proof. induction l as [| a l IH]; intros [| i]; simpl; auto. Qed.

Lemma singleton_sublist {A : Type} (x : A) (l : list A) :
  x ∈ l -> [x] `sublist_of` l.
Proof.
  intros H. apply list_elem_of_split in H. destruct H as [l1 [l2 ->]].
  apply sublist_inserts_l. apply sublist_skip. apply sublist_nil_l.
Qed.

Lemma smoothLoop_sublist (g : PathfindingSystem) (path : list Vector3)
  (fuel : nat) :
  forall ci smoothed out,
    (ci < List.length path)%nat ->
    smoothed `sublist_of` take (S ci) path ->
    last smoothed = path !! ci ->
    head smoothed = head path ->
    smoothLoop Math_sqrt fuel g path ci smoothed = Ok out ->
    out `sublist_of` path /\ last out = last path /\ head out = head path.
Proof.
  induction fuel as [| fuel IH]; intros ci smoothed out Hci Hsub Hlast Hhead Hrun.
  - discriminate.
  - simpl in Hrun. destruct (ci <? List.length path - 1)%nat eqn:Hlt.
    + apply Nat.ltb_lt in Hlt.
      destruct (nth_error path ci) as [from |] eqn:Hfrom; [| discriminate].
      pose proof (farthest_bounds Math_sqrt g from (skipn (ci + 2) path)
                    (ci + 2) (ci + 1)) as Hb.
      rewrite length_skipn in Hb.
      set (fi := farthest Math_sqrt g from (skipn (ci + 2) path) (ci + 2) (ci + 1))
        in *.
      assert (Hfi : (ci + 1 <= fi < List.length path)%nat) by lia.
      destruct (nth_error path fi) as [p |] eqn:Hp; [| discriminate].
      rewrite nth_error_as_lookup in Hp.
      assert (Hne : smoothed <> []).
      { intros ->. simpl in Hlast. symmetry in Hlast.
        apply lookup_ge_None in Hlast. lia. }
      apply (IH fi (smoothed ++ [p]) out); [lia | | | | exact Hrun].
      * replace (S fi) with (S ci + (fi - ci))%nat by lia.
        rewrite <- take_take_drop. apply sublist_app; [exact Hsub |].
        apply singleton_sublist.
        apply (list_elem_of_lookup_2 _ (fi - ci - 1)).
        rewrite lookup_take_lt by lia. rewrite lookup_drop.
        replace (S ci + (fi - ci - 1))%nat with fi by lia. exact Hp.
      * rewrite last_snoc. symmetry. exact Hp.
      * destruct smoothed; [contradiction | exact Hhead].
    + apply Nat.ltb_ge in Hlt. inversion Hrun; subst out.
      assert (Hci' : ci = Init.Nat.pred (List.length path)) by lia.
      rewrite take_ge in Hsub by lia.
      split; [exact Hsub |]. split; [| exact Hhead].
      rewrite Hlast, last_lookup, Hci'. reflexivity.
Qed.

Lemma smoothPath_sublist (g : PathfindingSystem) (path : list Vector3) :
  exists out,
    smoothPath Math_sqrt g path = Ok out
    /\ out `sublist_of` path
    /\ head out = head path
    /\ last out = last path.
Proof.
  destruct path as [| p0 [| p1 [| p2 rest]]].
  - exists []. repeat split; auto.
  - exists [p0]. repeat split; auto.
  - exists [p0; p1]. repeat split; auto.
  - set (path := p0 :: p1 :: p2 :: rest).
    destruct (smoothPath_ok Math_sqrt g path) as [out [Hrun _]]; [discriminate |].
    exists out. split; [exact Hrun |].
    unfold smoothPath, path in Hrun. fold path in Hrun.
    assert (H0 : (0 < List.length path)%nat) by (simpl; lia).
    assert (H1 : [p0] `sublist_of` take 1 path)
      by (simpl; apply sublist_skip, sublist_nil_l).
    destruct (smoothLoop_sublist g path (List.length path) 0 [p0] out
                H0 H1 eq_refl eq_refl Hrun) as [Hs [Hl Hh]].
    split; [exact Hs |]. split; [exact Hh | exact Hl].
Qed.

(** [smoothPath] only drops waypoints: what it returns is a sublist of the
    path it is given, with the same first and the same last waypoint; a path
    of at most two waypoints is returned as it is. *)
Theorem smoothPath_keeps_endpoints (g : PathfindingSystem)
  (path : list Vector3) :
  exists out,
    smoothPath Math_sqrt g path = Ok out
    /\ out `sublist_of` path
    /\ head out = head path
    /\ last out = last path
    /\ (List.length out <= List.length path)%nat
    /\ ((List.length path <= 2)%nat -> out = path).
Proof.
  destruct (smoothPath_sublist g path) as [out [Hrun [Hs [Hh Hl]]]].
  exists out. split; [exact Hrun |]. split; [exact Hs |].
  split; [exact Hh |]. split; [exact Hl |].
  split; [apply sublist_length, Hs |].
  intros Hlen. destruct path as [| p0 [| p1 [| p2 rest]]];
    simpl in Hrun; try (inversion Hrun; reflexivity).
  simpl in Hlen. lia.
Qed.

End Smoothing.
(** *** The waypoints of a search *)

(** A walk on the grid from [a]: the indices visited, each one after the
    first a walkable node among the neighbours of the one before it. *)
Inductive walk (g : PathfindingSystem) (a : Ref) : Ref -> list Ref -> Prop :=
| walk_start : walk g a a [a]
| walk_step (b c : Ref) (nb nc : PathfindingNode) (refs : list Ref) :
    walk g a b refs ->
    nodes g !! b = Some nb ->
    c ∈ getNeighbors g nb ->
    nodes g !! c = Some nc ->
    isWalkable nc = true ->
    walk g a c (refs ++ [c]).

(** The positions of the nodes at the given indices. *)
Definition positionsOf (g : PathfindingSystem) (refs : list Ref)
  : list Vector3 :=
  omap (fun r => position <$> nodes g !! r) refs.

Lemma positionsOf_app (g : PathfindingSystem) (l1 l2 : list Ref) :
  positionsOf g (l1 ++ l2) = positionsOf g l1 ++ positionsOf g l2.
Proof. unfold positionsOf. apply omap_app. Qed.

Lemma walk_ends (g : PathfindingSystem) (a b : Ref) (refs : list Ref) :
  walk g a b refs ->
  head refs = Some a /\ last refs = Some b
  /\ forall r, r ∈ refs ->
       r = a \/ exists n, nodes g !! r = Some n /\ isWalkable n = true.
Proof.
  induction 1 as [| b c nb nc refs Hw [Hh [Hl Hall]] Hb Hc Hnc Hwc].
  - split; [reflexivity |]. split; [reflexivity |].
    intros r Hr. apply list_elem_of_singleton in Hr. left. exact Hr.
  - split; [destruct refs; [discriminate | exact Hh] |].
    split; [apply last_snoc |].
    intros r Hr. apply elem_of_app in Hr. destruct Hr as [Hr | Hr].
    + apply Hall, Hr.
    + apply list_elem_of_singleton in Hr. subst r. right. eauto.
Qed.

(** What the parents recorded by a search say: the start node has none, a
    recorded parent is a closed node of which the child is a walkable
    neighbour, and every node seen other than the start has one. *)
Record Route (g : PathfindingSystem) (startRef : Ref) (st : Search) : Prop :=
  mkRoute {
    rt_start :
      forall n, s_nodes st !! startRef = Some n -> parent n = None;
    rt_link :
      forall r n p,
        validRef g r -> s_nodes st !! r = Some n -> parent n = Some p ->
        p ∈ closedSet st /\ isWalkable n = true
        /\ exists np, nodes g !! p = Some np /\ r ∈ getNeighbors g np;
    rt_seen :
      forall r, r ∈ openSet st ++ closedSet st ->
        r = startRef
        \/ exists n p, s_nodes st !! r = Some n /\ parent n = Some p;
    rt_first : startRef ∈ closedSet st \/ openSet st = [startRef]
  }.

Lemma removeAt_perm (l : list Ref) (i : nat) (x : Ref) :
  l !! i = Some x -> l ≡ₚ x :: removeAt i l.
Proof.
  intros H. rewrite (removeAt_middle _ _ _ H) at 1. unfold removeAt.
  symmetry. apply Permutation_middle.
Qed.

(** Moving the chosen node from the open to the closed set keeps both
    invariants. *)
Lemma Inv_close (g : PathfindingSystem) (startRef : Ref) (st : Search)
  (ci : nat) (cur : Ref) :
  Inv g startRef st -> openSet st !! ci = Some cur ->
  Inv g startRef
    (mkSearch (s_nodes st) (removeAt ci (openSet st)) (closedSet st ++ [cur])).
Proof.
  intros HI Hci. pose proof (removeAt_perm _ _ _ Hci) as Hperm.
  assert (Hcuro : cur ∈ openSet st) by (eapply list_elem_of_lookup_2; exact Hci).
  constructor; cbn [s_nodes openSet closedSet].
  - apply HI.
  - assert (Hp : removeAt ci (openSet st) ++ closedSet st ++ [cur]
                 ≡ₚ openSet st ++ closedSet st).
    { rewrite Hperm at 2. simpl.
      rewrite (Permutation_app_comm (closedSet st) [cur]). simpl.
      symmetry. apply Permutation_middle. }
    rewrite Hp. apply (inv_nodup _ _ _ HI).
  - intros r Hr. apply (inv_valid _ _ _ HI).
    apply elem_of_app in Hr. apply elem_of_app. destruct Hr as [Hr | Hr].
    + left. rewrite Hperm. right. exact Hr.
    + apply elem_of_app in Hr. destruct Hr as [Hr | Hr]; [right; exact Hr |].
      apply list_elem_of_singleton in Hr. subst r. left. exact Hcuro.
  - intros r n p Hv Hn Hp.
    destruct (inv_parent _ _ _ HI r n p Hv Hn Hp) as [l1 [l2 [Hc Hin]]].
    exists l1, (l2 ++ [cur]). split.
    + rewrite Hc, <- app_assoc. reflexivity.
    + intros Hr. apply elem_of_app in Hr. apply elem_of_app.
      destruct Hr as [Hr | Hr]; [left; apply Hin, Hr | right; exact Hr].
  - intros r Hr. apply (inv_reach _ _ _ HI). rewrite Hperm. right. exact Hr.
Qed.

Lemma Route_close (g : PathfindingSystem) (startRef : Ref) (st : Search)
  (ci : nat) (cur : Ref) :
  Route g startRef st -> openSet st !! ci = Some cur ->
  (openSet st = [startRef] -> cur = startRef) ->
  Route g startRef
    (mkSearch (s_nodes st) (removeAt ci (openSet st)) (closedSet st ++ [cur]))
  /\ startRef ∈ closedSet st ++ [cur].
Proof.
  intros HR Hci Hfirst. pose proof (removeAt_perm _ _ _ Hci) as Hperm.
  assert (Hs : startRef ∈ closedSet st ++ [cur]).
  { apply elem_of_app. destruct (rt_first _ _ _ HR) as [H | H].
    - left. exact H.
    - right. rewrite (Hfirst H). left. }
  split; [| exact Hs].
  constructor; cbn [s_nodes openSet closedSet].
  - apply (rt_start _ _ _ HR).
  - intros r n p Hv Hn Hp.
    destruct (rt_link _ _ _ HR r n p Hv Hn Hp) as [Hpc Hrest].
    split; [apply elem_of_app; left; exact Hpc | exact Hrest].
  - intros r Hr. apply (rt_seen _ _ _ HR).
    apply elem_of_app in Hr. apply elem_of_app. destruct Hr as [Hr | Hr].
    + left. rewrite Hperm. right. exact Hr.
    + apply elem_of_app in Hr. destruct Hr as [Hr | Hr]; [right; exact Hr |].
      apply list_elem_of_singleton in Hr. subst r. left.
      eapply list_elem_of_lookup_2; exact Hci.
  - left. exact Hs.
Qed.

Section SearchRoute.
Variable Math_sqrt : Q -> Q.
Variable g : PathfindingSystem.
Variable startRef endRef : Ref.
Hypothesis Hwf : grid_wf g.
Hypothesis Hend : validRef g endRef.

Lemma visitNeighbor_route (st st' : Search) (current neighbor : Ref)
  (n0 : PathfindingNode) :
  Inv g startRef st -> Route g startRef st ->
  current ∈ closedSet st -> startRef ∈ closedSet st ->
  nodes g !! current = Some n0 ->
  neighbor ∈ getNeighbors g n0 ->
  visitNeighbor Math_sqrt g endRef current st neighbor = Ok st' ->
  Route g startRef st'.
Proof.
  intros HI HR Hcur Hstart Hn0 Hnb Hrun.
  pose proof (getNeighbors_valid _ _ _ Hnb) as Hvnb.
  unfold visitNeighbor in Hrun.
  destruct (s_nodes st !! neighbor) as [nb |] eqn:Hnbs; [| discriminate].
  destruct (s_nodes st !! current) as [cur |] eqn:Hcurs; [| discriminate].
  destruct (s_nodes st !! endRef) as [en |] eqn:Hens; [| discriminate].
  destruct (isWalkable nb) eqn:Hw; cbn [negb orb] in Hrun;
    [| inversion Hrun; subst; exact HR].
  destruct (bool_decide (neighbor ∈ closedSet st)) eqn:Hcl;
    [inversion Hrun; subst; exact HR |].
  apply bool_decide_eq_false in Hcl.
  assert (Hne : neighbor <> startRef) by (intros ->; contradiction).
  set (node' := mkNode _ _ _ _ _ _) in Hrun.
  assert (Himp : forall open',
            (forall r, r ∈ open' -> r = neighbor \/ r ∈ openSet st) ->
            Route g startRef
              (mkSearch (<[neighbor := node']> (s_nodes st)) open' (closedSet st))).
  { intros open' Hopen. constructor; cbn [s_nodes openSet closedSet].
    - intros n Hn. rewrite lookup_insert_ne in Hn by exact Hne.
      apply (rt_start _ _ _ HR n Hn).
    - intros r n p Hv Hn Hp. destruct (decide (neighbor = r)) as [<- | Hnr].
      + rewrite lookup_insert_eq in Hn. inversion Hn; subst n.
        cbn [parent node' isWalkable] in *. inversion Hp; subst p.
        split; [exact Hcur |]. split; [reflexivity |]. exists n0. auto.
      + rewrite lookup_insert_ne in Hn by exact Hnr.
        apply (rt_link _ _ _ HR r n p Hv Hn Hp).
    - intros r Hr. destruct (decide (neighbor = r)) as [<- | Hnr].
      + right. exists node', current. rewrite lookup_insert_eq. auto.
      + assert (Hold : r ∈ openSet st ++ closedSet st).
        { apply elem_of_app in Hr. apply elem_of_app.
          destruct Hr as [Hr | Hr]; [| right; exact Hr].
          destruct (Hopen r Hr) as [-> | Ho]; [contradiction | left; exact Ho]. }
        destruct (rt_seen _ _ _ HR r Hold) as [-> | [n [p [Hn Hp]]]];
          [left; reflexivity |].
        right. exists n, p. rewrite lookup_insert_ne by exact Hnr. auto.
    - left. exact Hstart. }
  destruct (bool_decide (neighbor ∈ openSet st)) eqn:Hop; cbn [negb] in Hrun.
  - destruct (ext_geb _ (gCost nb)); inversion Hrun; subst; [exact HR |].
    apply Himp. intros r Hr. right. exact Hr.
  - inversion Hrun; subst. apply Himp. intros r Hr.
    apply elem_of_app in Hr. destruct Hr as [Hr | Hr]; [right; exact Hr |].
    apply list_elem_of_singleton in Hr. left. exact Hr.
Qed.

Lemma visitNeighbors_route (current : Ref) (n0 : PathfindingNode)
  (neighbors : list Ref) :
  reachable g startRef current ->
  nodes g !! current = Some n0 ->
  (forall r, r ∈ neighbors -> r ∈ getNeighbors g n0) ->
  forall st st',
    Inv g startRef st -> Route g startRef st ->
    current ∈ closedSet st -> startRef ∈ closedSet st ->
    visitNeighbors Math_sqrt g endRef current st neighbors = Ok st' ->
    Inv g startRef st' /\ Route g startRef st'
    /\ closedSet st' = closedSet st.
Proof.
  intros Hreach Hn0.
  induction neighbors as [| nb rest IH]; intros Hsub st st' HI HR Hcur Hs Hrun.
  - simpl in Hrun. inversion Hrun; subst. auto.
  - simpl in Hrun.
    destruct (visitNeighbor_ok Math_sqrt g startRef endRef Hwf Hend st current nb
                n0 HI Hcur Hreach Hn0) as [st1 [H1 [HI1 Hc1]]];
      [apply Hsub; left |].
    rewrite H1 in Hrun. cbn [bind] in Hrun.
    assert (HR1 : Route g startRef st1).
    { apply (visitNeighbor_route st st1 current nb n0); try assumption.
      apply Hsub. left. }
    destruct (IH (fun r Hr => Hsub r (list_elem_of_further _ _ _ Hr)) st1 st'
                HI1 HR1) as [HI2 [HR2 Hc2]];
      [rewrite Hc1; exact Hcur | rewrite Hc1; exact Hs | exact Hrun |].
    split; [exact HI2 |]. split; [exact HR2 | congruence].
Qed.

Lemma reconstructPath_route (st : Search) :
  Inv g startRef st -> Route g startRef st ->
  forall (fuel : nat) (r : Ref) (acc p' : list Vector3),
    r ∈ closedSet st ->
    reconstructPath fuel (s_nodes st) (Some r) acc = Ok p' ->
    exists refs, walk g startRef r refs /\ p' = positionsOf g refs ++ acc.
Proof.
  intros HI HR fuel.
  induction fuel as [| f IH]; intros r acc p' Hrc Hrun; [discriminate |].
  assert (Hv : validRef g r).
  { apply (inv_valid _ _ _ HI). apply elem_of_app. right. exact Hrc. }
  destruct (wf_lookup g (s_nodes st) r Hwf (inv_static _ _ _ HI) Hv)
    as [n [n0 [Hn [Hn0 [Hpos Hwalk]]]]].
  simpl in Hrun. rewrite Hn in Hrun.
  assert (Hposr : positionsOf g [r] = [position n]).
  { unfold positionsOf. simpl. rewrite Hn0. simpl. congruence. }
  destruct (parent n) as [p |] eqn:Hp.
  - destruct (rt_link _ _ _ HR r n p Hv Hn Hp) as [Hpc [Hw [np [Hnp Hnb]]]].
    destruct (IH p (position n :: acc) p' Hpc Hrun) as [refs [Hwk Heq]].
    exists (refs ++ [r]). split.
    + eapply walk_step; [exact Hwk | exact Hnp | exact Hnb | exact Hn0 |].
      congruence.
    + rewrite positionsOf_app, Hposr, <- app_assoc. exact Heq.
  - assert (Hr : r = startRef).
    { destruct (rt_seen _ _ _ HR r) as [E | [n' [p [Hn' Hp']]]];
        [apply elem_of_app; right; exact Hrc | exact E |].
      rewrite Hn in Hn'. inversion Hn'; subst n'. congruence. }
    subst r. exists [startRef]. split; [constructor |].
    rewrite Hposr. destruct f; simpl in Hrun; inversion Hrun; reflexivity.
Qed.

Lemma aStarLoop_route (fuel : nat) :
  forall st path st',
    Inv g startRef st -> Route g startRef st ->
    aStarLoop Math_sqrt fuel g endRef st = Ok (path, st') ->
    path <> [] ->
    exists refs, walk g startRef endRef refs /\ path = positionsOf g refs.
Proof.
  induction fuel as [| fuel IH]; intros st path st' HI HR Hrun Hne;
    [discriminate |].
  cbn [aStarLoop] in Hrun. destruct (openSet st) as [| first rest] eqn:Hopen.
  { inversion Hrun; subst. contradiction. }
  destruct (lowestF_ok (s_nodes st) (openSet st)) with
    (rest := rest) (i := 1%nat) (best := first) (bi := 0%nat)
    as [cur [ci [Hlow Hci]]].
  { intros r Hr.
    destruct (wf_lookup g (s_nodes st) r Hwf (inv_static _ _ _ HI))
      as [n [_ [Hn _]]]; [| eauto].
    apply (inv_valid _ _ _ HI). apply elem_of_app. left. exact Hr. }
  { rewrite Hopen. reflexivity. }
  { rewrite Hopen. reflexivity. }
  assert (Hfirst : openSet st = [startRef] -> cur = startRef).
  { intros Hone. rewrite Hopen in Hone. inversion Hone; subst first rest.
    simpl in Hlow. inversion Hlow. reflexivity. }
  rewrite Hlow in Hrun. cbn [bind] in Hrun. rewrite <- Hopen in Hrun.
  assert (Hcuro : cur ∈ openSet st) by (eapply list_elem_of_lookup_2; exact Hci).
  assert (Hcurc : cur ∉ closedSet st).
  { pose proof (inv_nodup _ _ _ HI) as Hnd. apply NoDup_app in Hnd.
    destruct Hnd as [_ [Hdis _]]. apply Hdis, Hcuro. }
  rewrite (sadd_fresh _ _ Hcurc) in Hrun.
  pose proof (Inv_close g startRef st ci cur HI Hci) as HI1.
  destruct (Route_close g startRef st ci cur HR Hci Hfirst) as [HR1 Hs1].
  set (st1 := mkSearch (s_nodes st) (removeAt ci (openSet st))
                (closedSet st ++ [cur])) in *.
  assert (Hcur1 : cur ∈ closedSet st1).
  { cbn [st1 closedSet]. apply elem_of_app. right. left. }
  assert (Hvcur : validRef g cur).
  { apply (inv_valid _ _ _ HI). apply elem_of_app. left. exact Hcuro. }
  destruct (bool_decide (cur = endRef)) eqn:Hgoal.
  - apply bool_decide_eq_true in Hgoal. subst cur.
    destruct (reconstructPath _ (s_nodes st1) (Some endRef) [])
      as [p' | |] eqn:Hp'; cbn [bind] in Hrun; try discriminate.
    inversion Hrun; subst.
    destruct (reconstructPath_route st1 HI1 HR1 _ endRef [] path Hcur1 Hp')
      as [refs [Hwk Heq]].
    exists refs. split; [exact Hwk |]. rewrite app_nil_r in Heq. exact Heq.
  - destruct (wf_lookup g (s_nodes st1) cur Hwf (inv_static _ _ _ HI1) Hvcur)
      as [n [n0 [Hn [Hn0 [Hpos _]]]]].
    rewrite Hn in Hrun.
    destruct (visitNeighbors Math_sqrt g endRef cur st1 (getNeighbors g n))
      as [st2 | |] eqn:H2; cbn [bind] in Hrun; try discriminate.
    destruct (visitNeighbors_route cur n0 (getNeighbors g n)) with
      (st := st1) (st' := st2) as [HI2 [HR2 _]]; try assumption.
    { apply (inv_reach _ _ _ HI), Hcuro. }
    { intros r Hr. rewrite <- (getNeighbors_position g n n0 Hpos). exact Hr. }
    apply (IH st2 path st' HI2 HR2 Hrun Hne).
Qed.

End SearchRoute.
Section FindPathRoute.
Variable Math_sqrt : Q -> Q.

Lemma aStarSearch_route (g : PathfindingSystem) (startRef endRef : Ref)
  (path : list Vector3) (ns' : gmap Ref PathfindingNode) :
  grid_wf g -> validRef g startRef -> validRef g endRef ->
  aStarSearch Math_sqrt g startRef endRef = Ok (path, ns') ->
  path <> [] ->
  exists refs, walk g startRef endRef refs /\ path = positionsOf g refs.
Proof.
  intros Hwf Hs He Hrun Hne. unfold aStarSearch in Hrun.
  destruct (resetCosts_ok (coords (width g) (height g)) (nodes g))
    as [ns1 [Hres [Hst1 Hpar1]]].
  { intros r Hr. apply (proj2 Hwf). apply elem_of_coords_valid, Hr. }
  rewrite Hres in Hrun. cbn [bind] in Hrun.
  destruct (wf_lookup g ns1 startRef Hwf Hst1 Hs) as [sn [sn0 [Hsn _]]].
  destruct (wf_lookup g ns1 endRef Hwf Hst1 He) as [en [en0 [Hen _]]].
  rewrite Hsn, Hen in Hrun.
  set (sn' := mkNode _ _ _ _ _ _) in Hrun.
  assert (Hsc : startRef ∈ coords (width g) (height g))
    by (apply elem_of_coords_valid, Hs).
  assert (Hnone : forall r n,
            validRef g r -> <[startRef := sn']> ns1 !! r = Some n ->
            parent n = None).
  { intros r n Hv Hn.
    assert (Hrc : r ∈ coords (width g) (height g))
      by (apply elem_of_coords_valid, Hv).
    destruct (decide (startRef = r)) as [<- | Hnr].
    - rewrite lookup_insert_eq in Hn. inversion Hn; subst n.
      cbn [parent sn']. apply (Hpar1 _ _ Hrc Hsn).
    - rewrite lookup_insert_ne in Hn by exact Hnr. apply (Hpar1 _ _ Hrc Hn). }
  assert (HI : Inv g startRef (mkSearch (<[startRef := sn']> ns1) [startRef] [])).
  { constructor; cbn [s_nodes openSet closedSet].
    - eapply same_static_trans; [exact Hst1 |].
      eapply same_static_insert; [exact Hsn | reflexivity].
    - simpl. apply NoDup_singleton.
    - intros r Hr. simpl in Hr. apply list_elem_of_singleton in Hr. subst r.
      exact Hs.
    - intros r n p Hv Hn Hp. rewrite (Hnone r n Hv Hn) in Hp. discriminate.
    - intros r Hr. apply list_elem_of_singleton in Hr. subst r. constructor. }
  assert (HR : Route g startRef
                 (mkSearch (<[startRef := sn']> ns1) [startRef] [])).
  { constructor; cbn [s_nodes openSet closedSet].
    - intros n Hn. apply (Hnone startRef n Hs Hn).
    - intros r n p Hv Hn Hp. rewrite (Hnone r n Hv Hn) in Hp. discriminate.
    - intros r Hr. simpl in Hr. apply list_elem_of_singleton in Hr. left.
      exact Hr.
    - right. reflexivity. }
  destruct (aStarLoop Math_sqrt _ g endRef _) as [[p st'] | |] eqn:Hloop;
    cbn [bind] in Hrun; try discriminate.
  inversion Hrun; subst p ns'.
  apply (aStarLoop_route Math_sqrt g startRef endRef Hwf He _ _ _ _ HI HR Hloop Hne).
Qed.

Lemma positionsOf_ends (g : PathfindingSystem) (a b : Ref) (refs : list Ref)
  (na nb : PathfindingNode) :
  walk g a b refs -> nodes g !! a = Some na -> nodes g !! b = Some nb ->
  head (positionsOf g refs) = Some (position na)
  /\ last (positionsOf g refs) = Some (position nb).
Proof.
  intros Hw Ha Hb. destruct (walk_ends g a b refs Hw) as [Hh [Hl _]]. split.
  - destruct refs as [| r rest]; [discriminate |]. simpl in Hh.
    inversion Hh; subst r. unfold positionsOf. simpl. rewrite Ha. reflexivity.
  - apply last_Some in Hl. destruct Hl as [l' ->].
    rewrite positionsOf_app. unfold positionsOf at 2. simpl. rewrite Hb. simpl.
    apply last_snoc.
Qed.

(** On a well-formed grid [findPath] returns the direct path or waypoints
    taken, in order, from a walk on the grid: the walk leads from the cell of
    the start position to the cell of the end position through walkable
    neighbours, the first waypoint is the position of the start cell's node
    and the last the position of the end cell's node. *)
Theorem findPath_waypoints (g : PathfindingSystem) (startPos endPos : Vector3) :
  grid_wf g ->
  exists path g',
    findPath Math_sqrt g startPos endPos = Ok (path, g')
    /\ (path = generateDirectPath Math_sqrt startPos endPos
        \/ exists refs sn en,
             walk g (worldToGrid g startPos) (worldToGrid g endPos) refs
             /\ Forall (fun r => exists n, nodes g !! r = Some n
                                           /\ isWalkable n = true) refs
             /\ path `sublist_of` positionsOf g refs
             /\ nodes g !! worldToGrid g startPos = Some sn
             /\ nodes g !! worldToGrid g endPos = Some en
             /\ head path = Some (position sn)
             /\ last path = Some (position en)).
Proof.
  intros Hwf. unfold findPath.
  destruct (negb (isValidGridPosition g (fst (worldToGrid g startPos))
                    (snd (worldToGrid g startPos)))
            || negb (isValidGridPosition g (fst (worldToGrid g endPos))
                       (snd (worldToGrid g endPos)))) eqn:Hout.
  { eexists. eexists. split; [reflexivity | left; reflexivity]. }
  apply orb_false_iff in Hout. destruct Hout as [Hs He].
  apply negb_false_iff in Hs. apply negb_false_iff in He.
  fold (validRef g (worldToGrid g startPos)) in Hs.
  fold (validRef g (worldToGrid g endPos)) in He.
  unfold findPathInGrid.
  destruct (proj2 Hwf _ Hs) as [sn Hsn]. destruct (proj2 Hwf _ He) as [en Hen].
  rewrite Hsn, Hen.
  destruct (negb (isWalkable sn) || negb (isWalkable en)) eqn:Hwalk.
  { eexists. eexists. split; [reflexivity | left; reflexivity]. }
  apply orb_false_iff in Hwalk. destruct Hwalk as [Hws Hwe].
  apply negb_false_iff in Hws.
  destruct (aStarSearch_ok Math_sqrt g _ _ Hwf Hs He)
    as [path [ns' [Hsearch _]]].
  rewrite Hsearch. cbn [bind].
  destruct path as [| p0 rest].
  { eexists. eexists. split; [reflexivity | left; reflexivity]. }
  destruct (aStarSearch_route g _ _ _ _ Hwf Hs He Hsearch) as [refs [Hwk Hpos]];
    [discriminate |].
  destruct (smoothPath_sublist Math_sqrt g (p0 :: rest))
    as [out [Hsm [Hsub [Hh Hl]]]].
  rewrite Hsm. cbn [bind]. exists out, (set_nodes g ns').
  split; [reflexivity |]. right. exists refs, sn, en.
  destruct (positionsOf_ends g _ _ refs sn en Hwk Hsn Hen) as [Hph Hpl].
  split; [exact Hwk |]. split.
  { destruct (walk_ends g _ _ refs Hwk) as [_ [_ Hall]].
    apply List.Forall_forall. intros r Hr. apply list_elem_of_In in Hr.
    destruct (Hall r Hr) as [-> | H]; [eauto | exact H]. }
  rewrite <- Hpos.
  split; [exact Hsub |]. split; [first [exact Hsn | reflexivity] |].
  split; [first [exact Hen | reflexivity] |].
  split; [rewrite Hh, Hpos; exact Hph | rewrite Hl, Hpos; exact Hpl].
Qed.

End FindPathRoute.

Lemma findPath_waypoints_witness :
  grid_wf grid4
  /\ exists path g',
       findPath approx_sqrt grid4 (mkV3 (-3 # 2) 0 (-3 # 2)) (mkV3 (3 # 2) 0 (3 # 2))
       = Ok (path, g')
       /\ (path = generateDirectPath approx_sqrt (mkV3 (-3 # 2) 0 (-3 # 2))
                    (mkV3 (3 # 2) 0 (3 # 2))
           \/ exists refs,
                walk grid4 (0, 0)%Z (3, 3)%Z refs
                /\ path `sublist_of` positionsOf grid4 refs).
Proof.
  split; [apply newPathfindingSystem_wf; reflexivity |].
  destruct (findPath_waypoints approx_sqrt grid4
              (mkV3 (-3 # 2) 0 (-3 # 2)) (mkV3 (3 # 2) 0 (3 # 2))
              (newPathfindingSystem_wf 4 1 eq_refl))
    as [path [g' [H [Hd | [refs [sn [en [Hw [_ [Hs _]]]]]]]]]].
  - exists path, g'. split; [exact H | left; exact Hd].
  - exists path, g'. split; [exact H |]. right. exists refs.
    split; [exact Hw | exact Hs].
Defined.
(** *** Obstacles *)

(** What [updateObstacles] reads of a building: its position and, when it
    has one, its size (width, depth). *)
Record Footprint : Type := mkFootprint {
  fp_position : Vector3;
  fp_size : option (Q * Q)
}.

Definition set_walkable (n : PathfindingNode) (b : bool) : PathfindingNode :=
  mkNode (position n) (gCost n) (hCost n) (fCost n) (parent n) b.

(** [for (let x = lo; x <= hi; x += step) body(x)]. *)
Fixpoint forQ {St : Type} (fuel : nat) (x hi step : Q)
  (body : Q -> St -> result St) (s : St) : result St :=
  match fuel with
  | O => OutOfFuel
  | S fuel' =>
      if Qleb x hi then
        let* s' := body x s in forQ fuel' (x + step) hi step body s'
      else Ok s
  end.

(** More iterations than a loop from [lo] to [hi] in steps of [step] makes
    when [step] is positive. *)
Definition loopFuel (lo hi step : Q) : nat :=
  S (S (Z.to_nat (Qfloor ((hi - lo) / step)))).

(** The body of the two nested loops over a footprint: the cell of the
    sample point becomes an obstacle and its node, when there is one,
    unwalkable. *)
Definition markObstacle (g : PathfindingSystem) (x z : Q)
  (st : gmap Ref PathfindingNode * gset Ref)
  : gmap Ref PathfindingNode * gset Ref :=
  let gridPos := worldToGrid g (mkV3 x 0 z) in
  if isValidGridPosition g (fst gridPos) (snd gridPos) then
    (match fst st !! gridPos with
     | Some n => <[gridPos := set_walkable n false]> (fst st)
     | None => fst st
     end,
     {[gridPos]} ∪ snd st)
  else st.

(** [building.size || { width: 2, depth: 2 }] and the four bounds of the
    footprint. *)
Definition footprintSize (b : Footprint) : Q * Q :=
  match fp_size b with Some s => s | None => (2, 2) end.

Definition minX (b : Footprint) : Q :=
  vx (fp_position b) - fst (footprintSize b) / 2.
Definition maxX (b : Footprint) : Q :=
  vx (fp_position b) + fst (footprintSize b) / 2.
Definition minZ (b : Footprint) : Q :=
  vz (fp_position b) - snd (footprintSize b) / 2.
Definition maxZ (b : Footprint) : Q :=
  vz (fp_position b) + snd (footprintSize b) / 2.

Definition blockBuilding (g : PathfindingSystem)
  (st : gmap Ref PathfindingNode * gset Ref) (b : Footprint)
  : result (gmap Ref PathfindingNode * gset Ref) :=
  let step := cellSize g / 2 in
  forQ (loopFuel (minX b) (maxX b) step) (minX b) (maxX b) step
    (fun x st =>
       forQ (loopFuel (minZ b) (maxZ b) step) (minZ b) (maxZ b) step
         (fun z st => Ok (markObstacle g x z st)) st)
    st.

Fixpoint blockAll (g : PathfindingSystem)
  (st : gmap Ref PathfindingNode * gset Ref) (buildings : list Footprint)
  : result (gmap Ref PathfindingNode * gset Ref) :=
  match buildings with
  | [] => Ok st
  | b :: rest => let* st' := blockBuilding g st b in blockAll g st' rest
  end.

(** The closing loop of [updateObstacles]: every node of the grid is
    walkable exactly when its key is not an obstacle. *)
Fixpoint refreshWalkable (obs : gset Ref) (cs : list Ref)
  (ns : gmap Ref PathfindingNode) : result (gmap Ref PathfindingNode) :=
  match cs with
  | [] => Ok ns
  | r :: rest =>
      match ns !! r with
      | Some n =>
          refreshWalkable obs rest
            (<[r := set_walkable n (negb (bool_decide (r ∈ obs)))]> ns)
      | None => Throw
      end
  end.

(** [updateObstacles]. *)
Definition updateObstacles (buildings : list Footprint) (g : PathfindingSystem)
  : result PathfindingSystem :=
  let* (ns, obs) := blockAll g (nodes g, ∅) buildings in
  let* ns' := refreshWalkable obs (coords (width g) (height g)) ns in
  Ok (mkSystem ns' (width g) (height g) (cellSize g) obs (roads g)).

(** [getGridSize]. *)
Definition getGridSize (g : PathfindingSystem) : Z * Z := (width g, height g).

(** [isPositionWalkable]. *)
Definition isPositionWalkable (g : PathfindingSystem) (worldPos : Vector3)
  : result bool :=
  let gridPos := worldToGrid g worldPos in
  if negb (isValidGridPosition g (fst gridPos) (snd gridPos)) then Ok false
  else
    match nodes g !! gridPos with
    | Some n => Ok (isWalkable n)
    | None => Throw
    end.

(** The cells on the square ring of the given radius around [c], in the
    order of the two inner loops of [getNearestWalkablePosition]. *)
Definition ring (c : Ref) (radius : Z) : list Ref :=
  dx ← seqZ (- radius) (2 * radius + 1);
  dy ← seqZ (- radius) (2 * radius + 1);
  if bool_decide (Z.abs dx = radius \/ Z.abs dy = radius)
  then [(fst c + dx, snd c + dy)%Z] else [].

(** The search through the candidate cells: the position of the first one
    that is a valid index with a walkable node. *)
Fixpoint firstWalkable (g : PathfindingSystem) (cands : list Ref)
  : result (option Vector3) :=
  match cands with
  | [] => Ok None
  | r :: rest =>
      if isValidGridPosition g (fst r) (snd r) then
        match nodes g !! r with
        | Some n =>
            if isWalkable n then Ok (Some (position n))
            else firstWalkable g rest
        | None => Throw
        end
      else firstWalkable g rest
  end.

(** [getNearestWalkablePosition]. *)
Definition getNearestWalkablePosition (g : PathfindingSystem)
  (worldPos : Vector3) : result Vector3 :=
  let gridPos := worldToGrid g worldPos in
  let maxRadius := 10%Z in
  let* found :=
    firstWalkable g (radius ← seqZ 0 (maxRadius + 1); ring gridPos radius) in
  Ok (match found with Some p => p | None => worldPos end).

(** [getPathfindingDebugInfo]: total, walkable, obstacle and road counts. *)
Fixpoint countWalkable (ns : gmap Ref PathfindingNode) (cs : list Ref)
  : result nat :=
  match cs with
  | [] => Ok 0%nat
  | r :: rest =>
      match ns !! r with
      | Some n =>
          let* k := countWalkable ns rest in
          Ok (if isWalkable n then S k else k)
      | None => Throw
      end
  end.

Definition getPathfindingDebugInfo (g : PathfindingSystem)
  : result (Z * nat * nat * nat) :=
  let* walkableCount := countWalkable (nodes g) (coords (width g) (height g)) in
  Ok ((width g * height g)%Z, walkableCount, size (obstacles g), size (roads g)).

(** *** Rebuilding the obstacles *)

Lemma forQ_ok {St : Type} (hi step : Q) (body : Q -> St -> result St)
  (P : St -> Prop) :
  0 < step ->
  (forall x s, P s -> exists s', body x s = Ok s' /\ P s') ->
  forall fuel x s,
    (1 <= fuel)%nat -> (hi - x) / step + 1 < ofNat fuel -> P s ->
    exists s', forQ fuel x hi step body s = Ok s' /\ P s'.
Proof.
  intros Hstep Hbody fuel.
  induction fuel as [| f IH]; intros x s H1 Hfuel HP; [lia |].
  simpl. destruct (Qleb x hi) eqn:Hle; [| exists s; auto].
  apply Qleb_true in Hle.
  destruct (Hbody x s HP) as [s1 [Hs1 HP1]]. rewrite Hs1. cbn [bind].
  assert (Hq : (hi - (x + step)) / step == (hi - x) / step - 1)
    by (field; lra).
  assert (Hnn : 0 <= (hi - x) / step).
  { apply Qle_shift_div_l; [exact Hstep | lra]. }
  assert (HS : ofNat (S f) == ofNat f + 1).
  { unfold ofNat. rewrite Nat2Z.inj_succ. unfold Z.succ.
    rewrite inject_Z_plus. reflexivity. }
  rewrite HS in Hfuel.
  apply IH; [| rewrite Hq; lra | exact HP1].
  destruct f; [| lia]. exfalso. change (ofNat 0) with 0 in Hfuel. lra.
Qed.

Lemma loopFuel_enough (lo hi step : Q) :
  (1 <= loopFuel lo hi step)%nat
  /\ (hi - lo) / step + 1 < ofNat (loopFuel lo hi step).
Proof.
  unfold loopFuel. split; [lia |].
  set (q := (hi - lo) / step).
  pose proof (Qlt_floor q) as Hf.
  unfold ofNat. rewrite !Nat2Z.inj_succ. unfold Z.succ.
  rewrite !inject_Z_plus. change (inject_Z 1) with 1.
  destruct (Z_le_gt_dec 0 (Qfloor q)) as [Hpos | Hneg].
  - rewrite Z2Nat.id by exact Hpos. rewrite inject_Z_plus in Hf.
    change (inject_Z 1) with 1 in Hf. lra.
  - assert (Hz : Z.to_nat (Qfloor q) = 0%nat) by lia. rewrite Hz.
    change (inject_Z (Z.of_nat 0)) with 0.
    assert (Hq : inject_Z (Qfloor q + 1) <= 0).
    { change 0 with (inject_Z 0). rewrite <- Zle_Qle. lia. }
    lra.
Qed.

Lemma forQ_inv {St : Type} (hi step : Q) (body : Q -> St -> result St)
  (P : St -> Prop) :
  (forall x s s', P s -> body x s = Ok s' -> P s') ->
  forall fuel x s s', P s -> forQ fuel x hi step body s = Ok s' -> P s'.
Proof.
  intros Hbody fuel.
  induction fuel as [| f IH]; intros x s s' HP Hrun; [discriminate |].
  simpl in Hrun. destruct (Qleb x hi); [| inversion Hrun; subst; exact HP].
  destruct (body x s) as [s1 | |] eqn:Hs1; cbn [bind] in Hrun; try discriminate.
  apply (IH (x + step) s1 s'); [eapply Hbody; eassumption | exact Hrun].
Qed.

Lemma forQ_first {St : Type} (fuel : nat) (x hi step : Q)
  (body : Q -> St -> result St) (s out : St) :
  Qleb x hi = true ->
  forQ (S fuel) x hi step body s = Ok out ->
  exists s1, body x s = Ok s1 /\ forQ fuel (x + step) hi step body s1 = Ok out.
Proof.
  intros Hle Hrun. simpl in Hrun. rewrite Hle in Hrun.
  destruct (body x s) as [s1 | |]; cbn [bind] in Hrun; try discriminate.
  exists s1. auto.
Qed.

(** Two stores hold nodes at the same indices with the same positions. *)
Definition same_position (a b : gmap Ref PathfindingNode) : Prop :=
  forall r, position <$> (a !! r) = position <$> (b !! r).

Lemma same_position_refl (a : gmap Ref PathfindingNode) : same_position a a.
Proof. intros r. reflexivity. Qed.

Lemma same_position_trans (a b c : gmap Ref PathfindingNode) :
  same_position a b -> same_position b c -> same_position a c.
Proof. intros H1 H2 r. rewrite (H1 r). apply H2. Qed.

Lemma same_position_insert (a : gmap Ref PathfindingNode) (r : Ref)
  (n : PathfindingNode) (b : bool) :
  a !! r = Some n -> same_position a (<[r := set_walkable n b]> a).
Proof.
  intros Hr r'. destruct (decide (r = r')) as [<- | Hne].
  - rewrite lookup_insert_eq, Hr. reflexivity.
  - rewrite lookup_insert_ne by exact Hne. reflexivity.
Qed.

(** What marking keeps: the positions, the validity of the obstacle keys,
    and the obstacles found so far. *)
Definition marked (g : PathfindingSystem) (obs0 : gset Ref)
  (st : gmap Ref PathfindingNode * gset Ref) : Prop :=
  same_position (nodes g) (fst st)
  /\ (forall r, r ∈ snd st -> validRef g r)
  /\ obs0 ⊆ snd st.

Lemma markObstacle_marked (g : PathfindingSystem) (obs0 : gset Ref) (x z : Q)
  (st : gmap Ref PathfindingNode * gset Ref) :
  marked g obs0 st -> marked g obs0 (markObstacle g x z st).
Proof.
  intros [Hpos [Hval Hsub]]. unfold markObstacle.
  destruct (isValidGridPosition g _ _) eqn:Hv; [| repeat split; assumption].
  cbn [fst snd]. split; [| split].
  - destruct (fst st !! worldToGrid g (mkV3 x 0 z)) as [n |] eqn:Hn;
      [| exact Hpos].
    eapply same_position_trans; [exact Hpos |].
    apply same_position_insert, Hn.
  - intros r Hr. cbn [snd] in Hr.
    apply elem_of_union in Hr. destruct Hr as [Hr | Hr].
    + apply elem_of_singleton in Hr. subst r. exact Hv.
    + apply Hval, Hr.
  - cbn [snd]. set_solver.
Qed.

Lemma blockBuilding_ok (g : PathfindingSystem) (obs0 : gset Ref)
  (st : gmap Ref PathfindingNode * gset Ref) (b : Footprint) :
  0 < cellSize g -> marked g obs0 st ->
  exists st', blockBuilding g st b = Ok st' /\ marked g obs0 st'.
Proof.
  intros Hc Hm. unfold blockBuilding.
  assert (Hstep : 0 < cellSize g / 2).
  { apply Qlt_shift_div_l; lra. }
  apply (forQ_ok (maxX b) (cellSize g / 2) _ (marked g obs0) Hstep);
    [| apply loopFuel_enough | apply loopFuel_enough | exact Hm].
  intros x s Hs.
  apply (forQ_ok (maxZ b) (cellSize g / 2) _ (marked g obs0) Hstep);
    [| apply loopFuel_enough | apply loopFuel_enough | exact Hs].
  intros z s0 Hs0. eexists. split; [reflexivity |].
  apply markObstacle_marked, Hs0.
Qed.

(** The corner of least [x] and [z] of a footprint, the first sample. *)
Definition footprintCorner (b : Footprint) : Vector3 :=
  mkV3 (minX b) 0 (minZ b).

Lemma blockBuilding_corner (g : PathfindingSystem)
  (st st' : gmap Ref PathfindingNode * gset Ref) (b : Footprint) :
  0 <= fst (footprintSize b) -> 0 <= snd (footprintSize b) ->
  validRef g (worldToGrid g (footprintCorner b)) ->
  blockBuilding g st b = Ok st' ->
  worldToGrid g (footprintCorner b) ∈ snd st'.
Proof.
  unfold blockBuilding, footprintCorner. intros Hw Hd Hv Hrun.
  assert (Hx : minX b <= maxX b).
  { unfold minX, maxX.
    assert (0 <= fst (footprintSize b) / 2) by (apply Qle_shift_div_l; lra).
    lra. }
  assert (Hz : minZ b <= maxZ b).
  { unfold minZ, maxZ.
    assert (0 <= snd (footprintSize b) / 2) by (apply Qle_shift_div_l; lra).
    lra. }
  set (c := worldToGrid g (mkV3 (minX b) 0 (minZ b))) in *.
  assert (Hkeep : forall x z s, c ∈ snd s -> c ∈ snd (markObstacle g x z s)).
  { intros x z s Hs. unfold markObstacle.
    destruct (isValidGridPosition g _ _); [| exact Hs].
    cbn [snd]. set_solver. }
  assert (Hinner : forall fuel z x s s',
            c ∈ snd s ->
            forQ fuel z (maxZ b) (cellSize g / 2)
              (fun z st => Ok (markObstacle g x z st)) s = Ok s' ->
            c ∈ snd s').
  { intros fuel z x s s' Hs Hr.
    eapply (forQ_inv (maxZ b) (cellSize g / 2) _ (fun s => c ∈ snd s));
      [| exact Hs | exact Hr].
    intros z0 s0 s1 Hs0 Hb. inversion Hb; subst. apply Hkeep, Hs0. }
  apply Qleb_true in Hx. apply Qleb_true in Hz.
  unfold loopFuel in Hrun.
  destruct (forQ_first _ _ _ _ _ _ _ Hx Hrun) as [s1 [H1 Hrest]].
  destruct (forQ_first _ _ _ _ _ _ _ Hz H1) as [s0 [H0 Hrest0]].
  inversion H0; subst s0.
  assert (Hc1 : c ∈ snd s1).
  { eapply Hinner; [| exact Hrest0]. unfold markObstacle. fold c.
    unfold validRef in Hv. rewrite Hv. cbn [snd]. set_solver. }
  eapply (forQ_inv (maxX b) (cellSize g / 2) _ (fun s => c ∈ snd s));
    [| exact Hc1 | exact Hrest].
  intros x0 s0 s2 Hs0 Hb. eapply Hinner; [exact Hs0 | exact Hb].
Qed.

Lemma blockAll_ok (g : PathfindingSystem) (buildings : list Footprint) :
  0 < cellSize g ->
  forall obs0 st,
    marked g obs0 st ->
    exists st',
      blockAll g st buildings = Ok st' /\ marked g obs0 st'
      /\ forall b,
           b ∈ buildings ->
           0 <= fst (footprintSize b) -> 0 <= snd (footprintSize b) ->
           validRef g (worldToGrid g (footprintCorner b)) ->
           worldToGrid g (footprintCorner b) ∈ snd st'.
Proof.
  intros Hc. induction buildings as [| b rest IH]; intros obs0 st Hm.
  - exists st. split; [reflexivity |]. split; [exact Hm |].
    intros b Hb. apply elem_of_nil in Hb. contradiction.
  - destruct (blockBuilding_ok g obs0 st b Hc Hm) as [st1 [H1 Hm1]].
    assert (Hm1' : marked g (snd st1) st1).
    { destruct Hm1 as [A [B _]]. repeat split; [exact A | exact B |].
      set_solver. }
    destruct (IH (snd st1) st1 Hm1') as [st2 [H2 [Hm2 Hrest]]].
    exists st2. cbn [blockAll]. rewrite H1. cbn [bind].
    split; [exact H2 |]. split.
    + destruct Hm1 as [_ [_ S1]]. destruct Hm2 as [A [B S2]].
      repeat split; [exact A | exact B |]. set_solver.
    + intros b' Hb'. apply elem_of_cons in Hb'. destruct Hb' as [-> | Hb'].
      * intros Hw Hd Hv. destruct Hm2 as [_ [_ S2]].
        apply S2. apply (blockBuilding_corner g st st1 b); assumption.
      * apply Hrest, Hb'.
Qed.

Lemma refreshWalkable_keeps (obs : gset Ref) (r : Ref) (l : list Ref) :
  forall (m m' : gmap Ref PathfindingNode),
    r ∉ l -> refreshWalkable obs l m = Ok m' -> m' !! r = m !! r.
Proof.
  induction l as [| a l IH]; intros m m' Hnl Hm; simpl in Hm.
  - inversion Hm; subst. reflexivity.
  - destruct (m !! a) as [na |] eqn:Ea; [| discriminate].
    rewrite (IH _ _ ltac:(intros Hc; apply Hnl; right; exact Hc) Hm).
    apply lookup_insert_ne. intros ->. apply Hnl. left.
Qed.

Lemma refreshWalkable_ok (obs : gset Ref) (cs : list Ref) :
  forall ns : gmap Ref PathfindingNode,
    (forall r, r ∈ cs -> is_Some (ns !! r)) ->
    exists ns',
      refreshWalkable obs cs ns = Ok ns'
      /\ same_position ns ns'
      /\ (forall r, r ∈ cs ->
            exists n, ns' !! r = Some n
                      /\ isWalkable n = negb (bool_decide (r ∈ obs))).
Proof.
  induction cs as [| r rest IH]; intros ns Hall; simpl.
  - exists ns. split; [reflexivity |]. split; [apply same_position_refl |].
    intros r Hr. apply elem_of_nil in Hr. contradiction.
  - destruct (Hall r) as [n Hn]; [left |]. rewrite Hn.
    set (n' := set_walkable n (negb (bool_decide (r ∈ obs)))).
    destruct (IH (<[r := n']> ns)) as [ns' [Hres [Hpos Hw]]].
    { intros r' Hr'. destruct (decide (r = r')) as [<- | Hne].
      - rewrite lookup_insert_eq. eauto.
      - rewrite lookup_insert_ne by exact Hne. apply Hall. right. exact Hr'. }
    exists ns'. split; [exact Hres |]. split.
    + eapply same_position_trans; [| exact Hpos].
      apply same_position_insert, Hn.
    + intros r' Hr'. destruct (decide (r' ∈ rest)) as [Hin | Hnin].
      * apply Hw, Hin.
      * apply elem_of_cons in Hr'. destruct Hr' as [-> | Hr']; [| contradiction].
        exists n'. split; [| reflexivity].
        rewrite (refreshWalkable_keeps obs r rest _ _ Hnin Hres).
        apply lookup_insert_eq.
Qed.

Lemma updateObstacles_ok (buildings : list Footprint) (g : PathfindingSystem) :
  grid_wf g ->
  exists g',
    updateObstacles buildings g = Ok g'
    /\ grid_wf g'
    /\ width g' = width g /\ height g' = height g
    /\ cellSize g' = cellSize g /\ roads g' = roads g
    /\ (forall r, validRef g r ->
          exists n n0,
            nodes g' !! r = Some n /\ nodes g !! r = Some n0
            /\ position n = position n0
            /\ isWalkable n = negb (bool_decide (r ∈ obstacles g')))
    /\ (forall r, r ∈ obstacles g' -> validRef g r)
    /\ (forall b,
          b ∈ buildings ->
          0 <= fst (footprintSize b) -> 0 <= snd (footprintSize b) ->
          validRef g (worldToGrid g (footprintCorner b)) ->
          worldToGrid g (footprintCorner b) ∈ obstacles g')
    /\ (buildings = [] -> obstacles g' = ∅).
Proof.
  intros [Hc Hnodes]. unfold updateObstacles.
  destruct (blockAll_ok g buildings Hc ∅ (nodes g, ∅))
    as [[ns obs] [Hblock [[Hpos [Hval _]] Hcorner]]].
  { split; [apply same_position_refl |]. cbn [snd].
    split; [intros r Hr; apply elem_of_empty in Hr; contradiction |].
    set_solver. }
  rewrite Hblock. cbn [bind fst snd] in *.
  assert (Hsome : forall r, validRef g r -> is_Some (ns !! r)).
  { intros r Hr. destruct (Hnodes r Hr) as [n0 Hn0].
    specialize (Hpos r). rewrite Hn0 in Hpos.
    destruct (ns !! r); [eauto | discriminate]. }
  destruct (refreshWalkable_ok obs (coords (width g) (height g)) ns)
    as [ns' [Href [Hpos' Hwalk]]].
  { intros r Hr. apply Hsome. apply elem_of_coords_valid, Hr. }
  rewrite Href. cbn [bind]. eexists. split; [reflexivity |].
  cbn [nodes width height cellSize roads obstacles].
  assert (Hall : forall r, validRef g r ->
            exists n n0,
              ns' !! r = Some n /\ nodes g !! r = Some n0
              /\ position n = position n0
              /\ isWalkable n = negb (bool_decide (r ∈ obs))).
  { intros r Hr. destruct (Hwalk r) as [n [Hn Hw]];
      [apply elem_of_coords_valid, Hr |].
    destruct (Hnodes r Hr) as [n0 Hn0]. exists n, n0.
    split; [exact Hn |]. split; [exact Hn0 |]. split; [| exact Hw].
    pose proof (same_position_trans _ _ _ Hpos Hpos' r) as E.
    rewrite Hn0, Hn in E. simpl in E. congruence. }
  split.
  { split; [exact Hc |]. intros r Hr.
    destruct (Hall r Hr) as [n [_ [Hn _]]]. cbn [nodes]. eauto. }
  repeat (split; [reflexivity |]).
  split; [exact Hall |]. split; [exact Hval |]. split; [exact Hcorner |].
  intros ->. simpl in Hblock. inversion Hblock. reflexivity.
Qed.
(** After [updateObstacles] the walkability of every cell mirrors the
    obstacle set, which holds valid cells only and the corner cell of every
    footprint of non-negative size; positions, grid size and roads are
    untouched; no building means no obstacle.  [isPositionWalkable] then
    answers by the obstacle set. *)
Theorem updateObstacles_consistent (buildings : list Footprint)
  (g : PathfindingSystem) :
  grid_wf g ->
  exists g',
    updateObstacles buildings g = Ok g'
    /\ grid_wf g'
    /\ getGridSize g' = getGridSize g
    /\ cellSize g' = cellSize g /\ roads g' = roads g
    /\ (forall r, validRef g r ->
          exists n n0,
            nodes g' !! r = Some n /\ nodes g !! r = Some n0
            /\ position n = position n0
            /\ isWalkable n = negb (bool_decide (r ∈ obstacles g')))
    /\ (forall r, r ∈ obstacles g' -> validRef g r)
    /\ (forall b,
          b ∈ buildings ->
          0 <= fst (footprintSize b) -> 0 <= snd (footprintSize b) ->
          validRef g (worldToGrid g (footprintCorner b)) ->
          worldToGrid g (footprintCorner b) ∈ obstacles g')
    /\ (buildings = [] -> obstacles g' = ∅)
    /\ (forall p,
          (0 < width g)%Z -> (0 < height g)%Z ->
          isPositionWalkable g' p
          = Ok (negb (bool_decide (worldToGrid g p ∈ obstacles g')))).
Proof.
  intros Hwf.
  destruct (updateObstacles_ok buildings g Hwf)
    as [g' [Hrun [Hwf' [Hw [Hh [Hc [Hr [Hall [Hval [Hcor Hnil]]]]]]]]]].
  exists g'. split; [exact Hrun |]. split; [exact Hwf' |].
  split; [unfold getGridSize; congruence |].
  split; [exact Hc |]. split; [exact Hr |]. split; [exact Hall |].
  split; [exact Hval |]. split; [exact Hcor |]. split; [exact Hnil |].
  intros p Hpw Hph.
  assert (Hgp : worldToGrid g' p = worldToGrid g p).
  { unfold worldToGrid. rewrite Hw, Hh, Hc. reflexivity. }
  pose proof (worldToGrid_valid g p Hpw Hph) as Hv.
  unfold isPositionWalkable. rewrite Hgp.
  assert (Hv' : isValidGridPosition g' (fst (worldToGrid g p))
                  (snd (worldToGrid g p)) = true).
  { unfold isValidGridPosition. rewrite Hw, Hh. exact Hv. }
  rewrite Hv'. cbn [negb].
  destruct (Hall _ Hv) as [n [n0 [Hn [_ [_ Hwalk]]]]].
  rewrite Hn, Hwalk. reflexivity.
Qed.

(** A building of the default size in the middle of the 4 x 4 grid. *)
Definition centralBuilding : Footprint :=
  mkFootprint (mkV3 (1 # 2) 0 (1 # 2)) None.

Lemma updateObstacles_consistent_witness :
  grid_wf grid4
  /\ exists g',
       updateObstacles [centralBuilding] grid4 = Ok g'
       /\ (1, 1)%Z ∈ obstacles g'
       /\ isPositionWalkable g' (mkV3 (-1 # 2) 0 (-1 # 2)) = Ok false.
Proof.
  split; [apply newPathfindingSystem_wf; reflexivity |].
  destruct (updateObstacles_consistent [centralBuilding] grid4
              (newPathfindingSystem_wf 4 1 eq_refl))
    as [g' [Hrun [_ [_ [_ [_ [_ [_ [Hcor [_ Hq]]]]]]]]]].
  exists g'. split; [exact Hrun |].
  assert (Hin : (1, 1)%Z ∈ obstacles g').
  { apply (Hcor centralBuilding); [left | | | reflexivity];
      unfold Qle; simpl; lia. }
  split; [exact Hin |].
  rewrite (Hq (mkV3 (-1 # 2) 0 (-1 # 2))) by reflexivity.
  change (worldToGrid grid4 (mkV3 (-1 # 2) 0 (-1 # 2))) with (1, 1)%Z.
  rewrite bool_decide_eq_true_2 by exact Hin. reflexivity.
Defined.

(** *** The nearest walkable cell *)

(** The ring distance between two cells. *)
Definition chebyshev (r c : Ref) : Z :=
  Z.max (Z.abs (fst r - fst c)) (Z.abs (snd r - snd c)).

Lemma elem_of_ring (c r : Ref) (d : Z) :
  (0 <= d)%Z -> r ∈ ring c d <-> chebyshev r c = d.
Proof.
  intros Hd. unfold ring, chebyshev. rewrite list_elem_of_bind. split.
  - intros [dx [Hr Hdx]]. apply list_elem_of_bind in Hr.
    destruct Hr as [dy [Hr Hdy]].
    apply elem_of_seqZ in Hdx. apply elem_of_seqZ in Hdy.
    destruct (bool_decide (Z.abs dx = d \/ Z.abs dy = d)) eqn:Hb;
      [| apply elem_of_nil in Hr; contradiction].
    apply bool_decide_eq_true in Hb.
    apply list_elem_of_singleton in Hr. subst r. cbn [fst snd]. lia.
  - intros Hmax. exists (fst r - fst c)%Z. split.
    + apply list_elem_of_bind. exists (snd r - snd c)%Z. split.
      * rewrite bool_decide_eq_true_2 by lia.
        apply list_elem_of_singleton. destruct r as [x y]. cbn [fst snd].
        f_equal; lia.
      * apply elem_of_seqZ. lia.
    + apply elem_of_seqZ. lia.
Qed.

Lemma firstWalkable_app (g : PathfindingSystem) (l1 l2 : list Ref) :
  firstWalkable g (l1 ++ l2)
  = match firstWalkable g l1 with
    | Ok None => firstWalkable g l2
    | other => other
    end.
Proof.
  induction l1 as [| r l1 IH]; simpl; [reflexivity |].
  destruct (isValidGridPosition g (fst r) (snd r)); [| exact IH].
  destruct (nodes g !! r) as [n |]; [| reflexivity].
  destruct (isWalkable n); [reflexivity | exact IH].
Qed.

Lemma firstWalkable_total (g : PathfindingSystem) (l : list Ref) :
  grid_wf g -> exists o, firstWalkable g l = Ok o.
Proof.
  intros [_ Hn]. induction l as [| r l IH]; simpl; [eauto |].
  destruct (isValidGridPosition g (fst r) (snd r)) eqn:Hv; [| exact IH].
  destruct (Hn r Hv) as [n ->]. destruct (isWalkable n); eauto.
Qed.

Lemma firstWalkable_none (g : PathfindingSystem) (l : list Ref) :
  firstWalkable g l = Ok None ->
  forall r n, r ∈ l -> validRef g r -> nodes g !! r = Some n ->
              isWalkable n = false.
Proof.
  induction l as [| a l IH]; intros Hrun r n Hr Hv Hn.
  - apply elem_of_nil in Hr. contradiction.
  - simpl in Hrun. apply elem_of_cons in Hr.
    destruct (isValidGridPosition g (fst a) (snd a)) eqn:Hva.
    + destruct (nodes g !! a) as [na |] eqn:Hna; [| discriminate].
      destruct (isWalkable na) eqn:Hwa; [discriminate |].
      destruct Hr as [-> | Hr]; [congruence | eapply IH; eassumption].
    + destruct Hr as [-> | Hr]; [unfold validRef in Hv; congruence |].
      eapply IH; eassumption.
Qed.

Lemma firstWalkable_some (g : PathfindingSystem) (l : list Ref) (p : Vector3) :
  firstWalkable g l = Ok (Some p) ->
  exists r n, r ∈ l /\ validRef g r /\ nodes g !! r = Some n
              /\ isWalkable n = true /\ p = position n.
Proof.
  induction l as [| a l IH]; intros Hrun; [discriminate |].
  simpl in Hrun.
  destruct (isValidGridPosition g (fst a) (snd a)) eqn:Hva.
  - destruct (nodes g !! a) as [na |] eqn:Hna; [| discriminate].
    destruct (isWalkable na) eqn:Hwa.
    + inversion Hrun; subst p. exists a, na.
      split; [left |]. auto.
    + destruct (IH Hrun) as [r [n [Hr H]]]. exists r, n.
      split; [right; exact Hr | exact H].
  - destruct (IH Hrun) as [r [n [Hr H]]]. exists r, n.
    split; [right; exact Hr | exact H].
Qed.

(** The rings are searched from the inside out. *)
Lemma firstWalkable_rings (g : PathfindingSystem) (c : Ref) (p : Vector3)
  (k : nat) :
  forall a,
    firstWalkable g (radius ← seqZ a (Z.of_nat k); ring c radius)
    = Ok (Some p) ->
    exists d,
      (a <= d < a + Z.of_nat k)%Z
      /\ firstWalkable g (ring c d) = Ok (Some p)
      /\ forall d', (a <= d' < d)%Z -> firstWalkable g (ring c d') = Ok None.
Proof.
  induction k as [| k IH]; intros a Hrun.
  - simpl in Hrun. discriminate.
  - rewrite seqZ_cons in Hrun by lia. cbn [mbind list_bind] in Hrun.
    rewrite firstWalkable_app in Hrun.
    replace (Z.pred (Z.of_nat (S k))) with (Z.of_nat k) in Hrun by lia.
    destruct (firstWalkable g (ring c a)) as [[q |] | |] eqn:Ha;
      try discriminate.
    + inversion Hrun; subst q. exists a. split; [lia |].
      split; [exact Ha |]. intros d' Hd'. lia.
    + destruct (IH (Z.succ a) Hrun) as [d [Hd [Hfound Hbefore]]].
      exists d. split; [lia |]. split; [exact Hfound |].
      intros d' Hd'. destruct (decide (d' = a)) as [-> | Hne]; [exact Ha |].
      apply Hbefore. lia.
Qed.

Lemma firstWalkable_rings_none (g : PathfindingSystem) (c : Ref) (k : nat) :
  forall a,
    firstWalkable g (radius ← seqZ a (Z.of_nat k); ring c radius) = Ok None ->
    forall d, (a <= d < a + Z.of_nat k)%Z ->
              firstWalkable g (ring c d) = Ok None.
Proof.
  induction k as [| k IH]; intros a Hrun d Hd; [lia |].
  rewrite seqZ_cons in Hrun by lia. cbn [mbind list_bind] in Hrun.
  rewrite firstWalkable_app in Hrun.
  replace (Z.pred (Z.of_nat (S k))) with (Z.of_nat k) in Hrun by lia.
  destruct (firstWalkable g (ring c a)) as [[q |] | |] eqn:Ha; try discriminate.
  destruct (decide (d = a)) as [-> | Hne]; [exact Ha |].
  apply (IH (Z.succ a) Hrun). lia.
Qed.

(** [getNearestWalkablePosition] returns the position of a walkable node
    whose cell is at ring distance at most 10 from the cell of the query and
    no farther than any other walkable cell, or the query position itself
    when no cell within ring distance 10 is walkable.  When the cell of the
    query is walkable the answer is the position of its own node. *)
Theorem getNearestWalkablePosition_nearest (g : PathfindingSystem)
  (worldPos : Vector3) :
  grid_wf g ->
  exists p,
    getNearestWalkablePosition g worldPos = Ok p
    /\ ((p = worldPos
         /\ forall q nq,
              validRef g q -> nodes g !! q = Some nq ->
              (chebyshev q (worldToGrid g worldPos) <= 10)%Z ->
              isWalkable nq = false)
        \/ exists r n,
             validRef g r /\ nodes g !! r = Some n /\ isWalkable n = true
             /\ p = position n
             /\ (chebyshev r (worldToGrid g worldPos) <= 10)%Z
             /\ forall q nq,
                  validRef g q -> nodes g !! q = Some nq ->
                  isWalkable nq = true ->
                  (chebyshev r (worldToGrid g worldPos)
                   <= chebyshev q (worldToGrid g worldPos))%Z)
    /\ (forall n,
          validRef g (worldToGrid g worldPos) ->
          nodes g !! worldToGrid g worldPos = Some n ->
          isWalkable n = true -> p = position n).
Proof.
  intros Hwf. unfold getNearestWalkablePosition.
  set (c := worldToGrid g worldPos).
  assert (Hcheb : forall q, (0 <= chebyshev q c)%Z) by (intros q; unfold chebyshev; lia).
  change (10 + 1)%Z with (Z.of_nat 11).
  destruct (firstWalkable_total g (radius ← seqZ 0 (Z.of_nat 11); ring c radius) Hwf)
    as [[p |] Hrun]; rewrite Hrun; cbn [bind].
  - destruct (firstWalkable_rings g c p 11 0%Z Hrun) as [d [Hd [Hfound Hbefore]]].
    destruct (firstWalkable_some g _ p Hfound) as [r [n [Hr [Hv [Hn [Hw Hp]]]]]].
    apply elem_of_ring in Hr; [| lia].
    assert (Hmin : forall q nq,
              validRef g q -> nodes g !! q = Some nq -> isWalkable nq = true ->
              (chebyshev r c <= chebyshev q c)%Z).
    { intros q nq Hvq Hnq Hwq.
      destruct (Z_le_gt_dec (chebyshev r c) (chebyshev q c)) as [Hle | Hgt];
        [exact Hle | exfalso].
      assert (Hq : firstWalkable g (ring c (chebyshev q c)) = Ok None).
      { apply Hbefore. specialize (Hcheb q). lia. }
      pose proof (firstWalkable_none g _ Hq q nq) as Hno.
      rewrite Hno in Hwq; [discriminate | | exact Hvq | exact Hnq].
      apply elem_of_ring; [apply Hcheb | reflexivity]. }
    exists p. split; [reflexivity |]. split.
    + right. exists r, n. repeat split; try assumption. lia.
    + intros n0 Hvc Hnc Hwc.
      pose proof (Hmin c n0 Hvc Hnc Hwc) as Hle.
      assert (Hcc : chebyshev c c = 0%Z) by (unfold chebyshev; lia).
      assert (Hrc : r = c).
      { specialize (Hcheb r). unfold chebyshev in *.
        destruct r as [x y], c as [cx cy]. cbn [fst snd] in *.
        f_equal; lia. }
      subst r. congruence.
  - exists worldPos. split; [reflexivity |]. split.
    + left. split; [reflexivity |]. intros q nq Hvq Hnq Hdist.
      pose proof (firstWalkable_rings_none g c 11 0%Z Hrun (chebyshev q c)) as Hq.
      apply (firstWalkable_none g _ (Hq ltac:(specialize (Hcheb q); lia)) q nq);
        [| exact Hvq | exact Hnq].
      apply elem_of_ring; [apply Hcheb | reflexivity].
    + intros n Hvc Hnc Hwc. exfalso.
      pose proof (firstWalkable_rings_none g c 11 0%Z Hrun 0%Z ltac:(lia)) as Hq.
      pose proof (firstWalkable_none g _ Hq c n) as Hno.
      rewrite Hno in Hwc; [discriminate | | exact Hvc | exact Hnc].
      apply elem_of_ring; [lia | unfold chebyshev; lia].
Qed.

Lemma getNearestWalkablePosition_nearest_witness :
  grid_wf grid4
  /\ getNearestWalkablePosition grid4 (mkV3 (1 # 4) 0 (1 # 4))
     = Ok (mkV3 (- (4 / 2) + (2 + (1 # 2)) * 1) 0 (- (4 / 2) + (2 + (1 # 2)) * 1)).
Proof.
  split; [apply newPathfindingSystem_wf; reflexivity |].
  destruct (getNearestWalkablePosition_nearest grid4 (mkV3 (1 # 4) 0 (1 # 4))
              (newPathfindingSystem_wf 4 1 eq_refl)) as [p [Hrun [_ Hown]]].
  rewrite Hrun. f_equal.
  apply (Hown (mkNode (mkV3 (- (4 / 2) + (2 + (1 # 2)) * 1) 0
                         (- (4 / 2) + (2 + (1 # 2)) * 1))
                 (Fin 0) 0 (Fin 0) None true)); reflexivity.
Defined.


(** *** Counting the cells *)

Lemma length_bind_const {A B : Type} (f : A -> list B) (k : nat) (l : list A) :
  (forall x, List.length (f x) = k) ->
  List.length (l ≫= f) = (List.length l * k)%nat.
Proof.
  intros Hf. induction l as [| a l IH]; [reflexivity |].
  change ((a :: l) ≫= f) with (f a ++ (l ≫= f)).
  rewrite length_app, Hf, IH. simpl. lia.
Qed.

Lemma coords_length (w h : Z) :
  (0 <= w)%Z -> (0 <= h)%Z -> Z.of_nat (List.length (coords w h)) = (w * h)%Z.
Proof.
  intros Hw Hh. unfold coords.
  rewrite (length_bind_const _ (Z.to_nat h)).
  - rewrite length_seqZ. lia.
  - intros x. rewrite (length_bind_const _ 1%nat); [| reflexivity].
    rewrite length_seqZ. lia.
Qed.

Lemma coords_NoDup (w h : Z) : NoDup (coords w h).
Proof.
  unfold coords. apply NoDup_bind; [| | apply NoDup_seqZ].
  - intros x1 x2 r _ _ H1 H2.
    apply list_elem_of_bind in H1. destruct H1 as [y1 [H1 _]].
    apply list_elem_of_bind in H2. destruct H2 as [y2 [H2 _]].
    apply list_elem_of_singleton in H1. apply list_elem_of_singleton in H2.
    congruence.
  - intros x _. apply NoDup_bind; [| | apply NoDup_seqZ].
    + intros y1 y2 r _ _ H1 H2.
      apply list_elem_of_singleton in H1. apply list_elem_of_singleton in H2.
      congruence.
    + intros y _. apply NoDup_singleton.
Qed.

Definition freeOf (obs : gset Ref) (r : Ref) : bool :=
  negb (bool_decide (r ∈ obs)).

Lemma countWalkable_spec (ns : gmap Ref PathfindingNode) (obs : gset Ref)
  (cs : list Ref) :
  (forall r, r ∈ cs ->
     exists n, ns !! r = Some n /\ isWalkable n = freeOf obs r) ->
  countWalkable ns cs = Ok (List.length (List.filter (freeOf obs) cs)).
Proof.
  induction cs as [| r rest IH]; intros H; [reflexivity |].
  cbn [countWalkable List.filter].
  destruct (H r ltac:(left)) as [n [Hn Hw]]. rewrite Hn.
  rewrite IH by (intros r' Hr'; apply H; right; exact Hr').
  cbn [bind]. rewrite Hw. destruct (freeOf obs r); reflexivity.
Qed.

Lemma free_count (cs : list Ref) :
  forall obs : gset Ref,
    NoDup cs -> (forall r, r ∈ obs -> r ∈ cs) ->
    (List.length (List.filter (freeOf obs) cs) + size obs)%nat
    = List.length cs.
Proof.
  induction cs as [| a l IH]; intros obs Hnd Hsub.
  - assert (obs = ∅) as ->.
    { apply leibniz_equiv. intros r. split; [| set_solver].
      intros Hr. apply Hsub in Hr. inversion Hr. }
    rewrite size_empty. reflexivity.
  - apply NoDup_cons in Hnd. destruct Hnd as [Hna Hnd].
    assert (Hsub' : forall r, r ∈ obs ∖ {[a]} -> r ∈ l).
    { intros r Hr. apply elem_of_difference in Hr. destruct Hr as [Hr Hne].
      apply Hsub in Hr. apply elem_of_cons in Hr.
      destruct Hr as [-> | Hr]; [set_solver | exact Hr]. }
    specialize (IH (obs ∖ {[a]}) Hnd Hsub').
    assert (Hext : List.filter (freeOf (obs ∖ {[a]})) l
                   = List.filter (freeOf obs) l).
    { apply List.filter_ext_in. intros r Hr. unfold freeOf. f_equal.
      apply bool_decide_ext. apply list_elem_of_In in Hr.
      split; [set_solver |]. intros Ho. apply elem_of_difference.
      split; [exact Ho |]. intros Heq. apply elem_of_singleton in Heq.
      subst r. contradiction. }
    rewrite Hext in IH. cbn [List.filter List.length]. unfold freeOf at 1.
    destruct (decide (a ∈ obs)) as [Hin | Hnin].
    + rewrite bool_decide_eq_true_2 by exact Hin. cbn [negb].
      assert (Hsz : size obs = S (size (obs ∖ {[a]}))).
      { rewrite (union_difference_L {[a]} obs) at 1 by set_solver.
        rewrite size_union by set_solver. rewrite size_singleton. lia. }
      lia.
    + rewrite bool_decide_eq_false_2 by exact Hnin. cbn [negb List.length].
      assert (Hsame : obs ∖ {[a]} = obs) by set_solver.
      rewrite Hsame in IH. lia.
Qed.

(** After [updateObstacles] on a grid with a node at every cell,
    [getPathfindingDebugInfo] returns: the total is width times height, the
    obstacle and road counts are the sizes of the two sets, and the walkable
    count is the total minus the obstacle count; with no building every cell
    is walkable. *)
Theorem debugInfo_counts (buildings : list Footprint) (g : PathfindingSystem) :
  grid_wf g -> (0 <= width g)%Z -> (0 <= height g)%Z ->
  exists g' walkable,
    updateObstacles buildings g = Ok g'
    /\ getPathfindingDebugInfo g'
       = Ok ((width g * height g)%Z, walkable, size (obstacles g'),
             size (roads g))
    /\ (Z.of_nat walkable + Z.of_nat (size (obstacles g')))%Z
       = (width g * height g)%Z
    /\ (buildings = [] -> Z.of_nat walkable = (width g * height g)%Z).
Proof.
  intros Hwf Hw0 Hh0.
  destruct (updateObstacles_ok buildings g Hwf)
    as [g' [Hrun [_ [Hw [Hh [_ [Hr [Hall [Hval [_ Hnil]]]]]]]]]].
  exists g', (List.length (List.filter (freeOf (obstacles g'))
                              (coords (width g) (height g)))).
  split; [exact Hrun |].
  assert (Hcount : countWalkable (nodes g') (coords (width g) (height g))
                   = Ok (List.length (List.filter (freeOf (obstacles g'))
                                        (coords (width g) (height g))))).
  { apply countWalkable_spec. intros r Hr'.
    apply elem_of_coords_valid in Hr'.
    destruct (Hall r Hr') as [n [_ [Hn [_ [_ Hwalk]]]]].
    exists n. split; [exact Hn | exact Hwalk]. }
  pose proof (free_count (coords (width g) (height g)) (obstacles g')
                (coords_NoDup _ _)) as Hsum.
  rewrite <- (coords_length (width g) (height g) Hw0 Hh0).
  split.
  { unfold getPathfindingDebugInfo. rewrite Hw, Hh, Hcount. cbn [bind].
    rewrite Hr. rewrite (coords_length (width g) (height g) Hw0 Hh0).
    reflexivity. }
  split.
  { rewrite <- Hsum; [lia |].
    intros r Hr'. apply elem_of_coords_valid, Hval, Hr'. }
  intros Hb. rewrite (Hnil Hb) in *. rewrite size_empty in Hsum.
  rewrite <- Hsum; [lia |]. intros r Hr'. set_solver.
Qed.

Lemma debugInfo_counts_witness :
  grid_wf grid4
  /\ exists g',
       updateObstacles [centralBuilding] grid4 = Ok g'
       /\ exists walkable,
            getPathfindingDebugInfo g'
            = Ok (16%Z, walkable, size (obstacles g'), 0%nat)
            /\ (Z.of_nat walkable + Z.of_nat (size (obstacles g')))%Z = 16%Z.
Proof.
  split; [apply newPathfindingSystem_wf; reflexivity |].
  destruct (debugInfo_counts [centralBuilding] grid4
              (newPathfindingSystem_wf 4 1 eq_refl))
    as [g' [walkable [Hrun [Hinfo [Hsum _]]]]];
    [vm_compute; discriminate | vm_compute; discriminate |].
  exists g'. split; [exact Hrun |]. exists walkable.
  split; [exact Hinfo | exact Hsum].
Defined.

End Pathfinding.

(** ** ConstructionSystem (systems/construction) *)

Module Construction.
Import Js Types.
Open Scope Q_scope.

Record BlueprintSize : Type := mkSize {
  bs_width : Q;
  bs_height : Q;
  bs_depth : Q
}.

(** The fields of [BuildingBlueprint] the scheduler reads. *)
Record BuildingBlueprint : Type := mkBlueprint {
  bp_name : string;
  size : BlueprintSize;
  bp_cost : Q;
  constructionTime : Q
}.

Record ConstructionMaterial : Type := mkMaterial {
  m_type : string;
  required : Q;
  delivered : Q;
  m_cost : Q;
  supplier : string;
  deliveryDate : option Q;
  m_quality : Q
}.

Definition m_set_deliveryDate (p : ConstructionMaterial) (v : option Q) : ConstructionMaterial :=
  mkMaterial (m_type p) (required p) (delivered p) (m_cost p) (supplier p) v
    (m_quality p).

Record ConstructionPhase : Type := mkPhase {
  ph_name : string;
  description : string;
  duration : Q;
  startProgress : Q;
  endProgress : Q;
  requiredMaterials : list string;
  requiredWorkers : Z;
  isCompleted : bool;
  actualDuration : option Q;
  qualityCheck : bool
}.

Record ConstructionWorker : Type := mkWorker {
  w_id : string;
  w_name : string;
  skillLevel : Q;
  specialization : string;
  efficiency : Q;
  salary : Q;
  assignedProjectId : option string;
  availability : bool
}.

Record ConstructionProject : Type := mkProject {
  proj_id : string;
  buildingId : string;
  blueprint : BuildingBlueprint;
  position : Vector3;
  rotation : Q;
  startDate : Q;
  estimatedCompletion : Q;
  actualProgress : Q;
  scheduledProgress : Q;
  p_workers : Q;
  maxWorkers : Z;
  dailyCost : Q;
  totalCostPaid : Q;
  totalCostEstimated : Q;
  materials : list ConstructionMaterial;
  phases : list ConstructionPhase;
  currentPhase : nat;
  isDelayed : bool;
  delayReason : option string;
  weatherImpact : Q;
  qualityRating : Q;
  inspectionsPassed : nat;
  safetyIncidents : nat
}.

Definition set_actualProgress (p : ConstructionProject) (v : Q) : ConstructionProject :=
  mkProject (proj_id p) (buildingId p) (blueprint p) (position p) (rotation p)
    (startDate p) (estimatedCompletion p) v (scheduledProgress p)
    (p_workers p) (maxWorkers p) (dailyCost p) (totalCostPaid p)
    (totalCostEstimated p) (materials p) (phases p) (currentPhase p)
    (isDelayed p) (delayReason p) (weatherImpact p) (qualityRating p)
    (inspectionsPassed p) (safetyIncidents p).

Definition set_scheduledProgress (p : ConstructionProject) (v : Q) : ConstructionProject :=
  mkProject (proj_id p) (buildingId p) (blueprint p) (position p) (rotation p)
    (startDate p) (estimatedCompletion p) (actualProgress p) v (p_workers p)
    (maxWorkers p) (dailyCost p) (totalCostPaid p) (totalCostEstimated p)
    (materials p) (phases p) (currentPhase p) (isDelayed p) (delayReason p)
    (weatherImpact p) (qualityRating p) (inspectionsPassed p)
    (safetyIncidents p).

Definition set_p_workers (p : ConstructionProject) (v : Q) : ConstructionProject :=
  mkProject (proj_id p) (buildingId p) (blueprint p) (position p) (rotation p)
    (startDate p) (estimatedCompletion p) (actualProgress p)
    (scheduledProgress p) v (maxWorkers p) (dailyCost p) (totalCostPaid p)
    (totalCostEstimated p) (materials p) (phases p) (currentPhase p)
    (isDelayed p) (delayReason p) (weatherImpact p) (qualityRating p)
    (inspectionsPassed p) (safetyIncidents p).

Definition set_dailyCost (p : ConstructionProject) (v : Q) : ConstructionProject :=
  mkProject (proj_id p) (buildingId p) (blueprint p) (position p) (rotation p)
    (startDate p) (estimatedCompletion p) (actualProgress p)
    (scheduledProgress p) (p_workers p) (maxWorkers p) v (totalCostPaid p)
    (totalCostEstimated p) (materials p) (phases p) (currentPhase p)
    (isDelayed p) (delayReason p) (weatherImpact p) (qualityRating p)
    (inspectionsPassed p) (safetyIncidents p).

Definition set_totalCostPaid (p : ConstructionProject) (v : Q) : ConstructionProject :=
  mkProject (proj_id p) (buildingId p) (blueprint p) (position p) (rotation p)
    (startDate p) (estimatedCompletion p) (actualProgress p)
    (scheduledProgress p) (p_workers p) (maxWorkers p) (dailyCost p) v
    (totalCostEstimated p) (materials p) (phases p) (currentPhase p)
    (isDelayed p) (delayReason p) (weatherImpact p) (qualityRating p)
    (inspectionsPassed p) (safetyIncidents p).

Definition set_materials (p : ConstructionProject) (v : list ConstructionMaterial) : ConstructionProject :=
  mkProject (proj_id p) (buildingId p) (blueprint p) (position p) (rotation p)
    (startDate p) (estimatedCompletion p) (actualProgress p)
    (scheduledProgress p) (p_workers p) (maxWorkers p) (dailyCost p)
    (totalCostPaid p) (totalCostEstimated p) v (phases p) (currentPhase p)
    (isDelayed p) (delayReason p) (weatherImpact p) (qualityRating p)
    (inspectionsPassed p) (safetyIncidents p).

Definition set_phases (p : ConstructionProject) (v : list ConstructionPhase) : ConstructionProject :=
  mkProject (proj_id p) (buildingId p) (blueprint p) (position p) (rotation p)
    (startDate p) (estimatedCompletion p) (actualProgress p)
    (scheduledProgress p) (p_workers p) (maxWorkers p) (dailyCost p)
    (totalCostPaid p) (totalCostEstimated p) (materials p) v (currentPhase p)
    (isDelayed p) (delayReason p) (weatherImpact p) (qualityRating p)
    (inspectionsPassed p) (safetyIncidents p).

Definition set_currentPhase (p : ConstructionProject) (v : nat) : ConstructionProject :=
  mkProject (proj_id p) (buildingId p) (blueprint p) (position p) (rotation p)
    (startDate p) (estimatedCompletion p) (actualProgress p)
    (scheduledProgress p) (p_workers p) (maxWorkers p) (dailyCost p)
    (totalCostPaid p) (totalCostEstimated p) (materials p) (phases p) v
    (isDelayed p) (delayReason p) (weatherImpact p) (qualityRating p)
    (inspectionsPassed p) (safetyIncidents p).

Definition set_isDelayed (p : ConstructionProject) (v : bool) : ConstructionProject :=
  mkProject (proj_id p) (buildingId p) (blueprint p) (position p) (rotation p)
    (startDate p) (estimatedCompletion p) (actualProgress p)
    (scheduledProgress p) (p_workers p) (maxWorkers p) (dailyCost p)
    (totalCostPaid p) (totalCostEstimated p) (materials p) (phases p)
    (currentPhase p) v (delayReason p) (weatherImpact p) (qualityRating p)
    (inspectionsPassed p) (safetyIncidents p).

Definition set_delayReason (p : ConstructionProject) (v : option string) : ConstructionProject :=
  mkProject (proj_id p) (buildingId p) (blueprint p) (position p) (rotation p)
    (startDate p) (estimatedCompletion p) (actualProgress p)
    (scheduledProgress p) (p_workers p) (maxWorkers p) (dailyCost p)
    (totalCostPaid p) (totalCostEstimated p) (materials p) (phases p)
    (currentPhase p) (isDelayed p) v (weatherImpact p) (qualityRating p)
    (inspectionsPassed p) (safetyIncidents p).

Definition set_qualityRating (p : ConstructionProject) (v : Q) : ConstructionProject :=
  mkProject (proj_id p) (buildingId p) (blueprint p) (position p) (rotation p)
    (startDate p) (estimatedCompletion p) (actualProgress p)
    (scheduledProgress p) (p_workers p) (maxWorkers p) (dailyCost p)
    (totalCostPaid p) (totalCostEstimated p) (materials p) (phases p)
    (currentPhase p) (isDelayed p) (delayReason p) (weatherImpact p) v
    (inspectionsPassed p) (safetyIncidents p).

Definition set_inspectionsPassed (p : ConstructionProject) (v : nat) : ConstructionProject :=
  mkProject (proj_id p) (buildingId p) (blueprint p) (position p) (rotation p)
    (startDate p) (estimatedCompletion p) (actualProgress p)
    (scheduledProgress p) (p_workers p) (maxWorkers p) (dailyCost p)
    (totalCostPaid p) (totalCostEstimated p) (materials p) (phases p)
    (currentPhase p) (isDelayed p) (delayReason p) (weatherImpact p)
    (qualityRating p) v (safetyIncidents p).

Definition set_safetyIncidents (p : ConstructionProject) (v : nat) : ConstructionProject :=
  mkProject (proj_id p) (buildingId p) (blueprint p) (position p) (rotation p)
    (startDate p) (estimatedCompletion p) (actualProgress p)
    (scheduledProgress p) (p_workers p) (maxWorkers p) (dailyCost p)
    (totalCostPaid p) (totalCostEstimated p) (materials p) (phases p)
    (currentPhase p) (isDelayed p) (delayReason p) (weatherImpact p)
    (qualityRating p) (inspectionsPassed p) v.

Record ConstructionSystem : Type := mkConstruction {
  heap : nat -> ConstructionProject;
  nextRef : nat;
  projects : gmap string nat;
  workers : list ConstructionWorker;
  materialPrices : gmap string Q;
  completedProjects : list nat;
  laborCostMultiplier : Q;
  materialCostMultiplier : Q;
  weatherConditions : Q;
  economicConditions : Q;
  oracle : Oracle
}.

Definition with_heap (p : ConstructionSystem) (v : nat -> ConstructionProject) : ConstructionSystem :=
  mkConstruction v (nextRef p) (projects p) (workers p) (materialPrices p)
    (completedProjects p) (laborCostMultiplier p) (materialCostMultiplier p)
    (weatherConditions p) (economicConditions p) (oracle p).

Definition with_nextRef (p : ConstructionSystem) (v : nat) : ConstructionSystem :=
  mkConstruction (heap p) v (projects p) (workers p) (materialPrices p)
    (completedProjects p) (laborCostMultiplier p) (materialCostMultiplier p)
    (weatherConditions p) (economicConditions p) (oracle p).

Definition with_projects (p : ConstructionSystem) (v : gmap string nat) : ConstructionSystem :=
  mkConstruction (heap p) (nextRef p) v (workers p) (materialPrices p)
    (completedProjects p) (laborCostMultiplier p) (materialCostMultiplier p)
    (weatherConditions p) (economicConditions p) (oracle p).

Definition with_workers (p : ConstructionSystem) (v : list ConstructionWorker) : ConstructionSystem :=
  mkConstruction (heap p) (nextRef p) (projects p) v (materialPrices p)
    (completedProjects p) (laborCostMultiplier p) (materialCostMultiplier p)
    (weatherConditions p) (economicConditions p) (oracle p).

Definition with_completedProjects (p : ConstructionSystem) (v : list nat) : ConstructionSystem :=
  mkConstruction (heap p) (nextRef p) (projects p) (workers p)
    (materialPrices p) v (laborCostMultiplier p) (materialCostMultiplier p)
    (weatherConditions p) (economicConditions p) (oracle p).

Definition with_weatherConditions (p : ConstructionSystem) (v : Q) : ConstructionSystem :=
  mkConstruction (heap p) (nextRef p) (projects p) (workers p)
    (materialPrices p) (completedProjects p) (laborCostMultiplier p)
    (materialCostMultiplier p) v (economicConditions p) (oracle p).

Definition with_economicConditions (p : ConstructionSystem) (v : Q) : ConstructionSystem :=
  mkConstruction (heap p) (nextRef p) (projects p) (workers p)
    (materialPrices p) (completedProjects p) (laborCostMultiplier p)
    (materialCostMultiplier p) (weatherConditions p) v (oracle p).

Definition with_oracle (p : ConstructionSystem) (v : Oracle) : ConstructionSystem :=
  mkConstruction (heap p) (nextRef p) (projects p) (workers p)
    (materialPrices p) (completedProjects p) (laborCostMultiplier p)
    (materialCostMultiplier p) (weatherConditions p) (economicConditions p) v.

Definition b_set_status (p : Building) (v : BuildingStatus) : Building :=
  mkBuilding (b_id p) (b_position p) (zoneType p) (wealthLevel p) (level p) v
    (constructionProgress p) (capacity p) (property_value p).

Definition b_set_constructionProgress (p : Building) (v : Q) : Building :=
  mkBuilding (b_id p) (b_position p) (zoneType p) (wealthLevel p) (level p)
    (status p) v (capacity p) (property_value p).

Definition b_set_property_value (p : Building) (v : Q) : Building :=
  mkBuilding (b_id p) (b_position p) (zoneType p) (wealthLevel p) (level p)
    (status p) (constructionProgress p) (capacity p) v.

(** Milliseconds per day, [24 * 60 * 60 * 1000]. *)
Definition msPerDay : Q := 24 * 60 * 60 * 1000.

(** A mutation of the project object at address [r]. *)
Definition upd (r : nat) (f : ConstructionProject -> ConstructionProject)
  (s : ConstructionSystem) : ConstructionSystem :=
  with_heap s (fun r' => if Nat.eqb r' r then f (heap s r') else heap s r').

(** [getProjectWorkerEfficiency]. *)
Definition getProjectWorkerEfficiency (s : ConstructionSystem)
  (projectId : string) : Q :=
  let projectWorkers :=
    List.filter (fun w => bool_decide (assignedProjectId w = Some projectId))
      (workers s) in
  match projectWorkers with
  | [] => 1 # 10
  | _ =>
      fold_left (fun sum w => sum + efficiency w) projectWorkers 0
      / ofNat (List.length projectWorkers)
  end.

(** [project.materials.reduce((sum, m) => sum + m.quality, 0)
     / project.materials.length]. *)
Definition averageMaterialQuality (project : ConstructionProject) : Q :=
  fold_left (fun sum m => sum + m_quality m) (materials project) 0
  / ofNat (List.length (materials project)).

(** [calculateProgressRate]. *)
Definition calculateProgressRate (s : ConstructionSystem)
  (project : ConstructionProject) : Q :=
  let baseRate := 1 / num_or (constructionTime (blueprint project)) 30 in
  let baseRate := baseRate * getProjectWorkerEfficiency s (proj_id project) in
  let baseRate := baseRate * weatherConditions s in
  let baseRate := baseRate * averageMaterialQuality project in
  baseRate * economicConditions s.

(** [checkMaterialAvailability]: [every] stops at the first required type
    that fails; [Date.now()] is read for each material that is found and has
    a delivery date. *)
Fixpoint checkMaterialAvailability (mats : list ConstructionMaterial)
  (req : list string) (o : Oracle) : bool * Oracle :=
  match req with
  | [] => (true, o)
  | materialType :: rest =>
      match List.find (fun m => String.eqb (m_type m) materialType) mats with
      | None => (false, o)
      | Some material =>
          match deliveryDate material with
          | None => (false, o)
          | Some d =>
              if Qeq_bool d 0 then (false, o)
              else
                let (now, o1) := Date_now o in
                if Qleb d now
                   && Qgeb (delivered material) (required material * (1 # 2))
                then checkMaterialAvailability mats rest o1
                else (false, o1)
          end
      end
  end.

(** The worker filter of [assignWorkers]. *)
Definition workerMatches (phase : ConstructionPhase) (w : ConstructionWorker)
  : bool :=
  availability w
  && (String.eqb (specialization w) "general"
      || existsb (fun material =>
                    includes (specialization w) material
                    || includes material (specialization w))
           (requiredMaterials phase)).

(** The length of [a.slice(0, n)] for an array of length [len]. *)
Definition sliceCount (n : Z) (len : nat) : nat :=
  if (n <? 0)%Z then Z.to_nat (Z.max 0 (Z.of_nat len + n))
  else Nat.min (Z.to_nat n) len.

(** The first [k] workers that pass the filter are assigned. *)
Fixpoint assignFirst (k : nat) (phase : ConstructionPhase) (projectId : string)
  (ws : list ConstructionWorker) : list ConstructionWorker :=
  match k, ws with
  | O, _ => ws
  | _, [] => []
  | S k', w :: rest =>
      if workerMatches phase w then
        mkWorker (w_id w) (w_name w) (skillLevel w) (specialization w)
          (efficiency w) (salary w) (Some projectId) false
        :: assignFirst k' phase projectId rest
      else w :: assignFirst k phase projectId rest
  end.

(** [assignWorkers]. *)
Definition assignWorkers (projectId : string) (s : ConstructionSystem)
  : result ConstructionSystem :=
  match projects s !! projectId with
  | None => Ok s
  | Some r =>
      let project := heap s r in
      match nth_error (phases project) (currentPhase project) with
      | None => Throw
      | Some phase =>
          let requiredWorkers' :=
            Z.min (requiredWorkers phase) (maxWorkers project) in
          let availableWorkers := List.filter (workerMatches phase) (workers s) in
          let assigned := sliceCount requiredWorkers' (List.length availableWorkers) in
          let s := with_workers s (assignFirst assigned phase projectId (workers s)) in
          Ok (upd r (fun p => set_p_workers p (ofNat assigned)) s)
      end
  end.

(** The [materials.forEach] of [orderMaterials]. *)
Fixpoint orderLoop (phase : ConstructionPhase) (ms : list ConstructionMaterial)
  (o : Oracle) : list ConstructionMaterial * Oracle :=
  match ms with
  | [] => ([], o)
  | material :: rest =>
      if existsb (String.eqb (m_type material)) (requiredMaterials phase)
         && Qltb (delivered material) (required material)
      then
        let (r, o1) := Math_random o in
        let deliveryTime := 2 + r * 3 in
        let (now, o2) := Date_now o1 in
        let (rest', o3) := orderLoop phase rest o2 in
        (m_set_deliveryDate material (Some (now + deliveryTime * msPerDay))
         :: rest', o3)
      else
        let (rest', o3) := orderLoop phase rest o in
        (material :: rest', o3)
  end.

(** [orderMaterials]. *)
Definition orderMaterials (projectId : string) (s : ConstructionSystem)
  : result ConstructionSystem :=
  match projects s !! projectId with
  | None => Ok s
  | Some r =>
      let project := heap s r in
      match nth_error (phases project) (currentPhase project) with
      | None => Throw
      | Some phase =>
          let (ms, o) := orderLoop phase (materials project) (oracle s) in
          Ok (with_oracle (upd r (fun p => set_materials p ms) s) o)
      end
  end.

(** [performQualityInspection]. *)
Definition performQualityInspection (s : ConstructionSystem)
  (project : ConstructionProject) : Q :=
  let workerSkill := getProjectWorkerEfficiency s (proj_id project) in
  let materialQuality := averageMaterialQuality project in
  let timePerformance :=
    if Qgeb (actualProgress project) (scheduledProgress project)
    then 1 else 8 # 10 in
  (workerSkill + materialQuality + timePerformance) / 3.

Definition completePhaseObject (now : Q) (project : ConstructionProject)
  (phase : ConstructionPhase) : ConstructionPhase :=
  mkPhase (ph_name phase) (description phase) (duration phase)
    (startProgress phase) (endProgress phase) (requiredMaterials phase)
    (requiredWorkers phase) true (Some (now - startDate project))
    (qualityCheck phase).

(** The quality check of [completePhase]. *)
Definition inspectPhase (r : nat) (s : ConstructionSystem) : ConstructionSystem :=
  let qualityScore := performQualityInspection s (heap s r) in
  let s :=
    upd r (fun p => set_qualityRating p ((qualityRating p + qualityScore) / 2))
      s in
  if Qgtb qualityScore (8 # 10)
  then upd r (fun p => set_inspectionsPassed p (S (inspectionsPassed p))) s
  else s.

(** [completePhase]. *)
Definition completePhase (r : nat) (phaseIndex : nat) (s : ConstructionSystem)
  : result ConstructionSystem :=
  match nth_error (phases (heap s r)) phaseIndex with
  | None => Throw
  | Some phase =>
      let (now, o) := Date_now (oracle s) in
      let s := with_oracle s o in
      let s :=
        upd r (fun p =>
                 set_phases p
                   (<[phaseIndex := completePhaseObject now p phase]> (phases p)))
          s in
      let s := if qualityCheck phase then inspectPhase r s else s in
      if (Z.of_nat phaseIndex <? Z.of_nat (List.length (phases (heap s r))) - 1)%Z
      then
        let s := upd r (fun p => set_currentPhase p (S (currentPhase p))) s in
        let* s := assignWorkers (proj_id (heap s r)) s in
        orderMaterials (proj_id (heap s r)) s
      else Ok s
  end.

Definition releaseWorker (projectId : string) (w : ConstructionWorker)
  : ConstructionWorker :=
  if bool_decide (assignedProjectId w = Some projectId) then
    mkWorker (w_id w) (w_name w) (skillLevel w) (specialization w)
      (efficiency w) (salary w) None true
  else w.

(** [completeProject]. *)
Definition completeProject (r : nat) (building : Building)
  (s : ConstructionSystem) : Building * ConstructionSystem :=
  let project := heap s r in
  let s := with_workers s (map (releaseWorker (proj_id project)) (workers s)) in
  let building := b_set_status building operational in
  let building := b_set_constructionProgress building 1 in
  let building :=
    if Qgtb (qualityRating project) (9 # 10) then
      b_set_property_value building (property_value building * (11 # 10))
    else if Qltb (qualityRating project) (6 # 10) then
      b_set_property_value building (property_value building * (9 # 10))
    else building in
  let s := with_completedProjects s (completedProjects s ++ [r]) in
  (building, with_projects s (delete (proj_id project) (projects s))).

(** [updateQuality]. *)
Definition updateQuality (r : nat) (s : ConstructionSystem) : ConstructionSystem :=
  let workerQuality := getProjectWorkerEfficiency s (proj_id (heap s r)) in
  let s :=
    if Qltb (weatherConditions s) (7 # 10)
    then upd r (fun p => set_qualityRating p (qualityRating p * (998 # 1000))) s
    else s in
  let s :=
    if (0 <? safetyIncidents (heap s r))%nat then
      upd r (fun p =>
               set_qualityRating p
                 (qualityRating p
                  * Qpower (95 # 100) (Z.of_nat (safetyIncidents p)))) s
    else s in
  if Qgtb workerQuality (8 # 10)
  then upd r (fun p =>
                set_qualityRating p (Math_min 1 (qualityRating p * (1001 # 1000))))
         s
  else s.

Definition events : list string :=
  ["weather_delay"; "material_delay"; "equipment_breakdown"; "worker_injury";
   "permit_delay"; "design_change"]%string.

(** [a[i]] for a number [i] that is an integer. *)
Definition index {A : Type} (l : list A) (i : Z) : option A :=
  if (i <? 0)%Z then None else nth_error l (Z.to_nat i).

(** [s.replace('_', ' ')]: the first underscore becomes a space. *)
Fixpoint replaceUnderscore (s : string) : string :=
  match s with
  | EmptyString => EmptyString
  | String c rest =>
      if Ascii.eqb c "_"%char then String " "%char rest
      else String c (replaceUnderscore rest)
  end.

Definition delay (reason : string) (p : ConstructionProject)
  : ConstructionProject :=
  set_delayReason (set_isDelayed p true) (Some reason).

(** [processConstructionEvent]; [None] is an [undefined] event type. *)
Definition processConstructionEvent (r : nat) (eventType : option string)
  (s : ConstructionSystem) : result ConstructionSystem :=
  match eventType with
  | None => Throw
  | Some ev =>
      if String.eqb ev "weather_delay" then
        let s :=
          with_weatherConditions s
            (Math_max (3 # 10) (weatherConditions s - (2 # 10))) in
        Ok (upd r (delay "Weather conditions") s)
      else if String.eqb ev "material_delay" then
        let (rnd, o) := Math_random (oracle s) in
        let s := with_oracle s o in
        let project := heap s r in
        let i := Math_floor (rnd * ofNat (List.length (materials project))) in
        match index (materials project) i with
        | None => Throw
        | Some randomMaterial =>
            let ms :=
              match deliveryDate randomMaterial with
              | Some d =>
                  if Qeq_bool d 0 then materials project
                  else <[Z.to_nat i :=
                           m_set_deliveryDate randomMaterial
                             (Some (d + 2 * msPerDay))]> (materials project)
              | None => materials project
              end in
            Ok (upd r (fun p =>
                         delay (m_type randomMaterial ++ " delivery delay")
                           (set_materials p ms)) s)
        end
      else if String.eqb ev "worker_injury" then
        Ok (upd r (fun p =>
                     set_qualityRating
                       (set_p_workers
                          (set_safetyIncidents p (S (safetyIncidents p)))
                          (Math_max 1 (p_workers p - 1)))
                       (qualityRating p * (95 # 100))) s)
      else if String.eqb ev "equipment_breakdown" then
        Ok (upd r (fun p => set_dailyCost p (dailyCost p * (11 # 10))) s)
      else Ok (upd r (delay (replaceUnderscore ev)) s)
  end.

(** [processRandomEvents]. *)
Definition processRandomEvents (r : nat) (deltaTime : Q)
  (s : ConstructionSystem) : result ConstructionSystem :=
  let eventChance := deltaTime * (1 # 1000) in
  let (rnd, o) := Math_random (oracle s) in
  let s := with_oracle s o in
  if Qltb rnd eventChance then
    let (rnd2, o2) := Math_random (oracle s) in
    let s := with_oracle s o2 in
    processConstructionEvent r
      (index events (Math_floor (rnd2 * ofNat (List.length events)))) s
  else Ok s.

(** [updateConstruction]. *)
Definition updateConstruction (building : Building) (deltaTime : Q)
  (s : ConstructionSystem) : result (Building * ConstructionSystem) :=
  match projects s !! b_id building with
  | None => Ok (building, s)
  | Some r =>
      let (currentTime, o) := Date_now (oracle s) in
      let s := with_oracle s o in
      let s :=
        upd r (fun p =>
                 let elapsedTime := currentTime - startDate p in
                 let totalDuration := estimatedCompletion p - startDate p in
                 set_scheduledProgress p (Math_min 1 (elapsedTime / totalDuration)))
          s in
      let phaseIndex := currentPhase (heap s r) in
      match nth_error (phases (heap s r)) phaseIndex with
      | None => Throw
      | Some currentPhase0 =>
          let (materialsAvailable, o) :=
            checkMaterialAvailability (materials (heap s r))
              (requiredMaterials currentPhase0) (oracle s) in
          let s := with_oracle s o in
          if negb materialsAvailable then
            let s := upd r (delay "Material shortage") s in
            Ok (b_set_constructionProgress building (actualProgress (heap s r)), s)
          else
            let progressRate := calculateProgressRate s (heap s r) in
            let progressIncrement := progressRate * deltaTime / (24 * 60 * 60) in
            let s :=
              upd r (fun p =>
                       set_actualProgress p
                         (Math_min 1 (actualProgress p + progressIncrement))) s in
            let building :=
              b_set_constructionProgress building (actualProgress (heap s r)) in
            let s :=
              upd r (fun p =>
                       set_totalCostPaid p
                         (totalCostPaid p
                          + dailyCost p * deltaTime / (24 * 60 * 60))) s in
            let* s :=
              if Qgeb (actualProgress (heap s r)) (endProgress currentPhase0)
                 && negb (isCompleted currentPhase0)
              then completePhase r phaseIndex s
              else Ok s in
            let (building, s) :=
              if Qgeb (actualProgress (heap s r)) 1
              then completeProject r building s
              else (building, s) in
            let s := updateQuality r s in
            let* s := processRandomEvents r deltaTime s in
            Ok (building, s)
      end
  end.

(** [cancelProject]. *)
Definition cancelProject (projectId : string) (s : ConstructionSystem)
  : bool * ConstructionSystem :=
  match projects s !! projectId with
  | None => (false, s)
  | Some r =>
      let s := with_workers s (map (releaseWorker projectId) (workers s)) in
      (true, with_projects s (delete projectId (projects s)))
  end.

(** [generateConstructionPhases]. *)
Definition generateConstructionPhases (bp : BuildingBlueprint)
  : list ConstructionPhase :=
  [mkPhase "Foundation" "Site preparation and foundation work"
     (constructionTime bp * (2 # 10)) 0 (2 # 10) ["concrete"; "steel"] 4 false
     None true;
   mkPhase "Structure" "Main structural construction"
     (constructionTime bp * (4 # 10)) (2 # 10) (6 # 10)
     ["steel"; "concrete"; "lumber"] 8 false None true;
   mkPhase "Systems" "Electrical, plumbing, and HVAC installation"
     (constructionTime bp * (25 # 100)) (6 # 10) (85 # 100)
     ["electrical"; "plumbing"] 6 false None true;
   mkPhase "Finishing" "Interior and exterior finishing work"
     (constructionTime bp * (15 # 100)) (85 # 100) 1
     ["flooring"; "roofing"; "glass"] 6 false None true]%string.

(** [type.charAt(0).toUpperCase() + type.slice(1)] for ASCII letters. *)
Definition capitalize (s : string) : string :=
  match s with
  | EmptyString => EmptyString
  | String c rest =>
      let n := nat_of_ascii c in
      String (if (97 <=? n)%nat && (n <=? 122)%nat
              then ascii_of_nat (n - 32) else c) rest
  end.

(** The [materialRequirements] object of [calculateMaterialRequirements], in
    the order of its keys. *)
Definition materialRequirements (bp : BuildingBlueprint) : list (string * Q) :=
  let w := bs_width (size bp) in
  let d := bs_depth (size bp) in
  let buildingSize := w * d * bs_height (size bp) in
  [("concrete", buildingSize * (8 # 10));
   ("steel", buildingSize * (3 # 10));
   ("lumber", buildingSize * (4 # 10));
   ("brick", buildingSize * (2 # 10));
   ("glass", buildingSize * (1 # 10));
   ("electrical", ofZ (Z.max 1 (Math_floor (buildingSize / 100))));
   ("plumbing", ofZ (Z.max 1 (Math_floor (buildingSize / 150))));
   ("roofing", w * d);
   ("insulation", buildingSize * (2 # 10));
   ("flooring", w * d * 2)]%string.

(** The [Object.entries(...).forEach] of [calculateMaterialRequirements]. *)
Fixpoint materialsFor (s : ConstructionSystem) (reqs : list (string * Q))
  (o : Oracle) : list ConstructionMaterial * Oracle :=
  match reqs with
  | [] => ([], o)
  | (type, req) :: rest =>
      let basePrice := opt_or (materialPrices s !! type) 100 in
      let cost := basePrice * req * materialCostMultiplier s in
      let (rnd, o1) := Math_random o in
      let (rest', o2) := materialsFor s rest o1 in
      (mkMaterial type req 0 cost (capitalize type ++ " Supplier") None
         ((8 # 10) + rnd * (2 # 10)) :: rest', o2)
  end.

(** [estimateTotalCost]. *)
Definition estimateTotalCost (s : ConstructionSystem) (bp : BuildingBlueprint)
  (ms : list ConstructionMaterial) : Q :=
  let totalCost := bp_cost bp in
  let materialCost := fold_left (fun sum m => sum + m_cost m) ms 0 in
  let totalCost := totalCost + materialCost in
  let laborCost := totalCost * (4 # 10) * laborCostMultiplier s in
  let totalCost := totalCost + laborCost in
  let overhead := totalCost * (15 # 100) in
  let totalCost := totalCost + overhead in
  ofZ (Math_round totalCost).

(** [estimateConstructionTime]. *)
Definition estimateConstructionTime (s : ConstructionSystem)
  (phs : list ConstructionPhase) : Q :=
  let baseDuration := fold_left (fun sum ph => sum + duration ph) phs 0 in
  let adjustedDuration :=
    baseDuration / (weatherConditions s * economicConditions s) in
  adjustedDuration * 24 * 60 * 60 * 1000.

(** [calculateOptimalWorkerCount]. *)
Definition calculateOptimalWorkerCount (bp : BuildingBlueprint) : Z :=
  let buildingComplexity :=
    bs_width (size bp) * bs_depth (size bp) * bs_height (size bp) / 100 in
  Z.max 2 (Z.min 12 (Math_floor (buildingComplexity / 2) + 2)).

Section Identifiers.
(** How the source renders identifiers from numbers:
    [`construction_${Date.now()}_${Math.random().toString(36).substr(2, 9)}`],
    [`worker_${Date.now()}_${i}`] and [`Worker ${i + 1}`]. *)
Variable projectIdOf : Q -> Q -> string.
Variable workerIdOf : Q -> nat -> string.
Variable workerNameOf : nat -> string.

(** [startConstruction]. *)
Definition startConstruction (building : Building) (bp : BuildingBlueprint)
  (pos : Vector3) (rot : Q) (s : ConstructionSystem)
  : result (string * ConstructionSystem) :=
  let (t0, o) := Date_now (oracle s) in
  let (rnd, o) := Math_random o in
  let projectId := projectIdOf t0 rnd in
  let phs := generateConstructionPhases bp in
  let (ms, o) := materialsFor s (materialRequirements bp) o in
  let totalCostEstimated' := estimateTotalCost s bp ms in
  let estimatedDuration := estimateConstructionTime s phs in
  let (t1, o) := Date_now o in
  let (t2, o) := Date_now o in
  let project :=
    mkProject projectId (b_id building) bp pos rot t1 (t2 + estimatedDuration)
      0 0 0 (calculateOptimalWorkerCount bp)
      (totalCostEstimated' / (estimatedDuration / msPerDay)) 0
      totalCostEstimated' ms phs 0 false None 1 1 0 0 in
  let r := nextRef s in
  let s := with_oracle s o in
  let s := with_nextRef s (S r) in
  let s := with_heap s (fun r' => if Nat.eqb r' r then project else heap s r') in
  let s := with_projects s (<[projectId := r]> (projects s)) in
  let* s := assignWorkers projectId s in
  let* s := orderMaterials projectId s in
  Ok (projectId, s).

Definition specializations : list string :=
  ["general"; "electrical"; "plumbing"; "masonry"; "carpentry"; "roofing";
   "hvac"; "landscaping"; "heavy_machinery"]%string.

(** The [for] loop of [generateInitialWorkers]: [n] workers are still to be
    made and [i] is the loop index.  An index out of the table (which
    [Math.random() < 1] excludes) leaves the specialization undefined; it is
    the empty string here. *)
Fixpoint generateWorkers (n i : nat) (o : Oracle)
  : list ConstructionWorker * Oracle :=
  match n with
  | O => ([], o)
  | S n' =>
      let (r1, o) := Math_random o in
      let specialization' :=
        match index specializations
                (Math_floor (r1 * ofNat (List.length specializations))) with
        | Some sp => sp
        | None => ""%string
        end in
      let (r2, o) := Math_random o in
      let skillLevel' := 1 + r2 * 9 in
      let (t, o) := Date_now o in
      let (r3, o) := Math_random o in
      let worker :=
        mkWorker (workerIdOf t i) (workerNameOf (i + 1)) skillLevel'
          specialization' ((6 # 10) + (skillLevel' / 10) * (4 # 10))
          (25000 + skillLevel' * 5000 + r3 * 5000) None true in
      let (rest, o) := generateWorkers n' (S i) o in
      (worker :: rest, o)
  end.

(** The constructor with [initializeSystem] and [generateInitialWorkers]. *)
Definition newConstructionSystem (o : Oracle) : ConstructionSystem :=
  let prices : gmap string Q :=
    list_to_map
      [("concrete", 150); ("steel", 800); ("lumber", 400); ("brick", 300);
       ("glass", 200); ("electrical", 1000); ("plumbing", 600);
       ("roofing", 250); ("insulation", 180); ("flooring", 350)]%string in
  let (r0, o) := Math_random o in
  let workerCount := (20 + Z.to_nat (Math_floor (r0 * 10)))%nat in
  let (ws, o) := generateWorkers workerCount 0 o in
  mkConstruction (fun _ => mkProject "" "" (mkBlueprint "" (mkSize 0 0 0) 0 0)
                             (mkV3 0 0 0) 0 0 0 0 0 0 0 0 0 0 [] [] 0 false
                             None 0 0 0 0)
    0 ∅ ws prices [] 1 1 1 1 o.

End Identifiers.

(** *** A project short of materials is delayed *)

(** The material of type [t] is short: less than half delivered, or its
    delivery date lies after every clock value in [reads]. *)
Definition shortOf (mats : list ConstructionMaterial) (t : string)
  (reads : Q -> Prop) : Prop :=
  exists m,
    List.find (fun m => String.eqb (m_type m) t) mats = Some m
    /\ (delivered m < required m * (1 # 2)
        \/ exists d, deliveryDate m = Some d /\ forall now, reads now -> now < d).

Lemma checkMaterialAvailability_short (mats : list ConstructionMaterial)
  (t : string) (req : list string) :
  forall o,
    t ∈ req ->
    shortOf mats t
      (fun now => exists n, (now_pos o <= n < now_pos o + List.length req)%nat
                            /\ now = now_reads o n) ->
    fst (checkMaterialAvailability mats req o) = false.
Proof.
  induction req as [| t0 rest IH]; intros o Hin Hshort.
  - apply elem_of_nil in Hin. contradiction.
  - simpl.
    destruct (List.find (fun m => String.eqb (m_type m) t0) mats) as [m0 |] eqn:Hf;
      [| reflexivity].
    destruct (deliveryDate m0) as [d0 |] eqn:Hd0; [| reflexivity].
    destruct (Qeq_bool d0 0); [reflexivity |].
    destruct (Qleb d0 (now_reads o (now_pos o))
              && Qgeb (delivered m0) (required m0 * (1 # 2))) eqn:Hpass;
      [| reflexivity].
    apply andb_true_iff in Hpass. destruct Hpass as [Hdate Hdel].
    apply Qleb_true in Hdate. unfold Qgeb in Hdel. apply Qleb_true in Hdel.
    apply IH.
    + apply elem_of_cons in Hin. destruct Hin as [-> | Hin]; [| exact Hin].
      exfalso. destruct Hshort as [m [Hm [Hlow | [d [Hd Hfuture]]]]].
      * rewrite Hf in Hm. inversion Hm; subst m. lra.
      * rewrite Hf in Hm. inversion Hm; subst m.
        rewrite Hd0 in Hd. inversion Hd; subst d.
        assert (now_reads o (now_pos o) < d0).
        { apply Hfuture. exists (now_pos o). split; [simpl; lia | reflexivity]. }
        lra.
    + destruct Hshort as [m [Hm Hcase]]. exists m. split; [exact Hm |].
      destruct Hcase as [Hlow | [d [Hd Hfuture]]]; [left; exact Hlow |].
      right. exists d. split; [exact Hd |].
      intros now [n [Hn ->]]. apply Hfuture. exists n.
      split; [simpl in *; lia | reflexivity].
Qed.

(** C3.  When [updateConstruction] finds the project of the building and
    some material type required by the current phase is less than half
    delivered, or has a delivery date that none of the clock readings of the
    material check has reached, the call returns with the project marked
    delayed; its progress, its phases and its current phase are what they
    were, the building shows that same progress, and the project stays
    active. *)
Theorem material_shortage_delays (building : Building) (deltaTime : Q)
  (s : ConstructionSystem) (r : nat) (phase : ConstructionPhase) (t : string) :
  projects s !! b_id building = Some r ->
  nth_error (phases (heap s r)) (currentPhase (heap s r)) = Some phase ->
  t ∈ requiredMaterials phase ->
  shortOf (materials (heap s r)) t
    (fun now =>
       exists n,
         (now_pos (oracle s) < n
          <= now_pos (oracle s) + List.length (requiredMaterials phase))%nat
         /\ now = now_reads (oracle s) n) ->
  exists b' s',
    updateConstruction building deltaTime s = Ok (b', s')
    /\ isDelayed (heap s' r) = true
    /\ delayReason (heap s' r) = Some "Material shortage"%string
    /\ actualProgress (heap s' r) = actualProgress (heap s r)
    /\ phases (heap s' r) = phases (heap s r)
    /\ currentPhase (heap s' r) = currentPhase (heap s r)
    /\ constructionProgress b' = actualProgress (heap s r)
    /\ status b' = status building
    /\ projects s' = projects s
    /\ workers s' = workers s.
Proof.
  intros Hproj Hphase Hin Hshort.
  unfold updateConstruction. rewrite Hproj.
  unfold Date_now. cbn [fst snd].
  set (s1 := upd r _ (with_oracle s _)).
  assert (Hh1 : phases (heap s1 r) = phases (heap s r)
                /\ currentPhase (heap s1 r) = currentPhase (heap s r)
                /\ materials (heap s1 r) = materials (heap s r)
                /\ actualProgress (heap s1 r) = actualProgress (heap s r)).
  { unfold s1, upd. cbn [heap with_heap with_oracle]. rewrite Nat.eqb_refl.
    repeat split. }
  destruct Hh1 as [Hp1 [Hc1 [Hm1 Ha1]]].
  rewrite Hc1, Hp1, Hphase, Hm1.
  pose proof (checkMaterialAvailability_short (materials (heap s r)) t
                (requiredMaterials phase) (oracle s1) Hin) as Hchk.
  destruct (checkMaterialAvailability (materials (heap s r))
              (requiredMaterials phase) (oracle s1)) as [avail o1].
  cbn [fst] in Hchk. rewrite Hchk.
  - cbn [negb]. eexists. eexists. split; [reflexivity |].
    unfold upd. cbn [heap with_heap with_oracle projects workers].
    rewrite Nat.eqb_refl.
    cbn [isDelayed delayReason actualProgress phases currentPhase delay
         set_delayReason set_isDelayed constructionProgress
         b_set_constructionProgress status].
    unfold s1, upd. cbn [heap with_heap with_oracle projects workers].
    rewrite Nat.eqb_refl. repeat split.
  - destruct Hshort as [m [Hm Hcase]]. exists m. split; [exact Hm |].
    destruct Hcase as [Hlow | [d [Hd Hfuture]]]; [left; exact Hlow |].
    right. exists d. split; [exact Hd |].
    intros now [n [Hn ->]]. apply Hfuture. exists n.
    unfold s1, upd in Hn. cbn [oracle with_heap with_oracle now_pos] in Hn.
    split; [lia | reflexivity].
Qed.

(** *** What the steps of an update keep *)

(** The parts of a project object that no step of [updateConstruction]
    changes, and the bound on the phase index that every step keeps. *)
Record stable (p p' : ConstructionProject) : Prop := mkStable {
  st_id : proj_id p' = proj_id p;
  st_blueprint : blueprint p' = blueprint p;
  st_phases : List.length (phases p') = List.length (phases p);
  st_current :
    (currentPhase p < List.length (phases p))%nat ->
    (currentPhase p' < List.length (phases p'))%nat;
  st_quality : map m_quality (materials p') = map m_quality (materials p)
}.

(** The parts of the system that the steps keep. *)
Record frame (s s' : ConstructionSystem) : Prop := mkFrame {
  fr_heap : forall r, stable (heap s r) (heap s' r);
  fr_projects : projects s' = projects s;
  fr_completed : completedProjects s' = completedProjects s;
  fr_efficiency : map efficiency (workers s') = map efficiency (workers s);
  fr_economic : economicConditions s' = economicConditions s;
  fr_weather : 0 <= weatherConditions s -> 0 <= weatherConditions s';
  fr_reads : now_reads (oracle s') = now_reads (oracle s);
  fr_draws : rand_draws (oracle s') = rand_draws (oracle s);
  fr_next : nextRef s' = nextRef s
}.

Lemma stable_refl (p : ConstructionProject) : stable p p.
Proof. constructor; auto. Qed.

Lemma stable_trans (p q r : ConstructionProject) :
  stable p q -> stable q r -> stable p r.
Proof.
  intros [A1 A2 A3 A4 A5] [B1 B2 B3 B4 B5].
  constructor; try congruence. auto.
Qed.

Lemma frame_refl (s : ConstructionSystem) : frame s s.
Proof. constructor; auto using stable_refl. Qed.

Lemma frame_trans (s1 s2 s3 : ConstructionSystem) :
  frame s1 s2 -> frame s2 s3 -> frame s1 s3.
Proof.
  intros [A1 A2 A3 A4 A5 A6 A7 A8 A9] [B1 B2 B3 B4 B5 B6 B7 B8 B9].
  constructor; try congruence; eauto using stable_trans.
Qed.

Lemma heap_upd (r r' : nat) (f : ConstructionProject -> ConstructionProject)
  (s : ConstructionSystem) :
  heap (upd r f s) r' = if Nat.eqb r' r then f (heap s r') else heap s r'.
Proof. reflexivity. Qed.

Lemma heap_upd_same (r : nat) (f : ConstructionProject -> ConstructionProject)
  (s : ConstructionSystem) :
  heap (upd r f s) r = f (heap s r).
Proof. rewrite heap_upd, Nat.eqb_refl. reflexivity. Qed.

Lemma upd_frame (r : nat) (f : ConstructionProject -> ConstructionProject)
  (s : ConstructionSystem) :
  stable (heap s r) (f (heap s r)) -> frame s (upd r f s).
Proof.
  intros Hst. constructor; try reflexivity; [| auto].
  intros r'. rewrite heap_upd. destruct (Nat.eqb_spec r' r) as [-> | Hne].
  - exact Hst.
  - apply stable_refl.
Qed.

Lemma with_oracle_frame (s : ConstructionSystem) (o : Oracle) :
  now_reads o = now_reads (oracle s) -> rand_draws o = rand_draws (oracle s) ->
  frame s (with_oracle s o).
Proof. intros H1 H2. constructor; auto using stable_refl. Qed.

(** How [assignWorkers] for the project [pid] relates a worker before and
    after: untouched, or same person now assigned to [pid]. *)
Definition wrel (pid : string) (w w' : ConstructionWorker) : Prop :=
  efficiency w' = efficiency w
  /\ (w' = w \/ assignedProjectId w' = Some pid).

Lemma assignFirst_wrel (phase : ConstructionPhase) (pid : string)
  (ws : list ConstructionWorker) :
  forall k, Forall2 (wrel pid) ws (assignFirst k phase pid ws).
Proof.
  induction ws as [| w rest IH]; intros k.
  - destruct k; constructor.
  - destruct k as [| k]; simpl.
    + apply Forall2_same_length_lookup_2; [reflexivity |].
      intros i x y Hx Hy. rewrite Hx in Hy. inversion Hy; subst.
      split; [reflexivity | left; reflexivity].
    + destruct (workerMatches phase w).
      * constructor; [| apply IH]. split; [reflexivity | right; reflexivity].
      * constructor; [| apply IH]. split; [reflexivity | left; reflexivity].
Qed.

Lemma wrel_efficiency (pid : string) (ws ws' : list ConstructionWorker) :
  Forall2 (wrel pid) ws ws' -> map efficiency ws' = map efficiency ws.
Proof.
  induction 1 as [| w w' ws ws' [He _] _ IH]; simpl; congruence.
Qed.

Lemma orderLoop_spec (phase : ConstructionPhase)
  (ms : list ConstructionMaterial) :
  forall o,
    let res := orderLoop phase ms o in
    map m_quality (fst res) = map m_quality ms
    /\ now_reads (snd res) = now_reads o
    /\ rand_draws (snd res) = rand_draws o.
Proof.
  induction ms as [| m rest IH]; intros o; simpl.
  - auto.
  - destruct (existsb (String.eqb (m_type m)) (requiredMaterials phase)
              && Qltb (delivered m) (required m)).
    + unfold Math_random, Date_now. cbn [fst snd].
      match goal with
      | |- context [orderLoop phase rest ?o'] =>
          pose proof (IH o') as H; destruct (orderLoop phase rest o') as [rest' o3]
      end.
      cbn [fst snd] in *. destruct H as [H1 [H2 H3]].
      repeat split; [cbn [map]; f_equal; exact H1 | exact H2 | exact H3].
    + pose proof (IH o) as H. destruct (orderLoop phase rest o) as [rest' o3].
      cbn [fst snd] in *. destruct H as [H1 [H2 H3]].
      repeat split; [cbn [map]; f_equal; exact H1 | exact H2 | exact H3].
Qed.

(** [assignWorkers] and [orderMaterials] for an active project with a valid
    phase index do not throw and keep the frame. *)
Lemma assignWorkers_ok (pid : string) (r : nat) (s : ConstructionSystem) :
  projects s !! pid = Some r ->
  (currentPhase (heap s r) < List.length (phases (heap s r)))%nat ->
  exists s',
    assignWorkers pid s = Ok s' /\ frame s s'
    /\ Forall2 (wrel pid) (workers s) (workers s')
    /\ (forall r', actualProgress (heap s' r') = actualProgress (heap s r')).
Proof.
  intros Hp Hc. unfold assignWorkers. rewrite Hp.
  destruct (nth_error (phases (heap s r)) (currentPhase (heap s r)))
    as [phase |] eqn:Hph; [| apply nth_error_None in Hph; lia].
  eexists. split; [reflexivity |].
  match goal with
  | |- context [assignFirst ?k phase pid (workers s)] =>
      pose proof (assignFirst_wrel phase pid (workers s) k) as Hw
  end.
  split; [| split; [exact Hw |]].
  - constructor; cbn [upd with_heap with_workers heap projects completedProjects
                      workers economicConditions weatherConditions oracle];
      try reflexivity; [| apply (wrel_efficiency pid), Hw | auto].
    intros r'. destruct (Nat.eqb r' r); [| apply stable_refl].
    constructor; auto.
  - intros r'. cbn [upd with_heap with_workers heap].
    destruct (Nat.eqb r' r); reflexivity.
Qed.

Lemma orderMaterials_ok (pid : string) (r : nat) (s : ConstructionSystem) :
  projects s !! pid = Some r ->
  (currentPhase (heap s r) < List.length (phases (heap s r)))%nat ->
  exists s',
    orderMaterials pid s = Ok s' /\ frame s s'
    /\ workers s' = workers s
    /\ (forall r', actualProgress (heap s' r') = actualProgress (heap s r')).
Proof.
  intros Hp Hc. unfold orderMaterials. rewrite Hp.
  destruct (nth_error (phases (heap s r)) (currentPhase (heap s r)))
    as [phase |] eqn:Hph; [| apply nth_error_None in Hph; lia].
  pose proof (orderLoop_spec phase (materials (heap s r)) (oracle s)) as Ho.
  destruct (orderLoop phase (materials (heap s r)) (oracle s)) as [ms o].
  cbn [fst snd] in Ho. destruct Ho as [Hq [Hr Hd]].
  eexists. split; [reflexivity |]. split; [| split; [reflexivity |]].
  - constructor; cbn [upd with_heap with_oracle heap projects completedProjects
                      workers economicConditions weatherConditions oracle];
      try reflexivity; try assumption; [| auto].
    intros r'. destruct (Nat.eqb_spec r' r) as [-> | _]; [| apply stable_refl].
    constructor; auto.
  - intros r'. cbn [upd with_heap with_oracle heap].
    destruct (Nat.eqb r' r); reflexivity.
Qed.

(** A step that keeps the frame, the workers and every project's progress. *)
Definition quiet (s s' : ConstructionSystem) : Prop :=
  frame s s' /\ workers s' = workers s
  /\ forall r, actualProgress (heap s' r) = actualProgress (heap s r).

(** A step that keeps the frame and every project's progress, and may
    assign workers to the project [pid]. *)
Definition calm (pid : string) (s s' : ConstructionSystem) : Prop :=
  frame s s' /\ Forall2 (wrel pid) (workers s) (workers s')
  /\ forall r, actualProgress (heap s' r) = actualProgress (heap s r).

Lemma quiet_refl (s : ConstructionSystem) : quiet s s.
Proof. split; [apply frame_refl | split; reflexivity]. Qed.

Lemma quiet_trans (s1 s2 s3 : ConstructionSystem) :
  quiet s1 s2 -> quiet s2 s3 -> quiet s1 s3.
Proof.
  intros [F1 [W1 P1]] [F2 [W2 P2]].
  split; [eapply frame_trans; eassumption |].
  split; [congruence | intros r; rewrite P2; apply P1].
Qed.

Lemma wrel_refl (pid : string) (ws : list ConstructionWorker) :
  Forall2 (wrel pid) ws ws.
Proof.
  induction ws; constructor; [| assumption].
  split; [reflexivity | left; reflexivity].
Qed.

Lemma wrel_trans (pid : string) (a b c : list ConstructionWorker) :
  Forall2 (wrel pid) a b -> Forall2 (wrel pid) b c -> Forall2 (wrel pid) a c.
Proof.
  intros H. revert c. induction H as [| x y a b [E1 C1] _ IH]; intros c Hc.
  - inversion Hc. constructor.
  - inversion Hc as [| y' z b' c' [E2 C2] Hrest]; subst.
    constructor; [| apply IH, Hrest].
    split; [congruence |].
    destruct C2 as [-> | C2]; [exact C1 | right; exact C2].
Qed.

Lemma quiet_calm (pid : string) (s s' : ConstructionSystem) :
  quiet s s' -> calm pid s s'.
Proof.
  intros [F [W P]]. split; [exact F |]. split; [| exact P].
  rewrite W. apply wrel_refl.
Qed.

Lemma calm_trans (pid : string) (s1 s2 s3 : ConstructionSystem) :
  calm pid s1 s2 -> calm pid s2 s3 -> calm pid s1 s3.
Proof.
  intros [F1 [W1 P1]] [F2 [W2 P2]].
  split; [eapply frame_trans; eassumption |].
  split; [eapply wrel_trans; eassumption | intros r; rewrite P2; apply P1].
Qed.

Lemma upd_quiet (r : nat) (f : ConstructionProject -> ConstructionProject)
  (s : ConstructionSystem) :
  stable (heap s r) (f (heap s r)) ->
  actualProgress (f (heap s r)) = actualProgress (heap s r) ->
  quiet s (upd r f s).
Proof.
  intros Hst Hp. split; [apply upd_frame, Hst |]. split; [reflexivity |].
  intros r'. rewrite heap_upd. destruct (Nat.eqb_spec r' r) as [-> | _];
    [exact Hp | reflexivity].
Qed.

Lemma with_oracle_quiet (s : ConstructionSystem) (o : Oracle) :
  now_reads o = now_reads (oracle s) -> rand_draws o = rand_draws (oracle s) ->
  quiet s (with_oracle s o).
Proof.
  intros H1 H2. split; [apply with_oracle_frame; assumption |].
  split; reflexivity.
Qed.

Lemma delay_stable (reason : string) (p : ConstructionProject) :
  stable p (delay reason p).
Proof. constructor; auto. Qed.

Lemma inspectPhase_quiet_at (r : nat) (s : ConstructionSystem) (ci : nat) :
  currentPhase (heap s r) = ci ->
  quiet s (inspectPhase r s) /\ currentPhase (heap (inspectPhase r s) r) = ci.
Proof.
  intros Hci. unfold inspectPhase.
  set (s1 := upd r _ s).
  assert (H1 : quiet s s1)
    by (apply upd_quiet; [constructor; auto | reflexivity]).
  assert (C1 : currentPhase (heap s1 r) = ci)
    by (unfold s1; rewrite heap_upd_same; exact Hci).
  destruct (Qgtb _ _); [| split; assumption].
  split.
  - eapply quiet_trans; [exact H1 |].
    apply upd_quiet; [constructor; auto | reflexivity].
  - rewrite heap_upd_same. exact C1.
Qed.

(** [completePhase] at the current phase of an active project. *)
Lemma completePhase_ok (pid : string) (r : nat) (s : ConstructionSystem) :
  projects s !! pid = Some r ->
  proj_id (heap s r) = pid ->
  (currentPhase (heap s r) < List.length (phases (heap s r)))%nat ->
  exists s',
    completePhase r (currentPhase (heap s r)) s = Ok s' /\ calm pid s s'.
Proof.
  intros Hp Hid Hc. unfold completePhase.
  destruct (nth_error (phases (heap s r)) (currentPhase (heap s r)))
    as [phase |] eqn:Hph; [| apply nth_error_None in Hph; lia].
  unfold Date_now. cbn [fst snd].
  set (ci := currentPhase (heap s r)) in *.
  set (sa := with_oracle s _).
  assert (Ha : quiet s sa) by (apply with_oracle_quiet; reflexivity).
  set (sb := upd r _ sa).
  assert (Hb : quiet sa sb).
  { apply upd_quiet; [| reflexivity].
    constructor; auto. cbn [phases set_phases]. rewrite length_insert.
    reflexivity. cbn [phases set_phases currentPhase]. rewrite length_insert.
    auto. }
  set (sc := if qualityCheck phase then inspectPhase r sb else sb).
  assert (Hcq : quiet sb sc /\ currentPhase (heap sc r) = ci).
  { unfold sc. destruct (qualityCheck phase).
    - apply inspectPhase_quiet_at.
      unfold sb. rewrite heap_upd_same. reflexivity.
    - split; [apply quiet_refl |]. unfold sb. rewrite heap_upd_same. reflexivity. }
  destruct Hcq as [Hcq Hcur].
  assert (Hsc : quiet s sc)
    by (eapply quiet_trans; [exact Ha | eapply quiet_trans; [exact Hb | exact Hcq]]).
  destruct Hsc as [Fsc [Wsc Psc]].
  pose proof (fr_heap _ _ Fsc r) as Str.
  assert (Hlen : List.length (phases (heap sc r)) = List.length (phases (heap s r)))
    by apply (st_phases _ _ Str).
  rewrite Hlen.
  destruct (Z.of_nat ci <? Z.of_nat (List.length (phases (heap s r))) - 1)%Z
    eqn:Hguard.
  - apply Z.ltb_lt in Hguard.
    set (sd := upd r _ sc).
    assert (Hd : quiet sc sd).
    { apply upd_quiet; [| reflexivity].
      constructor; auto. intros _. cbn [currentPhase set_currentPhase phases].
      rewrite Hcur, Hlen. lia. }
    assert (Hsd : quiet s sd)
      by (eapply quiet_trans; [split; [exact Fsc | split; [exact Wsc | exact Psc]]
                              | exact Hd]).
    destruct Hsd as [Fsd [Wsd Psd]].
    pose proof (fr_heap _ _ Fsd r) as Sdr.
    assert (Hidd : proj_id (heap sd r) = pid)
      by (rewrite (st_id _ _ Sdr); exact Hid).
    assert (Hpd : projects sd !! pid = Some r)
      by (rewrite (fr_projects _ _ Fsd); exact Hp).
    assert (Hcd : (currentPhase (heap sd r) < List.length (phases (heap sd r)))%nat)
      by (apply (st_current _ _ Sdr), Hc).
    rewrite Hidd.
    destruct (assignWorkers_ok pid r sd Hpd Hcd) as [se [He [Fe [We Pe]]]].
    rewrite He. cbn [bind].
    pose proof (fr_heap _ _ Fe r) as Ser.
    assert (Hide : proj_id (heap se r) = pid)
      by (rewrite (st_id _ _ Ser); exact Hidd).
    assert (Hpe : projects se !! pid = Some r)
      by (rewrite (fr_projects _ _ Fe); exact Hpd).
    assert (Hce : (currentPhase (heap se r) < List.length (phases (heap se r)))%nat)
      by (apply (st_current _ _ Ser), Hcd).
    rewrite Hide.
    destruct (orderMaterials_ok pid r se Hpe Hce) as [sf [Hf [Ff [Wf Pf]]]].
    exists sf. split; [exact Hf |].
    eapply calm_trans; [apply quiet_calm; split; [exact Fsd | split; [exact Wsd | exact Psd]] |].
    eapply calm_trans; [split; [exact Fe | split; [exact We | exact Pe]] |].
    apply quiet_calm. split; [exact Ff | split; [exact Wf | exact Pf]].
  - exists sc. split; [reflexivity |].
    apply quiet_calm. split; [exact Fsc | split; [exact Wsc | exact Psc]].
Qed.

Lemma updateQuality_quiet (r : nat) (s : ConstructionSystem) :
  quiet s (updateQuality r s).
Proof.
  unfold updateQuality.
  set (wq := getProjectWorkerEfficiency s (proj_id (heap s r))).
  set (s1 := if Qltb (weatherConditions s) (7 # 10) then _ else s).
  assert (H1 : quiet s s1).
  { unfold s1. destruct (Qltb _ _); [| apply quiet_refl].
    apply upd_quiet; [constructor; auto | reflexivity]. }
  set (s2 := if (0 <? safetyIncidents (heap s1 r))%nat then _ else s1).
  assert (H2 : quiet s1 s2).
  { unfold s2. destruct (0 <? _)%nat; [| apply quiet_refl].
    apply upd_quiet; [constructor; auto | reflexivity]. }
  destruct (Qgtb wq (8 # 10)).
  - eapply quiet_trans; [exact H1 |]. eapply quiet_trans; [exact H2 |].
    apply upd_quiet; [constructor; auto | reflexivity].
  - eapply quiet_trans; eassumption.
Qed.

Lemma nth_error_lookup {A : Type} (l : list A) (i : nat) :
  nth_error l i = l !! i.
Proof.
  revert i. induction l as [| a l IH]; intros [| i]; simpl; auto.
Qed.

(** A random index [Math.floor(Math.random() * a.length)] into a non-empty
    array hits an element. *)
Lemma index_random {A : Type} (l : list A) (rnd : Q) :
  0 <= rnd -> rnd < 1 -> l <> [] ->
  exists x,
    index l (Math_floor (rnd * ofNat (List.length l))) = Some x
    /\ l !! Z.to_nat (Math_floor (rnd * ofNat (List.length l))) = Some x.
Proof.
  intros H0 H1 Hne.
  assert (Hlen : (0 < List.length l)%nat) by (destruct l; [contradiction | simpl; lia]).
  pose proof (ofNat_pos _ Hlen) as Hpos.
  set (q := rnd * ofNat (List.length l)).
  assert (Hq0 : 0 <= q) by (unfold q; nra).
  assert (Hq1 : q < ofNat (List.length l)) by (unfold q; nra).
  unfold index, Math_floor.
  assert (Hf0 : (0 <= Qfloor q)%Z).
  { rewrite <- (Qfloor_Z 0). apply Qfloor_resp_le. exact Hq0. }
  assert (Hf1 : (Qfloor q < Z.of_nat (List.length l))%Z).
  { rewrite Zlt_Qlt. pose proof (Qfloor_le q). unfold ofNat in Hq1. lra. }
  destruct (Qfloor q <? 0)%Z eqn:E; [apply Z.ltb_lt in E; lia |].
  destruct (nth_error l (Z.to_nat (Qfloor q))) as [x |] eqn:Hx.
  - exists x. split; [reflexivity |]. rewrite <- nth_error_lookup. exact Hx.
  - apply nth_error_None in Hx. lia.
Qed.

Lemma insert_quality (ms : list ConstructionMaterial) (i : nat)
  (m m' : ConstructionMaterial) :
  ms !! i = Some m -> m_quality m' = m_quality m ->
  map m_quality (<[i := m']> ms) = map m_quality ms.
Proof.
  revert i. induction ms as [| a ms IH]; intros [| i] Hl Hq; simpl in *;
    try discriminate.
  - inversion Hl; subst. congruence.
  - f_equal. apply IH; assumption.
Qed.

(** Events: with [Math.random()] in [0, 1) and a non-empty material list no
    event throws, and every event keeps the frame, the workers and the
    progress. *)
Lemma processConstructionEvent_ok (r : nat) (ev : string)
  (s : ConstructionSystem) :
  random_ok (oracle s) -> materials (heap s r) <> [] ->
  exists s', processConstructionEvent r (Some ev) s = Ok s' /\ quiet s s'.
Proof.
  intros Hrand Hmat. unfold processConstructionEvent.
  destruct (String.eqb ev "weather_delay").
  { eexists. split; [reflexivity |].
    eapply quiet_trans; [| apply upd_quiet; [apply delay_stable | reflexivity]].
    split; [| split; reflexivity].
    constructor; auto using stable_refl.
    intros _. cbn [weatherConditions with_weatherConditions].
    eapply Qle_trans; [| apply Math_max_lb_l]. lra. }
  destruct (String.eqb ev "material_delay").
  { unfold Math_random. cbn [fst snd].
    set (s1 := with_oracle s _).
    assert (H1 : quiet s s1) by (apply with_oracle_quiet; reflexivity).
    destruct (Hrand (rand_pos (oracle s))) as [R0 R1].
    destruct (index_random (materials (heap s1 r))
                (rand_draws (oracle s) (rand_pos (oracle s))) R0 R1 Hmat)
      as [m [Hidx Hlook]].
    rewrite Hidx. eexists. split; [reflexivity |].
    eapply quiet_trans; [exact H1 |].
    apply upd_quiet; [| reflexivity].
    constructor; auto.
    cbn [materials delay set_delayReason set_isDelayed set_materials].
    destruct (deliveryDate m) as [d |]; [| reflexivity].
    destruct (Qeq_bool d 0); [reflexivity |].
    eapply insert_quality; [exact Hlook | reflexivity]. }
  destruct (String.eqb ev "worker_injury").
  { eexists. split; [reflexivity |].
    apply upd_quiet; [constructor; auto | reflexivity]. }
  destruct (String.eqb ev "equipment_breakdown").
  { eexists. split; [reflexivity |].
    apply upd_quiet; [constructor; auto | reflexivity]. }
  eexists. split; [reflexivity |].
  apply upd_quiet; [apply delay_stable | reflexivity].
Qed.

Lemma processRandomEvents_ok (r : nat) (deltaTime : Q) (s : ConstructionSystem) :
  random_ok (oracle s) -> materials (heap s r) <> [] ->
  exists s', processRandomEvents r deltaTime s = Ok s' /\ quiet s s'.
Proof.
  intros Hrand Hmat. unfold processRandomEvents, Math_random. cbn [fst snd].
  set (s1 := with_oracle s _).
  assert (H1 : quiet s s1) by (apply with_oracle_quiet; reflexivity).
  destruct (Qltb _ _); [| exists s1; split; [reflexivity | exact H1]].
  cbn [oracle with_oracle s1 rand_draws rand_pos now_reads now_pos].
  set (s2 := with_oracle _ _).
  assert (H2 : quiet s s2).
  { eapply quiet_trans; [exact H1 |]. apply with_oracle_quiet; reflexivity. }
  destruct (Hrand (S (rand_pos (oracle s)))) as [R0 R1].
  destruct (index_random events _ R0 R1) as [ev [Hev _]]; [discriminate |].
  rewrite Hev.
  destruct (processConstructionEvent_ok r ev s2) as [s' [Hs' Hq]].
  - intros n. apply Hrand.
  - exact Hmat.
  - exists s'. split; [exact Hs' |]. eapply quiet_trans; eassumption.
Qed.

(** *** Well-formed scheduler states *)

(** What [startConstruction] and the constructor establish for the active
    projects, the workers and the two condition factors. *)
Record wf (s : ConstructionSystem) : Prop := mkWf {
  wf_keys : forall k r, projects s !! k = Some r -> proj_id (heap s r) = k;
  wf_fresh : forall k r, projects s !! k = Some r -> (r < nextRef s)%nat;
  wf_phase :
    forall k r, projects s !! k = Some r ->
      (currentPhase (heap s r) < List.length (phases (heap s r)))%nat;
  wf_progress :
    forall k r, projects s !! k = Some r -> actualProgress (heap s r) <= 1;
  wf_time :
    forall k r, projects s !! k = Some r ->
      0 <= constructionTime (blueprint (heap s r));
  wf_quality :
    forall k r, projects s !! k = Some r ->
      materials (heap s r) <> []
      /\ Forall (fun q => 0 <= q) (map m_quality (materials (heap s r)));
  wf_efficiency : Forall (fun e => 0 <= e) (map efficiency (workers s));
  wf_weather : 0 <= weatherConditions s;
  wf_economic : 0 <= economicConditions s
}.

Lemma Qdiv_nonneg (a b : Q) : 0 <= a -> 0 <= b -> 0 <= a / b.
Proof.
  intros Ha Hb. unfold Qdiv. apply Qmult_le_0_compat; [exact Ha |].
  apply Qinv_le_0_compat, Hb.
Qed.

Lemma fold_sum_nonneg {A : Type} (f : A -> Q) (l : list A) :
  Forall (fun q => 0 <= q) (map f l) ->
  0 <= fold_left (fun sum x => sum + f x) l 0.
Proof.
  intros H. rewrite fold_left_sum. pose proof (Qsum_nonneg _ H). lra.
Qed.

Lemma getProjectWorkerEfficiency_nonneg (s : ConstructionSystem) (pid : string) :
  Forall (fun e => 0 <= e) (map efficiency (workers s)) ->
  0 <= getProjectWorkerEfficiency s pid.
Proof.
  intros H. unfold getProjectWorkerEfficiency.
  set (pw := List.filter _ (workers s)).
  assert (Hpw : Forall (fun e => 0 <= e) (map efficiency pw)).
  { rewrite List.Forall_forall in *. intros e He. apply in_map_iff in He.
    destruct He as [w [<- Hw]]. apply filter_In in Hw. destruct Hw as [Hw _].
    apply H. apply in_map. exact Hw. }
  destruct pw as [| w pw']; [lra |].
  apply Qdiv_nonneg; [apply fold_sum_nonneg, Hpw | apply ofNat_nonneg].
Qed.

Lemma averageMaterialQuality_nonneg (p : ConstructionProject) :
  Forall (fun q => 0 <= q) (map m_quality (materials p)) ->
  0 <= averageMaterialQuality p.
Proof.
  intros H. unfold averageMaterialQuality.
  apply Qdiv_nonneg; [apply fold_sum_nonneg, H | apply ofNat_nonneg].
Qed.

Lemma calculateProgressRate_nonneg (s : ConstructionSystem)
  (p : ConstructionProject) :
  0 <= constructionTime (blueprint p) ->
  Forall (fun e => 0 <= e) (map efficiency (workers s)) ->
  Forall (fun q => 0 <= q) (map m_quality (materials p)) ->
  0 <= weatherConditions s -> 0 <= economicConditions s ->
  0 <= calculateProgressRate s p.
Proof.
  intros Ht He Hq Hw Hec. unfold calculateProgressRate.
  apply Qmult_le_0_compat; [| exact Hec].
  apply Qmult_le_0_compat; [| apply averageMaterialQuality_nonneg, Hq].
  apply Qmult_le_0_compat; [| exact Hw].
  apply Qmult_le_0_compat; [| apply getProjectWorkerEfficiency_nonneg, He].
  apply Qdiv_nonneg; [lra |]. unfold num_or.
  destruct (Qeq_bool _ 0); [lra | exact Ht].
Qed.

Lemma checkMaterialAvailability_oracle (mats : list ConstructionMaterial)
  (req : list string) :
  forall o,
    now_reads (snd (checkMaterialAvailability mats req o)) = now_reads o
    /\ rand_draws (snd (checkMaterialAvailability mats req o)) = rand_draws o
    /\ rand_pos (snd (checkMaterialAvailability mats req o)) = rand_pos o.
Proof.
  induction req as [| t rest IH]; intros o; simpl; [auto |].
  destruct (List.find _ mats) as [m |]; [| auto].
  destruct (deliveryDate m) as [d |]; [| auto].
  destruct (Qeq_bool d 0); [auto |].
  destruct (Qleb d _ && Qgeb _ _); [| auto].
  destruct (IH (snd (Date_now o))) as [H1 [H2 H3]].
  unfold Date_now in *. cbn [snd] in *. auto.
Qed.

(** The workers after [completeProject]. *)
Lemma release_after_assign (pid : string) (ws wm : list ConstructionWorker) :
  Forall2 (wrel pid) ws wm ->
  Forall (fun w => assignedProjectId w <> Some pid) (map (releaseWorker pid) wm)
  /\ Forall2 (fun w w' =>
                efficiency w' = efficiency w
                /\ (assignedProjectId w = Some pid ->
                    availability w' = true /\ assignedProjectId w' = None))
       ws (map (releaseWorker pid) wm).
Proof.
  induction 1 as [| w wmid ws wm [He Hc] _ [IH1 IH2]]; simpl.
  - split; constructor.
  - split; constructor; try assumption.
    + unfold releaseWorker.
      destruct (bool_decide (assignedProjectId wmid = Some pid)) eqn:E; simpl.
      * discriminate.
      * apply bool_decide_eq_false in E. exact E.
    + unfold releaseWorker.
      destruct (bool_decide (assignedProjectId wmid = Some pid)) eqn:E; simpl.
      * split; [exact He | auto].
      * apply bool_decide_eq_false in E. split; [exact He |].
        intros Hw. destruct Hc as [-> | Hc]; contradiction.
Qed.

(** *** One update of an active project *)

Lemma completeProject_spec (r : nat) (building : Building)
  (s : ConstructionSystem) :
  let res := completeProject r building s in
  status (fst res) = operational
  /\ constructionProgress (fst res) = 1
  /\ b_id (fst res) = b_id building
  /\ heap (snd res) = heap s
  /\ workers (snd res) = map (releaseWorker (proj_id (heap s r))) (workers s)
  /\ projects (snd res) = delete (proj_id (heap s r)) (projects s)
  /\ completedProjects (snd res) = completedProjects s ++ [r]
  /\ oracle (snd res) = oracle s
  /\ weatherConditions (snd res) = weatherConditions s
  /\ economicConditions (snd res) = economicConditions s
  /\ nextRef (snd res) = nextRef s.
Proof.
  unfold completeProject. cbn [fst snd].
  destruct (Qgtb (qualityRating (heap s r)) (9 # 10));
    [| destruct (Qltb (qualityRating (heap s r)) (6 # 10))];
    repeat split.
Qed.

(** What one [updateConstruction] does to a well-formed system when the
    building's project is active.  [avail] is the outcome of the material
    check and [wm] the worker list before a possible release. *)
Lemma updateConstruction_active (building : Building) (deltaTime : Q)
  (s : ConstructionSystem) (r : nat) :
  wf s -> random_ok (oracle s) ->
  projects s !! b_id building = Some r ->
  exists b' s' (avail : bool) (wm : list ConstructionWorker),
    updateConstruction building deltaTime s = Ok (b', s')
    /\ (forall r', stable (heap s r') (heap s' r'))
    /\ (forall r', r' <> r ->
                   actualProgress (heap s' r') = actualProgress (heap s r'))
    /\ (0 <= deltaTime ->
        actualProgress (heap s r) <= actualProgress (heap s' r))
    /\ actualProgress (heap s' r) <= 1
    /\ (avail = false ->
        actualProgress (heap s' r) = actualProgress (heap s r))
    /\ Forall2 (wrel (b_id building)) (workers s) wm
    /\ economicConditions s' = economicConditions s
    /\ 0 <= weatherConditions s'
    /\ now_reads (oracle s') = now_reads (oracle s)
    /\ rand_draws (oracle s') = rand_draws (oracle s)
    /\ nextRef s' = nextRef s
    /\ (if avail && Qgeb (actualProgress (heap s' r)) 1
        then projects s' = delete (b_id building) (projects s)
             /\ workers s' = map (releaseWorker (b_id building)) wm
             /\ completedProjects s' = completedProjects s ++ [r]
             /\ status b' = operational
             /\ constructionProgress b' = 1
        else projects s' = projects s
             /\ workers s' = wm
             /\ completedProjects s' = completedProjects s
             /\ status b' = status building
             /\ constructionProgress b' = actualProgress (heap s' r)).
Proof.
  intros Hwf Hrand Hproj.
  pose proof (wf_keys _ Hwf _ _ Hproj) as Hid.
  pose proof (wf_phase _ Hwf _ _ Hproj) as Hph.
  pose proof (wf_progress _ Hwf _ _ Hproj) as Hle1.
  pose proof (wf_time _ Hwf _ _ Hproj) as Htime.
  destruct (wf_quality _ Hwf _ _ Hproj) as [Hmne Hmq].
  unfold updateConstruction. rewrite Hproj.
  unfold Date_now. cbn [fst snd].
  set (s0 := with_oracle s _).
  set (s1 := upd r _ s0).
  assert (Q1 : quiet s s1).
  { apply (quiet_trans _ s0); [apply with_oracle_quiet; reflexivity |].
    apply upd_quiet; [constructor; auto | reflexivity]. }
  assert (E1 : heap s1 r = set_scheduledProgress (heap s r)
                             (scheduledProgress (heap s1 r))).
  { unfold s1. rewrite heap_upd_same. reflexivity. }
  assert (Hc1 : currentPhase (heap s1 r) = currentPhase (heap s r))
    by (rewrite E1; reflexivity).
  assert (Hp1 : phases (heap s1 r) = phases (heap s r))
    by (rewrite E1; reflexivity).
  assert (Hm1 : materials (heap s1 r) = materials (heap s r))
    by (rewrite E1; reflexivity).
  rewrite Hc1, Hp1, Hm1.
  destruct (nth_error (phases (heap s r)) (currentPhase (heap s r)))
    as [phase |] eqn:Hphase; [| apply nth_error_None in Hphase; lia].
  destruct (checkMaterialAvailability_oracle (materials (heap s r))
              (requiredMaterials phase) (oracle s1)) as [Ho1 [Ho2 Ho3]].
  destruct (checkMaterialAvailability (materials (heap s r))
              (requiredMaterials phase) (oracle s1)) as [avail o2].
  cbn [snd] in Ho1, Ho2, Ho3.
  set (s2 := with_oracle s1 o2).
  assert (Q2 : quiet s s2).
  { eapply quiet_trans; [exact Q1 |]. apply with_oracle_quiet; assumption. }
  assert (Hrand2 : random_ok (oracle s2)).
  { intros n. cbn [s2 oracle with_oracle]. rewrite Ho2.
    unfold s1. cbn [oracle upd with_heap with_oracle rand_draws]. apply Hrand. }
  destruct avail; cbn [negb].
  2: { (* delayed *)
    set (s3 := upd r (delay "Material shortage") s2).
    assert (Q3 : quiet s s3).
    { eapply quiet_trans; [exact Q2 |].
      apply upd_quiet; [apply delay_stable | reflexivity]. }
    destruct Q3 as [F3 [W3 P3]].
    exists (b_set_constructionProgress building (actualProgress (heap s3 r))),
      s3, false, (workers s).
    split; [reflexivity |].
    split; [apply (fr_heap _ _ F3) |].
    split; [intros r' _; apply P3 |].
    rewrite (P3 r).
    split; [intros _; apply Qle_refl |]. split; [exact Hle1 |].
    split; [reflexivity |].
    split; [apply wrel_refl |].
    split; [apply (fr_economic _ _ F3) |].
    split; [apply (fr_weather _ _ F3), (wf_weather _ Hwf) |].
    split; [apply (fr_reads _ _ F3) |].
    split; [apply (fr_draws _ _ F3) |].
    split; [apply (fr_next _ _ F3) |].
    cbn [andb].
    split; [apply (fr_projects _ _ F3) |].
    split; [exact W3 |].
    split; [apply (fr_completed _ _ F3) |].
    split; reflexivity. }
  (* progress *)
  destruct Q2 as [F2 [W2 P2]].
  set (rate := calculateProgressRate s2 (heap s2 r)).
  assert (Hrate : 0 <= rate).
  { pose proof (fr_heap _ _ F2 r) as St.
    apply calculateProgressRate_nonneg.
    - rewrite (st_blueprint _ _ St). exact Htime.
    - rewrite (fr_efficiency _ _ F2). apply (wf_efficiency _ Hwf).
    - rewrite (st_quality _ _ St). exact Hmq.
    - apply (fr_weather _ _ F2), (wf_weather _ Hwf).
    - rewrite (fr_economic _ _ F2). apply (wf_economic _ Hwf). }
  set (inc := rate * deltaTime / (24 * 60 * 60)).
  assert (Hinc : 0 <= deltaTime -> 0 <= inc).
  { intros Hdt. unfold inc. apply Qdiv_nonneg; [| lra].
    apply Qmult_le_0_compat; assumption. }
  set (s3 := upd r (fun p => set_actualProgress p
                               (Math_min 1 (actualProgress p + inc))) s2).
  assert (F23 : frame s2 s3) by (apply upd_frame; constructor; auto).
  assert (P3 : actualProgress (heap s3 r)
               = Math_min 1 (actualProgress (heap s r) + inc)).
  { unfold s3. rewrite heap_upd_same. cbn [actualProgress set_actualProgress].
    rewrite (P2 r). reflexivity. }
  assert (P3o : forall r', r' <> r ->
                  actualProgress (heap s3 r') = actualProgress (heap s r')).
  { intros r' Hne. unfold s3. rewrite heap_upd.
    destruct (Nat.eqb_spec r' r); [contradiction | apply P2]. }
  set (s4 := upd r (fun p => set_totalCostPaid p _) s3).
  assert (Q34 : quiet s3 s4)
    by (apply upd_quiet; [constructor; auto | reflexivity]).
  assert (F4 : frame s s4).
  { eapply frame_trans; [exact F2 |]. eapply frame_trans; [exact F23 |].
    apply Q34. }
  assert (Hid4 : proj_id (heap s4 r) = b_id building)
    by (rewrite (st_id _ _ (fr_heap _ _ F4 r)); exact Hid).
  assert (Hph4 : (currentPhase (heap s4 r) < List.length (phases (heap s4 r)))%nat)
    by (apply (st_current _ _ (fr_heap _ _ F4 r)), Hph).
  assert (Hpr4 : projects s4 !! b_id building = Some r)
    by (rewrite (fr_projects _ _ F4); exact Hproj).
  assert (Hci4 : currentPhase (heap s4 r) = currentPhase (heap s r)).
  { unfold s4, s3. rewrite !heap_upd_same.
    cbn [currentPhase set_totalCostPaid set_actualProgress].
    cbn [s2 heap with_oracle]. exact Hc1. }
  (* phase completion *)
  assert (Hcp : exists s5,
            (if Qgeb (actualProgress (heap s4 r)) (endProgress phase)
                && negb (isCompleted phase)
             then completePhase r (currentPhase (heap s r)) s4
             else Ok s4) = Ok s5
            /\ calm (b_id building) s4 s5).
  { destruct (Qgeb _ _ && negb _).
    - rewrite <- Hci4. apply completePhase_ok; assumption.
    - exists s4. split; [reflexivity | apply quiet_calm, quiet_refl]. }
  destruct Hcp as [s5 [Hs5 [F45 [W45 P45]]]].
  rewrite Hs5. cbn [bind].
  assert (F5 : frame s s5) by (eapply frame_trans; eassumption).
  assert (W5 : Forall2 (wrel (b_id building)) (workers s) (workers s5)).
  { rewrite <- W2. exact W45. }
  assert (P5 : actualProgress (heap s5 r)
               = Math_min 1 (actualProgress (heap s r) + inc)).
  { rewrite P45. destruct Q34 as [_ [_ P34]]. rewrite P34. exact P3. }
  assert (P5o : forall r', r' <> r ->
                  actualProgress (heap s5 r') = actualProgress (heap s r')).
  { intros r' Hne. rewrite P45. destruct Q34 as [_ [_ P34]]. rewrite P34.
    apply P3o, Hne. }
  assert (Hid5 : proj_id (heap s5 r) = b_id building)
    by (rewrite (st_id _ _ (fr_heap _ _ F5 r)); exact Hid).
  assert (Hmne5 : materials (heap s5 r) <> []).
  { intros Hnil. apply Hmne.
    pose proof (st_quality _ _ (fr_heap _ _ F5 r)) as Hq.
    rewrite Hnil in Hq. simpl in Hq. destruct (materials (heap s r)); [reflexivity |].
    discriminate. }
  (* project completion, quality, events *)
  set (bmid := b_set_constructionProgress building (actualProgress (heap s3 r))).
  destruct (Qgeb (actualProgress (heap s5 r)) 1) eqn:Hdone.
  - pose proof (completeProject_spec r bmid s5) as Hcs.
    destruct (completeProject r bmid s5) as [b6 s6]. cbn [fst snd] in Hcs.
    destruct Hcs as [Hst [Hcp [_ [Hh6 [Hw6 [Hp6 [Hc6 [Ho6 [Hwe6 [Hec6 Hn6]]]]]]]]]].
    pose proof (updateQuality_quiet r s6) as Q67.
    set (s7 := updateQuality r s6) in *.
    destruct Q67 as [F67 [W67 P67]].
    destruct (processRandomEvents_ok r deltaTime s7) as [s8 [Hs8 [F78 [W78 P78]]]].
    { intros n. rewrite (fr_draws _ _ F67), Ho6, (fr_draws _ _ F45).
      destruct Q34 as [F34 _]. rewrite (fr_draws _ _ F34), (fr_draws _ _ F23).
      apply Hrand2. }
    { intros Hnil. apply Hmne5.
      pose proof (st_quality _ _ (fr_heap _ _ F67 r)) as Hq.
      rewrite Hnil, Hh6 in Hq. simpl in Hq.
      destruct (materials (heap s5 r)); [reflexivity | discriminate]. }
    rewrite Hs8. cbn [bind].
    assert (St68 : forall r', stable (heap s5 r') (heap s8 r')).
    { intros r'. eapply stable_trans; [| apply (fr_heap _ _ F78)].
      pose proof (fr_heap _ _ F67 r') as H. rewrite Hh6 in H. exact H. }
    assert (P68 : forall r', actualProgress (heap s8 r') = actualProgress (heap s5 r')).
    { intros r'. rewrite P78, P67, Hh6. reflexivity. }
    exists b6, s8, true, (workers s5).
    split; [reflexivity |].
    split; [intros r'; eapply stable_trans; [apply (fr_heap _ _ F5) | apply St68] |].
    split; [intros r' Hne; rewrite P68; apply P5o, Hne |].
    rewrite P68, P5.
    split; [intros Hdt; specialize (Hinc Hdt); apply Math_min_glb; lra |].
    split; [apply Math_min_ub_l |].
    split; [discriminate |].
    split; [exact W5 |].
    split; [rewrite (fr_economic _ _ F78), (fr_economic _ _ F67), Hec6;
            apply (fr_economic _ _ F5) |].
    split.
    { apply (fr_weather _ _ F78), (fr_weather _ _ F67). rewrite Hwe6.
      apply (fr_weather _ _ F5), (wf_weather _ Hwf). }
    split; [rewrite (fr_reads _ _ F78), (fr_reads _ _ F67), Ho6;
            apply (fr_reads _ _ F5) |].
    split; [rewrite (fr_draws _ _ F78), (fr_draws _ _ F67), Ho6;
            apply (fr_draws _ _ F5) |].
    split; [rewrite (fr_next _ _ F78), (fr_next _ _ F67), Hn6;
            apply (fr_next _ _ F5) |].
    rewrite <- P5, Hdone. cbn [andb].
    split; [rewrite (fr_projects _ _ F78), (fr_projects _ _ F67), Hp6, Hid5,
              (fr_projects _ _ F5); reflexivity |].
    split; [rewrite W78, W67, Hw6, Hid5; reflexivity |].
    split; [rewrite (fr_completed _ _ F78), (fr_completed _ _ F67), Hc6,
              (fr_completed _ _ F5); reflexivity |].
    split; assumption.
  - pose proof (updateQuality_quiet r s5) as Q67.
    set (s7 := updateQuality r s5) in *.
    destruct Q67 as [F67 [W67 P67]].
    destruct (processRandomEvents_ok r deltaTime s7) as [s8 [Hs8 [F78 [W78 P78]]]].
    { intros n. rewrite (fr_draws _ _ F67), (fr_draws _ _ F45).
      destruct Q34 as [F34 _]. rewrite (fr_draws _ _ F34), (fr_draws _ _ F23).
      apply Hrand2. }
    { intros Hnil. apply Hmne5.
      pose proof (st_quality _ _ (fr_heap _ _ F67 r)) as Hq.
      rewrite Hnil in Hq. simpl in Hq.
      destruct (materials (heap s5 r)); [reflexivity | discriminate]. }
    rewrite Hs8. cbn [bind].
    assert (F8 : frame s s8).
    { eapply frame_trans; [exact F5 |]. eapply frame_trans; eassumption. }
    assert (P68 : forall r', actualProgress (heap s8 r') = actualProgress (heap s5 r')).
    { intros r'. rewrite P78, P67. reflexivity. }
    exists bmid, s8, true, (workers s5).
    split; [reflexivity |].
    split; [apply (fr_heap _ _ F8) |].
    split; [intros r' Hne; rewrite P68; apply P5o, Hne |].
    rewrite P68, P5.
    split; [intros Hdt; specialize (Hinc Hdt); apply Math_min_glb; lra |].
    split; [apply Math_min_ub_l |].
    split; [discriminate |].
    split; [exact W5 |].
    split; [apply (fr_economic _ _ F8) |].
    split; [apply (fr_weather _ _ F8), (wf_weather _ Hwf) |].
    split; [apply (fr_reads _ _ F8) |].
    split; [apply (fr_draws _ _ F8) |].
    split; [apply (fr_next _ _ F8) |].
    rewrite <- P5, Hdone. cbn [andb].
    split; [apply (fr_projects _ _ F8) |].
    split; [rewrite W78, W67; reflexivity |].
    split; [apply (fr_completed _ _ F8) |].
    split; [reflexivity |].
    unfold bmid. cbn [constructionProgress b_set_constructionProgress].
    rewrite P5, P3. reflexivity.
Qed.

(** *** The constructor and [startConstruction] establish well-formedness *)

Lemma wf_frame (s s' : ConstructionSystem) :
  wf s -> frame s s' ->
  (forall r, actualProgress (heap s' r) = actualProgress (heap s r)) ->
  wf s'.
Proof.
  intros Hwf F P. pose proof (fr_projects _ _ F) as Hp.
  constructor.
  - intros k r Hk. rewrite Hp in Hk. rewrite (st_id _ _ (fr_heap _ _ F r)).
    apply (wf_keys _ Hwf _ _ Hk).
  - intros k r Hk. rewrite Hp in Hk. rewrite (fr_next _ _ F).
    apply (wf_fresh _ Hwf _ _ Hk).
  - intros k r Hk. rewrite Hp in Hk. apply (st_current _ _ (fr_heap _ _ F r)).
    apply (wf_phase _ Hwf _ _ Hk).
  - intros k r Hk. rewrite Hp in Hk. rewrite P. apply (wf_progress _ Hwf _ _ Hk).
  - intros k r Hk. rewrite Hp in Hk. rewrite (st_blueprint _ _ (fr_heap _ _ F r)).
    apply (wf_time _ Hwf _ _ Hk).
  - intros k r Hk. rewrite Hp in Hk.
    destruct (wf_quality _ Hwf _ _ Hk) as [Hne Hq].
    pose proof (st_quality _ _ (fr_heap _ _ F r)) as Hsq. rewrite Hsq.
    split; [| exact Hq].
    intros Hnil. apply Hne. rewrite Hnil in Hsq. simpl in Hsq.
    destruct (materials (heap s r)); [reflexivity | discriminate].
  - rewrite (fr_efficiency _ _ F). apply (wf_efficiency _ Hwf).
  - apply (fr_weather _ _ F), (wf_weather _ Hwf).
  - rewrite (fr_economic _ _ F). apply (wf_economic _ Hwf).
Qed.

Lemma generateWorkers_efficiency (workerIdOf : Q -> nat -> string)
  (workerNameOf : nat -> string) (n : nat) :
  forall i o,
    random_ok o ->
    Forall (fun e => 0 <= e)
      (map efficiency (fst (generateWorkers workerIdOf workerNameOf n i o)))
    /\ rand_draws (snd (generateWorkers workerIdOf workerNameOf n i o))
       = rand_draws o.
Proof.
  induction n as [| n IH]; intros i o Hr; simpl.
  - split; [constructor | reflexivity].
  - unfold Math_random, Date_now. cbn [fst snd].
    match goal with
    | |- context [generateWorkers _ _ n (S i) ?o'] =>
        destruct (IH (S i) o' Hr) as [H1 H2];
        destruct (generateWorkers workerIdOf workerNameOf n (S i) o') as [rest o4]
    end.
    cbn [fst snd map efficiency] in *. split; [| exact H2].
    constructor; [| exact H1].
    destruct (Hr (S (rand_pos o))) as [H0 _].
    assert (0 <= (1 + rand_draws o (S (rand_pos o)) * 9) / 10)
      by (apply Qdiv_nonneg; lra).
    lra.
Qed.

(** The system that the constructor builds is well formed. *)
Lemma newConstructionSystem_wf (workerIdOf : Q -> nat -> string)
  (workerNameOf : nat -> string) (o : Oracle) :
  random_ok o ->
  wf (newConstructionSystem workerIdOf workerNameOf o)
  /\ random_ok (oracle (newConstructionSystem workerIdOf workerNameOf o)).
Proof.
  intros Hr. unfold newConstructionSystem, Math_random. cbn [fst snd].
  match goal with
  | |- context [generateWorkers _ _ ?n 0 ?o'] =>
      destruct (generateWorkers_efficiency workerIdOf workerNameOf n 0%nat o' Hr)
        as [H1 H2];
      destruct (generateWorkers workerIdOf workerNameOf n 0 o') as [ws o2]
  end.
  cbn [fst snd] in *. split.
  - constructor; cbn [projects workers weatherConditions economicConditions];
      try (intros k r Hk; rewrite lookup_empty in Hk; discriminate);
      [exact H1 | lra | lra].
  - intros n. cbn [oracle]. rewrite H2. apply Hr.
Qed.

Lemma materialsFor_spec (s : ConstructionSystem) (reqs : list (string * Q)) :
  forall o,
    random_ok o ->
    let res := materialsFor s reqs o in
    Forall (fun q => 0 <= q) (map m_quality (fst res))
    /\ List.length (fst res) = List.length reqs
    /\ rand_draws (snd res) = rand_draws o
    /\ now_reads (snd res) = now_reads o.
Proof.
  induction reqs as [| [type req] rest IH]; intros o Hr; simpl.
  - repeat split. constructor.
  - unfold Math_random. cbn [fst snd].
    match goal with
    | |- context [materialsFor s rest ?o'] =>
        destruct (IH o' Hr) as [H1 [H2 [H3 H4]]];
        destruct (materialsFor s rest o') as [rest' o2]
    end.
    cbn [fst snd map m_quality List.length] in *.
    split; [| split; [congruence | split; assumption]].
    constructor; [| exact H1].
    destruct (Hr (rand_pos o)) as [H0 _]. lra.
Qed.

(** [startConstruction] on a blueprint with a non-negative construction time
    returns, keeps the system well formed and makes the new project active
    under the returned id, with progress 0 and not delayed. *)
Lemma startConstruction_wf (projectIdOf : Q -> Q -> string)
  (building : Building) (bp : BuildingBlueprint) (pos : Vector3) (rot : Q)
  (s : ConstructionSystem) :
  wf s -> random_ok (oracle s) -> 0 <= constructionTime bp ->
  exists pid s',
    startConstruction projectIdOf building bp pos rot s = Ok (pid, s')
    /\ wf s' /\ random_ok (oracle s')
    /\ projects s' !! pid = Some (nextRef s)
    /\ actualProgress (heap s' (nextRef s)) = 0.
Proof.
  intros Hwf Hr Hct. unfold startConstruction, Date_now, Math_random.
  cbn [fst snd].
  match goal with
  | |- context [materialsFor s (materialRequirements bp) ?o'] =>
      destruct (materialsFor_spec s (materialRequirements bp) o' Hr)
        as [Hq [Hlen [Hdraw Hread]]];
      destruct (materialsFor s (materialRequirements bp) o') as [ms o2]
  end.
  cbn [fst snd] in Hq, Hlen, Hdraw, Hread.
  cbn [rand_draws now_reads] in Hdraw, Hread.
  set (pid := projectIdOf _ _).
  match goal with
  | |- context [assignWorkers pid ?s1'] => set (s1 := s1')
  end.
  assert (Hp1 : projects s1 !! pid = Some (nextRef s)).
  { unfold s1. cbn [projects with_projects]. apply lookup_insert_eq. }
  assert (Hh1 : forall r, heap s1 r
                = if Nat.eqb r (nextRef s) then heap s1 (nextRef s) else heap s r).
  { intros r. unfold s1.
    cbn [heap with_heap with_projects with_nextRef with_oracle].
    rewrite Nat.eqb_refl. reflexivity. }
  assert (Hnew : currentPhase (heap s1 (nextRef s)) = 0%nat
                 /\ phases (heap s1 (nextRef s)) = generateConstructionPhases bp
                 /\ materials (heap s1 (nextRef s)) = ms
                 /\ proj_id (heap s1 (nextRef s)) = pid
                 /\ blueprint (heap s1 (nextRef s)) = bp
                 /\ actualProgress (heap s1 (nextRef s)) = 0
                 /\ buildingId (heap s1 (nextRef s)) = b_id building).
  { unfold s1.
    cbn [heap with_heap with_projects with_nextRef with_oracle].
    rewrite Nat.eqb_refl. repeat split. }
  destruct Hnew as [Hc [Hph [Hms [Hid [Hbp [Hprog Hbid]]]]]].
  assert (Hwf1 : wf s1).
  { constructor.
    - intros k r Hk. destruct (decide (pid = k)) as [<- | Hne].
      + rewrite Hp1 in Hk. inversion Hk; subst r. exact Hid.
      + unfold s1 in Hk. cbn [projects with_projects] in Hk.
        rewrite lookup_insert_ne in Hk by exact Hne.
        cbn [projects with_heap with_nextRef with_oracle] in Hk.
        pose proof (wf_fresh _ Hwf _ _ Hk) as Hlt.
        rewrite Hh1. destruct (Nat.eqb_spec r (nextRef s)); [lia |].
        apply (wf_keys _ Hwf _ _ Hk).
    - intros k r Hk. unfold s1 at 1.
      cbn [nextRef with_heap with_projects with_nextRef with_oracle].
      destruct (decide (pid = k)) as [<- | Hne].
      + rewrite Hp1 in Hk. inversion Hk; subst r. lia.
      + unfold s1 in Hk. cbn [projects with_projects] in Hk.
        rewrite lookup_insert_ne in Hk by exact Hne.
        cbn [projects with_heap with_nextRef with_oracle] in Hk.
        pose proof (wf_fresh _ Hwf _ _ Hk). lia.
    - intros k r Hk. destruct (decide (pid = k)) as [<- | Hne].
      + rewrite Hp1 in Hk. inversion Hk; subst r. rewrite Hc, Hph. simpl. lia.
      + unfold s1 in Hk. cbn [projects with_projects] in Hk.
        rewrite lookup_insert_ne in Hk by exact Hne.
        cbn [projects with_heap with_nextRef with_oracle] in Hk.
        pose proof (wf_fresh _ Hwf _ _ Hk) as Hlt.
        rewrite Hh1. destruct (Nat.eqb_spec r (nextRef s)); [lia |].
        apply (wf_phase _ Hwf _ _ Hk).
    - intros k r Hk. destruct (decide (pid = k)) as [<- | Hne].
      + rewrite Hp1 in Hk. inversion Hk; subst r. rewrite Hprog. lra.
      + unfold s1 in Hk. cbn [projects with_projects] in Hk.
        rewrite lookup_insert_ne in Hk by exact Hne.
        cbn [projects with_heap with_nextRef with_oracle] in Hk.
        pose proof (wf_fresh _ Hwf _ _ Hk) as Hlt.
        rewrite Hh1. destruct (Nat.eqb_spec r (nextRef s)); [lia |].
        apply (wf_progress _ Hwf _ _ Hk).
    - intros k r Hk. destruct (decide (pid = k)) as [<- | Hne].
      + rewrite Hp1 in Hk. inversion Hk; subst r. rewrite Hbp. exact Hct.
      + unfold s1 in Hk. cbn [projects with_projects] in Hk.
        rewrite lookup_insert_ne in Hk by exact Hne.
        cbn [projects with_heap with_nextRef with_oracle] in Hk.
        pose proof (wf_fresh _ Hwf _ _ Hk) as Hlt.
        rewrite Hh1. destruct (Nat.eqb_spec r (nextRef s)); [lia |].
        apply (wf_time _ Hwf _ _ Hk).
    - intros k r Hk. destruct (decide (pid = k)) as [<- | Hne].
      + rewrite Hp1 in Hk. inversion Hk; subst r. rewrite Hms.
        split; [| exact Hq].
        intros Hnil. rewrite Hnil in Hlen. simpl in Hlen. discriminate.
      + unfold s1 in Hk. cbn [projects with_projects] in Hk.
        rewrite lookup_insert_ne in Hk by exact Hne.
        cbn [projects with_heap with_nextRef with_oracle] in Hk.
        pose proof (wf_fresh _ Hwf _ _ Hk) as Hlt.
        rewrite Hh1. destruct (Nat.eqb_spec r (nextRef s)); [lia |].
        apply (wf_quality _ Hwf _ _ Hk).
    - apply (wf_efficiency _ Hwf).
    - apply (wf_weather _ Hwf).
    - apply (wf_economic _ Hwf). }
  destruct (assignWorkers_ok pid (nextRef s) s1 Hp1) as [s2 [Hs2 [F12 [_ P12]]]].
  { rewrite Hc, Hph. simpl. lia. }
  rewrite Hs2. cbn [bind].
  pose proof (wf_frame _ _ Hwf1 F12 P12) as Hwf2.
  assert (Hp2 : projects s2 !! pid = Some (nextRef s))
    by (rewrite (fr_projects _ _ F12); exact Hp1).
  destruct (orderMaterials_ok pid (nextRef s) s2 Hp2) as [s3 [Hs3 [F23 [_ P23]]]].
  { apply (wf_phase _ Hwf2 _ _ Hp2). }
  rewrite Hs3. cbn [bind].
  exists pid, s3. split; [reflexivity |].
  split; [apply (wf_frame _ _ Hwf2 F23 P23) |].
  split.
  { intros n. rewrite (fr_draws _ _ F23), (fr_draws _ _ F12).
    unfold s1. cbn [oracle with_heap with_projects with_nextRef with_oracle
                    rand_draws].
    rewrite Hdraw. apply Hr. }
  split; [rewrite (fr_projects _ _ F23); exact Hp2 |].
  rewrite P23, P12. exact Hprog.
Qed.

(** *** Completion *)

(** C4.  On a well-formed system, when the project of the building is
    active with progress below 1, [updateConstruction] returns, and if the
    project's progress has then reached 1 the building is operational with
    construction progress exactly 1, no worker is assigned to the project
    any more, every worker that was assigned to it is available with no
    assignment, the project is no longer in the active project map (under
    no key), and it is among the completed projects. *)
Theorem completion_releases (building : Building) (deltaTime : Q)
  (s : ConstructionSystem) (r : nat) :
  wf s -> random_ok (oracle s) ->
  projects s !! b_id building = Some r ->
  actualProgress (heap s r) < 1 ->
  exists b' s',
    updateConstruction building deltaTime s = Ok (b', s')
    /\ (1 <= actualProgress (heap s' r) ->
        status b' = operational
        /\ constructionProgress b' = 1
        /\ Forall (fun w => assignedProjectId w <> Some (b_id building))
             (workers s')
        /\ Forall2 (fun w w' =>
                      assignedProjectId w = Some (b_id building) ->
                      availability w' = true /\ assignedProjectId w' = None)
             (workers s) (workers s')
        /\ projects s' !! b_id building = None
        /\ (forall k, projects s' !! k <> Some r)
        /\ r ∈ completedProjects s').
Proof.
  intros Hwf Hrand Hproj Hlt.
  destruct (updateConstruction_active building deltaTime s r Hwf Hrand Hproj)
    as [b' [s' [avail [wm [Hrun [_ [_ [_ [_ [Hdelay [Hw [_ [_ [_ [_ [_ Hend]]]]]]]]]]]]]]]].
  exists b', s'. split; [exact Hrun |]. intros Hreach.
  destruct avail.
  2: { rewrite (Hdelay eq_refl) in Hreach. lra. }
  assert (Hge : Qgeb (actualProgress (heap s' r)) 1 = true)
    by (apply Qleb_true; exact Hreach).
  rewrite Hge in Hend. cbn [andb] in Hend.
  destruct Hend as [Hp [Hws [Hc [Hst Hcp]]]].
  destruct (release_after_assign _ _ _ Hw) as [Hnone Hrel].
  split; [exact Hst |]. split; [exact Hcp |].
  split; [rewrite Hws; exact Hnone |].
  split.
  { rewrite Hws. eapply Forall2_impl; [exact Hrel |].
    intros w w' [_ H]. exact H. }
  split; [rewrite Hp; apply lookup_delete_eq |].
  split.
  { intros k Hk. rewrite Hp in Hk.
    destruct (decide (b_id building = k)) as [<- | Hne].
    - rewrite lookup_delete_eq in Hk. discriminate.
    - rewrite lookup_delete_ne in Hk by exact Hne.
      pose proof (wf_keys _ Hwf _ _ Hk) as H1.
      pose proof (wf_keys _ Hwf _ _ Hproj) as H2. congruence. }
  rewrite Hc. apply elem_of_app. right. left.
Qed.

(** *** Progress over a sequence of updates *)

(** A sequence of [updateConstruction] calls, each with its building and
    its [deltaTime]. *)
Fixpoint updateAll (calls : list (Building * Q)) (s : ConstructionSystem)
  : result ConstructionSystem :=
  match calls with
  | [] => Ok s
  | (building, deltaTime) :: rest =>
      let* (_, s') := updateConstruction building deltaTime s in
      updateAll rest s'
  end.

Lemma release_efficiency (pid : string) (ws : list ConstructionWorker) :
  map efficiency (map (releaseWorker pid) ws) = map efficiency ws.
Proof.
  induction ws as [| w ws IH]; simpl; [reflexivity |].
  rewrite IH. unfold releaseWorker.
  destruct (bool_decide _); reflexivity.
Qed.

(** One update keeps the system well formed, removes no progress from any
    project object and keeps a progress that was at most 1 at most 1; it adds
    no project to the active map. *)
Lemma updateConstruction_step (building : Building) (deltaTime : Q)
  (s : ConstructionSystem) :
  wf s -> random_ok (oracle s) -> 0 <= deltaTime ->
  exists b' s',
    updateConstruction building deltaTime s = Ok (b', s')
    /\ wf s' /\ random_ok (oracle s')
    /\ (forall k r, projects s' !! k = Some r -> projects s !! k = Some r)
    /\ (forall r, actualProgress (heap s r) <= actualProgress (heap s' r))
    /\ (forall r, actualProgress (heap s r) <= 1 ->
                  actualProgress (heap s' r) <= 1).
Proof.
  intros Hwf Hrand Hdt.
  destruct (projects s !! b_id building) as [r |] eqn:Hproj.
  2: { exists building, s. unfold updateConstruction. rewrite Hproj.
       split; [reflexivity |]. split; [exact Hwf |]. split; [exact Hrand |].
       split; [auto |]. split; [intros r; apply Qle_refl | auto]. }
  destruct (updateConstruction_active building deltaTime s r Hwf Hrand Hproj)
    as [b' [s' [avail [wm [Hrun [Hst [Hoth [Hmono [Hle [_ [Hw [Hec [Hwe
          [_ [Hdr [Hnx Hend]]]]]]]]]]]]]]]].
  exists b', s'. split; [exact Hrun |].
  assert (Hsub : forall k r', projects s' !! k = Some r' ->
                              projects s !! k = Some r').
  { intros k r' Hk.
    destruct (avail && Qgeb (actualProgress (heap s' r)) 1).
    - destruct Hend as [Hp _]. rewrite Hp in Hk.
      destruct (decide (b_id building = k)) as [<- | Hne].
      + rewrite lookup_delete_eq in Hk. discriminate.
      + rewrite lookup_delete_ne in Hk by exact Hne. exact Hk.
    - destruct Hend as [Hp _]. rewrite Hp in Hk. exact Hk. }
  assert (Heff : map efficiency (workers s') = map efficiency (workers s)).
  { pose proof (wrel_efficiency _ _ _ Hw) as He.
    destruct (avail && Qgeb (actualProgress (heap s' r)) 1).
    - destruct Hend as [_ [Hws _]]. rewrite Hws, release_efficiency. exact He.
    - destruct Hend as [_ [Hws _]]. rewrite Hws. exact He. }
  assert (Hup : forall r', actualProgress (heap s r') <= actualProgress (heap s' r')).
  { intros r'. destruct (decide (r' = r)) as [-> | Hne].
    - apply Hmono, Hdt.
    - rewrite (Hoth r' Hne). apply Qle_refl. }
  assert (Hcap : forall r', actualProgress (heap s r') <= 1 ->
                            actualProgress (heap s' r') <= 1).
  { intros r' H1. destruct (decide (r' = r)) as [-> | Hne].
    - exact Hle.
    - rewrite (Hoth r' Hne). exact H1. }
  split.
  { constructor.
    - intros k r' Hk. rewrite (st_id _ _ (Hst r')).
      apply (wf_keys _ Hwf). apply Hsub, Hk.
    - intros k r' Hk. rewrite Hnx. apply (wf_fresh _ Hwf k). apply Hsub, Hk.
    - intros k r' Hk. apply (st_current _ _ (Hst r')).
      apply (wf_phase _ Hwf k). apply Hsub, Hk.
    - intros k r' Hk. apply Hcap. apply (wf_progress _ Hwf k). apply Hsub, Hk.
    - intros k r' Hk. rewrite (st_blueprint _ _ (Hst r')).
      apply (wf_time _ Hwf k). apply Hsub, Hk.
    - intros k r' Hk.
      destruct (wf_quality _ Hwf k r' (Hsub _ _ Hk)) as [Hne Hq].
      pose proof (st_quality _ _ (Hst r')) as Hsq. rewrite Hsq.
      split; [| exact Hq].
      intros Hnil. apply Hne. rewrite Hnil in Hsq. simpl in Hsq.
      destruct (materials (heap s r')); [reflexivity | discriminate].
    - rewrite Heff. apply (wf_efficiency _ Hwf).
    - exact Hwe.
    - rewrite Hec. apply (wf_economic _ Hwf). }
  split; [intros n; rewrite Hdr; apply Hrand |].
  split; [exact Hsub |]. split; [exact Hup | exact Hcap].
Qed.

Lemma updateAll_app (c1 c2 : list (Building * Q)) :
  forall s,
    updateAll (c1 ++ c2) s = let* s1 := updateAll c1 s in updateAll c2 s1.
Proof.
  induction c1 as [| [b dt] c1 IH]; intros s; simpl; [reflexivity |].
  destruct (updateConstruction b dt s) as [[b' s'] | |]; simpl;
    [apply IH | reflexivity | reflexivity].
Qed.

Lemma updateAll_ok (calls : list (Building * Q)) :
  forall s,
    wf s -> random_ok (oracle s) ->
    Forall (fun c => 0 <= snd c) calls ->
    exists s',
      updateAll calls s = Ok s'
      /\ wf s' /\ random_ok (oracle s')
      /\ (forall k r, projects s' !! k = Some r -> projects s !! k = Some r)
      /\ (forall r, actualProgress (heap s r) <= actualProgress (heap s' r))
      /\ (forall r, actualProgress (heap s r) <= 1 ->
                    actualProgress (heap s' r) <= 1).
Proof.
  induction calls as [| [b dt] rest IH]; intros s Hwf Hrand Hdts.
  - exists s. split; [reflexivity |]. split; [exact Hwf |].
    split; [exact Hrand |]. split; [auto |].
    split; [intros r; apply Qle_refl | auto].
  - inversion Hdts as [| ? ? Hdt Hrest]; subst. cbn [snd] in Hdt.
    destruct (updateConstruction_step b dt s Hwf Hrand Hdt)
      as [b' [s1 [Hrun [Hwf1 [Hrand1 [Hsub1 [Hup1 Hcap1]]]]]]].
    destruct (IH s1 Hwf1 Hrand1 Hrest)
      as [s' [Hall [Hwf' [Hrand' [Hsub' [Hup' Hcap']]]]]].
    exists s'. split; [simpl; rewrite Hrun; exact Hall |].
    split; [exact Hwf' |]. split; [exact Hrand' |].
    split; [auto |].
    split; [intros r; eapply Qle_trans; [apply Hup1 | apply Hup'] | auto].
Qed.

(** C5.  From a well-formed system, every sequence of [updateConstruction]
    calls with non-negative [deltaTime] runs through and leaves the system
    well formed, and for every project active at the start the progress never
    decreases along the way and never exceeds 1: at every cut of the sequence
    the progress is at least the initial one and at most the final one, which
    is at most 1.  A project still active at the end was active at the cut. *)
Theorem progress_monotone (calls : list (Building * Q)) (s : ConstructionSystem) :
  wf s -> random_ok (oracle s) ->
  Forall (fun c => 0 <= snd c) calls ->
  exists s',
    updateAll calls s = Ok s'
    /\ wf s'
    /\ forall before after,
         calls = before ++ after ->
         exists sm,
           updateAll before s = Ok sm
           /\ updateAll after sm = Ok s'
           /\ forall k r,
                projects s !! k = Some r ->
                actualProgress (heap s r) <= actualProgress (heap sm r)
                /\ actualProgress (heap sm r) <= actualProgress (heap s' r)
                /\ actualProgress (heap s' r) <= 1
                /\ (projects s' !! k = Some r -> projects sm !! k = Some r).
Proof.
  intros Hwf Hrand Hdts.
  destruct (updateAll_ok calls s Hwf Hrand Hdts) as [s' [Hall [Hwf' _]]].
  exists s'. split; [exact Hall |]. split; [exact Hwf' |].
  intros before after ->.
  apply Forall_app in Hdts. destruct Hdts as [Hd1 Hd2].
  destruct (updateAll_ok before s Hwf Hrand Hd1)
    as [sm [Hb [Hwfm [Hrandm [Hsubb [Hupb Hcapb]]]]]].
  destruct (updateAll_ok after sm Hwfm Hrandm Hd2)
    as [s'' [Ha [_ [_ [Hsuba [Hupa Hcapa]]]]]].
  rewrite updateAll_app, Hb in Hall. cbn [bind] in Hall.
  rewrite Ha in Hall. inversion Hall; subst s''.
  exists sm. split; [exact Hb |]. split; [exact Ha |].
  intros k r Hk.
  split; [apply Hupb |]. split; [apply Hupa |].
  split; [apply Hcapa, Hcapb, (wf_progress _ Hwf _ _ Hk) |].
  apply Hsuba.
Qed.

(** *** A concrete building site *)

(** A clock that stands at [t] and a generator that cycles through
    0, 0.1, ..., 0.9. *)
Definition cycleOracle (t : Q) : Oracle :=
  mkOracle (fun _ => t) 0 (fun n => Z.of_nat (n mod 10) # 10) 0.

Lemma cycleOracle_ok (t : Q) : random_ok (cycleOracle t).
Proof.
  intros n. cbn [cycleOracle rand_draws].
  pose proof (Nat.mod_upper_bound n 10 ltac:(lia)) as Hb.
  unfold Qle, Qlt. cbn [Qnum Qden]. lia.
Qed.

Definition cottage : BuildingBlueprint :=
  mkBlueprint "Cottage" (mkSize 10 5 10) 50000 30.

Definition house : Building :=
  mkBuilding "b1" (mkV3 0 0 0) (Some residential) low 1 constructing 0 4
    100000.

(** The first phase of the cottage, as [generateConstructionPhases] makes
    it. *)
Definition foundation : ConstructionPhase :=
  mkPhase "Foundation" "Site preparation and foundation work"
    (30 * (2 # 10)) 0 (2 # 10) ["concrete"; "steel"] 4 false None true.

Definition freshSite : ConstructionSystem :=
  newConstructionSystem (fun _ _ => "worker"%string) (fun _ => "Worker"%string)
    (cycleOracle 0).

(** The constructor followed by one [startConstruction] whose project id is
    the id of [house]. *)
Definition siteA : ConstructionSystem :=
  match startConstruction (fun _ _ => b_id house) house cottage (mkV3 0 0 0) 0
          freshSite with
  | Ok (_, s) => s
  | _ => freshSite
  end.

Lemma siteA_wf : wf siteA /\ random_ok (oracle siteA).
Proof.
  destruct (newConstructionSystem_wf (fun _ _ => "worker"%string)
              (fun _ => "Worker"%string) (cycleOracle 0) (cycleOracle_ok 0))
    as [Hwf Hr].
  destruct (startConstruction_wf (fun _ _ => b_id house) house cottage
              (mkV3 0 0 0) 0 _ Hwf Hr) as [pid [s' [Hs [Hwf' [Hr' _]]]]].
  { cbn [cottage constructionTime]. lra. }
  unfold siteA, freshSite. rewrite Hs. split; assumption.
Qed.

(** The same site later: the clock stands at day 4, every material was
    delivered in full on day 3, and the project is in its last phase at 99%.
    The source never raises [delivered], so this state is set up by hand. *)
Definition deliverAll (m : ConstructionMaterial) : ConstructionMaterial :=
  mkMaterial (m_type m) (required m) (required m) (m_cost m) (supplier m)
    (Some (3 * msPerDay)) (m_quality m).

Definition lastPhase (p : ConstructionProject) : ConstructionProject :=
  set_actualProgress
    (set_currentPhase (set_materials p (map deliverAll (materials p))) 3)
    (99 # 100).

Definition siteB : ConstructionSystem :=
  upd 0 lastPhase (with_oracle siteA (cycleOracle (4 * msPerDay))).

Lemma lastPhase_spec (p : ConstructionProject) :
  proj_id (lastPhase p) = proj_id p
  /\ blueprint (lastPhase p) = blueprint p
  /\ phases (lastPhase p) = phases p
  /\ currentPhase (lastPhase p) = 3%nat
  /\ actualProgress (lastPhase p) = 99 # 100
  /\ materials (lastPhase p) = map deliverAll (materials p).
Proof. repeat split. Qed.

Lemma siteB_wf : wf siteB /\ random_ok (oracle siteB).
Proof.
  destruct siteA_wf as [Hwf _]. split; [| apply cycleOracle_ok].
  assert (HpB : projects siteB = projects siteA) by reflexivity.
  assert (HnA : nextRef siteA = 1%nat) by (vm_compute; reflexivity).
  assert (HnB : nextRef siteB = 1%nat) by (vm_compute; reflexivity).
  assert (HhB : heap siteB 0 = lastPhase (heap siteA 0)) by reflexivity.
  assert (Hlen : List.length (phases (heap siteA 0)) = 4%nat)
    by (vm_compute; reflexivity).
  assert (Hp : forall k r, projects siteB !! k = Some r ->
                           r = 0%nat /\ projects siteA !! k = Some 0%nat).
  { intros k r Hk. rewrite HpB in Hk.
    pose proof (wf_fresh _ Hwf _ _ Hk) as Hlt.
    rewrite HnA in Hlt. assert (r = 0%nat) by lia. subst r. auto. }
  destruct (lastPhase_spec (heap siteA 0)) as [L1 [L2 [L3 [L4 [L5 L6]]]]].
  constructor.
  - intros k r Hk. destruct (Hp _ _ Hk) as [-> Hk0].
    rewrite HhB, L1. apply (wf_keys _ Hwf _ _ Hk0).
  - intros k r Hk. destruct (Hp _ _ Hk) as [-> Hk0]. rewrite HnB. lia.
  - intros k r Hk. destruct (Hp _ _ Hk) as [-> Hk0].
    rewrite HhB, L3, L4, Hlen. lia.
  - intros k r Hk. destruct (Hp _ _ Hk) as [-> Hk0].
    rewrite HhB, L5. lra.
  - intros k r Hk. destruct (Hp _ _ Hk) as [-> Hk0].
    rewrite HhB, L2. apply (wf_time _ Hwf _ _ Hk0).
  - intros k r Hk. destruct (Hp _ _ Hk) as [-> Hk0].
    rewrite HhB, L6.
    destruct (wf_quality _ Hwf _ _ Hk0) as [Hne Hq]. split.
    + destruct (materials (heap siteA 0)); [congruence | discriminate].
    + rewrite map_map. exact Hq.
  - apply (wf_efficiency _ Hwf).
  - apply (wf_weather _ Hwf).
  - apply (wf_economic _ Hwf).
Qed.

Lemma material_shortage_delays_witness :
  projects siteA !! b_id house = Some 0%nat
  /\ nth_error (phases (heap siteA 0)) (currentPhase (heap siteA 0))
     = Some foundation
  /\ exists b' s',
       updateConstruction house 1 siteA = Ok (b', s')
       /\ isDelayed (heap s' 0) = true
       /\ actualProgress (heap s' 0) = actualProgress (heap siteA 0)
       /\ currentPhase (heap s' 0) = currentPhase (heap siteA 0).
Proof.
  assert (Hp : projects siteA !! b_id house = Some 0%nat)
    by (vm_compute; reflexivity).
  assert (Hph : nth_error (phases (heap siteA 0)) (currentPhase (heap siteA 0))
                = Some foundation) by (vm_compute; reflexivity).
  split; [exact Hp |]. split; [exact Hph |].
  destruct (material_shortage_delays house 1 siteA 0 foundation
              "concrete"%string Hp Hph)
    as [b' [s' [Hrun [Hd [_ [Ha [_ [Hc _]]]]]]]].
  - apply list_elem_of_here.
  - eexists. split; [vm_compute; reflexivity |].
    left. vm_compute. reflexivity.
  - exists b', s'. repeat split; assumption.
Defined.

Lemma completion_releases_witness :
  actualProgress (heap siteB 0) < 1
  /\ Exists (fun w => assignedProjectId w = Some (b_id house)) (workers siteB)
  /\ exists b' s',
       updateConstruction house 86400 siteB = Ok (b', s')
       /\ 1 <= actualProgress (heap s' 0)
       /\ status b' = operational
       /\ constructionProgress b' = 1
       /\ Forall (fun w => assignedProjectId w <> Some (b_id house))
            (workers s')
       /\ projects s' !! b_id house = None.
Proof.
  assert (Hlt : actualProgress (heap siteB 0) < 1) by (vm_compute; reflexivity).
  split; [exact Hlt |].
  split.
  { assert (He : existsb
                   (fun w => bool_decide (assignedProjectId w = Some (b_id house)))
                   (workers siteB) = true) by (vm_compute; reflexivity).
    apply existsb_exists in He. destruct He as [w [Hin Hw]].
    apply List.Exists_exists. exists w. split; [exact Hin |].
    apply bool_decide_eq_true in Hw. exact Hw. }
  destruct (completion_releases house 86400 siteB 0 (proj1 siteB_wf)
              (proj2 siteB_wf))
    as [b' [s' [Hrun Hdone]]].
  - vm_compute. reflexivity.
  - exact Hlt.
  - assert (Hv : match updateConstruction house 86400 siteB with
                 | Ok (_, s) => Qle_bool 1 (actualProgress (heap s 0))
                 | _ => false
                 end = true) by (vm_compute; reflexivity).
    rewrite Hrun in Hv. apply Qle_bool_iff in Hv.
    exists b', s'. split; [exact Hrun |]. split; [exact Hv |].
    destruct (Hdone Hv) as [Hs [Hc [Hw [_ [Hp _]]]]].
    repeat split; assumption.
Defined.

Lemma progress_monotone_witness :
  Forall (fun c => 0 <= snd c) [(house, 1); (house, 86400)]
  /\ exists s',
       updateAll [(house, 1); (house, 86400)] siteB = Ok s'
       /\ wf s'
       /\ exists sm,
            updateAll [(house, 1)] siteB = Ok sm
            /\ actualProgress (heap siteB 0) <= actualProgress (heap sm 0)
            /\ actualProgress (heap sm 0) <= actualProgress (heap s' 0)
            /\ actualProgress (heap s' 0) <= 1
            /\ actualProgress (heap siteB 0) < actualProgress (heap s' 0).
Proof.
  assert (Hd : Forall (fun c : Building * Q => 0 <= snd c)
                 [(house, 1); (house, 86400)]).
  { repeat constructor; cbn [snd]; lra. }
  split; [exact Hd |].
  destruct (progress_monotone [(house, 1); (house, 86400)] siteB
              (proj1 siteB_wf) (proj2 siteB_wf) Hd)
    as [s' [Hrun [Hwf Hcut]]].
  exists s'. split; [exact Hrun |]. split; [exact Hwf |].
  destruct (Hcut [(house, 1)] [(house, 86400)] eq_refl)
    as [sm [Hb [_ Hall]]].
  exists sm. split; [exact Hb |].
  destruct (Hall (b_id house) 0%nat) as [H1 [H2 [H3 _]]].
  - vm_compute. reflexivity.
  - assert (Hv : match updateAll [(house, 1); (house, 86400)] siteB with
                 | Ok s => Qltb (actualProgress (heap siteB 0))
                             (actualProgress (heap s 0))
                 | _ => false
                 end = true) by (vm_compute; reflexivity).
    rewrite Hrun in Hv. apply Qltb_true in Hv.
    repeat split; assumption.
Defined.


(** *** Cancelling a project *)

Lemma releaseWorker_spec (pid : string) (w : ConstructionWorker) :
  assignedProjectId (releaseWorker pid w) <> Some pid
  /\ w_id (releaseWorker pid w) = w_id w
  /\ efficiency (releaseWorker pid w) = efficiency w
  /\ (assignedProjectId w = Some pid ->
      availability (releaseWorker pid w) = true
      /\ assignedProjectId (releaseWorker pid w) = None)
  /\ (assignedProjectId w <> Some pid -> releaseWorker pid w = w).
Proof.
  unfold releaseWorker.
  destruct (bool_decide (assignedProjectId w = Some pid)) eqn:Hb.
  - apply bool_decide_eq_true_1 in Hb. cbn.
    split; [discriminate |]. split; [reflexivity |]. split; [reflexivity |].
    split; [intros _; split; reflexivity | intros Hne; contradiction].
  - apply bool_decide_eq_false_1 in Hb.
    split; [exact Hb |]. split; [reflexivity |]. split; [reflexivity |].
    split; [intros Heq; contradiction | intros _; reflexivity].
Qed.

(** [cancelProject] of an id that is not active returns false and changes
    nothing.  For an active id it returns true: the id leaves the project map
    and the other ids stay; every worker of the project becomes available
    with no assignment and the other workers are untouched, so no worker is
    left assigned to the id; the project objects and the completed list are
    unchanged.  Afterwards a second [cancelProject] returns false and
    [updateConstruction] for a building of that id does nothing. *)
Theorem cancelProject_releases (pid : string) (s : ConstructionSystem) :
  (projects s !! pid = None -> cancelProject pid s = (false, s))
  /\ (forall r, projects s !! pid = Some r ->
      let s' := snd (cancelProject pid s) in
      fst (cancelProject pid s) = true
      /\ projects s' !! pid = None
      /\ (forall k, k <> pid -> projects s' !! k = projects s !! k)
      /\ Forall (fun w => assignedProjectId w <> Some pid) (workers s')
      /\ Forall2
           (fun w w' =>
              w_id w' = w_id w
              /\ (assignedProjectId w = Some pid ->
                  availability w' = true /\ assignedProjectId w' = None)
              /\ (assignedProjectId w <> Some pid -> w' = w))
           (workers s) (workers s')
      /\ heap s' = heap s
      /\ completedProjects s' = completedProjects s
      /\ fst (cancelProject pid s') = false
      /\ forall building deltaTime,
           b_id building = pid ->
           updateConstruction building deltaTime s' = Ok (building, s')).
Proof.
  split.
  - intros Hnone. unfold cancelProject. rewrite Hnone. reflexivity.
  - intros r Hr. unfold cancelProject. rewrite Hr. cbn [fst snd].
    cbn [projects workers heap completedProjects with_projects with_workers].
    split; [reflexivity |].
    split; [apply lookup_delete_eq |].
    split; [intros k Hk; apply lookup_delete_ne; congruence |].
    split.
    { apply List.Forall_forall. intros w Hw. apply in_map_iff in Hw.
      destruct Hw as [w0 [<- _]]. apply releaseWorker_spec. }
    split.
    { induction (workers s) as [| w ws IH]; [constructor |].
      cbn [map]. constructor; [| exact IH].
      destruct (releaseWorker_spec pid w) as [_ [H1 [_ [H2 H3]]]].
      split; [exact H1 |]. split; [exact H2 | exact H3]. }
    split; [reflexivity |]. split; [reflexivity |].
    split.
    + cbn [projects with_projects with_workers]. rewrite lookup_delete_eq.
      reflexivity.
    + intros building deltaTime Hb. unfold updateConstruction.
      cbn [projects with_projects with_workers].
      rewrite Hb, lookup_delete_eq. reflexivity.
Qed.

(** *** Starting a project *)

Lemma assignWorkers_open (pid : string) (r : nat) (s : ConstructionSystem)
  (phase : ConstructionPhase) :
  projects s !! pid = Some r ->
  nth_error (phases (heap s r)) (currentPhase (heap s r)) = Some phase ->
  let k :=
    sliceCount (Z.min (requiredWorkers phase) (maxWorkers (heap s r)))
      (List.length (List.filter (workerMatches phase) (workers s))) in
  assignWorkers pid s
  = Ok (upd r (fun p => set_p_workers p (ofNat k))
          (with_workers s (assignFirst k phase pid (workers s)))).
Proof.
  intros Hp Hph. unfold assignWorkers. rewrite Hp, Hph. reflexivity.
Qed.

Lemma orderMaterials_open (pid : string) (r : nat) (s : ConstructionSystem)
  (phase : ConstructionPhase) :
  projects s !! pid = Some r ->
  nth_error (phases (heap s r)) (currentPhase (heap s r)) = Some phase ->
  orderMaterials pid s
  = Ok (with_oracle
          (upd r (fun p =>
                    set_materials p
                      (fst (orderLoop phase (materials (heap s r)) (oracle s))))
             s)
          (snd (orderLoop phase (materials (heap s r)) (oracle s)))).
Proof.
  intros Hp Hph. unfold orderMaterials. rewrite Hp, Hph.
  destruct (orderLoop phase (materials (heap s r)) (oracle s)). reflexivity.
Qed.

(** The materials as [calculateMaterialRequirements] makes them: one per
    requirement, in order, nothing delivered and nothing ordered. *)
Lemma materialsFor_fresh (s : ConstructionSystem) (reqs : list (string * Q)) :
  forall o,
    map m_type (fst (materialsFor s reqs o)) = map fst reqs
    /\ map required (fst (materialsFor s reqs o)) = map snd reqs
    /\ Forall (fun m => delivered m = 0 /\ deliveryDate m = None)
         (fst (materialsFor s reqs o)).
Proof.
  induction reqs as [| [type req] rest IH]; intros o.
  - repeat split; constructor.
  - cbn [materialsFor]. unfold Math_random. cbn [fst snd].
    match goal with
    | |- context [materialsFor s rest ?o'] =>
        destruct (IH o') as [H1 [H2 H3]];
        destruct (materialsFor s rest o') as [rest' o2]
    end.
    cbn [fst snd map m_type required] in *.
    split; [f_equal; exact H1 |]. split; [f_equal; exact H2 |].
    constructor; [split; reflexivity | exact H3].
Qed.

(** [orderMaterials] writes delivery dates only: a material gets one only
    when the phase requires it and less than its requirement is delivered. *)
Lemma orderLoop_orders (phase : ConstructionPhase)
  (ms : list ConstructionMaterial) :
  forall o,
    Forall2
      (fun m m' =>
         m_type m' = m_type m /\ required m' = required m
         /\ delivered m' = delivered m
         /\ (deliveryDate m' = deliveryDate m
             \/ (In (m_type m) (requiredMaterials phase)
                 /\ delivered m < required m
                 /\ exists d, deliveryDate m' = Some d)))
      ms (fst (orderLoop phase ms o)).
Proof.
  induction ms as [| m rest IH]; intros o; cbn [orderLoop].
  - constructor.
  - destruct (existsb (String.eqb (m_type m)) (requiredMaterials phase)
              && Qltb (delivered m) (required m)) eqn:Hc.
    + unfold Math_random, Date_now. cbn [fst snd].
      match goal with
      | |- context [orderLoop phase rest ?o'] =>
          pose proof (IH o') as H; destruct (orderLoop phase rest o') as [rest' o3]
      end.
      cbn [fst] in *. constructor; [| exact H].
      apply andb_true_iff in Hc. destruct Hc as [He Hl].
      apply existsb_exists in He. destruct He as [t [Hin Ht]].
      apply String.eqb_eq in Ht. subst t. apply Qltb_true in Hl.
      repeat split. right. split; [exact Hin |]. split; [exact Hl |].
      eexists. reflexivity.
    + pose proof (IH o) as H. destruct (orderLoop phase rest o) as [rest' o3].
      cbn [fst] in *. constructor; [| exact H].
      repeat split. left. reflexivity.
Qed.

(** A project whose first material is the one its first phase asks for
    first, not ordered or less than half delivered, at progress 0. *)
Definition starved (p : ConstructionProject) : Prop :=
  currentPhase p = 0%nat
  /\ actualProgress p = 0
  /\ (exists ph phs t ts,
        phases p = ph :: phs /\ requiredMaterials ph = t :: ts
        /\ exists m ms,
             materials p = m :: ms /\ m_type m = t
             /\ (deliveryDate m = None \/ delivered m < required m * (1 # 2))).

Definition flagged (p : ConstructionProject) : Prop :=
  isDelayed p = true /\ delayReason p = Some "Material shortage"%string.

Lemma updateConstruction_starved (building : Building) (deltaTime : Q)
  (s : ConstructionSystem) (r : nat) :
  projects s !! b_id building = Some r ->
  starved (heap s r) ->
  exists b' s',
    updateConstruction building deltaTime s = Ok (b', s')
    /\ projects s' = projects s /\ workers s' = workers s
    /\ completedProjects s' = completedProjects s
    /\ nextRef s' = nextRef s
    /\ starved (heap s' r) /\ flagged (heap s' r)
    /\ (forall r', r' <> r -> heap s' r' = heap s r')
    /\ constructionProgress b' = 0 /\ status b' = status building.
Proof.
  intros Hproj [Hcur [Hprog [ph [phs [t [ts [Hph [Hreq [m [ms [Hms [Ht Hshort]]]]]]]]]]]].
  unfold updateConstruction. rewrite Hproj.
  unfold Date_now. cbn [fst snd].
  set (s1 := upd r _ (with_oracle s _)).
  assert (Hh1 : phases (heap s1 r) = phases (heap s r)
                /\ currentPhase (heap s1 r) = currentPhase (heap s r)
                /\ materials (heap s1 r) = materials (heap s r)
                /\ actualProgress (heap s1 r) = actualProgress (heap s r)).
  { unfold s1. rewrite heap_upd_same. repeat split. }
  destruct Hh1 as [Hp1 [Hc1 [Hm1 Ha1]]].
  rewrite Hc1, Hp1, Hcur, Hph, Hm1, Hms. cbn [nth_error]. rewrite Hreq.
  assert (Hchk : forall o,
            fst (checkMaterialAvailability (m :: ms) (t :: ts) o) = false).
  { intros o. cbn [checkMaterialAvailability List.find].
    rewrite Ht, String.eqb_refl.
    destruct (deliveryDate m) as [d |] eqn:Hd; [| reflexivity].
    destruct (Qeq_bool d 0); [reflexivity |].
    unfold Date_now.
    destruct Hshort as [Hnone | Hlow]; [discriminate |].
    assert (Hg : Qgeb (delivered m) (required m * (1 # 2)) = false)
      by (apply Qleb_false; exact Hlow).
    rewrite Hg, andb_false_r. reflexivity. }
  specialize (Hchk (oracle s1)).
  destruct (checkMaterialAvailability (m :: ms) (t :: ts) (oracle s1))
    as [avail o1].
  cbn [fst] in Hchk. subst avail. cbn [negb].
  eexists. eexists. split; [reflexivity |].
  split; [reflexivity |]. split; [reflexivity |]. split; [reflexivity |].
  split; [reflexivity |].
  assert (Hfin : heap (upd r (delay "Material shortage") (with_oracle s1 o1)) r
                 = delay "Material shortage" (heap s1 r))
    by (rewrite heap_upd_same; reflexivity).
  split.
  { rewrite Hfin. unfold starved, delay. 
    cbn [currentPhase actualProgress phases materials set_delayReason
         set_isDelayed].
    rewrite Hc1, Ha1, Hp1, Hm1.
    split; [exact Hcur |]. split; [exact Hprog |].
    exists ph, phs, t, ts. split; [exact Hph |]. split; [exact Hreq |].
    exists m, ms. split; [exact Hms |]. split; [exact Ht | exact Hshort]. }
  split; [rewrite Hfin; split; reflexivity |].
  split.
  { intros r' Hne. rewrite heap_upd. 
    destruct (Nat.eqb_spec r' r) as [-> | _]; [contradiction |].
    cbn [heap with_oracle]. unfold s1. rewrite heap_upd.
    destruct (Nat.eqb_spec r' r) as [-> | _]; [contradiction | reflexivity]. }
  split; [| reflexivity].
  cbn [constructionProgress b_set_constructionProgress].
  rewrite Hfin. unfold delay.
  cbn [actualProgress set_delayReason set_isDelayed].
  rewrite Ha1. exact Hprog.
Qed.

Lemma updateAll_starved (pid : string) (r : nat) (calls : list (Building * Q)) :
  forall s,
    projects s !! pid = Some r ->
    starved (heap s r) ->
    Forall (fun c => b_id (fst c) = pid \/ projects s !! b_id (fst c) = None)
      calls ->
    exists s',
      updateAll calls s = Ok s'
      /\ projects s' = projects s /\ workers s' = workers s
      /\ completedProjects s' = completedProjects s
      /\ nextRef s' = nextRef s
      /\ starved (heap s' r)
      /\ (forall r', r' <> r -> heap s' r' = heap s r')
      /\ (flagged (heap s r) \/ Exists (fun c => b_id (fst c) = pid) calls ->
          flagged (heap s' r)).
Proof.
  induction calls as [| [b dt] rest IH]; intros s Hp Hst Hall.
  - exists s. cbn [updateAll]. split; [reflexivity |].
    split; [reflexivity |]. split; [reflexivity |]. split; [reflexivity |].
    split; [reflexivity |]. split; [exact Hst |].
    split; [intros r' _; reflexivity |].
    intros [Hf | Hex]; [exact Hf | inversion Hex].
  - inversion Hall as [| ? ? Hhead Htail]; subst. cbn [fst] in Hhead.
    cbn [updateAll].
    destruct Hhead as [Hb | Hnone].
    + rewrite <- Hb in Hp.
      destruct (updateConstruction_starved b dt s r Hp Hst)
        as [b' [s1 [Hrun [E1 [E2 [E3 [E4 [Hst1 [Hfl1 [Hh1 _]]]]]]]]]].
      rewrite Hrun. cbn [bind].
      destruct (IH s1) as [s2 [Hrun2 [F1 [F2 [F3 [F4 [Hst2 [Hh2 Hfl2]]]]]]]].
      * rewrite E1, <- Hb. exact Hp.
      * exact Hst1.
      * rewrite E1. exact Htail.
      * exists s2. split; [exact Hrun2 |].
        split; [congruence |]. split; [congruence |]. split; [congruence |].
        split; [congruence |]. split; [exact Hst2 |].
        split; [intros r' Hne; rewrite Hh2, Hh1 by exact Hne; reflexivity |].
        intros _. apply Hfl2. left. exact Hfl1.
    + unfold updateConstruction at 1. rewrite Hnone. cbn [bind].
      destruct (IH s Hp Hst Htail)
        as [s2 [Hrun2 [F1 [F2 [F3 [F4 [Hst2 [Hh2 Hfl2]]]]]]]].
      exists s2. split; [exact Hrun2 |].
      repeat (split; [assumption |]).
      intros [Hf | Hex]; [apply Hfl2; left; exact Hf |].
      apply Hfl2. right. apply Exists_cons in Hex.
      destruct Hex as [Hhere | Hthere]; [| exact Hthere].
      cbn [fst] in Hhere. rewrite Hhere in Hnone. rewrite Hnone in Hp.
      discriminate.
Qed.

Section StartFacts.
Variable projectIdOf : Q -> Q -> string.

(** What [startConstruction] returns and the project object it makes. *)
Lemma startConstruction_fresh (building : Building) (bp : BuildingBlueprint)
  (pos : Vector3) (rot : Q) (s : ConstructionSystem) :
  exists pid s',
    startConstruction projectIdOf building bp pos rot s = Ok (pid, s')
    /\ pid = projectIdOf (now_reads (oracle s) (now_pos (oracle s)))
               (rand_draws (oracle s) (rand_pos (oracle s)))
    /\ projects s' = <[pid := nextRef s]> (projects s)
    /\ nextRef s' = S (nextRef s)
    /\ completedProjects s' = completedProjects s
    /\ (forall r, r <> nextRef s -> heap s' r = heap s r)
    /\ Forall2 (wrel pid) (workers s) (workers s')
    /\ (let p := heap s' (nextRef s) in
        proj_id p = pid /\ buildingId p = b_id building /\ blueprint p = bp
        /\ actualProgress p = 0 /\ currentPhase p = 0%nat
        /\ isDelayed p = false /\ totalCostPaid p = 0
        /\ phases p = generateConstructionPhases bp
        /\ maxWorkers p = calculateOptimalWorkerCount bp
        /\ 0 <= p_workers p /\ p_workers p <= 4
        /\ map m_type (materials p) = map fst (materialRequirements bp)
        /\ map required (materials p) = map snd (materialRequirements bp)
        /\ Forall (fun m => delivered m = 0) (materials p)
        /\ Forall (fun m =>
                     deliveryDate m <> None ->
                     (m_type m = "concrete"%string \/ m_type m = "steel"%string)
                     /\ 0 < required m)
             (materials p)).
Proof.
  unfold startConstruction, Date_now, Math_random. cbn [fst snd].
  match goal with
  | |- context [materialsFor s (materialRequirements bp) ?o'] =>
      destruct (materialsFor_fresh s (materialRequirements bp) o')
        as [Mt [Mr Md]];
      destruct (materialsFor s (materialRequirements bp) o') as [ms o2]
  end.
  cbn [fst snd] in Mt, Mr, Md.
  set (pid := projectIdOf _ _).
  match goal with
  | |- context [assignWorkers pid ?s1'] => set (s1 := s1')
  end.
  assert (Hp1 : projects s1 !! pid = Some (nextRef s)).
  { unfold s1. cbn [projects with_projects]. apply lookup_insert_eq. }
  assert (Hh1 : forall r, heap s1 r
                = if Nat.eqb r (nextRef s) then heap s1 (nextRef s) else heap s r).
  { intros r. unfold s1.
    cbn [heap with_heap with_projects with_nextRef with_oracle].
    rewrite Nat.eqb_refl. reflexivity. }
  assert (Hnew : currentPhase (heap s1 (nextRef s)) = 0%nat
                 /\ phases (heap s1 (nextRef s)) = generateConstructionPhases bp
                 /\ materials (heap s1 (nextRef s)) = ms
                 /\ proj_id (heap s1 (nextRef s)) = pid
                 /\ blueprint (heap s1 (nextRef s)) = bp
                 /\ actualProgress (heap s1 (nextRef s)) = 0
                 /\ buildingId (heap s1 (nextRef s)) = b_id building
                 /\ isDelayed (heap s1 (nextRef s)) = false
                 /\ totalCostPaid (heap s1 (nextRef s)) = 0
                 /\ maxWorkers (heap s1 (nextRef s))
                    = calculateOptimalWorkerCount bp).
  { unfold s1.
    cbn [heap with_heap with_projects with_nextRef with_oracle].
    rewrite Nat.eqb_refl. repeat split. }
  destruct Hnew as [Hc [Hph [Hms [Hid [Hbp [Hprog [Hbid [Hdel [Hpaid Hmax]]]]]]]]].
  assert (Hrest1 : projects s1 = <[pid := nextRef s]> (projects s)
                   /\ nextRef s1 = S (nextRef s)
                   /\ completedProjects s1 = completedProjects s
                   /\ workers s1 = workers s) by (repeat split).
  destruct Hrest1 as [Hpr1 [Hn1 [Hcp1 Hw1]]].
  set (phase := mkPhase "Foundation" "Site preparation and foundation work"
                  (constructionTime bp * (2 # 10)) 0 (2 # 10)
                  ["concrete"; "steel"]%string 4 false None true).
  assert (Hnth1 : nth_error (phases (heap s1 (nextRef s)))
                    (currentPhase (heap s1 (nextRef s))) = Some phase)
    by (rewrite Hc, Hph; reflexivity).
  rewrite (assignWorkers_open pid (nextRef s) s1 phase Hp1 Hnth1). cbn [bind].
  set (k := sliceCount _ _).
  assert (Hk : (k <= 4)%nat).
  { unfold k, sliceCount. rewrite Hmax. cbn [requiredWorkers phase].
    unfold calculateOptimalWorkerCount.
    destruct (Z.min 4 _ <? 0)%Z eqn:E; [apply Z.ltb_lt in E; lia |]. lia. }
  clearbody k.
  set (s2 := upd (nextRef s) _ (with_workers s1 _)).
  assert (Hp2 : projects s2 !! pid = Some (nextRef s)) by exact Hp1.
  assert (Hh2 : heap s2 (nextRef s)
                = set_p_workers (heap s1 (nextRef s)) (ofNat k))
    by (unfold s2; rewrite heap_upd_same; reflexivity).
  assert (Hnth2 : nth_error (phases (heap s2 (nextRef s)))
                    (currentPhase (heap s2 (nextRef s))) = Some phase)
    by (rewrite Hh2; exact Hnth1).
  rewrite (orderMaterials_open pid (nextRef s) s2 phase Hp2 Hnth2). cbn [bind].
  pose proof (orderLoop_orders phase (materials (heap s2 (nextRef s)))
                (oracle s2)) as Hord.
  destruct (orderLoop phase (materials (heap s2 (nextRef s))) (oracle s2))
    as [ms' o3].
  cbn [fst snd] in *.
  assert (Hm2 : materials (heap s2 (nextRef s)) = ms)
    by (rewrite Hh2; exact Hms).
  rewrite Hm2 in Hord.
  exists pid. eexists. split; [reflexivity |].
  split; [reflexivity |]. split; [exact Hpr1 |]. split; [exact Hn1 |].
  split; [exact Hcp1 |].
  split.
  { intros r Hne. cbn [heap with_oracle]. rewrite heap_upd.
    destruct (Nat.eqb_spec r (nextRef s)) as [-> | _]; [contradiction |].
    unfold s2. rewrite heap_upd.
    destruct (Nat.eqb_spec r (nextRef s)) as [-> | _]; [contradiction |].
    cbn [heap with_workers]. rewrite Hh1.
    destruct (Nat.eqb_spec r (nextRef s)) as [-> | _]; [contradiction |].
    reflexivity. }
  split.
  { cbn [workers with_oracle upd with_heap]. unfold s2.
    cbn [workers upd with_heap with_workers]. rewrite Hw1.
    apply assignFirst_wrel. }
  cbv zeta. cbn [heap with_oracle]. rewrite heap_upd_same, Hh2.
  cbn [proj_id buildingId blueprint actualProgress currentPhase isDelayed
       totalCostPaid phases maxWorkers p_workers materials set_materials
       set_p_workers].
  split; [exact Hid |]. split; [exact Hbid |]. split; [exact Hbp |].
  split; [exact Hprog |]. split; [exact Hc |]. split; [exact Hdel |].
  split; [exact Hpaid |]. split; [exact Hph |]. split; [exact Hmax |].
  split; [apply ofNat_nonneg |].
  split; [unfold ofNat; change 4 with (inject_Z 4); rewrite <- Zle_Qle; lia |].
  clear - Mt Mr Md Hord.
  revert Mt Mr. generalize (materialRequirements bp). intros reqs Mt Mr.
  revert reqs Mt Mr.
  induction Hord as [| m m' l l' [H1 [H2 [H3 H4]]] _ IH]; intros reqs Mt Mr.
  - repeat split; try assumption; constructor.
  - inversion Md as [| ? ? [Hd0 Hdn] Md']; subst.
    destruct reqs as [| [t q] reqs]; [discriminate |].
    cbn [map fst snd] in Mt, Mr. inversion Mt. inversion Mr.
    destruct (IH Md' reqs ltac:(assumption) ltac:(assumption))
      as [I1 [I2 [I3 I4]]].
    cbn [map fst snd].
    split; [rewrite H1, I1; reflexivity |].
    split; [rewrite H2, I2; reflexivity |].
    split; [constructor; [congruence | exact I3] |].
    constructor; [| exact I4].
    intros Hsome. destruct H4 as [Hsame | [Hin [Hlt _]]].
    + rewrite Hsame, Hdn in Hsome. contradiction.
    + rewrite H1, H2. split.
      * cbn [requiredMaterials phase] in Hin.
        destruct Hin as [<- | [<- | []]]; [left | right]; reflexivity.
      * rewrite Hd0 in Hlt. exact Hlt.
Qed.

Lemma startConstruction_starved (building : Building) (bp : BuildingBlueprint)
  (pos : Vector3) (rot : Q) (s : ConstructionSystem) (pid : string)
  (s' : ConstructionSystem) :
  startConstruction projectIdOf building bp pos rot s = Ok (pid, s') ->
  projects s' !! pid = Some (nextRef s) /\ starved (heap s' (nextRef s)).
Proof.
  intros Hrun.
  destruct (startConstruction_fresh building bp pos rot s)
    as [pid0 [s0 [Hrun0 [_ [Hpr [_ [_ [_ [_ Hp]]]]]]]]].
  rewrite Hrun in Hrun0. inversion Hrun0; subst pid0 s0. clear Hrun0.
  split; [rewrite Hpr; apply lookup_insert_eq |].
  cbv zeta in Hp.
  destruct Hp as [_ [_ [_ [Hprog [Hc [_ [_ [Hph [_ [_ [_ [Mt [Mr [Md Mo]]]]]]]]]]]]]].
  unfold starved. split; [exact Hc |]. split; [exact Hprog |].
  rewrite Hph. unfold generateConstructionPhases.
  eexists. eexists. exists "concrete"%string. eexists.
  split; [reflexivity |]. split; [reflexivity |].
  destruct (materials (heap s' (nextRef s))) as [| m ms]; [discriminate |].
  exists m, ms. split; [reflexivity |].
  cbn [map materialRequirements fst] in Mt.
  assert (Ht : m_type m = "concrete"%string) by congruence.
  split; [exact Ht |].
  inversion Md as [| ? ? Hd0 _]; subst.
  inversion Mo as [| ? ? Ho _]; subst.
  destruct (deliveryDate m) as [d |] eqn:Hd; [| left; reflexivity].
  right. destruct (Ho ltac:(discriminate)) as [_ Hpos]. rewrite Hd0. lra.
Qed.

(** [startConstruction] always returns.  The project is active under a new
    id made from the clock and a random number, not under the id of the
    building; it starts at progress 0 in phase 0, not delayed, with the four
    phases of the blueprint, between 0 and 4 workers, and one material per
    requirement with nothing delivered; only concrete and steel, the
    materials of the first phase, can have a delivery date, and only when
    their requirement is positive.  The other project objects, the other
    ids and the completed list are unchanged, and a worker is either
    unchanged or now assigned to the new project. *)
Theorem startConstruction_registers (building : Building)
  (bp : BuildingBlueprint) (pos : Vector3) (rot : Q) (s : ConstructionSystem) :
  exists pid s',
    startConstruction projectIdOf building bp pos rot s = Ok (pid, s')
    /\ pid = projectIdOf (now_reads (oracle s) (now_pos (oracle s)))
               (rand_draws (oracle s) (rand_pos (oracle s)))
    /\ projects s' !! pid = Some (nextRef s)
    /\ (forall k, k <> pid -> projects s' !! k = projects s !! k)
    /\ completedProjects s' = completedProjects s
    /\ (forall r, r <> nextRef s -> heap s' r = heap s r)
    /\ Forall2
         (fun w w' =>
            efficiency w' = efficiency w
            /\ (w' = w \/ assignedProjectId w' = Some pid))
         (workers s) (workers s')
    /\ (let p := heap s' (nextRef s) in
        proj_id p = pid /\ buildingId p = b_id building /\ blueprint p = bp
        /\ actualProgress p = 0 /\ currentPhase p = 0%nat
        /\ isDelayed p = false /\ totalCostPaid p = 0
        /\ phases p = generateConstructionPhases bp
        /\ List.length (phases p) = 4%nat
        /\ (2 <= maxWorkers p <= 12)%Z
        /\ 0 <= p_workers p /\ p_workers p <= 4
        /\ map m_type (materials p)
           = ["concrete"; "steel"; "lumber"; "brick"; "glass"; "electrical";
              "plumbing"; "roofing"; "insulation"; "flooring"]%string
        /\ Forall (fun m => delivered m = 0) (materials p)
        /\ Forall (fun m =>
                     deliveryDate m <> None ->
                     (m_type m = "concrete"%string \/ m_type m = "steel"%string)
                     /\ 0 < required m)
             (materials p)).
Proof.
  destruct (startConstruction_fresh building bp pos rot s)
    as [pid [s' [Hrun [Hpid [Hpr [_ [Hcp [Hheap [Hw Hp]]]]]]]]].
  exists pid, s'. split; [exact Hrun |]. split; [exact Hpid |].
  split; [rewrite Hpr; apply lookup_insert_eq |].
  split; [intros k Hk; rewrite Hpr; apply lookup_insert_ne; congruence |].
  split; [exact Hcp |]. split; [exact Hheap |]. split; [exact Hw |].
  cbv zeta in *.
  destruct Hp as [P1 [P2 [P3 [P4 [P5 [P6 [P7 [P8 [P9 [P10 [P11 [P12 [_ [P14 P15]]]]]]]]]]]]]].
  split; [exact P1 |]. split; [exact P2 |]. split; [exact P3 |].
  split; [exact P4 |]. split; [exact P5 |]. split; [exact P6 |].
  split; [exact P7 |].
  split; [exact P8 |]. split; [rewrite P8; reflexivity |].
  split; [rewrite P9; unfold calculateOptimalWorkerCount; lia |].
  split; [exact P10 |]. split; [exact P11 |].
  split; [rewrite P12; reflexivity |].
  split; [exact P14 | exact P15].
Qed.

(** A project made by [startConstruction] never progresses: whatever the
    blueprint, its concrete is either not ordered (requirement not positive)
    or less than half delivered, and nothing raises [delivered].  Every
    sequence of [updateConstruction] calls, each for a building with the
    project's id or for a building without a project, returns and leaves the
    project active at progress 0 in phase 0 with the same workers and the
    same completed list; once a call was for the project it is marked
    delayed with reason Material shortage. *)
Theorem started_project_starves (building : Building)
  (bp : BuildingBlueprint) (pos : Vector3) (rot : Q) (s : ConstructionSystem) :
  exists pid s',
    startConstruction projectIdOf building bp pos rot s = Ok (pid, s')
    /\ forall calls,
         Forall (fun c => b_id (fst c) = pid
                          \/ projects s' !! b_id (fst c) = None) calls ->
         exists s'',
           updateAll calls s' = Ok s''
           /\ projects s'' = projects s'
           /\ projects s'' !! pid = Some (nextRef s)
           /\ workers s'' = workers s'
           /\ completedProjects s'' = completedProjects s'
           /\ actualProgress (heap s'' (nextRef s)) = 0
           /\ currentPhase (heap s'' (nextRef s)) = 0%nat
           /\ (Exists (fun c => b_id (fst c) = pid) calls ->
               isDelayed (heap s'' (nextRef s)) = true
               /\ delayReason (heap s'' (nextRef s))
                  = Some "Material shortage"%string).
Proof.
  destruct (startConstruction_fresh building bp pos rot s)
    as [pid [s' [Hrun _]]].
  exists pid, s'. split; [exact Hrun |].
  destruct (startConstruction_starved building bp pos rot s pid s' Hrun)
    as [Hp Hst].
  intros calls Hall.
  destruct (updateAll_starved pid (nextRef s) calls s' Hp Hst Hall)
    as [s2 [Hrun2 [F1 [F2 [F3 [_ [[Hc [Ha _]] [_ Hfl]]]]]]]].
  exists s2. split; [exact Hrun2 |]. split; [exact F1 |].
  split; [rewrite F1; exact Hp |]. split; [exact F2 |]. split; [exact F3 |].
  split; [exact Ha |]. split; [exact Hc |].
  intros Hex. apply Hfl. right. exact Hex.
Qed.

End StartFacts.

Lemma started_project_starves_witness :
  exists s'',
    updateAll [(house, 86400); (house, 86400)] siteA = Ok s''
    /\ projects s'' !! b_id house = Some 0%nat
    /\ actualProgress (heap s'' 0) = 0
    /\ isDelayed (heap s'' 0) = true.
Proof.
  destruct (started_project_starves (fun _ _ => b_id house) house cottage
              (mkV3 0 0 0) 0 freshSite) as [pid [s' [Hrun Hall]]].
  destruct (startConstruction_fresh (fun _ _ => b_id house) house cottage
              (mkV3 0 0 0) 0 freshSite) as [pid0 [s0 [Hrun0 [Hpid _]]]].
  assert (E : Ok (pid, s') = Ok (pid0, s0))
    by (rewrite <- Hrun, <- Hrun0; reflexivity).
  injection E as E1 E2.
  assert (Hid : pid = b_id house) by (rewrite E1, Hpid; reflexivity).
  assert (Hs : siteA = s') by (unfold siteA; rewrite Hrun; reflexivity).
  assert (Hn : nextRef freshSite = 0%nat) by (vm_compute; reflexivity).
  rewrite Hn in Hall. rewrite Hs.
  destruct (Hall [(house, 86400); (house, 86400)])
    as [s2 [Hrun2 [_ [Hp [_ [_ [Ha [_ Hd]]]]]]]].
  { constructor; [left; cbn [fst]; rewrite Hid; reflexivity |].
    constructor; [left; cbn [fst]; rewrite Hid; reflexivity | constructor]. }
  exists s2. split; [exact Hrun2 |].
  split; [rewrite <- Hid; exact Hp |]. split; [exact Ha |].
  apply Hd. apply Exists_cons_hd. cbn [fst]. rewrite Hid. reflexivity.
Defined.

(** *** Hiring and firing *)

Section Staff.
Variable workerIdOf : Q -> nat -> string.
Variable workerNameOf : nat -> string.

(** The [for] loop of [hireWorkers]; [n] workers are still to be hired. *)
Fixpoint hireLoop (n : nat) (spec : string) (ws : list ConstructionWorker)
  (o : Oracle) : list ConstructionWorker * Oracle :=
  match n with
  | O => (ws, o)
  | S n' =>
      let (r1, o) := Math_random o in
      let skillLevel' := 1 + r1 * 9 in
      let (t, o) := Date_now o in
      let (r2, o) := Math_random o in
      let worker :=
        mkWorker (workerIdOf t (List.length ws))
          (workerNameOf (List.length ws + 1)) skillLevel' spec
          ((6 # 10) + (skillLevel' / 10) * (4 # 10))
          (25000 + skillLevel' * 5000 + r2 * 5000) None true in
      hireLoop n' spec (ws ++ [worker]) o
  end.

(** [hireWorkers]: the loop [for (i = 0; i < count; i++)] runs once for every
    natural number below [count]. *)
Definition hireWorkers (count : Q) (spec : string) (s : ConstructionSystem)
  : Q * ConstructionSystem :=
  let n := Z.to_nat (Math_ceil count) in
  let (ws, o) := hireLoop n spec (workers s) (oracle s) in
  (ofNat n, with_oracle (with_workers s ws) o).

End Staff.

(** [this.workers.findIndex(w => w.id === workerId)] with the worker found. *)
Fixpoint findWorker (workerId : string) (ws : list ConstructionWorker)
  : option (nat * ConstructionWorker) :=
  match ws with
  | [] => None
  | w :: rest =>
      if String.eqb (w_id w) workerId then Some (0%nat, w)
      else match findWorker workerId rest with
           | Some (i, w') => Some (S i, w')
           | None => None
           end
  end.

(** [this.workers.splice(index, 1)]. *)
Definition spliceOut (i : nat) (ws : list ConstructionWorker)
  : list ConstructionWorker :=
  take i ws ++ drop (S i) ws.

(** [fireWorker]; an assignment is followed when it is a non-empty
    string. *)
Definition fireWorker (workerId : string) (s : ConstructionSystem)
  : bool * ConstructionSystem :=
  match findWorker workerId (workers s) with
  | None => (false, s)
  | Some (i, worker) =>
      let s :=
        match assignedProjectId worker with
        | Some pid =>
            if String.eqb pid "" then s
            else
              match projects s !! pid with
              | Some r =>
                  upd r (fun p => set_p_workers p (Math_max 0 (p_workers p - 1)))
                    s
              | None => s
              end
        | None => s
        end in
      (true, with_workers s (spliceOut i (workers s)))
  end.

(** [getAvailableWorkers]. *)
Definition getAvailableWorkers (s : ConstructionSystem)
  : list ConstructionWorker :=
  List.filter availability (workers s).

(** [updateWeatherConditions] and [updateEconomicConditions]. *)
Definition updateWeatherConditions (conditions : Q) (s : ConstructionSystem)
  : ConstructionSystem :=
  with_weatherConditions s (Math_max (1 # 10) (Math_min 1 conditions)).

Definition updateEconomicConditions (conditions : Q) (s : ConstructionSystem)
  : ConstructionSystem :=
  with_economicConditions s (Math_max (1 # 10) (Math_min (15 # 10) conditions)).

(** What [hireWorkers] makes of a new worker. *)
Definition recruit (spec : string) (w : ConstructionWorker) : Prop :=
  availability w = true /\ assignedProjectId w = None
  /\ specialization w = spec
  /\ efficiency w == (6 # 10) + skillLevel w * (4 # 100).

Definition recruitRanges (w : ConstructionWorker) : Prop :=
  1 <= skillLevel w /\ skillLevel w < 10
  /\ 64 # 100 <= efficiency w /\ efficiency w < 1
  /\ 30000 <= salary w /\ salary w < 80000.

Section StaffFacts.
Variable workerIdOf : Q -> nat -> string.
Variable workerNameOf : nat -> string.

Lemma hireLoop_spec (n : nat) (spec : string) :
  forall ws o,
    exists new,
      fst (hireLoop workerIdOf workerNameOf n spec ws o) = ws ++ new
      /\ List.length new = n
      /\ Forall (recruit spec) new
      /\ (random_ok o -> Forall recruitRanges new)
      /\ rand_draws (snd (hireLoop workerIdOf workerNameOf n spec ws o))
         = rand_draws o
      /\ now_reads (snd (hireLoop workerIdOf workerNameOf n spec ws o))
         = now_reads o.
Proof.
  induction n as [| n IH]; intros ws o.
  - exists []. cbn [hireLoop fst snd]. rewrite app_nil_r.
    repeat split; constructor.
  - cbn [hireLoop]. unfold Math_random, Date_now.
    cbn [fst snd rand_draws rand_pos now_reads now_pos].
    set (r1 := rand_draws o (rand_pos o)).
    set (r2 := rand_draws o (S (rand_pos o))).
    set (w := mkWorker _ _ _ _ _ _ _ _).
    match goal with
    | |- context [hireLoop _ _ n spec (ws ++ [w]) ?o'] =>
        destruct (IH (ws ++ [w]) o') as [new [H1 [H2 [H3 [H4 [H5 H6]]]]]]
    end.
    exists (w :: new). rewrite H1, H5, H6. rewrite <- app_assoc.
    split; [reflexivity |]. split; [cbn [List.length]; congruence |].
    split.
    { constructor; [| exact H3]. unfold recruit, w.
      cbn [availability assignedProjectId specialization efficiency skillLevel].
      repeat split. field. }
    split; [| split; reflexivity].
    intros Hok. constructor; [| apply H4; exact Hok].
    destruct (Hok (rand_pos o)) as [A0 A1]. fold r1 in A0, A1.
    destruct (Hok (S (rand_pos o))) as [B0 B1]. fold r2 in B0, B1.
    unfold recruitRanges, w. cbn [skillLevel efficiency salary].
    clear H1 H3 H4 H5 H6. clearbody r1 r2.
    assert (He : (6 # 10) + (1 + r1 * 9) / 10 * (4 # 10)
                 == (64 # 100) + r1 * (36 # 100)) by field.
    rewrite He.
    split; [lra |]. split; [lra |]. split; [lra |]. split; [lra |].
    split; lra.
Qed.

(** [hireWorkers] returns the number of naturals below [count] and appends
    that many workers to the list, leaving the old workers and the projects
    as they were.  Every new worker is available, unassigned, of the given
    specialization, with efficiency 0.6 + 0.04 * skill; when [Math.random()]
    returns numbers of [0, 1), the skill lies in [1, 10), the efficiency in
    [0.64, 1) and the salary in [30000, 80000).  A count of 0 or less hires
    nobody. *)
Theorem hireWorkers_appends (count : Q) (spec : string)
  (s : ConstructionSystem) :
  let hired := fst (hireWorkers workerIdOf workerNameOf count spec s) in
  let s' := snd (hireWorkers workerIdOf workerNameOf count spec s) in
  hired = ofNat (Z.to_nat (Math_ceil count))
  /\ (exists new,
        workers s' = workers s ++ new
        /\ ofNat (List.length new) = hired
        /\ Forall (recruit spec) new
        /\ (random_ok (oracle s) -> Forall recruitRanges new)
        /\ getAvailableWorkers s' = getAvailableWorkers s ++ new)
  /\ projects s' = projects s /\ heap s' = heap s
  /\ completedProjects s' = completedProjects s
  /\ (random_ok (oracle s) -> random_ok (oracle s'))
  /\ (count <= 0 -> hired = 0 /\ workers s' = workers s).
Proof.
  unfold hireWorkers.
  destruct (hireLoop_spec (Z.to_nat (Math_ceil count)) spec (workers s)
              (oracle s)) as [new [H1 [H2 [H3 [H4 [H5 _]]]]]].
  destruct (hireLoop workerIdOf workerNameOf (Z.to_nat (Math_ceil count)) spec
              (workers s) (oracle s)) as [ws o] eqn:Hloop.
  cbn [fst snd] in *.
  cbn [workers projects heap completedProjects oracle with_oracle with_workers].
  split; [reflexivity |].
  split.
  { exists new. split; [exact H1 |]. split; [rewrite H2; reflexivity |].
    split; [exact H3 |]. split; [exact H4 |].
    unfold getAvailableWorkers.
    cbn [workers with_oracle with_workers]. rewrite H1, List.filter_app.
    f_equal. clear - H3. induction H3 as [| w l [Ha _] _ IH]; [reflexivity |].
    cbn [List.filter]. rewrite Ha, IH. reflexivity. }
  split; [reflexivity |]. split; [reflexivity |]. split; [reflexivity |].
  split; [intros Hok n; rewrite H5; apply Hok |].
  intros Hle.
  assert (Hc : (Math_ceil count <= 0)%Z).
  { unfold Math_ceil. rewrite <- (Qceiling_Z 0). apply Qceiling_resp_le.
    exact Hle. }
  assert (Hn : Z.to_nat (Math_ceil count) = 0%nat) by lia.
  rewrite Hn in *. split; [reflexivity |].
  destruct new; [rewrite H1; apply app_nil_r | discriminate].
Qed.

End StaffFacts.

Lemma findWorker_spec (workerId : string) (ws : list ConstructionWorker) :
  match findWorker workerId ws with
  | None => Forall (fun w => w_id w <> workerId) ws
  | Some (i, w) =>
      ws !! i = Some w /\ w_id w = workerId
      /\ Forall (fun w0 => w_id w0 <> workerId) (take i ws)
  end.
Proof.
  induction ws as [| w rest IH]; cbn [findWorker]; [constructor |].
  destruct (String.eqb (w_id w) workerId) eqn:He.
  - apply String.eqb_eq in He. repeat split; [exact He | constructor].
  - apply String.eqb_neq in He.
    destruct (findWorker workerId rest) as [[i w'] |].
    + destruct IH as [H1 [H2 H3]]. repeat split; try assumption.
      cbn [take]. constructor; assumption.
    + constructor; assumption.
Qed.

(** [fireWorker] of an unknown id returns false and changes nothing.
    Otherwise it returns true and removes the first worker with that id,
    keeping the others in order; when that worker was assigned to an active
    project, the project's worker count drops by one but not below 0, and
    nothing else changes.  Firing a worker who was appended to the list under
    an id no other worker has gives the old list back. *)
Theorem fireWorker_removes (workerId : string) (s : ConstructionSystem) :
  (Forall (fun w => w_id w <> workerId) (workers s) ->
   fireWorker workerId s = (false, s))
  /\ (forall pre w post,
        workers s = pre ++ w :: post ->
        Forall (fun w0 => w_id w0 <> workerId) pre ->
        w_id w = workerId ->
        let s' := snd (fireWorker workerId s) in
        fst (fireWorker workerId s) = true
        /\ workers s' = pre ++ post
        /\ projects s' = projects s
        /\ completedProjects s' = completedProjects s
        /\ (forall pid r,
              assignedProjectId w = Some pid -> pid <> ""%string ->
              projects s !! pid = Some r ->
              p_workers (heap s' r) = Math_max 0 (p_workers (heap s r) - 1)
              /\ 0 <= p_workers (heap s' r)
              /\ actualProgress (heap s' r) = actualProgress (heap s r)
              /\ materials (heap s' r) = materials (heap s r)
              /\ forall r', r' <> r -> heap s' r' = heap s r')
        /\ ((assignedProjectId w = None
             \/ assignedProjectId w = Some ""%string
             \/ exists pid, assignedProjectId w = Some pid
                            /\ projects s !! pid = None) ->
            heap s' = heap s))
  /\ (forall w,
        w_id w = workerId -> assignedProjectId w = None ->
        Forall (fun w0 => w_id w0 <> workerId) (workers s) ->
        workers (snd (fireWorker workerId
                        (with_workers s (workers s ++ [w]))))
        = workers s).
Proof.
  assert (Hfound : forall s0 pre w post,
            workers s0 = pre ++ w :: post ->
            Forall (fun w0 => w_id w0 <> workerId) pre ->
            w_id w = workerId ->
            findWorker workerId (workers s0) = Some (List.length pre, w)).
  { intros s0 pre w post Hws Hpre Hw. rewrite Hws. clear Hws.
    induction Hpre as [| w0 pre Hw0 _ IH]; cbn [findWorker app List.length].
    - rewrite Hw, String.eqb_refl. reflexivity.
    - apply String.eqb_neq in Hw0. rewrite Hw0, IH. reflexivity. }
  assert (Hrm : forall (pre : list ConstructionWorker) w post,
            spliceOut (List.length pre) (pre ++ w :: post) = pre ++ post).
  { intros pre w post. unfold spliceOut.
    rewrite take_app_length.
    change (S (List.length pre)) with (1 + List.length pre)%nat.
    rewrite Nat.add_comm, <- drop_drop, drop_app_length. reflexivity. }
  split.
  { intros Hall. unfold fireWorker.
    pose proof (findWorker_spec workerId (workers s)) as Hf.
    destruct (findWorker workerId (workers s)) as [[i w] |]; [| reflexivity].
    destruct Hf as [Hi [Hw _]].
    apply list_elem_of_lookup_2 in Hi.
    rewrite List.Forall_forall in Hall.
    apply list_elem_of_In in Hi. specialize (Hall _ Hi). contradiction. }
  split.
  { intros pre w post Hws Hpre Hw. unfold fireWorker.
    rewrite (Hfound s pre w post Hws Hpre Hw). cbn [fst snd].
    split; [reflexivity |].
    assert (Hkeep : forall s1,
              workers s1 = workers s ->
              workers (with_workers s1 (spliceOut (List.length pre) (workers s1)))
              = pre ++ post).
    { intros s1 E. cbn [workers with_workers]. rewrite E, Hws. apply Hrm. }
    destruct (assignedProjectId w) as [pid |] eqn:Ha.
    - destruct (String.eqb pid "") eqn:Htr.
      + apply String.eqb_eq in Htr.
        split; [apply Hkeep; reflexivity |].
        split; [reflexivity |]. split; [reflexivity |].
        split; [| intros _; reflexivity].
        intros pid' r Hpid' Hne _. inversion Hpid'; subst pid'. contradiction.
      + apply String.eqb_neq in Htr.
        destruct (projects s !! pid) as [r |] eqn:Hp.
        * split; [apply Hkeep; reflexivity |].
          split; [reflexivity |]. split; [reflexivity |].
          split.
          -- intros pid' r' Hpid' _ Hr'. inversion Hpid'; subst pid'.
             rewrite Hp in Hr'. inversion Hr'; subst r'.
             cbn [heap with_workers]. rewrite heap_upd_same.
             cbn [p_workers set_p_workers actualProgress materials].
             split; [reflexivity |]. split; [apply Math_max_lb_l |].
             split; [reflexivity |]. split; [reflexivity |].
             intros r' Hne. rewrite heap_upd.
             destruct (Nat.eqb_spec r' r) as [-> | _];
               [contradiction | reflexivity].
          -- intros [Hn | [He | [pid' [Hpid' Hnone]]]];
               [discriminate | inversion He; subst pid; contradiction |].
             inversion Hpid'; subst pid'. rewrite Hp in Hnone. discriminate.
        * split; [apply Hkeep; reflexivity |].
          split; [reflexivity |]. split; [reflexivity |].
          split; [| intros _; reflexivity].
          intros pid' r' Hpid' _ Hr'. inversion Hpid'; subst pid'.
          rewrite Hp in Hr'. discriminate.
    - split; [apply Hkeep; reflexivity |].
      split; [reflexivity |]. split; [reflexivity |].
      split; [| intros _; reflexivity].
      intros pid r Hpid _ _. discriminate. }
  intros w Hw Hnone Hall. unfold fireWorker.
  rewrite (Hfound (with_workers s (workers s ++ [w])) (workers s) w []
             eq_refl Hall Hw).
  rewrite Hnone. cbn [snd workers with_workers].
  rewrite Hrm. apply app_nil_r.
Qed.

(** *** Closed examples of hiring and firing *)

Definition mason : ConstructionWorker :=
  mkWorker "mason" "Mason" 5 "masonry" (8 # 10) 50000 (Some "b1"%string) false.

(** A yard with one project, on which the mason works. *)
Definition shed : ConstructionProject :=
  mkProject "b1" "b1" cottage (mkV3 0 0 0) 0 0 0 0 0 1 4 0 0 0 []
    (generateConstructionPhases cottage) 0 false None 1 1 0 0.

Definition yard : ConstructionSystem :=
  mkConstruction (fun _ => shed) 1 {[ "b1"%string := 0%nat ]} [mason] ∅ []
    1 1 1 1 (cycleOracle 0).

Lemma fireWorker_removes_witness :
  workers yard = [] ++ mason :: []
  /\ fst (fireWorker "mason" yard) = true
  /\ workers (snd (fireWorker "mason" yard)) = []
  /\ p_workers (heap (snd (fireWorker "mason" yard)) 0) == 0.
Proof.
  split; [reflexivity |].
  destruct (fireWorker_removes "mason" yard) as [_ [Hfire _]].
  destruct (Hfire [] mason [] eq_refl ltac:(constructor) eq_refl)
    as [Ht [Hw [_ [_ [Hp _]]]]].
  split; [exact Ht |]. split; [exact Hw |].
  assert (Hproj : projects yard !! "b1"%string = Some 0%nat)
    by (vm_compute; reflexivity).
  destruct (Hp "b1"%string 0%nat eq_refl ltac:(discriminate) Hproj)
    as [Hcount _].
  rewrite Hcount. reflexivity.
Defined.


(** *** Counting the assigned workers *)

(** The workers assigned to the project [pid]. *)
Definition assignedTo (pid : string) (ws : list ConstructionWorker)
  : list ConstructionWorker :=
  List.filter (fun w => bool_decide (assignedProjectId w = Some pid)) ws.

(** An available worker has no assignment, as the constructor,
    [hireWorkers], [assignWorkers] and the releases leave it. *)
Definition idle_unassigned (ws : list ConstructionWorker) : Prop :=
  Forall (fun w => availability w = true -> assignedProjectId w = None) ws.

Lemma sliceCount_le (n : Z) (len : nat) : (sliceCount n len <= len)%nat.
Proof.
  unfold sliceCount. destruct (n <? 0)%Z eqn:E; [| lia].
  apply Z.ltb_lt in E. lia.
Qed.

Lemma sliceCount_le_n (n : Z) (len : nat) :
  (0 <= n)%Z -> (Z.of_nat (sliceCount n len) <= n)%Z.
Proof.
  intros Hn. unfold sliceCount.
  destruct (n <? 0)%Z eqn:E; [apply Z.ltb_lt in E; lia | lia].
Qed.

Lemma workerMatches_available (phase : ConstructionPhase)
  (w : ConstructionWorker) :
  workerMatches phase w = true -> availability w = true.
Proof. unfold workerMatches. intros H. apply andb_true_iff in H. tauto. Qed.

Lemma assignFirst_count (phase : ConstructionPhase) (pid : string)
  (ws : list ConstructionWorker) :
  forall k,
    (k <= List.length (List.filter (workerMatches phase) ws))%nat ->
    idle_unassigned ws ->
    List.length (assignedTo pid (assignFirst k phase pid ws))
    = (List.length (assignedTo pid ws) + k)%nat
    /\ (List.length (List.filter availability (assignFirst k phase pid ws)) + k)%nat
       = List.length (List.filter availability ws)
    /\ idle_unassigned (assignFirst k phase pid ws).
Proof.
  unfold idle_unassigned, assignedTo.
  induction ws as [| w rest IH]; intros k Hk Hidle.
  - cbn [List.filter List.length] in Hk. assert (k = 0%nat) as -> by lia.
    cbn. repeat split. constructor.
  - inversion Hidle as [| ? ? Hw Hrest]; subst.
    destruct k as [| k].
    + cbn [assignFirst]. split; [lia |]. split; [lia | exact Hidle].
    + cbn [assignFirst]. cbn [List.filter] in Hk.
      destruct (workerMatches phase w) eqn:Hm.
      * cbn [List.length] in Hk.
        destruct (IH k ltac:(lia) Hrest) as [I1 [I2 I3]].
        pose proof (workerMatches_available phase w Hm) as Hav.
        pose proof (Hw Hav) as Hnone.
        cbn [List.filter assignedProjectId availability].
        rewrite bool_decide_eq_true_2 by reflexivity.
        rewrite Hnone, Hav.
        rewrite bool_decide_eq_false_2 by discriminate.
        cbn [List.length]. split; [lia |]. split; [lia |].
        constructor; [cbn; discriminate | exact I3].
      * destruct (IH (S k) Hk Hrest) as [I1 [I2 I3]].
        assert (Hf : Forall (fun w0 => availability w0 = true ->
                                       assignedProjectId w0 = None)
                       (w :: assignFirst (S k) phase pid rest))
          by (constructor; assumption).
        cbn [List.filter].
        destruct (bool_decide (assignedProjectId w = Some pid));
          destruct (availability w); cbn [List.length];
          (split; [lia |]; split; [lia | exact Hf]).
Qed.

(** [assignWorkers] for an active project with a valid phase, in a system
    where available workers have no assignment, returns and sets the
    project's worker count to the number of workers this call assigns: that
    many available workers become assigned to the project, the workers
    assigned to it earlier stay assigned and are not counted.  The count is at
    most the smaller of the phase's requirement and the project's limit when
    that is not negative, and at most the number of available workers. *)
Theorem assignWorkers_counts (pid : string) (r : nat) (s : ConstructionSystem)
  (phase : ConstructionPhase) :
  projects s !! pid = Some r ->
  nth_error (phases (heap s r)) (currentPhase (heap s r)) = Some phase ->
  idle_unassigned (workers s) ->
  exists s' k,
    assignWorkers pid s = Ok s'
    /\ p_workers (heap s' r) = ofNat k
    /\ List.length (assignedTo pid (workers s'))
       = (List.length (assignedTo pid (workers s)) + k)%nat
    /\ (List.length (getAvailableWorkers s') + k)%nat
       = List.length (getAvailableWorkers s)
    /\ ((0 <= Z.min (requiredWorkers phase) (maxWorkers (heap s r)))%Z ->
        (Z.of_nat k <= Z.min (requiredWorkers phase) (maxWorkers (heap s r)))%Z)
    /\ idle_unassigned (workers s')
    /\ projects s' = projects s
    /\ (forall r', r' <> r -> heap s' r' = heap s r').
Proof.
  intros Hp Hph Hidle.
  rewrite (assignWorkers_open pid r s phase Hp Hph). cbv zeta.
  set (n := Z.min (requiredWorkers phase) (maxWorkers (heap s r))).
  set (k := sliceCount n _).
  assert (Hk : (k <= List.length (List.filter (workerMatches phase) (workers s)))%nat)
    by apply sliceCount_le.
  destruct (assignFirst_count phase pid (workers s) k Hk Hidle)
    as [H1 [H2 H3]].
  eexists. exists k. split; [reflexivity |].
  split; [rewrite heap_upd_same; reflexivity |].
  split; [exact H1 |]. split; [exact H2 |].
  split; [intros Hn; apply sliceCount_le_n; exact Hn |].
  split; [exact H3 |]. split; [reflexivity |].
  intros r' Hne. rewrite heap_upd.
  destruct (Nat.eqb_spec r' r) as [-> | _]; [contradiction | reflexivity].
Qed.

(** The yard with the mason and two idle general workers; the mason already
    works on the shed. *)
Definition helper (name : string) : ConstructionWorker :=
  mkWorker name name 5 "general" (8 # 10) 40000 None true.

Definition crew : ConstructionSystem :=
  with_workers yard [mason; helper "anna"; helper "ben"].

Lemma assignWorkers_counts_witness :
  idle_unassigned (workers crew)
  /\ exists s',
       assignWorkers "b1" crew = Ok s'
       /\ List.length (assignedTo "b1" (workers crew)) = 1%nat
       /\ List.length (assignedTo "b1" (workers s')) = 3%nat
       /\ p_workers (heap s' 0) == 2.
Proof.
  assert (Hidle : idle_unassigned (workers crew)).
  { repeat constructor; cbn; discriminate. }
  split; [exact Hidle |].
  assert (Hp : projects crew !! "b1"%string = Some 0%nat)
    by (vm_compute; reflexivity).
  destruct (assignWorkers_counts "b1" 0 crew
              (mkPhase "Foundation" "Site preparation and foundation work"
                 (30 * (2 # 10)) 0 (2 # 10) ["concrete"; "steel"]%string 4
                 false None true) Hp eq_refl Hidle)
    as [s' [k [Hrun [Hw [Hc [Ha _]]]]]].
  assert (Hav : List.length (getAvailableWorkers crew) = 2%nat) by reflexivity.
  assert (Hbefore : List.length (assignedTo "b1" (workers crew)) = 1%nat)
    by reflexivity.
  assert (Hrun' : match assignWorkers "b1" crew with
                  | Ok s0 => Qeq_bool (p_workers (heap s0 0)) 2
                  | _ => false
                  end = true) by (vm_compute; reflexivity).
  rewrite Hrun in Hrun'. apply Qeq_bool_iff in Hrun'.
  exists s'. split; [exact Hrun |]. split; [exact Hbefore |].
  assert (Hk : k = 2%nat).
  { pose proof Hrun' as Hq. rewrite Hw in Hq.
    unfold ofNat, inject_Z, Qeq in Hq. cbn [Qnum Qden] in Hq. lia. }
  split; [rewrite Hc, Hbefore, Hk; reflexivity | exact Hrun'].
Defined.

End Construction.
